(* ===== verification/_CoqProject ===== *)
-Q . S2P
Prelude.v
GoStrings.v
Utf.v
GoJson.v
GoJsonFacts.v
GoFloat.v
JsonCanon.v
GoFloatFacts.v
JsonCanonFacts.v
Jcs.v
JcsTotal.v
JcsFacts.v
Errors.v
Sha256.v
GoFmt.v
GoUrl.v
Codec.v
Canonicalizer.v
Models.v
LeafFacts.v
CanonicalizerFacts.v
Effects.v
Command.v
Samples.v
CommandFacts.v
CommandTheorems.v
Rest.v
Client.v
UrlFacts.v
RestFacts.v
RestTypes.v
Metrics.v
ClientFacts.v
Postgres.v
TreeStorage.v
LogStorage.v
StorageSamples.v
AdminStorage.v
StorageFacts.v
LogTxFacts.v
QueueFacts.v
DequeueFacts.v
SequenceFacts.v
AddFacts.v
RootFacts.v
StatementFacts.v
AdminFacts.v
Calls.v
Integrity.v
LogSpec.v
LogRefinement.v
Logger.v
LoggerOutput.v
LoggerThreads.v
CertPool.v
Options.v
OptionsFacts.v
Flags.v
Providers.v
ServerUtil.v
LogServer.v
LogServerFacts.v
Start.v
Router.v
StartFacts.v
EndToEnd.v
