(* ===== verification/Prelude.v ===== *)
(** * Verification of VCT (Verifiable Credential Transparency)

    VCT is a transparency log for verifiable credentials.  A client adds a
    credential over HTTP; the service canonicalises it, hands it to a Trillian
    log as a leaf and answers with a signed timestamp.  Others read the leaves,
    the signed tree heads and the proofs.  The leaves are kept by a log server
    whose storage on PostgreSQL is part of the repository.  This development
    translates that code, function by function, and proves what it promises.

    ** The parts of the program and where they are modelled

    - Values of Go.  [Prelude] has byte strings, results and machine integers
      ([wrap_s64], [add64] and the like, with wrap-around).  [GoStrings], [Utf],
      [GoJson], [GoFloat], [GoFmt], [GoUrl] and [Sha256] have what the program
      uses of strings, strconv, unicode, encoding/base64, encoding/json, fmt,
      net/url and crypto/sha256.  [Codec] has the JSON form of Go structs.
    - Canonical JSON ([internal/pkg/jsoncanonicalizer], [pkg/canonicalizer]).
      [JsonCanon] is [Transform], its closures passing the read position and
      the first error; [NumberToJSON] works on exact doubles.  [Canonicalizer]
      is [MarshalCanonical].
    - Errors ([pkg/controller/errors]).  [Errors]: error values as chains of
      wrappers, and the HTTP status of an error.
    - The command controller ([pkg/controller/command]).  [Models] has every
      request and response with its codec and its [Validate]; [Command] has
      [New] and every handler.
    - The REST controller ([pkg/controller/rest/operation.go]) is [Rest], the
      client ([pkg/client/vct]) is [Client].  [Metrics] has the metrics of all
      packages, their registration, and the REST handlers as they count.
    - The storage ([pkg/storage/postgres]).  [Postgres] has the tables and
      insert functions of [schema/storage.sql] and transactions with
      savepoints; [TreeStorage], [LogStorage] and [AdminStorage] are
      [tree_storage.go], [log_storage.go] with [queue.go], and
      [admin_storage.go].  [Providers] are the two storage providers.  [Calls]
      has the operations of the storage as data, so that theorems can speak of
      sequences of them.
    - The log server and the log signer ([cmd/log_server], [cmd/log_signer],
      [cmd/internal/serverutil]).  [ServerUtil] has processes as functions on
      the trace of what was opened, closed and done, and [Run]; [LogServer] has
      the two commands, their programs, and those the service embeds.
    - The service ([cmd/vct/startcmd/start.go]).  [Options] has the flags and
      environment variables ([internal/pkg/cmdutil]) and what is parsed from
      them; [Start] has the token check, the shared configuration values, and
      [startAgent], which composes [Options], [CertPool], [Command] and [Rest].
      [Flags] has the declared flags; [Router] has the two routers that
      [startAgent] builds, over the router of gorilla/mux as a class.
    - [CertPool] is [internal/pkg/tlsutil].  [internal/pkg/log] is [Logger]
      (levels and specifications), [LoggerOutput] (options, encoders, fields
      and where a message goes) and [LoggerThreads] (the level table under
      concurrent use, as a step relation on threads).

    Code that can fail, panic or change the outside world is a function of the
    monad [M] of [Effects]: it takes the world to a new world and a value, an
    error or a panic.  The worlds are those of the component: the tables and
    open transactions ([pg]) for the storage, an abstract type for the
    handlers.  The commands of the log server are functions on traces
    ([proc]).  Third-party code is a class or a section variable: [Libraries]
    and [TrillianLogClient] for the handlers, [GrpcStatus], [RootCodec], the
    subtree cache, [Services], [ConfigStore] and [Mux] for the service,
    [Foreign] for the log server.  What a
    theorem needs of such code is a class of laws or a hypothesis of its own,
    and [Samples], [StorageSamples] and the ends of [CertPool], [Router],
    [LogServerFacts] and [StartFacts] have concrete instances, on which the witnesses run.

    ** What the theorems show

    - [CanonicalizerFacts], over [Jcs], [JcsTotal] and [JcsFacts]: the
      canonicaliser returns on every input; canonical marshalling sorts the
      members of every object and changes nothing else, so it does not depend
      on their order, and its text determines the document; duplicates are
      refused; integers below 2^53 and leaves survive.
    - [CommandFacts], [CommandTheorems]: for each handler exactly when it
      succeeds, what it asks the log and what it answers; no service is reached
      without the permission; readers do not panic; validation and ranges.
    - [RestFacts], [ClientFacts]: requests survive the query string; a
      [GetEntries] call of the client returns the leaves of the log through
      all three layers; every timestamp of add-vc passes the client's check.
      [RestTypes]: every route answers with the type its operation declares or
      with an error document.  [Metrics]: counting changes nothing else, which
      is why the other files leave it out, and nothing is registered twice.
    - [LogTxFacts], [QueueFacts], [DequeueFacts], [SequenceFacts], [AddFacts],
      [RootFacts]: transactions are atomic; what queueing, dequeueing,
      sequencing and adding do to the tables; range reads are consecutive and
      complete; roots are read back.  [StorageFacts] has the logic: [runs]
      says what a computation does on a healthy connection, [framed] that it
      touches only its own transaction.  [StatementFacts]: the prepared
      statements.  [AdminFacts]: the life of a tree.
    - [Integrity]: every sequence of storage operations, whatever fails, keeps
      the keys of the schema.  [LogSpec] is the contract of a transparency log
      as a small state machine (submit, integrate, read), and [LogRefinement]
      shows that the storage implements it; that the log is append-only and
      that a submitted leaf becomes readable follow from the contract.
    - [LogServerFacts]: the commands give back what they opened on every return;
      the signer sequences only as an elected or forced master; what the
      embedded commands do.  [Providers]: one database per process.
    - [StartFacts], [Router], [OptionsFacts], [Flags], [CertPool], [Logger],
      [LoggerOutput], [LoggerThreads]: which handler a path reaches, who passes
      the token check, that a configuration value is created once, that the service
      starts with what was configured; round trips of the log options and of
      the logger's specification; the certificates of a pool; which output
      takes a message, and which methods of the level table race.
    - [EndToEnd] composes the options, the agent, the router and the token check:
      what the service started from a command line answers to a request.

    Some theorems state a behaviour that is a defect: a failed batch leaves its
    transaction open, a sequenced leaf for an occupied position is dropped, the
    token check can be passed through the query, the whole range of [int64]
    overflows.

    ** Bounds and fuel

    The parsers of [JsonCanon] take fuel [3 * length + 4], and
    [Transform_total] shows it is never used up.  The JSON and number printers
    and parsers take fuel in the length or size of their argument, shown
    sufficient where they are used ([dec_aux_spec], the round trips of
    [GoJsonFacts], [GoFloatFacts]).  [number_params] takes the length of the
    statement: each turn removes a marker.  [getOrInit] is an unbounded
    recursion in the code; its model takes a number of rounds, running out is
    a panic of its own, and two rounds are shown to be enough in a store that
    only the service writes.

    ** What is not modelled

    What the command, the storage and the AWS key manager measure, and the
    messages that are logged.  Transactions that interleave:
    each runs on the tables as they were when it began, one commit after the
    other; of the locks only that of the level table.  Cancellation and
    deadlines.  The HTTP metrics server beyond its routes, the adaptors of
    [start.go] that only pass calls on to libraries (AWS and web key
    management), [cmd/vct/main.go], which only runs the start
    command, and the helpers of the tests.  What zap writes for an entry, and
    what Trillian, etcd, gRPC and gorilla/mux do inside, is code of others. *)

From Stdlib Require Export ZArith Lia Ascii.
From Stdlib Require String.
From stdpp Require Export base tactics option list gmap strings.

#[export] Set Default Goal Selector "!".

(** ** Go strings and byte slices

    A Go [string] and a Go [[]byte] are both sequences of bytes; an [ascii]
    is exactly one byte.  String literals of the model are Rocq strings, coerced
    to byte sequences. *)

Abbreviation bytes := (list ascii).

Coercion String.list_ascii_of_string : string >-> list.

(** The numeric value of a byte, and the byte of a number modulo 256. *)
Definition bval (c : ascii) : Z := Z.of_N (N_of_ascii c).
Definition chr (z : Z) : ascii := ascii_of_N (Z.to_N (z mod 256)).

(** Boolean equality of byte sequences, Go's [==] on strings. *)
Definition beq (a b : bytes) : bool := bool_decide (a = b).

(** ** Results: a value or an error *)

Inductive result (E A : Type) : Type :=
| Ok (a : A)
| Err (e : E).
Arguments Ok {E A} a.
Arguments Err {E A} e.

#[export] Instance result_ret {E} : MRet (result E) := λ _ a, Ok a.
#[export] Instance result_bind {E} : MBind (result E) := λ _ _ f r,
  match r with Ok a => f a | Err e => Err e end.
#[export] Instance result_fmap {E} : FMap (result E) := λ _ _ f r,
  match r with Ok a => Ok (f a) | Err e => Err e end.

Definition is_ok {E A} (r : result E A) : bool :=
  match r with Ok _ => true | Err _ => false end.

(** ** Machine integers

    Go's [int64], [uint64] (and [int] on 64-bit targets) are integers with
    two's complement wrap-around. *)

Definition int64_min : Z := (- 2 ^ 63)%Z.
Definition int64_max : Z := (2 ^ 63 - 1)%Z.
Definition uint64_max : Z := (2 ^ 64 - 1)%Z.

Definition is_int64 (z : Z) : Prop := (int64_min ≤ z ≤ int64_max)%Z.
Definition is_uint64 (z : Z) : Prop := (0 ≤ z ≤ uint64_max)%Z.

#[export] Instance is_int64_dec z : Decision (is_int64 z).
Proof. unfold is_int64. apply _. Defined.
#[export] Instance is_uint64_dec z : Decision (is_uint64 z).
Proof. unfold is_uint64. apply _. Defined.

Definition wrap_s64 (z : Z) : Z := ((z + 2 ^ 63) mod 2 ^ 64 - 2 ^ 63)%Z.
Definition wrap_u64 (z : Z) : Z := (z mod 2 ^ 64)%Z.

Definition add64 (a b : Z) : Z := wrap_s64 (a + b).
Definition sub64 (a b : Z) : Z := wrap_s64 (a - b).

(** ** Automation *)

Create HintDb go discriminated.
#[export] Hint Constants Opaque : go.
#[export] Hint Variables Opaque : go.
Create Rewrite HintDb go_rw.

(** Destruct every [match] and [if] of the context and the goal, dropping
    the impossible branches. *)
Ltac go_cases := repeat (case_match; simplify_eq/=).

(** Exhaustive proof of a statement about one byte. *)
Ltac byte_cases c := destruct c as [[] [] [] [] [] [] [] []]; vm_compute; try done; auto.

(** Case analysis on the integer comparisons of the goal. *)
Ltac z_cases :=
  repeat match goal with
  | |- context [(?a =? ?b)%Z] => destruct (Z.eqb_spec a b); try lia; cbn [orb andb negb]
  | |- context [(?a <? ?b)%Z] => destruct (Z.ltb_spec a b); try lia; cbn [orb andb negb]
  | |- context [(?a <=? ?b)%Z] => destruct (Z.leb_spec a b); try lia; cbn [orb andb negb]
  end.

(** Arithmetic over the machine-integer bounds. *)
Ltac int_unfold :=
  unfold is_int64, is_uint64, int64_min, int64_max, uint64_max in *.
Ltac int_lia := int_unfold; lia.

(** ** Lemmas *)

Lemma beq_true a b : beq a b = true ↔ a = b.
Proof. unfold beq. apply bool_decide_eq_true. Qed.

Lemma beq_false a b : beq a b = false ↔ a ≠ b.
Proof. unfold beq. apply bool_decide_eq_false. Qed.

Lemma beq_refl a : beq a a = true.
Proof. by apply beq_true. Qed.

Lemma bval_range c : (0 ≤ bval c < 256)%Z.
Proof. unfold bval. pose proof (N_ascii_bounded c). lia. Qed.

Lemma bval_inj c d : bval c = bval d → c = d.
Proof.
  unfold bval. intros H%N2Z.inj.
  rewrite <- (ascii_N_embedding c), <- (ascii_N_embedding d). by rewrite H.
Qed.

Lemma chr_bval c : chr (bval c) = c.
Proof.
  unfold chr. rewrite Z.mod_small by apply bval_range.
  unfold bval. rewrite N2Z.id. apply ascii_N_embedding.
Qed.

Lemma bval_chr z : (0 ≤ z < 256)%Z → bval (chr z) = z.
Proof.
  intros Hz. unfold chr, bval. rewrite Z.mod_small by done.
  rewrite N_ascii_embedding by lia. lia.
Qed.

Lemma wrap_s64_id z : is_int64 z → wrap_s64 z = z.
Proof. unfold wrap_s64. intros. rewrite Z.mod_small; int_lia. Qed.

Lemma wrap_s64_range z : is_int64 (wrap_s64 z).
Proof. unfold wrap_s64. pose proof (Z.mod_pos_bound (z + 2 ^ 63) (2 ^ 64)). int_lia. Qed.

Lemma wrap_u64_id z : is_uint64 z → wrap_u64 z = z.
Proof. unfold wrap_u64. intros. apply Z.mod_small. int_lia. Qed.

Lemma wrap_u64_range z : is_uint64 (wrap_u64 z).
Proof. unfold wrap_u64. pose proof (Z.mod_pos_bound z (2 ^ 64)). int_lia. Qed.

Lemma bind_Ok {E A B} (r : result E A) (f : A → result E B) b :
  r ≫= f = Ok b ↔ ∃ a, r = Ok a ∧ f a = Ok b.
Proof. destruct r; cbn; naive_solver. Qed.

Lemma bind_Err {E A B} (r : result E A) (f : A → result E B) e :
  r ≫= f = Err e ↔ r = Err e ∨ ∃ a, r = Ok a ∧ f a = Err e.
Proof. destruct r; cbn; naive_solver. Qed.

#[export] Hint Rewrite @beq_true @beq_false @beq_refl @bind_Ok @bind_Err : go_rw.
#[export] Hint Resolve bval_range wrap_s64_range wrap_u64_range : go.
