(* ===== verification/GoStrings.v ===== *)
(** * The parts of Go's [strings] and [strconv] packages the program uses

    Substring search and replacement, splitting on one separator byte,
    trimming, and the decimal conversions [FormatInt], [ParseInt],
    [ParseUint] and [ParseBool], each with the facts the components rely on:
    splitting inverts joining, and parsing inverts formatting at the
    machine width. *)

From S2P Require Import Prelude.

Open Scope Z_scope.

(** ** Prefixes and substrings *)

(** [strip_prefix p s] is the rest of [s] after [p], when [s] starts with [p]. *)
Fixpoint strip_prefix (p s : bytes) : option bytes :=
  match p, s with
  | [], _ => Some s
  | c :: p', d :: s' => if bool_decide (c = d) then strip_prefix p' s' else None
  | _ :: _, [] => None
  end.

Definition HasPrefix (s p : bytes) : bool := bool_decide (is_Some (strip_prefix p s)).

Definition TrimPrefix (s p : bytes) : bytes := default s (strip_prefix p s).

(** [cut sep s] splits [s] around the first occurrence of [sep]. *)
Fixpoint cut (sep s : bytes) : option (bytes * bytes) :=
  match strip_prefix sep s with
  | Some rest => Some ([], rest)
  | None =>
      match s with
      | [] => None
      | c :: s' => '(a, b) ← cut sep s'; Some (c :: a, b)
      end
  end.

Definition Contains (s sub : bytes) : bool := bool_decide (is_Some (cut sub s)).

(** [strings.Replace(s, old, new, 1)], for a non-empty [old]. *)
Definition Replace1 (s old new : bytes) : bytes :=
  match cut old s with
  | Some (a, b) => a ++ new ++ b
  | None => s
  end.

(** [strings.ReplaceAll] of one byte by another. *)
Definition ReplaceAllByte (s : bytes) (old new : ascii) : bytes :=
  (λ c, if bool_decide (c = old) then new else c) <$> s.

(** ** Splitting on a separator byte *)

Fixpoint Split (s : bytes) (sep : ascii) : list bytes :=
  match s with
  | [] => [[]]
  | c :: s' =>
      if bool_decide (c = sep) then [] :: Split s' sep
      else match Split s' sep with
           | [] => [[c]]
           | w :: ws => (c :: w) :: ws
           end
  end.

(** [strings.SplitN(s, sep, 2)]. *)
Definition SplitN2 (s : bytes) (sep : ascii) : list bytes :=
  match cut [sep] s with
  | Some (a, b) => [a; b]
  | None => [s]
  end.

(** Go's order on strings. *)
Fixpoint bytes_ltb (a b : bytes) : bool :=
  match a, b with
  | _, [] => false
  | [], _ :: _ => true
  | c :: a', d :: b' => if bval c <? bval d then true else if bval d <? bval c then false else bytes_ltb a' b'
  end.

(** [strings.Join] with a separator byte. *)
Fixpoint Join (ws : list bytes) (sep : ascii) : bytes :=
  match ws with
  | [] => []
  | [w] => w
  | w :: ws' => w ++ sep :: Join ws' sep
  end.

(** ** [strings.TrimSpace]

    The UTF-8 encodings of the runes [unicode.IsSpace] accepts. *)
Definition space_encodings : list bytes :=
  ((λ z, [chr z]) <$> [9; 10; 11; 12; 13; 32]) ++
  ((λ z, [chr 194; chr z]) <$> [133; 160]) ++
  [[chr 225; chr 154; chr 128]] ++
  ((λ z, [chr 226; chr 128; chr z]) <$> [128; 129; 130; 131; 132; 133; 134; 135; 136; 137; 138; 168; 169; 175]) ++
  [[chr 226; chr 129; chr 159]; [chr 227; chr 128; chr 128]].

Fixpoint first_stripped (ps : list bytes) (s : bytes) : option bytes :=
  match ps with
  | [] => None
  | p :: ps' => match strip_prefix p s with Some r => Some r | None => first_stripped ps' s end
  end.

Fixpoint trim_left (fuel : nat) (ps : list bytes) (s : bytes) : bytes :=
  match fuel with
  | O => s
  | S f => match first_stripped ps s with Some r => trim_left f ps r | None => s end
  end.

(** Every encoding has at least one byte, so [length s] rounds are enough. *)
Definition TrimSpace (s : bytes) : bytes :=
  let l := trim_left (length s) space_encodings s in
  reverse (trim_left (length l) (reverse <$> space_encodings) (reverse l)).

(** ** Decimal conversions *)

Definition digit (d : Z) : ascii := chr (48 + d).
Definition is_digit (c : ascii) : bool := (48 <=? bval c) && (bval c <=? 57).
Definition digit_val (c : ascii) : Z := bval c - 48.

Fixpoint dec_aux (fuel : nat) (n : Z) (acc : bytes) : bytes :=
  match fuel with
  | O => acc
  | S f =>
      let acc' := digit (n mod 10) :: acc in
      if n <? 10 then acc' else dec_aux f (n / 10) acc'
  end.

(** [log2 n + 1] divisions by ten bring [n] below ten. *)
Definition FormatUint (n : Z) : bytes := dec_aux (S (Z.to_nat (Z.log2 n))) n [].
Definition FormatInt (n : Z) : bytes :=
  if n <? 0 then "-"%char :: FormatUint (- n) else FormatUint n.

Definition dec_val (s : bytes) : Z := foldl (λ a c, a * 10 + digit_val c) 0 s.

(** The two errors of [strconv]. *)
Inductive num_error := ErrSyntax | ErrRange.

Definition ParseUint (s : bytes) (max : Z) : result num_error Z :=
  if bool_decide (s = []) || negb (forallb is_digit s) then Err ErrSyntax
  else if dec_val s <=? max then Ok (dec_val s) else Err ErrRange.

Definition ParseUint64 (s : bytes) : result num_error Z := ParseUint s uint64_max.

(** [strconv.ParseInt(s, 10, 64)]. *)
Definition ParseInt64 (s : bytes) : result num_error Z :=
  match s with
  | [] => Err ErrSyntax
  | c :: s' =>
      let neg := bool_decide (c = "-"%char) in
      let ds := if neg || bool_decide (c = "+"%char) then s' else s in
      n ← ParseUint ds uint64_max;
      if neg then if n <=? 2 ^ 63 then Ok (- n) else Err ErrRange
      else if n <? 2 ^ 63 then Ok n else Err ErrRange
  end.

(** [strconv.ParseBool]. *)
Definition ParseBool (s : bytes) : result num_error bool :=
  if existsb (beq s) ["1" : bytes; "t" : bytes; "T" : bytes; "TRUE" : bytes; "true" : bytes; "True" : bytes]
  then Ok true
  else if existsb (beq s) ["0" : bytes; "f" : bytes; "F" : bytes; "FALSE" : bytes; "false" : bytes; "False" : bytes]
  then Ok false
  else Err ErrSyntax.

(** ** Lemmas: prefixes and substrings *)

Lemma strip_prefix_Some p s r : strip_prefix p s = Some r ↔ s = p ++ r.
Proof.
  revert s. induction p as [|c p IH]; intros s; cbn; [naive_solver|].
  destruct s as [|d s]; [naive_solver|]. case_bool_decide; subst; [|naive_solver].
  rewrite IH. naive_solver.
Qed.

Lemma HasPrefix_spec s p : HasPrefix s p = true ↔ ∃ r, s = p ++ r.
Proof.
  unfold HasPrefix. rewrite bool_decide_eq_true. unfold is_Some.
  by setoid_rewrite strip_prefix_Some.
Qed.

Lemma cut_Some sep s a b : cut sep s = Some (a, b) → s = a ++ sep ++ b.
Proof.
  revert a b. induction s as [|c s IH]; intros a b; cbn.
  - destruct (strip_prefix sep []) eqn:E; intros; simplify_eq.
    by apply strip_prefix_Some in E.
  - destruct (strip_prefix sep (c :: s)) eqn:E.
    + intros; simplify_eq. by apply strip_prefix_Some in E.
    + destruct (cut sep s) as [[a' b']|] eqn:E'; intros; simplify_eq/=.
      f_equal. by apply IH.
Qed.

Lemma cut_None sep s a b : cut sep s = None → s ≠ a ++ sep ++ b.
Proof.
  revert a. induction s as [|c s IH]; intros a; cbn.
  - destruct (strip_prefix sep []) eqn:E; [done|]. intros _ H.
    symmetry in H. apply app_eq_nil in H as [-> H]. apply app_eq_nil in H as [-> ->].
    done.
  - destruct (strip_prefix sep (c :: s)) eqn:E; [done|].
    destruct (cut sep s) as [[a' b']|] eqn:E'; [done|]. intros _ H.
    destruct a as [|x a]; simplify_eq/=.
    + assert (strip_prefix sep (c :: s) = Some b) by (by apply strip_prefix_Some). congruence.
    + by apply (IH a).
Qed.

(** [strings.Contains] decides the existence of an occurrence. *)
Lemma Contains_spec s sub : Contains s sub = true ↔ ∃ a b, s = a ++ sub ++ b.
Proof.
  unfold Contains. rewrite bool_decide_eq_true. split.
  - intros [[a b] H%cut_Some]. eauto.
  - intros (a & b & H). destruct (cut sub s) as [[]|] eqn:E; [eauto|].
    by apply cut_None with (a := a) (b := b) in E.
Qed.

Lemma Contains_false s sub : Contains s sub = false ↔ ∀ a b, s ≠ a ++ sub ++ b.
Proof.
  split.
  - intros H a b ->. assert (Contains (a ++ sub ++ b) sub = true) by (apply Contains_spec; eauto).
    congruence.
  - intros H. destruct (Contains s sub) eqn:E; [|done].
    apply Contains_spec in E as (a & b & E). by destruct (H a b).
Qed.

(** ** Lemmas: splitting and joining *)

Lemma Split_cons s sep : ∃ w ws, Split s sep = w :: ws.
Proof.
  induction s as [|c s (w & ws & IH)]; cbn; [eauto|].
  case_bool_decide; [eauto|]. rewrite IH. eauto.
Qed.

Lemma Split_no_sep s sep : sep ∉ s → Split s sep = [s].
Proof.
  induction s as [|c s IH]; cbn; [done|]. intros H.
  case_bool_decide; [set_solver|]. rewrite IH by set_solver. done.
Qed.

Lemma Split_app w s sep : sep ∉ w → Split (w ++ sep :: s) sep = w :: Split s sep.
Proof.
  induction w as [|c w IH]; cbn; intros H.
  - by rewrite bool_decide_eq_true_2.
  - case_bool_decide; [set_solver|]. rewrite IH by set_solver. done.
Qed.

(** Splitting a joined list of separator-free words gives the words back. *)
Lemma Split_Join ws sep :
  ws ≠ [] → Forall (λ w, sep ∉ w) ws → Split (Join ws sep) sep = ws.
Proof.
  induction ws as [|w [|w' ws] IH]; intros Hne Hall; [done|..].
  - apply Split_no_sep. by inversion Hall.
  - apply Forall_cons in Hall as [Hw Hall]. cbn [Join].
    rewrite Split_app by done. f_equal. by apply IH.
Qed.

Lemma Split_words s sep : Forall (λ w, sep ∉ w) (Split s sep).
Proof.
  induction s as [|c s IH]; cbn; [apply Forall_singleton, not_elem_of_nil|].
  case_bool_decide; [constructor; [apply not_elem_of_nil|done]|].
  destruct (Split s sep) as [|w ws]; [apply Forall_singleton; set_solver|].
  apply Forall_cons in IH as [? ?]. apply Forall_cons. set_solver.
Qed.

Lemma Join_Split s sep : Join (Split s sep) sep = s.
Proof.
  induction s as [|c s IH]; cbn; [done|].
  destruct (Split_cons s sep) as (w & ws & E). rewrite E in *.
  case_bool_decide as Hc; [rewrite Hc|].
  - cbn. by rewrite <- IH.
  - destruct ws; cbn in *; by rewrite <- IH.
Qed.

(** ** Lemmas: decimal conversions *)

Lemma digit_val_digit d : 0 ≤ d < 10 → digit_val (digit d) = d.
Proof. intros. unfold digit_val, digit. rewrite bval_chr; lia. Qed.

Lemma is_digit_digit d : 0 ≤ d < 10 → is_digit (digit d) = true.
Proof. intros. unfold is_digit, digit. rewrite bval_chr by lia. lia. Qed.

Lemma dec_val_app s t : dec_val (s ++ t) = dec_val s * 10 ^ Z.of_nat (length t) + dec_val t.
Proof.
  unfold dec_val. rewrite foldl_app. generalize (foldl (λ a c, a * 10 + digit_val c) 0 s).
  induction t as [|c t IH] using rev_ind; intros z; [cbn; lia|].
  rewrite !foldl_app, IH, length_app. cbn.
  replace (Z.of_nat (length t + 1)) with (Z.of_nat (length t) + 1) by lia.
  rewrite Z.pow_add_r by lia. lia.
Qed.

Lemma dec_val_cons c t : dec_val (c :: t) = digit_val c * 10 ^ Z.of_nat (length t) + dec_val t.
Proof. apply (dec_val_app [c]). Qed.

Lemma log2_div10 n f : 10 ≤ n → (Z.to_nat (Z.log2 n) ≤ f)%nat → (Z.to_nat (Z.log2 (n / 10)) < f)%nat.
Proof.
  intros Hn Hf. assert (Z.log2 (n / 10) < Z.log2 n).
  { apply Z.log2_lt_pow2; [apply Z.div_str_pos; lia|].
    pose proof (Z.log2_spec n ltac:(lia)). apply Z.div_lt_upper_bound; [lia|].
    pose proof (Z.log2_nonneg n). rewrite Z.pow_succ_r in * by done. lia. }
  pose proof (Z.log2_nonneg (n / 10)). lia.
Qed.

Lemma dec_aux_spec fuel n acc :
  0 ≤ n → (Z.to_nat (Z.log2 n) < fuel)%nat →
  ∃ ds, dec_aux fuel n acc = ds ++ acc ∧ ds ≠ [] ∧ forallb is_digit ds = true ∧ dec_val ds = n.
Proof.
  revert n acc. induction fuel as [|f IH]; intros n acc Hn Hf; [lia|]. cbn [dec_aux].
  pose proof (Z.mod_pos_bound n 10 ltac:(lia)) as Hm.
  destruct (n <? 10) eqn:E.
  - exists [digit (n mod 10)]. rewrite Z.mod_small by lia.
    cbn [forallb]. rewrite is_digit_digit by lia. split_and!; [done..|].
    unfold dec_val; cbn. rewrite digit_val_digit; lia.
  - destruct (IH (n / 10) (digit (n mod 10) :: acc)) as (ds & -> & Hne & Hd & Hv).
    + apply Z.div_pos; lia.
    + apply log2_div10; lia.
    + exists (ds ++ [digit (n mod 10)]). rewrite <- app_assoc. split_and!; [done|by destruct ds|..].
      * rewrite forallb_app, Hd. cbn [forallb]. by rewrite is_digit_digit.
      * rewrite dec_val_app, Hv, dec_val_cons, digit_val_digit by done.
        cbn. pose proof (Z.div_mod n 10). lia.
Qed.

Lemma FormatUint_spec n :
  0 ≤ n → FormatUint n ≠ [] ∧ forallb is_digit (FormatUint n) = true ∧ dec_val (FormatUint n) = n.
Proof.
  intros Hn. unfold FormatUint.
  destruct (dec_aux_spec (S (Z.to_nat (Z.log2 n))) n []) as (ds & -> & ? & ? & ?); [done|lia|].
  by rewrite app_nil_r.
Qed.

(** No leading zero. *)
Lemma dec_aux_head fuel n acc :
  1 ≤ n → (Z.to_nat (Z.log2 n) < fuel)%nat → ∃ c s, dec_aux fuel n acc = c :: s ∧ c ≠ "0"%char.
Proof.
  revert n acc. induction fuel as [|f IH]; intros n acc Hn Hf; [lia|]. cbn [dec_aux].
  destruct (Z.ltb_spec n 10).
  - do 2 eexists. split; [done|]. rewrite Z.mod_small by lia. intros Hd.
    pose proof (digit_val_digit n ltac:(lia)) as Hv. rewrite Hd in Hv. cbv in Hv. lia.
  - apply IH; [apply Z.div_le_lower_bound; lia | apply log2_div10; lia].
Qed.

Lemma FormatUint_nonzero n : 1 ≤ n → ∃ c s, FormatUint n = c :: s ∧ c ≠ "0"%char.
Proof. intros. apply dec_aux_head; lia. Qed.

Lemma ParseUint_FormatUint n max : 0 ≤ n ≤ max → ParseUint (FormatUint n) max = Ok n.
Proof.
  intros Hn. destruct (FormatUint_spec n) as (Hne & Hd & Hv); [lia|].
  unfold ParseUint. rewrite bool_decide_eq_false_2, Hd, Hv by done. cbn.
  by rewrite (proj2 (Z.leb_le _ _)) by lia.
Qed.

Lemma FormatUint_head n : 0 ≤ n → ∃ c s, FormatUint n = c :: s ∧ is_digit c = true.
Proof.
  intros Hn. destruct (FormatUint_spec n) as (Hne & Hd & _); [done|].
  destruct (FormatUint n) as [|c s]; [done|]. cbn in Hd.
  apply andb_true_iff in Hd as [? _]. eauto.
Qed.

Lemma is_digit_not_sign c : is_digit c = true → c ≠ "-"%char ∧ c ≠ "+"%char.
Proof. intros H. split; intros ->; by vm_compute in H. Qed.

(** [ParseInt] inverts [FormatInt] on every [int64]. *)
Lemma ParseInt64_FormatInt z : is_int64 z → ParseInt64 (FormatInt z) = Ok z.
Proof.
  intros Hz. unfold FormatInt. destruct (z <? 0) eqn:E.
  - cbn [ParseInt64]. rewrite bool_decide_eq_true_2 by done. cbn [orb].
    rewrite ParseUint_FormatUint by int_lia. cbn -[Z.pow].
    rewrite (proj2 (Z.leb_le _ _)) by int_lia. f_equal; lia.
  - destruct (FormatUint_head z) as (c & s & Hc & [? ?]%is_digit_not_sign); [lia|].
    pose proof (ParseUint_FormatUint z uint64_max) as HP. rewrite Hc in *. cbn [ParseInt64].
    rewrite !bool_decide_eq_false_2 by done. cbn [orb].
    rewrite HP by int_lia. cbn -[Z.pow]. by rewrite (proj2 (Z.ltb_lt _ _)) by int_lia.
Qed.

Lemma dec_val_nonneg s : forallb is_digit s = true → 0 ≤ dec_val s.
Proof.
  induction s as [|c s IH]; [done|]. cbn [forallb].
  intros [Hc Hs]%andb_true_iff. rewrite dec_val_cons. specialize (IH Hs).
  unfold is_digit, digit_val in *.
  assert (0 ≤ (bval c - 48) * 10 ^ Z.of_nat (length s)) by (apply Z.mul_nonneg_nonneg; lia). lia.
Qed.

Lemma ParseUint_range s max n : ParseUint s max = Ok n → 0 ≤ n ≤ max.
Proof.
  unfold ParseUint. destruct (forallb is_digit s) eqn:Hd; [|by rewrite orb_true_r].
  pose proof (dec_val_nonneg s Hd). go_cases; intros; simplify_eq; lia.
Qed.

Lemma ParseInt64_range s z : ParseInt64 s = Ok z → is_int64 z.
Proof.
  unfold ParseInt64. destruct s as [|c s]; [done|].
  intros (n & Hn%ParseUint_range & H)%bind_Ok.
  revert H; go_cases; intros; simplify_eq; int_lia.
Qed.

#[export] Hint Resolve ParseInt64_range ParseUint_range : go.
