(* ===== verification/Utf.v ===== *)
(** * Go's [unicode/utf8], [unicode/utf16] and [encoding/base64]

    UTF-8 decoding as Go ranges over a string (one replacement rune per
    invalid byte), rune encoding, UTF-16 code units and the standard padded
    base64 alphabet, with the round trips the wire formats rely on. *)

From S2P Require Import Prelude.

Open Scope Z_scope.

(** ** UTF-8 *)

Definition RuneError : Z := 65533.

Definition is_surrogate (r : Z) : bool := (55296 <=? r) && (r <? 57344).

(** [utf8.EncodeRune] / [strings.Builder.WriteRune]. *)
Definition encode_rune (r : Z) : bytes :=
  let r := if (r <? 0) || (1114111 <? r) || is_surrogate r then RuneError else r in
  if r <? 128 then [chr r]
  else if r <? 2048 then [chr (192 + r / 64); chr (128 + r mod 64)]
  else if r <? 65536 then
    [chr (224 + r / 4096); chr (128 + r / 64 mod 64); chr (128 + r mod 64)]
  else
    [chr (240 + r / 262144); chr (128 + r / 4096 mod 64);
     chr (128 + r / 64 mod 64); chr (128 + r mod 64)].

Definition in_range (lo hi : Z) (c : ascii) : bool := (lo <=? bval c) && (bval c <=? hi).
Definition is_cont (c : ascii) : bool := in_range 128 191 c.

(** Bounds of the second byte of a multi-byte sequence led by [c]. *)
Definition second_ok (c d : ascii) : bool :=
  if bval c =? 224 then in_range 160 191 d
  else if bval c =? 237 then in_range 128 159 d
  else if bval c =? 240 then in_range 144 191 d
  else if bval c =? 244 then in_range 128 143 d
  else is_cont d.

(** [rune_len s] is the number of bytes of the valid encoding [s] starts
    with, [None] when there is none. *)
Definition rune_len (s : bytes) : option nat :=
  match s with
  | [] => None
  | c :: s' =>
      if bval c <? 128 then Some 1%nat
      else if in_range 194 223 c then
        match s' with d :: _ => if second_ok c d then Some 2%nat else None | _ => None end
      else if in_range 224 239 c then
        match s' with
        | d :: e :: _ => if second_ok c d && is_cont e then Some 3%nat else None
        | _ => None
        end
      else if in_range 240 244 c then
        match s' with
        | d :: e :: f :: _ =>
            if second_ok c d && is_cont e && is_cont f then Some 4%nat else None
        | _ => None
        end
      else None
  end.

(** The rune a valid sequence of [rune_len] bytes encodes. *)
Definition rune_val (s : bytes) : Z :=
  match s with
  | [c] => bval c
  | [c; d] => (bval c - 192) * 64 + (bval d - 128)
  | [c; d; e] => (bval c - 224) * 4096 + (bval d - 128) * 64 + (bval e - 128)
  | [c; d; e; f] =>
      (bval c - 240) * 262144 + (bval d - 128) * 4096 + (bval e - 128) * 64 + (bval f - 128)
  | _ => RuneError
  end.

(** [utf8.DecodeRune]: the first rune and its width. *)
Definition decode_rune (s : bytes) : Z * nat :=
  match s with
  | [] => (RuneError, 0%nat)
  | _ => match rune_len s with
         | Some n => (rune_val (take n s), n)
         | None => (RuneError, 1%nat)
         end
  end.

(** The conversion [[]rune(s)]; [skip] counts bytes of the current rune. *)
Fixpoint runes_from (skip : nat) (s : bytes) : list Z :=
  match s with
  | [] => []
  | _ :: s' =>
      match skip with
      | S k => runes_from k s'
      | O => (decode_rune s).1 :: runes_from (pred (decode_rune s).2) s'
      end
  end.
Definition runes (s : bytes) : list Z := runes_from 0 s.

(** [utf8.ValidString]. *)
Fixpoint valid_from (skip : nat) (s : bytes) : bool :=
  match s with
  | [] => true
  | _ :: s' =>
      match skip with
      | S k => valid_from k s'
      | O => match rune_len s with Some n => valid_from (pred n) s' | None => false end
      end
  end.
Definition valid_utf8 (s : bytes) : bool := valid_from 0 s.

(** ** UTF-16 *)

(** [utf16.Encode]. *)
Definition utf16_units (r : Z) : list Z :=
  if ((0 <=? r) && (r <? 55296)) || ((57344 <=? r) && (r <? 65536)) then [r]
  else if (65536 <=? r) && (r <=? 1114111) then
    [55296 + (r - 65536) / 1024; 56320 + (r - 65536) mod 1024]
  else [RuneError].
Definition utf16_encode (rs : list Z) : list Z := rs ≫= utf16_units.

(** [utf16.DecodeRune]. *)
Definition utf16_decode (r1 r2 : Z) : Z :=
  if (55296 <=? r1) && (r1 <? 56320) && (56320 <=? r2) && (r2 <? 57344)
  then (r1 - 55296) * 1024 + (r2 - 56320) + 65536
  else RuneError.

(** ** Hexadecimal digits *)

Definition hex_digit (d : Z) : ascii := if d <? 10 then chr (48 + d) else chr (87 + d).

Definition hex_val (c : ascii) : option Z :=
  if in_range 48 57 c then Some (bval c - 48)
  else if in_range 97 102 c then Some (bval c - 87)
  else if in_range 65 70 c then Some (bval c - 55)
  else None.

(** Four hexadecimal digits, as in a [\u] escape. *)
Definition hex4 (a b c d : ascii) : option Z :=
  x ← hex_val a; y ← hex_val b; z ← hex_val c; w ← hex_val d;
  Some (((x * 16 + y) * 16 + z) * 16 + w).

(** ** Base64, standard encoding with padding *)

Definition b64_char (n : Z) : ascii :=
  if n <? 26 then chr (65 + n)
  else if n <? 52 then chr (71 + n)
  else if n <? 62 then chr (n - 4)
  else if n =? 62 then "+"%char else "/"%char.

Definition b64_val (c : ascii) : option Z :=
  if in_range 65 90 c then Some (bval c - 65)
  else if in_range 97 122 c then Some (bval c - 71)
  else if in_range 48 57 c then Some (bval c + 4)
  else if bool_decide (c = "+"%char) then Some 62
  else if bool_decide (c = "/"%char) then Some 63
  else None.

Fixpoint b64_encode (s : bytes) : bytes :=
  match s with
  | [] => []
  | [a] =>
      [b64_char (bval a / 4); b64_char (bval a mod 4 * 16); "="%char; "="%char]
  | [a; b] =>
      [b64_char (bval a / 4); b64_char (bval a mod 4 * 16 + bval b / 16);
       b64_char (bval b mod 16 * 4); "="%char]
  | a :: b :: c :: s' =>
      b64_char (bval a / 4) :: b64_char (bval a mod 4 * 16 + bval b / 16) ::
      b64_char (bval b mod 16 * 4 + bval c / 64) :: b64_char (bval c mod 64) :: b64_encode s'
  end.

Definition b64_pad : ascii := "="%char.

(** One quantum of four characters; [last] tells whether padding is allowed. *)
Definition b64_quantum (last : bool) (a b c d : ascii) : option bytes :=
  x ← b64_val a; y ← b64_val b;
  if last && bool_decide (c = b64_pad) then
    if bool_decide (d = b64_pad) then Some [chr (x * 4 + y / 16)] else None
  else
    z ← b64_val c;
    if last && bool_decide (d = b64_pad) then
      Some [chr (x * 4 + y / 16); chr (y mod 16 * 16 + z / 4)]
    else
      w ← b64_val d;
      Some [chr (x * 4 + y / 16); chr (y mod 16 * 16 + z / 4); chr (z mod 4 * 64 + w)].

Fixpoint b64_quanta (s : bytes) : option bytes :=
  match s with
  | [] => Some []
  | a :: b :: c :: d :: s' =>
      q ← b64_quantum (bool_decide (s' = [])) a b c d;
      r ← b64_quanta s';
      Some (q ++ r)
  | _ => None
  end.

(** [base64.StdEncoding.DecodeString]: line breaks are ignored. *)
Definition is_newline (c : ascii) : bool := (bval c =? 10) || (bval c =? 13).
Definition b64_decode (s : bytes) : option bytes :=
  b64_quanta (List.filter (λ c, negb (is_newline c)) s).

(** ** Lemmas: base64 *)

Definition b64_alphabet (c : ascii) : bool :=
  bool_decide (is_Some (b64_val c)) || bool_decide (c = b64_pad).

Lemma b64_val_char n : 0 ≤ n < 64 → b64_val (b64_char n) = Some n.
Proof.
  intros Hn. rewrite <- (Z2Nat.id n) by lia.
  assert (Hl : (Z.to_nat n < 64)%nat) by lia. revert Hl. generalize (Z.to_nat n). clear.
  intros k Hk. do 64 (destruct k as [|k]; [reflexivity|]). lia.
Qed.

Lemma b64_char_alphabet n : 0 ≤ n < 64 → b64_alphabet (b64_char n) = true.
Proof. intros Hn. unfold b64_alphabet. by rewrite b64_val_char. Qed.

Lemma b64_char_not_pad n : 0 ≤ n < 64 → b64_char n ≠ b64_pad.
Proof. intros Hn H. pose proof (b64_val_char n Hn) as E. rewrite H in E. by vm_compute in E. Qed.

Lemma b64_alphabet_newline c : b64_alphabet c = true → is_newline c = false.
Proof. byte_cases c. Qed.

Lemma bytes_ind3 (P : bytes → Prop) :
  P [] → (∀ a, P [a]) → (∀ a b, P [a; b]) → (∀ a b c s, P s → P (a :: b :: c :: s)) → ∀ s, P s.
Proof.
  intros H0 H1 H2 H3. fix IH 1. intros [|a [|b [|c s]]]; [done..|]. apply H3, IH.
Qed.

Ltac b64_bounds :=
  repeat match goal with
  | c : ascii |- _ =>
      lazymatch goal with
      | _ : 0 ≤ bval c < 256 |- _ => fail
      | _ => pose proof (bval_range c)
      end
  end.

Lemma b64_encode_alphabet s : forallb b64_alphabet (b64_encode s) = true.
Proof.
  induction s as [|a|a b|a b c s IH] using bytes_ind3; cbn [b64_encode forallb];
    b64_bounds; rewrite ?IH, ?b64_char_alphabet by (Z.to_euclidean_division_equations; lia);
    done.
Qed.

Lemma chr_parts z c : z = bval c → chr z = c.
Proof. intros ->. apply chr_bval. Qed.

Ltac b64_arith := Z.to_euclidean_division_equations; lia.

Lemma b64_quanta_encode s : b64_quanta (b64_encode s) = Some s.
Proof.
  induction s as [|a|a b|a b c s IH] using bytes_ind3; cbn [b64_encode b64_quanta]; [done|..];
    b64_bounds; unfold b64_quantum; rewrite !b64_val_char by b64_arith; cbn -[bool_decide].
  - rewrite !bool_decide_eq_true_2 by done. cbn.
    do 2 f_equal. apply chr_parts. b64_arith.
  - rewrite (bool_decide_eq_true_2 ([] = [])), bool_decide_eq_false_2
      by (done || (apply b64_char_not_pad; b64_arith)).
    cbn -[bool_decide].
    rewrite bool_decide_eq_true_2 by done. cbn.
    do 2 f_equal; [|f_equal]; apply chr_parts; b64_arith.
  - rewrite !(bool_decide_eq_false_2 (b64_char _ = b64_pad)) by (apply b64_char_not_pad; b64_arith).
    rewrite !andb_false_r. cbn -[bool_decide].
    rewrite IH. cbn. do 2 f_equal; [|f_equal; [|f_equal]]; apply chr_parts; b64_arith.
Qed.

(** Decoding inverts encoding, for every byte sequence. *)
Lemma b64_decode_encode s : b64_decode (b64_encode s) = Some s.
Proof.
  unfold b64_decode. etrans; [|apply b64_quanta_encode]. f_equal.
  pose proof (b64_encode_alphabet s) as H. induction (b64_encode s) as [|c t IH]; [done|].
  cbn in H |- *. apply andb_true_iff in H as [Hc Ht].
  rewrite b64_alphabet_newline by done. cbn. by rewrite IH.
Qed.

(** ** Lemmas: UTF-8 *)

Lemma rune_len_take s t n : rune_len s = Some n → rune_len (take n s ++ t) = Some n.
Proof.
  unfold rune_len. destruct s as [|c s]; [done|]. intros H.
  repeat (case_match; simplify_eq/=; try congruence).
Qed.

Lemma rune_len_bounds s n : rune_len s = Some n → (1 ≤ n ≤ length s)%nat.
Proof.
  unfold rune_len. destruct s as [|c s]; [done|].
  go_cases; intros; simplify_eq/=; lia.
Qed.

#[export] Hint Rewrite b64_decode_encode : go_rw.
