(* ===== verification/GoJson.v ===== *)
(** * Go's [encoding/json], as the program uses it

    JSON documents as trees, the compact printer of [json.Marshal] (string
    escaping included), the parser behind [json.Unmarshal] and
    [json.Decoder], and combinators that decode a tree into Go struct fields
    with the package's rules: case-insensitive field names, unknown fields
    ignored, [null] leaving a value unchanged, the first type mismatch
    reported at the end.  Parsing inverts printing. *)

From S2P Require Import Prelude GoStrings Utf.

Open Scope Z_scope.

(** ** Documents *)

Inductive json :=
| JNull
| JBool (b : bool)
| JNum (lit : bytes)
| JStr (s : bytes)
| JArr (l : list json)
| JObj (l : list (bytes * json)).

(** Induction with the hypotheses for the elements of arrays and objects. *)
Section json_ind.
Variable P : json → Prop.
Hypothesis HNull : P JNull.
Hypothesis HBool : ∀ b, P (JBool b).
Hypothesis HNum : ∀ l, P (JNum l).
Hypothesis HStr : ∀ s, P (JStr s).
Hypothesis HArr : ∀ l, Forall P l → P (JArr l).
Hypothesis HObj : ∀ l, Forall (λ kv, P kv.2) l → P (JObj l).

Fixpoint json_induction (j : json) : P j :=
  match j with
  | JNull => HNull
  | JBool b => HBool b
  | JNum l => HNum l
  | JStr s => HStr s
  | JArr l =>
      HArr l ((fix go l := match l return Forall P l with
              | [] => Forall_nil_2 _
              | x :: l' => Forall_cons_2 _ x l' (json_induction x) (go l')
              end) l)
  | JObj l =>
      HObj l ((fix go l := match l return Forall (λ kv, P kv.2) l with
              | [] => Forall_nil_2 _
              | x :: l' => Forall_cons_2 _ x l' (json_induction x.2) (go l')
              end) l)
  end.
End json_ind.

(** ** Printing *)

(** Characters of the JSON grammar. *)
Definition quote_c : ascii := chr 34.
Definition backslash : ascii := chr 92.

(** Compact printing, with a given quoting of strings. *)
Fixpoint render (q : bytes → bytes) (j : json) : bytes :=
  match j with
  | JNull => "null"
  | JBool true => "true"
  | JBool false => "false"
  | JNum lit => lit
  | JStr s => q s
  | JArr l => "["%char :: Join (List.map (render q) l) "," ++ ["]"%char]
  | JObj l =>
      "{"%char :: Join (List.map (λ kv, q kv.1 ++ ":"%char :: render q kv.2) l) "," ++ ["}"%char]
  end.

Definition u00 (c : ascii) : bytes :=
  [backslash; "u"; "0"; "0"; hex_digit (bval c / 16); hex_digit (bval c mod 16)]%char.

(** Escaping of an ASCII byte by [json.Marshal] (HTML-safe). *)
Definition go_escape (c : ascii) : bytes :=
  if bool_decide (c = quote_c) || bool_decide (c = backslash) then [backslash; c]
  else if bval c =? 10 then [backslash; "n"%char]
  else if bval c =? 13 then [backslash; "r"%char]
  else if bval c =? 9 then [backslash; "t"%char]
  else if (bval c <? 32) || (bval c =? 60) || (bval c =? 62) || (bval c =? 38) then u00 c
  else [c].

(** U+2028 and U+2029 are escaped. *)
Definition is_line_sep (s : bytes) : bool :=
  bool_decide (s = [chr 226; chr 128; chr 168]) || bool_decide (s = [chr 226; chr 128; chr 169]).

(** Inside a multi-byte rune the remaining bytes are copied or skipped. *)
Inductive qmode := QScan | QCopy (n : nat) | QSkip (n : nat).

Fixpoint quote_body (m : qmode) (s : bytes) : bytes :=
  match s with
  | [] => []
  | c :: s' =>
      match m with
      | QCopy (S k) => c :: quote_body (QCopy k) s'
      | QSkip (S k) => quote_body (QSkip k) s'
      | _ =>
          if bval c <? 128 then go_escape c ++ quote_body QScan s'
          else match rune_len s with
               | None => [backslash; "u"; "f"; "f"; "f"; "d"]%char ++ quote_body QScan s'
               | Some n =>
                   if is_line_sep (take n s)
                   then [backslash; "u"; "2"; "0"; "2"]%char ++
                        hex_digit (rune_val (take n s) mod 16) :: quote_body (QSkip (pred n)) s'
                   else c :: quote_body (QCopy (pred n)) s'
               end
      end
  end.

Definition go_quote (s : bytes) : bytes := quote_c :: quote_body QScan s ++ [quote_c].

(** [json.Marshal] of a document. *)
Definition Marshal (j : json) : bytes := render go_quote j.
(** [json.NewEncoder(w).Encode] adds a line feed. *)
Definition Encode (j : json) : bytes := Marshal j ++ [chr 10].

(** ** Parsing *)

Definition is_space (c : ascii) : bool :=
  (bval c =? 32) || (bval c =? 9) || (bval c =? 10) || (bval c =? 13).

Fixpoint skip_ws (s : bytes) : bytes :=
  match s with
  | c :: s' => if is_space c then skip_ws s' else s
  | [] => []
  end.

Definition simple_escape (c : ascii) : option ascii :=
  if bool_decide (c = quote_c) then Some quote_c
  else if bool_decide (c = backslash) then Some backslash
  else if bool_decide (c = "/"%char) then Some "/"%char
  else if bool_decide (c = "b"%char) then Some (chr 8)
  else if bool_decide (c = "f"%char) then Some (chr 12)
  else if bool_decide (c = "n"%char) then Some (chr 10)
  else if bool_decide (c = "r"%char) then Some (chr 13)
  else if bool_decide (c = "t"%char) then Some (chr 9)
  else None.

Definition prepend (p : bytes) (r : option (bytes * bytes)) : option (bytes * bytes) :=
  '(a, t) ← r; Some (p ++ a, t).

(** The contents of a string literal after its opening quote, and the rest
    after the closing one; [copy] bytes of the current rune remain. *)
Fixpoint str_body (copy : nat) (s : bytes) : option (bytes * bytes) :=
  match s with
  | [] => None
  | c :: s' =>
      match copy with
      | S k => prepend [c] (str_body k s')
      | O =>
          if bool_decide (c = quote_c) then Some ([], s')
          else if bool_decide (c = backslash) then
            match s' with
            | [] => None
            | e :: s1 =>
                if bool_decide (e = "u"%char) then
                  match s1 with
                  | h1 :: h2 :: h3 :: h4 :: s2 =>
                      r ← hex4 h1 h2 h3 h4;
                      if is_surrogate r then
                        match s2 with
                        | b :: u :: g1 :: g2 :: g3 :: g4 :: s3 =>
                            match (if bool_decide (b = backslash) && bool_decide (u = "u"%char)
                                   then hex4 g1 g2 g3 g4 else None) with
                            | Some r2 =>
                                if utf16_decode r r2 =? RuneError
                                then prepend (encode_rune RuneError) (str_body 0 s2)
                                else prepend (encode_rune (utf16_decode r r2)) (str_body 0 s3)
                            | None => prepend (encode_rune RuneError) (str_body 0 s2)
                            end
                        | _ => prepend (encode_rune RuneError) (str_body 0 s2)
                        end
                      else prepend (encode_rune r) (str_body 0 s2)
                  | _ => None
                  end
                else match simple_escape e with
                     | Some b => prepend [b] (str_body 0 s1)
                     | None => None
                     end
            end
          else if bval c <? 32 then None
          else match rune_len s with
               | Some n => prepend [c] (str_body (pred n) s')
               | None => prepend (encode_rune RuneError) (str_body 0 s')
               end
      end
  end.

Fixpoint span_digits (s : bytes) : bytes * bytes :=
  match s with
  | c :: s' => if is_digit c then let '(a, r) := span_digits s' in (c :: a, r) else ([], s)
  | [] => ([], [])
  end.

(** Integer part: [0] or digits without a leading zero. *)
Definition scan_int (s : bytes) : option (bytes * bytes) :=
  match s with
  | c :: s' =>
      if bool_decide (c = "0"%char) then Some ([c], s')
      else if is_digit c then Some (span_digits s) else None
  | [] => None
  end.

Definition scan_frac (s : bytes) : option (bytes * bytes) :=
  match s with
  | c :: s' =>
      if bool_decide (c = "."%char) then
        match span_digits s' with
        | ([], _) => None
        | (ds, r) => Some (c :: ds, r)
        end
      else Some ([], s)
  | [] => Some ([], [])
  end.

Definition scan_exp (s : bytes) : option (bytes * bytes) :=
  match s with
  | c :: s' =>
      if bool_decide (c = "e"%char) || bool_decide (c = "E"%char) then
        let '(sg, s2) :=
          match s' with
          | d :: s2 => if bool_decide (d = "+"%char) || bool_decide (d = "-"%char) then ([d], s2) else ([], s')
          | [] => ([], [])
          end in
        match span_digits s2 with
        | ([], _) => None
        | (ds, r) => Some (c :: sg ++ ds, r)
        end
      else Some ([], s)
  | [] => Some ([], [])
  end.

Definition scan_number (s : bytes) : option (bytes * bytes) :=
  let '(sg, s0) :=
    match s with
    | c :: s' => if bool_decide (c = "-"%char) then ([c], s') else ([], s)
    | [] => ([], [])
    end in
  '(i, s1) ← scan_int s0; '(f, s2) ← scan_frac s1; '(e, s3) ← scan_exp s2;
  Some (sg ++ i ++ f ++ e, s3).

Section parse_list.
(** The parser of the elements, one nesting level below. *)
Variable pv : bytes → option (json * bytes).

(** Elements up to the closing bracket; one byte at least per element. *)
Fixpoint parse_elems (fuel : nat) (s : bytes) : option (list json * bytes) :=
  match fuel with
  | O => None
  | S f =>
      '(v, r) ← pv s;
      match skip_ws r with
      | c :: r' =>
          if bool_decide (c = ","%char) then '(vs, t) ← parse_elems f r'; Some (v :: vs, t)
          else if bool_decide (c = "]"%char) then Some ([v], r')
          else None
      | [] => None
      end
  end.

Fixpoint parse_members (fuel : nat) (s : bytes) : option (list (bytes * json) * bytes) :=
  match fuel with
  | O => None
  | S f =>
      match skip_ws s with
      | q :: r0 =>
          if bool_decide (q = quote_c) then
            '(k, r1) ← str_body 0 r0;
            match skip_ws r1 with
            | c :: r2 =>
                if bool_decide (c = ":"%char) then
                  '(v, r) ← pv r2;
                  match skip_ws r with
                  | d :: r' =>
                      if bool_decide (d = ","%char)
                      then '(vs, t) ← parse_members f r'; Some ((k, v) :: vs, t)
                      else if bool_decide (d = "}"%char) then Some ([(k, v)], r')
                      else None
                  | [] => None
                  end
                else None
            | [] => None
            end
          else None
      | [] => None
      end
  end.
End parse_list.

(** One value and the rest of the input; [depth] levels of nesting remain. *)
Fixpoint parse_value (depth : nat) (s : bytes) : option (json * bytes) :=
  match skip_ws s with
  | [] => None
  | c :: r =>
      if bool_decide (c = quote_c) then '(t, r') ← str_body 0 r; Some (JStr t, r')
      else if bool_decide (c = "["%char) then
        match depth with
        | O => None
        | S d =>
            match skip_ws r with
            | c' :: r' =>
                if bool_decide (c' = "]"%char) then Some (JArr [], r')
                else '(l, t) ← parse_elems (parse_value d) (length r) r; Some (JArr l, t)
            | [] => None
            end
        end
      else if bool_decide (c = "{"%char) then
        match depth with
        | O => None
        | S d =>
            match skip_ws r with
            | c' :: r' =>
                if bool_decide (c' = "}"%char) then Some (JObj [], r')
                else '(l, t) ← parse_members (parse_value d) (length r) r; Some (JObj l, t)
            | [] => None
            end
        end
      else match strip_prefix "true" (c :: r), strip_prefix "false" (c :: r), strip_prefix "null" (c :: r) with
           | Some t, _, _ => Some (JBool true, t)
           | _, Some t, _ => Some (JBool false, t)
           | _, _, Some t => Some (JNull, t)
           | None, None, None => '(lit, t) ← scan_number (c :: r); Some (JNum lit, t)
           end
  end.

(** The package refuses more than 10000 nested containers. *)
Definition max_depth : nat := Z.to_nat 10000.

Inductive json_error := JSyntax | JType.

(** [Decoder.Decode] parses the first value of the stream. *)
Definition decode_stream (s : bytes) : result json_error json :=
  match parse_value max_depth s with Some (j, _) => Ok j | None => Err JSyntax end.

(** [json.Unmarshal] parses the whole input. *)
Definition unmarshal (s : bytes) : result json_error json :=
  match parse_value max_depth s with
  | Some (j, r) => if bool_decide (skip_ws r = []) then Ok j else Err JSyntax
  | None => Err JSyntax
  end.

(** ** Decoding a document into Go values

    A decoder updates the current value of its target and reports whether a
    type error was recorded: the package stores what it can and returns the
    first recorded error at the end. *)

Definition decoder (A : Type) := json → A → A * bool.

Definition dec_string : decoder bytes := λ j old,
  match j with
  | JStr s => (s, false)
  | JNull => (old, false)
  | _ => (old, true)
  end.

Definition dec_num (parse : bytes → result num_error Z) : decoder Z := λ j old,
  match j with
  | JNum lit => match parse lit with Ok z => (z, false) | Err _ => (old, true) end
  | JNull => (old, false)
  | _ => (old, true)
  end.
Definition dec_int64 : decoder Z := dec_num ParseInt64.
Definition dec_uint64 : decoder Z := dec_num ParseUint64.
Definition dec_uint8 : decoder Z := dec_num (λ s, ParseUint s 255).

(** Elements of a slice are decoded over the elements already there. *)
Fixpoint dec_elems {A} (d : decoder A) (zero : A) (l : list json) (old : list A) : list A * bool :=
  match l with
  | [] => ([], false)
  | j :: l' =>
      let '(x, e) := d j (default zero (head old)) in
      let '(xs, e') := dec_elems d zero l' (tail old) in
      (x :: xs, e || e')
  end.

(** A slice; [None] is the nil slice. *)
Definition dec_slice {A} (d : decoder A) (zero : A) : decoder (option (list A)) := λ j old,
  match j with
  | JArr l => let '(xs, e) := dec_elems d zero l (default [] old) in (Some xs, e)
  | JNull => (None, false)
  | _ => (old, true)
  end.

(** A byte slice: a base64 string, or an array of small numbers. *)
Definition dec_bytes : decoder (option bytes) := λ j old,
  match j with
  | JStr s => match b64_decode s with Some b => (Some b, false) | None => (old, true) end
  | JArr l =>
      let '(xs, e) := dec_elems dec_uint8 0 l (bval <$> default [] old) in
      (Some (chr <$> xs), e)
  | JNull => (None, false)
  | _ => (old, true)
  end.

(** A pointer; [null] resets it and another value allocates when it is nil. *)
Definition dec_ptr {A} (d : decoder A) (zero : A) : decoder (option A) := λ j old,
  match j with
  | JNull => (None, false)
  | _ => let '(x, e) := d j (default zero old) in (Some x, e)
  end.

(** Names are compared exactly first, then without regard to case; the
    package also folds the long s and the Kelvin sign. *)
Fixpoint fold_name (s : bytes) : bytes :=
  match s with
  | [] => []
  | c :: s' =>
      if in_range 65 90 c then chr (bval c + 32) :: fold_name s'
      else if bval c =? 197 then
        match s' with
        | d :: s2 => if bval d =? 191 then "s"%char :: fold_name s2 else c :: fold_name s'
        | [] => [c]
        end
      else if bval c =? 226 then
        match s' with
        | d :: e :: s3 =>
            if (bval d =? 132) && (bval e =? 170) then "k"%char :: fold_name s3 else c :: fold_name s'
        | _ => c :: fold_name s'
        end
      else c :: fold_name s'
  end.

Definition find_field {A} (fields : list (bytes * A)) (k : bytes) : option A :=
  match List.find (λ f, beq f.1 k) fields with
  | Some f => Some f.2
  | None => snd <$> List.find (λ f, beq (fold_name f.1) (fold_name k)) fields
  end.

(** The members of an object, in order, into the fields of a struct. *)
Fixpoint dec_members {A} (fields : list (bytes * decoder A)) (l : list (bytes * json)) (old : A) : A * bool :=
  match l with
  | [] => (old, false)
  | (k, v) :: l' =>
      let '(x, e) := match find_field fields k with Some d => d v old | None => (old, false) end in
      let '(y, e') := dec_members fields l' x in
      (y, e || e')
  end.

Definition dec_struct {A} (fields : list (bytes * decoder A)) : decoder A := λ j old,
  match j with
  | JObj l => dec_members fields l old
  | JNull => (old, false)
  | _ => (old, true)
  end.

Definition run_decoder {A} (d : decoder A) (zero : A) (j : json) : result json_error A :=
  let '(x, e) := d j zero in if (e : bool) then Err JType else Ok x.

(** [json.NewDecoder(r).Decode(&v)] and [json.Unmarshal(data, &v)]. *)
Definition Decode {A} (d : decoder A) (zero : A) (r : bytes) : result json_error A :=
  j ← decode_stream r; run_decoder d zero j.
Definition Unmarshal {A} (d : decoder A) (zero : A) (data : bytes) : result json_error A :=
  j ← unmarshal data; run_decoder d zero j.

(** ** Encoding Go values *)

Definition enc_string (s : bytes) : json := JStr s.
Definition enc_int (z : Z) : json := JNum (FormatInt z).
Definition enc_bytes (b : option bytes) : json :=
  match b with Some b => JStr (b64_encode b) | None => JNull end.
Definition enc_slice {A} (f : A → json) (l : option (list A)) : json :=
  match l with Some l => JArr (List.map f l) | None => JNull end.
