(* ===== verification/GoJsonFacts.v ===== *)
(** * Facts about the JSON printer and parser

    The parser inverts the printer: on every document whose strings are
    valid UTF-8 and whose numbers are JSON numbers, parsing the printed text
    gives the document and the rest of the input. *)

From S2P Require Import Prelude GoStrings Utf GoJson.

Open Scope Z_scope.

(** ** Strings *)

Definition qskip (m : qmode) : nat := match m with QScan => 0 | QCopy n | QSkip n => n end.
Definition qcopy (m : qmode) : nat := match m with QCopy n => n | _ => 0 end.
Definition qbody (m : qmode) (s : bytes) : bytes :=
  match m with QSkip n => drop n s | _ => s end.

Lemma prepend_Some p a t : prepend p (Some (a, t)) = Some (p ++ a, t).
Proof. done. Qed.

Lemma hex4_u00 c : bval c < 128 →
  hex4 "0" "0" (hex_digit (bval c / 16)) (hex_digit (bval c mod 16)) = Some (bval c).
Proof. byte_cases c. Qed.

(** Reading one escaped ASCII byte back. *)
Lemma str_body_escape c t :
  bval c < 128 → str_body 0 (go_escape c ++ t) = prepend [c] (str_body 0 t).
Proof.
  intros H. destruct c as [[] [] [] [] [] [] [] []]; try (by exfalso; vm_compute in H); reflexivity.
Qed.

Lemma quote_body_copy k s :
  (k ≤ length s)%nat → ∃ t, quote_body (QCopy k) s = take k s ++ t.
Proof.
  revert s. induction k as [|k IH]; intros s Hs; [by eexists|].
  destruct s as [|c s]; cbn in *; [lia|]. destruct (IH s) as [t ->]; [lia|]. eauto.
Qed.

Lemma valid_from_scan c s :
  valid_from 0 (c :: s) = true → ∃ n, rune_len (c :: s) = Some (S n) ∧ valid_from n s = true.
Proof.
  cbn [valid_from]. destruct (rune_len (c :: s)) as [n|] eqn:E; [|done].
  apply rune_len_bounds in E as ?. destruct n; [lia|]. eauto.
Qed.

Lemma rune_len_ascii c s : bval c < 128 → rune_len (c :: s) = Some 1%nat.
Proof. intros. cbn. by rewrite (proj2 (Z.ltb_lt _ _)). Qed.

Lemma high_byte c : 128 ≤ bval c →
  bool_decide (c = quote_c) = false ∧ bool_decide (c = backslash) = false ∧ (bval c <? 32) = false.
Proof. byte_cases c. Qed.

Lemma str_body_line_sep b u t :
  bool_decide (b = [chr 226; chr 128; chr 168]) || bool_decide (b = [chr 226; chr 128; chr 169]) = true →
  str_body 0 (([backslash; "u"; "2"; "0"; "2"]%char ++ hex_digit (rune_val b mod 16) :: u) ++ t)
  = prepend b (str_body 0 (u ++ t)).
Proof. intros [->%bool_decide_eq_true | ->%bool_decide_eq_true]%orb_true_iff; reflexivity. Qed.

(** Reading back one rune printed verbatim. *)
Lemma str_body_rune c n s t :
  128 ≤ bval c → rune_len (c :: s) = Some (S n) →
  str_body 0 (c :: quote_body (QCopy n) s ++ t) = prepend [c] (str_body n (quote_body (QCopy n) s ++ t)).
Proof.
  intros Hc Hn. pose proof (rune_len_bounds _ _ Hn) as Hb. cbn in Hb.
  destruct (quote_body_copy n s) as [u Hu]; [lia|].
  assert (Hr : rune_len (c :: quote_body (QCopy n) s ++ t) = Some (S n)).
  { rewrite Hu, <- app_assoc. exact (rune_len_take _ (u ++ t) _ Hn). }
  destruct (high_byte c Hc) as (E1 & E2 & E3).
  cbn [str_body]. by rewrite E1, E2, E3, Hr.
Qed.

Lemma quote_body_scan m c s :
  qskip m = 0%nat → quote_body m (c :: s) = quote_body QScan (c :: s).
Proof. destruct m as [|[]|[]]; done. Qed.

Lemma qbody_0 m s : qskip m = 0%nat → qcopy m = 0%nat ∧ qbody m s = s.
Proof. by destruct m as [|[]|[]]. Qed.

Lemma str_body_quote s : ∀ m t,
  (qskip m ≤ length s)%nat → valid_from (qskip m) s = true →
  str_body (qcopy m) (quote_body m s ++ quote_c :: t) = Some (qbody m s, t).
Proof.
  induction s as [|c s IH]; intros m t Hm Hv.
  { destruct (qbody_0 m []) as [-> ->]; [cbn in Hm; lia|]. done. }
  destruct (decide (qskip m = 0%nat)) as [H0|H0].
  - rewrite quote_body_scan by done. destruct (qbody_0 m (c :: s) H0) as [-> ->].
    rewrite H0 in Hv. apply valid_from_scan in Hv as (n & Hn & Hv).
    pose proof (rune_len_bounds _ _ Hn) as Hb. cbn in Hb. cbn [quote_body].
    destruct (Z.ltb_spec (bval c) 128) as [Hc|Hc].
    + rewrite rune_len_ascii in Hn by done. simplify_eq.
      pose proof (IH QScan t) as E; cbn in E. by rewrite <- app_assoc, str_body_escape, E by (done || lia).
    + rewrite Hn. cbn [Nat.pred]. destruct (is_line_sep (take (S n) (c :: s))) eqn:Hs.
      * pose proof (IH (QSkip n) t) as E; cbn in E. rewrite str_body_line_sep, E by (done || lia).
        cbn. by rewrite take_drop.
      * pose proof (IH (QCopy n) t) as E; cbn in E. by rewrite <- app_comm_cons, str_body_rune, E by (done || lia).
  - destruct m as [|[|k]|[|k]]; cbn in Hm, Hv, H0; try done; cbn [quote_body qcopy].
    + pose proof (IH (QCopy k) t) as E; cbn in E. rewrite <- app_comm_cons. cbn [str_body]. by rewrite E by (done || lia).
    + pose proof (IH (QSkip k) t) as E; cbn in E. by rewrite E by (done || lia).
Qed.

(** Reading a quoted string gives the string, when it is valid UTF-8. *)
Lemma go_quote_roundtrip s t :
  valid_utf8 s = true →
  ∃ r, go_quote s ++ t = quote_c :: r ∧ str_body 0 r = Some (s, t).
Proof.
  intros Hv. eexists. split; [unfold go_quote; rewrite <- app_comm_cons, <- app_assoc; done|].
  apply (str_body_quote s QScan); [cbn; lia|done].
Qed.

(** ** Numbers *)

(** [lit] is a JSON number. *)
Definition num_lit (lit : bytes) : bool := bool_decide (scan_number lit = Some (lit, [])).

(** [t] does not continue a number. *)
Definition num_stop (t : bytes) : bool :=
  match t with
  | [] => true
  | c :: _ => negb (is_digit c || bool_decide (c = "."%char) || bool_decide (c = "e"%char)
                   || bool_decide (c = "E"%char))
  end.

Lemma num_stop_cons c t : num_stop (c :: t) = true →
  is_digit c = false ∧ bool_decide (c = "."%char) = false ∧
  bool_decide (c = "e"%char) = false ∧ bool_decide (c = "E"%char) = false.
Proof. cbn. rewrite negb_true_iff, !orb_false_iff. tauto. Qed.

Lemma span_digits_app s t :
  num_stop t = true → span_digits (s ++ t) = ((span_digits s).1, (span_digits s).2 ++ t).
Proof.
  intros Ht. induction s as [|c s IH].
  - destruct t as [|c t]; [done|]. apply num_stop_cons in Ht as (Hd & _). cbn. by rewrite Hd.
  - cbn. destruct (is_digit c); [|done]. rewrite IH. by destruct (span_digits s).
Qed.

Lemma scan_int_app s a r t :
  scan_int s = Some (a, r) → num_stop t = true → scan_int (s ++ t) = Some (a, r ++ t).
Proof.
  intros H Ht. destruct s as [|c s]; [done|]. cbn [scan_int app] in *.
  case_bool_decide; [naive_solver|]. destruct (is_digit c); [|done].
  rewrite app_comm_cons, span_digits_app by done. by simplify_eq/=; rewrite H.
Qed.

Lemma scan_frac_app s a r t :
  scan_frac s = Some (a, r) → num_stop t = true → scan_frac (s ++ t) = Some (a, r ++ t).
Proof.
  intros H Ht. destruct s as [|c s].
  - cbn in H. simplify_eq. destruct t as [|c t]; [done|].
    apply num_stop_cons in Ht as (_ & E & _). cbn. by rewrite E.
  - cbn [scan_frac app] in *. case_bool_decide; [|naive_solver].
    rewrite span_digits_app by done. destruct (span_digits s) as [[|d ds] r']; by simplify_eq/=.
Qed.

Lemma scan_exp_app s a r t :
  scan_exp s = Some (a, r) → num_stop t = true → scan_exp (s ++ t) = Some (a, r ++ t).
Proof.
  intros H Ht. destruct s as [|c s].
  - cbn in H. simplify_eq. destruct t as [|c t]; [done|].
    apply num_stop_cons in Ht as (_ & _ & E1 & E2). cbn. by rewrite E1, E2.
  - cbn [scan_exp app] in *. destruct (_ || _); [|naive_solver].
    destruct s as [|d s]; [done|]. cbn [app]. destruct (_ || _).
    + rewrite span_digits_app by done. destruct (span_digits s) as [[|x ds] r']; by simplify_eq/=.
    + rewrite app_comm_cons, span_digits_app by done.
      destruct (span_digits (d :: s)) as [[|x ds] r']; by simplify_eq/=.
Qed.

Lemma scan_number_app lit t :
  num_lit lit = true → num_stop t = true → scan_number (lit ++ t) = Some (lit, t).
Proof.
  intros H%bool_decide_eq_true Ht. unfold scan_number in *.
  destruct lit as [|c lit]; [done|]. cbn [app] in *.
  destruct (bool_decide (c = "-"%char)).
  all: repeat match type of H with
    | (?x ≫= _) = Some _ => let E := fresh in destruct x as [[??]|] eqn:E; cbn -[scan_int scan_frac scan_exp] in H; [|done]
    end; simplify_eq.
  1: rewrite (scan_int_app _ _ _ t ltac:(eassumption) Ht).
  2: rewrite app_comm_cons, (scan_int_app _ _ _ t ltac:(eassumption) Ht).
  all: cbn -[scan_int scan_frac scan_exp]; rewrite (scan_frac_app _ _ _ t ltac:(eassumption) Ht);
    cbn -[scan_int scan_frac scan_exp]; rewrite (scan_exp_app _ _ _ t ltac:(eassumption) Ht); cbn; congruence.
Qed.

Lemma span_digits_all ds : forallb is_digit ds = true → span_digits ds = (ds, []).
Proof.
  induction ds as [|c ds IH]; [done|]. cbn. intros [-> H]%andb_true_iff. by rewrite IH.
Qed.

Lemma scan_int_FormatUint n : 0 ≤ n → scan_int (FormatUint n) = Some (FormatUint n, []).
Proof.
  intros Hn. destruct (FormatUint_spec n Hn) as (_ & Hd & _).
  destruct (decide (n = 0)) as [->|Hz]; [done|].
  destruct (FormatUint_nonzero n) as (c & s & E & Hc); [lia|]. rewrite E in *.
  cbn [scan_int]. rewrite bool_decide_eq_false_2 by done.
  rewrite span_digits_all by done. cbn in Hd. by apply andb_true_iff in Hd as [-> _].
Qed.

(** Formatted integers are JSON numbers. *)
Lemma num_lit_FormatInt z : num_lit (FormatInt z) = true.
Proof.
  apply bool_decide_eq_true. unfold FormatInt, scan_number. destruct (Z.ltb_spec z 0).
  - rewrite bool_decide_eq_true_2, scan_int_FormatUint by (done || lia). cbn. by rewrite !app_nil_r.
  - destruct (FormatUint_head z) as (c & s & E & [Hc _]%is_digit_not_sign); [lia|].
    pose proof (scan_int_FormatUint z) as Hs. rewrite E in *.
    rewrite bool_decide_eq_false_2, Hs by (done || lia). cbn. by rewrite !app_nil_r.
Qed.

(** ** Documents *)

Fixpoint json_depth (j : json) : nat :=
  match j with
  | JArr l => S (list_max (List.map json_depth l))
  | JObj l => S (list_max (List.map (λ kv, json_depth kv.2) l))
  | _ => 0
  end.

Section parse_render.
(** A quoting of strings the parser reads back, on the strings [ok_str]. *)
Variables (q : bytes → bytes) (ok_str : bytes → bool).
Hypothesis q_read : ∀ s t, ok_str s = true →
  ∃ r, q s ++ t = quote_c :: r ∧ str_body 0 r = Some (s, t).

(** Documents whose strings are readable and whose numbers are numbers. *)
Fixpoint json_ok (j : json) : bool :=
  match j with
  | JNum lit => num_lit lit
  | JStr s => ok_str s
  | JArr l => forallb json_ok l
  | JObj l => forallb (λ kv, ok_str kv.1 && json_ok kv.2) l
  | _ => true
  end.

(** The first byte of a printed value: no space, no closing bracket. *)
Definition value_start (c : ascii) : bool :=
  negb (is_space c || bool_decide (c = "]"%char) || bool_decide (c = "}"%char)).

Lemma num_lit_head lit : num_lit lit = true → ∃ c s, lit = c :: s ∧ (is_digit c = true ∨ c = "-"%char).
Proof.
  intros H%bool_decide_eq_true. destruct lit as [|c s]; [done|]. exists c, s. split; [done|].
  unfold scan_number in H. case_bool_decide; [by right|]. left. cbn in H.
  case_bool_decide; [by subst|]. by destruct (is_digit c).
Qed.

Lemma render_head j t : json_ok j = true → ∃ c r, render q j ++ t = c :: r ∧ value_start c = true.
Proof.
  destruct j as [|[]|lit|s|l|l]; cbn [json_ok render]; intros Hok; try (by do 2 eexists).
  - apply num_lit_head in Hok as (c & s & -> & Hc). do 2 eexists. split; [done|].
    destruct Hc as [Hc| ->]; [|done]. revert Hc. byte_cases c.
  - destruct (q_read s t Hok) as (r & -> & _). by do 2 eexists.
Qed.

Lemma skip_ws_start c r : value_start c = true → skip_ws (c :: r) = c :: r.
Proof. unfold value_start. cbn. by destruct (is_space c). Qed.

Lemma skip_ws_nonspace c r : is_space c = false → skip_ws (c :: r) = c :: r.
Proof. cbn. by intros ->. Qed.

Lemma parse_value_arr d r :
  parse_value (S d) ("["%char :: r) =
  match skip_ws r with
  | c' :: r' =>
      if bool_decide (c' = "]"%char) then Some (JArr [], r')
      else '(l, t) ← parse_elems (parse_value d) (length r) r; Some (JArr l, t)
  | [] => None
  end.
Proof. reflexivity. Qed.

Lemma parse_value_obj d r :
  parse_value (S d) ("{"%char :: r) =
  match skip_ws r with
  | c' :: r' =>
      if bool_decide (c' = "}"%char) then Some (JObj [], r')
      else '(l, t) ← parse_members (parse_value d) (length r) r; Some (JObj l, t)
  | [] => None
  end.
Proof. reflexivity. Qed.

Lemma parse_number d lit t :
  num_lit lit = true → num_stop t = true → parse_value d (lit ++ t) = Some (JNum lit, t).
Proof.
  intros Hl Ht. pose proof (scan_number_app lit t Hl Ht) as Hs.
  apply num_lit_head in Hl as (c & s & -> & Hc).
  assert (Hc' : value_start c = true ∧ bool_decide (c = quote_c) = false ∧
    bool_decide (c = "["%char) = false ∧ bool_decide (c = "{"%char) = false ∧
    "t"%char ≠ c ∧ "f"%char ≠ c ∧ "n"%char ≠ c).
  { destruct Hc as [Hc| ->]; [|done]. revert Hc. byte_cases c. }
  destruct Hc' as (Hv & E1 & E2 & E3 & E4 & E5 & E6).
  destruct d; cbn [parse_value app]; rewrite skip_ws_start, E1, E2, E3 by done; cbn [String.list_ascii_of_string strip_prefix];
    rewrite !bool_decide_eq_false_2 by done; cbn [app] in Hs; by rewrite Hs.
Qed.

Lemma Join_cons w ws sep : ws ≠ [] → Join (w :: ws) sep = w ++ sep :: Join ws sep.
Proof. by destruct ws. Qed.

Lemma parse_elems_render pv l fuel t :
  l ≠ [] → (length l ≤ fuel)%nat →
  Forall (λ j, ∀ t, num_stop t = true → pv (render q j ++ t) = Some (j, t)) l →
  parse_elems pv fuel (Join (List.map (render q) l) "," ++ "]"%char :: t) = Some (l, t).
Proof.
  revert fuel. induction l as [|j l IH]; intros fuel Hne Hf Hall; [done|].
  apply Forall_cons in Hall as [Hj Hall]. destruct fuel as [|f]; cbn in Hf; [lia|].
  destruct (decide (l = [])) as [->|Hl].
  - cbn [List.map Join parse_elems]. by rewrite Hj.
  - cbn [List.map]. rewrite Join_cons by (by destruct l).
    cbn [parse_elems]. rewrite <- app_assoc, Hj by done. cbn [mbind option_bind app].
    rewrite skip_ws_nonspace, bool_decide_eq_true_2 by done. by rewrite IH by (done || lia).
Qed.

Definition render_member (kv : bytes * json) : bytes := q kv.1 ++ ":"%char :: render q kv.2.

(** Reading one member up to its value. *)
Lemma parse_members_step pv f kv t :
  ok_str kv.1 = true →
  pv (render q kv.2 ++ t) = Some (kv.2, t) →
  parse_members pv (S f) (render_member kv ++ t) =
  match skip_ws t with
  | d :: r' =>
      if bool_decide (d = ","%char)
      then '(vs, u) ← parse_members pv f r'; Some (kv :: vs, u)
      else if bool_decide (d = "}"%char) then Some ([kv], r') else None
  | [] => None
  end.
Proof.
  intros Hk Hv. unfold render_member. destruct kv as [k v]; cbn [fst snd] in *.
  rewrite <- app_assoc. destruct (q_read k ((":"%char :: render q v) ++ t) Hk) as (r & -> & Hr).
  cbn [parse_members]. rewrite skip_ws_nonspace, bool_decide_eq_true_2, Hr by done.
  cbn [mbind option_bind app].
  rewrite skip_ws_nonspace, bool_decide_eq_true_2 by done. cbn [app]. by rewrite Hv.
Qed.

Lemma parse_members_render pv l fuel t :
  l ≠ [] → (length l ≤ fuel)%nat →
  Forall (λ kv : bytes * json, ok_str kv.1 = true ∧
    ∀ t, num_stop t = true → pv (render q kv.2 ++ t) = Some (kv.2, t)) l →
  parse_members pv fuel (Join (List.map render_member l) "," ++ "}"%char :: t) = Some (l, t).
Proof.
  revert fuel. induction l as [|kv l IH]; intros fuel Hne Hf Hall; [done|].
  apply Forall_cons in Hall as [[Hk Hj] Hall]. destruct fuel as [|f]; cbn in Hf; [lia|].
  destruct (decide (l = [])) as [->|Hl].
  - cbn [List.map Join]. rewrite parse_members_step by (done || by apply Hj). done.
  - cbn [List.map]. rewrite Join_cons by (by destruct l).
    rewrite <- app_assoc, parse_members_step by (done || by apply Hj). cbn [app].
    rewrite skip_ws_nonspace, bool_decide_eq_true_2 by done. by rewrite IH by (done || lia).
Qed.

Lemma Join_length ws sep : Forall (λ w, w ≠ []) ws → (length ws ≤ length (Join ws sep))%nat.
Proof.
  induction 1 as [|w ws Hw Hws IH]; [done|]. destruct ws as [|w' ws].
  - destruct w; [done|]. cbn; lia.
  - rewrite Join_cons, length_app by done. destruct w; [done|]. cbn [length] in *. lia.
Qed.

Lemma Join_map_length {A} (f : A → bytes) l sep t :
  (∀ x, In x l → f x ≠ []) → (length l ≤ length (Join (List.map f l) sep ++ t))%nat.
Proof.
  intros Hf. pose proof (Join_length (List.map f l) sep) as H.
  rewrite length_map in H. rewrite length_app. apply Nat.le_trans with (2 := Nat.le_add_r _ _), H.
  apply List.Forall_forall. intros w (x & <- & Hx)%in_map_iff. by apply Hf.
Qed.

Lemma render_nonnil j : json_ok j = true → render q j ≠ [].
Proof.
  intros H. destruct (render_head j [] H) as (c & r & E & _). rewrite app_nil_r in E. by rewrite E.
Qed.

Lemma elem_le_max x l n : In x l → (list_max l ≤ n)%nat → (x ≤ n)%nat.
Proof. intros Hx Hl. rewrite list_max_le, List.Forall_forall in Hl. by apply Hl. Qed.

Lemma Join_render_head {A} (f : A → bytes) x l sep t :
  (∃ c r, f x ++ [] = c :: r ∧ value_start c = true) →
  ∃ c r, Join (List.map f (x :: l)) sep ++ t = c :: r ∧ value_start c = true.
Proof.
  intros (c & r & E & Hc). rewrite app_nil_r in E. cbn [List.map].
  destruct l; cbn [List.map Join]; rewrite E; by do 2 eexists.
Qed.

Lemma value_start_not_close c : value_start c = true →
  bool_decide (c = "]"%char) = false ∧ bool_decide (c = "}"%char) = false.
Proof. unfold value_start. rewrite negb_true_iff, !orb_false_iff. tauto. Qed.

Lemma render_member_head kv : ok_str kv.1 = true →
  ∃ c r, render_member kv ++ [] = c :: r ∧ value_start c = true.
Proof.
  intros Hk. unfold render_member. rewrite app_nil_r.
  destruct (q_read kv.1 (":"%char :: render q kv.2) Hk) as (r & -> & _). by do 2 eexists.
Qed.

(** Parsing a printed document gives the document back. *)
Lemma parse_render j : ∀ d t,
  json_ok j = true → (json_depth j ≤ d)%nat → num_stop t = true →
  parse_value d (render q j ++ t) = Some (j, t).
Proof.
  induction j as [|[]|lit|s|l IH|l IH] using json_induction; intros d t Hok Hd Ht.
  - by destruct d.
  - by destruct d.
  - by destruct d.
  - by apply parse_number.
  - destruct (q_read s t Hok) as (r & E & Hr). cbn [render].
    rewrite E. destruct d; cbn [parse_value];
      by rewrite skip_ws_nonspace, bool_decide_eq_true_2, Hr by done.
  - destruct d as [|d]; cbn in Hd; [lia|]. cbn [render]. rewrite <- app_comm_cons, <- app_assoc. cbn [app].
    rewrite parse_value_arr. destruct l as [|j l]; [done|]. cbn [json_ok] in Hok.
    assert (Hall : Forall (λ j, json_ok j = true ∧ (json_depth j ≤ d)%nat) (j :: l)).
    { apply Forall_forall. intros x Hx%list_elem_of_In. rewrite forallb_forall in Hok. split; [by apply Hok|].
      eapply elem_le_max; [|apply le_S_n; exact Hd]. by apply in_map. }
    pose proof (Forall_inv Hall) as [Hj _].
    destruct (Join_render_head (render q) j l "," ("]"%char :: t) (render_head j [] Hj)) as (c & r & E & Hc).
    rewrite E, skip_ws_start, (proj1 (value_start_not_close c Hc)), <- E by done.
    rewrite parse_elems_render; [done|done|..].
    + apply Join_map_length. intros x Hx. apply render_nonnil.
      rewrite forallb_forall in Hok. by apply Hok.
    + apply Forall_forall. intros x Hx u Hu. rewrite Forall_forall in IH, Hall.
      destruct (Hall x Hx). by apply IH.
  - destruct d as [|d]; cbn in Hd; [lia|]. cbn [render]. rewrite <- app_comm_cons, <- app_assoc. cbn [app].
    rewrite parse_value_obj. destruct l as [|j l]; [done|]. cbn [json_ok] in Hok.
    assert (Hall : Forall (λ kv, ok_str kv.1 = true ∧ json_ok kv.2 = true ∧ (json_depth kv.2 ≤ d)%nat) (j :: l)).
    { apply Forall_forall. intros x Hx%list_elem_of_In. rewrite forallb_forall in Hok.
      specialize (Hok x Hx). apply andb_true_iff in Hok as [??]. split_and!; [done..|].
      eapply elem_le_max; [|apply le_S_n; exact Hd]. by apply (in_map (λ kv, json_depth kv.2)). }
    pose proof (Forall_inv Hall) as [Hj _].
    destruct (Join_render_head render_member j l "," ("}"%char :: t) (render_member_head j Hj)) as (c & r & E & Hc).
    change (λ kv, q kv.1 ++ ":"%char :: render q kv.2) with render_member.
    rewrite E, skip_ws_start, (proj2 (value_start_not_close c Hc)), <- E by done.
    rewrite parse_members_render; [done|done|..].
    + apply Join_map_length. intros x _. unfold render_member. by destruct (q x.1).
    + apply Forall_forall. intros x Hx. rewrite Forall_forall in IH, Hall.
      destruct (Hall x Hx) as (? & ? & ?). split; [done|]. intros u Hu. by apply IH.
Qed.

(** The two entry points of the package. *)
Lemma unmarshal_render j :
  json_ok j = true → (json_depth j ≤ max_depth)%nat → unmarshal (render q j) = Ok j.
Proof.
  intros Hok Hd. unfold unmarshal.
  pose proof (parse_render j max_depth [] Hok Hd eq_refl) as E. rewrite app_nil_r in E.
  by rewrite E.
Qed.

(** A line feed after the value changes nothing. *)
Lemma unmarshal_render_line j :
  json_ok j = true → (json_depth j ≤ max_depth)%nat → unmarshal (render q j ++ [chr 10]) = Ok j.
Proof. intros Hok Hd. unfold unmarshal. by rewrite (parse_render j max_depth [chr 10] Hok Hd eq_refl). Qed.

Lemma decode_stream_render j t :
  json_ok j = true → (json_depth j ≤ max_depth)%nat → num_stop t = true →
  decode_stream (render q j ++ t) = Ok j.
Proof. intros Hok Hd Ht. unfold decode_stream. by rewrite parse_render. Qed.
End parse_render.

(** [json.Unmarshal] inverts [json.Marshal] on valid documents. *)
Lemma unmarshal_Marshal j :
  json_ok valid_utf8 j = true → (json_depth j ≤ max_depth)%nat → unmarshal (Marshal j) = Ok j.
Proof. apply unmarshal_render, go_quote_roundtrip. Qed.

Lemma unmarshal_Encode j :
  json_ok valid_utf8 j = true → (json_depth j ≤ max_depth)%nat → unmarshal (Encode j) = Ok j.
Proof. apply unmarshal_render_line, go_quote_roundtrip. Qed.

Lemma decode_stream_Marshal j t :
  json_ok valid_utf8 j = true → (json_depth j ≤ max_depth)%nat → num_stop t = true →
  decode_stream (Marshal j ++ t) = Ok j.
Proof. apply decode_stream_render, go_quote_roundtrip. Qed.
