(* ===== verification/GoFloat.v ===== *)
(** * Go's [float64] conversions: [strconv.ParseFloat] and [strconv.FormatFloat]

    A [float64] is its sign, integer mantissa and binary exponent.  Parsing
    rounds the exact value of the literal to the nearest double, ties to
    even; formatting finds the shortest decimal that rounds back to the
    double.  Both work on exact rationals. *)

From S2P Require Import Prelude GoStrings Utf.

Open Scope Z_scope.

(** ** Doubles *)

(** [FFin neg m e] is [± m · 2^e], normalised: [e = -1074], or
    [2^52 ≤ m < 2^53] with [-1074 ≤ e ≤ 971]. *)
Inductive f64 :=
| FNaN
| FInf (neg : bool)
| FFin (neg : bool) (m e : Z).

#[export] Instance f64_eq_dec : EqDecision f64.
Proof. solve_decision. Defined.

Definition min_exp : Z := -1074.
Definition max_exp : Z := 971.

(** [math.Float64bits]. *)
Definition sign_bit (neg : bool) : Z := if neg then 2 ^ 63 else 0.
Definition Float64bits (f : f64) : Z :=
  match f with
  | FNaN => 9221120237041090561
  | FInf neg => sign_bit neg + 2047 * 2 ^ 52
  | FFin neg m e =>
      sign_bit neg + (if m <? 2 ^ 52 then m else (e + 1075) * 2 ^ 52 + (m - 2 ^ 52))
  end.

(** ** Rounding a positive rational to the nearest double *)

(** [num · 2^(-e) / den] as a fraction of integers. *)
Definition scale2 (num den e : Z) : Z * Z :=
  if e <=? 0 then (num * 2 ^ (- e), den) else (num, den * 2 ^ e).

(** The exponent for which the mantissa has 53 bits, at least [min_exp]. *)
Definition pick_exp (num den : Z) : Z :=
  let e1 := Z.log2 num - Z.log2 den - 53 in
  let '(a, b) := scale2 num den e1 in
  Z.max min_exp (if 2 ^ 53 * b <=? a then e1 + 1 else e1).

(** Nearest integer to [a / b], ties to even. *)
Definition round_even (a b : Z) : Z :=
  let q := a / b in
  let r := a mod b in
  if (2 * r <? b) || ((2 * r =? b) && Z.even q) then q else q + 1.

(** The double nearest to [num / den]; [None] on overflow. *)
Definition round_pos (num den : Z) : option (Z * Z) :=
  let e := pick_exp num den in
  let '(a, b) := scale2 num den e in
  let m := round_even a b in
  let '(m, e) := if m =? 2 ^ 53 then (2 ^ 52, e + 1) else (m, e) in
  if e <=? max_exp then Some (m, e) else None.

(** ** Decimal and hexadecimal literals *)

(** [m · base^exp]. *)
Record literal := Literal { lit_neg : bool; lit_hex : bool; lit_mant : Z; lit_exp : Z }.

Definition frac10 (m k : Z) : Z * Z :=
  if 0 <=? k then (m * 10 ^ k, 1) else (m, 10 ^ (- k)).
Definition frac2 (m k : Z) : Z * Z :=
  if 0 <=? k then (m * 2 ^ k, 1) else (m, 2 ^ (- k)).

Definition lower_c (c : ascii) : ascii := if in_range 65 90 c then chr (bval c + 32) else c.
Definition lower (s : bytes) : bytes := lower_c <$> s.

(** Digits of the mantissa with at most one point; underscores are noted. *)
Record mant_state := MantState { ms_val : Z; ms_frac : Z; ms_dot : bool; ms_digits : bool }.

Fixpoint scan_mant (hex : bool) (s : bytes) (st : mant_state) : mant_state * bytes :=
  match s with
  | [] => (st, [])
  | c :: s' =>
      if bool_decide (c = "_"%char) then scan_mant hex s' st
      else if bool_decide (c = "."%char) then
        if ms_dot st then (st, s)
        else scan_mant hex s' (MantState (ms_val st) (ms_frac st) true (ms_digits st))
      else
        match (if hex then hex_val c else if is_digit c then Some (digit_val c) else None) with
        | Some d =>
            scan_mant hex s'
              (MantState (ms_val st * (if hex then 16 else 10) + d)
                 (if ms_dot st then ms_frac st + 1 else ms_frac st) (ms_dot st) true)
        | None => (st, s)
        end
  end.

(** Exponent digits; the value saturates once it reaches 10000. *)
Fixpoint scan_exp_digits (s : bytes) (e : Z) : Z * bytes :=
  match s with
  | [] => (e, [])
  | c :: s' =>
      if bool_decide (c = "_"%char) then scan_exp_digits s' e
      else if is_digit c then scan_exp_digits s' (if e <? 10000 then e * 10 + digit_val c else e)
      else (e, s)
  end.

(** [underscoreOK]: underscores only between digits (a base prefix counts). *)
Inductive prev_char := PStart | PDigit | PUnder | POther.
Fixpoint underscores_ok (hex : bool) (s : bytes) (p : prev_char) : bool :=
  match s with
  | [] => match p with PUnder => false | _ => true end
  | c :: s' =>
      if is_digit c || (hex && in_range 97 102 (lower_c c)) then underscores_ok hex s' PDigit
      else if bool_decide (c = "_"%char) then
        match p with PDigit => underscores_ok hex s' PUnder | _ => false end
      else match p with PUnder => false | _ => underscores_ok hex s' POther end
  end.

Definition split_sign (s : bytes) : bool * bytes :=
  match s with
  | c :: s' =>
      if bool_decide (c = "-"%char) then (true, s')
      else if bool_decide (c = "+"%char) then (false, s') else (false, s)
  | [] => (false, [])
  end.

(** [readFloat] on the whole string. *)
Definition read_float (s : bytes) : option literal :=
  let '(neg, s0) := split_sign s in
  let '(hex, s1) := match strip_prefix "0x" (lower (take 2 s0)) with
                    | Some _ => (true, drop 2 s0)
                    | None => (false, s0)
                    end in
  let '(st, s2) := scan_mant hex s1 (MantState 0 0 false false) in
  if negb (ms_digits st) then None
  else
    let exp_char := if hex then "p"%char else "e"%char in
    let has_exp := match s2 with c :: _ => bool_decide (lower_c c = exp_char) | [] => false end in
    r ← (if (has_exp : bool) then
           let '(eneg, s3) := split_sign (tail s2) in
           match s3 with
           | c :: _ =>
               if is_digit c then
                 let '(e, s4) := scan_exp_digits s3 0 in Some (if (eneg : bool) then - e else e, s4)
               else None
           | [] => None
           end
         else if (hex : bool) then None else Some (0, s2));
    let '(e, rest) := r in
    if bool_decide (rest = []) && underscores_ok hex s1 (if hex then PDigit else PStart)
    then Some (Literal neg hex (ms_val st) (e - (if hex then 4 * ms_frac st else ms_frac st)))
    else None.

(** Infinities and not-a-number, in any case. *)
Definition read_special (s : bytes) : option f64 :=
  let '(neg, s0) := split_sign s in
  if beq (lower s0) "inf" || beq (lower s0) "infinity" then Some (FInf neg)
  else if beq (lower s) "nan" then Some FNaN
  else None.

Definition literal_value (l : literal) : f64 * option num_error :=
  if lit_mant l =? 0 then (FFin (lit_neg l) 0 min_exp, None)
  else
    let '(n, d) := if lit_hex l then frac2 (lit_mant l) (lit_exp l) else frac10 (lit_mant l) (lit_exp l) in
    match round_pos n d with
    | Some (m, e) => (FFin (lit_neg l) m e, None)
    | None => (FInf (lit_neg l), Some ErrRange)
    end.

(** [strconv.ParseFloat(s, 64)]: the value is set on errors too. *)
Definition ParseFloat (s : bytes) : f64 * option num_error :=
  match read_special s with
  | Some f => (f, None)
  | None =>
      match read_float s with
      | Some l => literal_value l
      | None => (FFin false 0 min_exp, Some ErrSyntax)
      end
  end.

(** ** Formatting a positive finite double *)

(** The exact value as a fraction. *)
Definition f64_frac (m e : Z) : Z * Z := frac2 m e.

Fixpoint find_scale (fuel : nat) (num den k : Z) : Z :=
  match fuel with
  | O => k
  | S f => if den <=? num * 10 ^ k then k else find_scale f num den (k + 1)
  end.

(** Position of the decimal point: [10^(dp-1) ≤ num / den < 10^dp]. *)
Definition decimal_point (num den : Z) : Z :=
  if den <=? num then Z.of_nat (length (FormatUint (num / den)))
  else 1 - find_scale 400 num den 1.

(** [num / den] in units of [10^(dp-n)], as a fraction. *)
Definition in_units (num den dp n : Z) : Z * Z :=
  if dp <=? n then (num * 10 ^ (n - dp), den) else (num, den * 10 ^ (dp - n)).

Definition rounds_to (m e d k : Z) : bool :=
  let '(a, b) := frac10 d k in
  match round_pos a b with Some (m', e') => (m' =? m) && (e' =? e) | None => false end.

(** The [n]-digit decimal the shortest algorithm may stop at. *)
Definition candidate (m e num den dp n : Z) : option Z :=
  let '(a, b) := in_units num den dp n in
  let lo := a / b in
  let ok_down := rounds_to m e lo (dp - n) in
  let ok_up := rounds_to m e (lo + 1) (dp - n) in
  if ok_down && ok_up then Some (round_even a b)
  else if ok_down then Some lo
  else if ok_up then Some (lo + 1)
  else None.

(** The smallest number of digits that determines the double.  Seventeen
    are always enough; the fuel covers the exact expansion. *)
Fixpoint shortest_from (fuel : nat) (m e num den dp n : Z) : option (Z * Z) :=
  match fuel with
  | O => None
  | S f =>
      match candidate m e num den dp n with
      | Some d => Some (d, n)
      | None => shortest_from f m e num den dp (n + 1)
      end
  end.

Fixpoint strip_zeros (fuel : nat) (d k : Z) : Z * Z :=
  match fuel with
  | O => (d, k)
  | S f => if (d mod 10 =? 0) && negb (d =? 0) then strip_zeros f (d / 10) (k + 1) else (d, k)
  end.

(** Significant digits without trailing zeros, and the power of ten. *)
Definition digits_of (d k : Z) : bytes * Z :=
  let '(d', k') := strip_zeros (length (FormatUint d)) d k in (FormatUint d', k').

Definition shortest_digits (m e : Z) : bytes * Z :=
  let '(num, den) := f64_frac m e in
  let dp := decimal_point num den in
  match shortest_from 1100 m e num den dp 1 with
  | Some (d, n) => digits_of d (dp - n)
  | None => ([], 0)
  end.

(** Correctly rounded to [n] significant digits. *)
Definition fixed_digits (m e n : Z) : bytes * Z :=
  let '(num, den) := f64_frac m e in
  let dp := decimal_point num den in
  let '(a, b) := in_units num den dp n in
  digits_of (round_even a b) (dp - n).

Definition zeros (n : Z) : bytes := replicate (Z.to_nat n) "0"%char.

(** [%f] of the digits [ds · 10^k]. *)
Definition fmt_f (ds : bytes) (k : Z) : bytes :=
  let dp := Z.of_nat (length ds) + k in
  if 0 <=? k then ds ++ zeros k
  else if 0 <? dp then take (Z.to_nat dp) ds ++ "."%char :: drop (Z.to_nat dp) ds
  else "0"%char :: "."%char :: zeros (- dp) ++ ds.

(** [%e]: at least two exponent digits. *)
Definition fmt_e (ds : bytes) (k : Z) : bytes :=
  let exp := Z.of_nat (length ds) + k - 1 in
  let ed := FormatUint (Z.abs exp) in
  take 1 ds ++ (if (1 <? length ds)%nat then "."%char :: drop 1 ds else [])
  ++ "e"%char :: (if exp <? 0 then "-"%char else "+"%char)
  :: (if (length ed <? 2)%nat then "0"%char :: ed else ed).

(** [%g] with precision [prec] when the exponent form is chosen. *)
Definition fmt_g (ds : bytes) (k prec : Z) : bytes :=
  let nd := Z.of_nat (length ds) in
  let dp := nd + k in
  let eprec := if (nd <? prec) && (dp <=? nd) then nd else prec in
  if (dp - 1 <? -4) || (eprec <=? dp - 1) then fmt_e ds k else fmt_f ds k.

(** [strconv.FormatFloat(f, 'f', 0, 64)] of a positive double. *)
Definition fmt_f0 (m e : Z) : bytes :=
  let '(num, den) := f64_frac m e in FormatUint (round_even num den).
