(* ===== verification/JsonCanon.v ===== *)
(** * The JSON canonicalizer

    [internal/pkg/jsoncanonicalizer]: [Transform] rewrites a JSON text into
    the canonical form of RFC 8785 (members sorted by the UTF-16 code units
    of their names, no white space, minimal escapes, ES6 numbers), and
    [pkg/canonicalizer.MarshalCanonical] applies it to marshalled values.
    The state of the closures of [Transform] is the read index and the first
    error; the mutually recursive parsers take fuel, and running out of it
    is the result [None]. *)

From S2P Require Import Prelude GoStrings Utf GoJson GoFloat.

Open Scope Z_scope.

(** ** Errors *)

Inductive canon_error :=
| ENonAscii
| EEof
| EExpected (expected got : ascii)
| EBadHex (digits : bytes)
| EUnterminated
| EMissingSurrogate
| EBadEscape (c : ascii)
| EMissingArgument
| ENumber (token : bytes) (e : num_error)
| EInvalidNumber (bits : Z)
| EDuplicateKey (name : bytes)
| ETrailing.

#[export] Instance num_error_eq_dec : EqDecision num_error.
Proof. solve_decision. Defined.
#[export] Instance canon_error_eq_dec : EqDecision canon_error.
Proof. solve_decision. Defined.

(** ** Numbers: es6numfmt.go *)

Definition invalidPattern : Z := 2047 * 2 ^ 52.

(** [a < b] on positive finite doubles. *)
Definition f64_lt (m1 e1 m2 e2 : Z) : bool :=
  let '(n1, d1) := f64_frac m1 e1 in
  let '(n2, d2) := f64_frac m2 e2 in
  n1 * d2 <? n2 * d1.

Definition lt_const (m e num den : Z) : bool :=
  match round_pos num den with Some (m2, e2) => f64_lt m e m2 e2 | None => true end.

Fixpoint IndexByte (s : bytes) (c : ascii) : option nat :=
  match s with
  | [] => None
  | d :: s' => if bool_decide (d = c) then Some 0%nat else S <$> IndexByte s' c
  end.

(** The length of [s] without its trailing zeros. *)
Definition trim_zeros_len (s : bytes) : nat :=
  length (reverse (trim_left (length s) ["0" : bytes] (reverse s))).

(** The correction of the exponent form. *)
Definition fix_exponent (m e : Z) (es6 : bytes) (exponent : nat) : bytes :=
  let gform := let '(ds, k) := fixed_digits m e 17 in fmt_g ds k 17 in
  let es6 := if (length gform =? length es6)%nat then gform else es6 in
  if bool_decide (es6 !! (exponent + 2)%nat = Some "0"%char)
  then take (exponent + 2) es6 ++ drop (exponent + 3) es6
  else es6.

(** The correction of long integers. *)
Definition fix_integer (m e : Z) (es6 : bytes) : bytes :=
  let i := trim_zeros_len es6 in
  if (i =? length es6)%nat then es6
  else
    let fix_ := fmt_f0 m e in
    match fix_ !! i, fix_ !! pred i with
    | Some d, Some d' =>
        if 53 <=? bval d then take (pred i) fix_ ++ chr (bval d' + 1) :: drop i es6 else es6
    | _, _ => es6
    end.

(** [NumberToJSON]. *)
Definition NumberToJSON (ieeeF64 : f64) : bytes * option canon_error :=
  let ieeeU64 := Float64bits ieeeF64 in
  if Z.land ieeeU64 invalidPattern =? invalidPattern
  then ("null" : bytes, Some (EInvalidNumber ieeeU64))
  else
    match ieeeF64 with
    | FFin neg m e =>
        if m =? 0 then ("0" : bytes, None)
        else
          let sign : bytes := if neg then "-" else "" in
          let '(ds, k) := shortest_digits m e in
          let es6 :=
            if lt_const m e (10 ^ 21) 1 && negb (lt_const m e 1 (10 ^ 6))
            then fmt_f ds k else fmt_e ds k in
          let es6 :=
            match IndexByte es6 "e" with
            | Some (S exponent) => fix_exponent m e es6 (S exponent)
            | _ =>
                match IndexByte es6 "." with
                | None => if (12 <=? length es6)%nat then fix_integer m e es6 else es6
                | Some _ => es6
                end
            end in
          (sign ++ es6, None)
    | _ => ("null" : bytes, Some (EInvalidNumber ieeeU64))
    end.

(** ** The scanner *)

Definition asciiEscapes : bytes := [backslash; quote_c; "b"; "f"; "n"; "r"; "t"]%char.
Definition binaryEscapes : bytes := [backslash; quote_c; chr 8; chr 12; chr 10; chr 13; chr 9].
Definition literals : list bytes := ["true" : bytes; "false" : bytes; "null" : bytes].

Record state := State { index : nat; globalError : option canon_error }.

Definition checkError (e : option canon_error) (st : state) : state :=
  match globalError st with
  | None => State (index st) e
  | Some _ => st
  end.
Definition setError (e : canon_error) (st : state) : state := checkError (Some e) st.
Definition no_error (st : state) : bool := bool_decide (globalError st = None).
Definition advance (st : state) : state := State (S (index st)) (globalError st).

Definition isWhiteSpace (c : ascii) : bool :=
  (bval c =? 32) || (bval c =? 10) || (bval c =? 13) || (bval c =? 9).

(** Position of a byte in the escape tables. *)
Definition escape_of (from to : bytes) (c : ascii) : option ascii :=
  i ← IndexByte from c; to !! i.

Definition decorate_byte (c : ascii) : bytes :=
  match escape_of binaryEscapes asciiEscapes c with
  | Some e => [backslash; e]
  | None => if bval c <? 32 then u00 c else [c]
  end.

(** [decorateString]: quotes a string with the minimal escapes. *)
Definition decorateString (rawUTF8 : bytes) : bytes :=
  quote_c :: (rawUTF8 ≫= decorate_byte) ++ [quote_c].

Record nameValueType := NameValue { nv_name : bytes; nv_sortKey : list Z; nv_value : bytes }.

Section transform.
Variable jsonData : bytes.

Definition nextChar (st : state) : ascii * state :=
  match jsonData !! index st with
  | Some c => (c, advance (if 127 <? bval c then setError ENonAscii st else st))
  | None => (quote_c, setError EEof st)
  end.

(** At most one round per byte, and one for the end of the data. *)
Fixpoint scan_loop (fuel : nat) (st : state) : ascii * state :=
  let '(c, st') := nextChar st in
  if isWhiteSpace c then
    match fuel with O => (c, st') | S f => scan_loop f st' end
  else (c, st').
Definition scan (st : state) : ascii * state := scan_loop (length jsonData) st.

Definition scanFor (expected : ascii) (st : state) : state :=
  let '(c, st) := scan st in
  if bool_decide (c = expected) then st else setError (EExpected expected c) st.

Definition getUEscape (st : state) : Z * state :=
  let start := index st in
  let '(_, st) := nextChar st in
  let '(_, st) := nextChar st in
  let '(_, st) := nextChar st in
  let '(_, st) := nextChar st in
  if no_error st then
    match take (index st - start) (drop start jsonData) with
    | [a; b; c; d] =>
        match hex4 a b c d with
        | Some u16 => (u16, st)
        | None => (0, checkError (Some (EBadHex [a; b; c; d])) st)
        end
    | ds => (0, checkError (Some (EBadHex ds)) st)
    end
  else (0, st).

Definition testNextNonWhiteSpaceChar (st : state) : ascii * state :=
  let save := index st in
  let '(c, st) := scan st in
  (c, State save (globalError st)).

(** The part of [parseQuotedString]'s loop after a backslash: the bytes
    appended to the raw string. *)
Definition parseEscape (st : state) : bytes * state :=
  let '(c, st) := nextChar st in
  if bool_decide (c = "u"%char) then
    let '(firstUTF16, st) := getUEscape st in
    if is_surrogate firstUTF16 then
      let '(c1, st) := nextChar st in
      if bool_decide (c1 = backslash) then
        let '(c2, st) := nextChar st in
        if bool_decide (c2 = "u"%char) then
          let '(second, st) := getUEscape st in
          (encode_rune (utf16_decode firstUTF16 second), st)
        else ([], setError EMissingSurrogate st)
      else ([], setError EMissingSurrogate st)
    else (encode_rune firstUTF16, st)
  else if bool_decide (c = "/"%char) then (["/"%char], st)
  else
    match escape_of asciiEscapes binaryEscapes c with
    | Some b => ([b], st)
    | None => ([], setError (EBadEscape c) st)
    end.

(** Each round consumes a byte or ends the loop. *)
Fixpoint quoted_loop (fuel : nat) (st : state) (rawString : bytes) : bytes * state :=
  match fuel with
  | O => (rawString, st)
  | S f =>
      if no_error st then
        match jsonData !! index st with
        | None => (rawString, (nextChar st).2)
        | Some c =>
            let st := advance st in
            if bool_decide (c = quote_c) then (rawString, st)
            else if bval c <? 32 then quoted_loop f (setError EUnterminated st) rawString
            else if bool_decide (c = backslash) then
              let '(bs, st) := parseEscape st in quoted_loop f st (rawString ++ bs)
            else quoted_loop f st (rawString ++ [c])
        end
      else (rawString, st)
  end.
Definition parseQuotedString (st : state) : bytes * state :=
  quoted_loop (S (length jsonData)) st [].

Definition is_delimiter (c : ascii) : bool :=
  bool_decide (c = ","%char) || bool_decide (c = "]"%char) || bool_decide (c = "}"%char).

Fixpoint token_loop (fuel : nat) (st : state) (token : bytes) : bytes * state :=
  match fuel with
  | O => (token, st)
  | S f =>
      if no_error st then
        let '(c, st) := testNextNonWhiteSpaceChar st in
        if is_delimiter c then (token, st)
        else
          let '(c, st) := nextChar st in
          if isWhiteSpace c then (token, st) else token_loop f st (token ++ [c])
      else (token, st)
  end.

Definition parseSimpleType (st : state) : bytes * state :=
  let st := State (pred (index st)) (globalError st) in
  let '(value, st) := token_loop (S (S (length jsonData))) st [] in
  let st := if bool_decide (value = []) then setError EMissingArgument st else st in
  if existsb (beq value) literals then (value, st)
  else
    let '(ieeeF64, err) := ParseFloat value in
    let st := checkError (ENumber value <$> err) st in
    let '(value, err) := NumberToJSON ieeeF64 in
    (value, checkError err st).

(** [lexicographicallyPrecedes]: [None] when the keys are equal. *)
Fixpoint compare_keys (sortKey oldSortKey : list Z) : option bool :=
  match sortKey, oldSortKey with
  | a :: s, b :: o => if a - b <? 0 then Some true else if a - b >? 0 then Some false else compare_keys s o
  | [], _ :: _ => Some true
  | [], [] => None
  | _ :: _, [] => Some false
  end.

Definition lexicographicallyPrecedes (sortKey : list Z) (e : nameValueType) (st : state) : bool * state :=
  match compare_keys sortKey (nv_sortKey e) with
  | Some b => (b, st)
  | None => (false, setError (EDuplicateKey (nv_name e)) st)
  end.

(** The search for the place of a new member in the sorted list. *)
Fixpoint insert_member (nv : nameValueType) (l : list nameValueType) (st : state) : list nameValueType * state :=
  match l with
  | [] => ([nv], st)
  | e :: l' =>
      let '(b, st) := lexicographicallyPrecedes (nv_sortKey nv) e st in
      if (b : bool) then (nv :: e :: l', st)
      else let '(r, st) := insert_member nv l' st in (e :: r, st)
  end.

Definition serialize_member (nv : nameValueType) : bytes :=
  decorateString (nv_name nv) ++ ":"%char :: nv_value nv.
Definition serialize_object (l : list nameValueType) : bytes :=
  "{"%char :: Join (List.map serialize_member l) "," ++ ["}"%char].

Fixpoint parseElement (fuel : nat) (st : state) : option (bytes * state) :=
  match fuel with
  | O => None
  | S f =>
      let '(c, st) := scan st in
      if bool_decide (c = "{"%char) then object_loop f st false []
      else if bool_decide (c = quote_c) then
        let '(raw, st) := parseQuotedString st in Some (decorateString raw, st)
      else if bool_decide (c = "["%char) then array_loop f st false ["["%char]
      else Some (parseSimpleType st)
  end
with array_loop (fuel : nat) (st : state) (next : bool) (arrayData : bytes) : option (bytes * state) :=
  match fuel with
  | O => None
  | S f =>
      let '(go, st) :=
        if no_error st then
          let '(c, st) := testNextNonWhiteSpaceChar st in (negb (bool_decide (c = "]"%char)), st)
        else (false, st) in
      if (go : bool) then
        let '(arrayData, st) :=
          if next then (arrayData ++ [","%char], scanFor "," st) else (arrayData, st) in
        '(v, st) ← parseElement f st;
        array_loop f st true (arrayData ++ v)
      else
        let '(_, st) := scan st in Some (arrayData ++ ["]"%char], st)
  end
with object_loop (fuel : nat) (st : state) (next : bool) (nameValueList : list nameValueType)
    : option (bytes * state) :=
  match fuel with
  | O => None
  | S f =>
      let finish st := let '(_, st) := scan st in Some (serialize_object nameValueList, st) in
      let '(go, st) :=
        if no_error st then
          let '(c, st) := testNextNonWhiteSpaceChar st in (negb (bool_decide (c = "}"%char)), st)
        else (false, st) in
      if (go : bool) then
        let st := if next then scanFor "," st else st in
        let st := scanFor quote_c st in
        let '(rawUTF8, st) := parseQuotedString st in
        if no_error st then
          let sortKey := utf16_encode (runes rawUTF8) in
          let st := scanFor ":" st in
          '(v, st) ← parseElement f st;
          let '(l, st) := insert_member (NameValue rawUTF8 sortKey v) nameValueList st in
          object_loop f st true l
        else finish st
      else finish st
  end.

(** Only white space may follow the value. *)
Fixpoint check_trailing (s : bytes) (st : state) : state :=
  match s with
  | [] => st
  | c :: s' => if isWhiteSpace c then check_trailing s' (advance st) else setError ETrailing st
  end.

(** [Transform]: the text and the first error. *)
Definition Transform_fuel (fuel : nat) : option (bytes * option canon_error) :=
  let st := State 0 None in
  let '(c, st) := testNextNonWhiteSpaceChar st in
  '(transformed, st) ←
    (if bool_decide (c = "["%char) then
       let '(_, st) := scan st in array_loop fuel st false ["["%char]
     else object_loop fuel (scanFor "{" st) false []);
  let st := check_trailing (drop (index st) jsonData) st in
  Some (transformed, globalError st).
End transform.

(** Two calls at most per byte of the input, and one for an error. *)
Definition Transform (jsonData : bytes) : option (bytes * option canon_error) :=
  Transform_fuel jsonData (3 * length jsonData + 4).
