(* ===== verification/GoFloatFacts.v ===== *)
(** * Facts about [float64] conversions

    A rational that is a double rounds to itself, and every integer below
    [2^53] survives: its decimal text is parsed exactly and printed back by
    the canonicalizer as it was. *)

From S2P Require Import Prelude GoStrings Utf GoJson GoFloat JsonCanon.

Open Scope Z_scope.

(** ** Decimal texts *)

Lemma dec_aux_acc f n acc : dec_aux f n acc = dec_aux f n [] ++ acc.
Proof.
  revert n acc. induction f as [|f IH]; intros n acc; [done|]. cbn [dec_aux].
  destruct (n <? 10); [done|]. rewrite IH, (IH _ [_]). by rewrite <- app_assoc.
Qed.

Lemma dec_aux_fuel f f' n :
  0 ≤ n → (Z.to_nat (Z.log2 n) < f)%nat → (Z.to_nat (Z.log2 n) < f')%nat → dec_aux f n [] = dec_aux f' n [].
Proof.
  revert f' n. induction f as [|f IH]; intros f' n Hn Hf Hf'; [lia|]. destruct f' as [|f']; [lia|].
  cbn [dec_aux]. destruct (Z.ltb_spec n 10); [done|]. rewrite dec_aux_acc, (dec_aux_acc f').
  f_equal. apply IH; [apply Z.div_pos; lia|apply log2_div10; lia..].
Qed.

Lemma FormatUint_step n : 10 ≤ n → FormatUint n = FormatUint (n / 10) ++ [digit (n mod 10)].
Proof.
  intros Hn. unfold FormatUint at 1. cbn [dec_aux]. destruct (Z.ltb_spec n 10); [lia|].
  rewrite dec_aux_acc. f_equal. apply dec_aux_fuel; [apply Z.div_pos; lia|apply log2_div10; lia|lia].
Qed.

Lemma FormatUint_times_pow d k :
  1 ≤ d → 0 ≤ k → FormatUint (d * 10 ^ k) = FormatUint d ++ zeros k.
Proof.
  intros Hd Hk. revert k Hk. apply natlike_ind; [by rewrite Z.mul_1_r, app_nil_r|].
  intros k Hk IH. rewrite Z.pow_succ_r by done.
  assert (1 ≤ 10 ^ k) by (pose proof (Z.pow_pos_nonneg 10 k); lia).
  rewrite FormatUint_step by nia. replace (d * (10 * 10 ^ k)) with (d * 10 ^ k * 10) by ring.
  rewrite Z.div_mul, Z.mod_mul, IH by lia. unfold zeros. rewrite Z2Nat.inj_succ by done.
  rewrite replicate_S_end. by rewrite <- app_assoc.
Qed.

Lemma dec_val_lt s : forallb is_digit s = true → dec_val s < 10 ^ Z.of_nat (length s).
Proof.
  induction s as [|c s IH] using rev_ind; [done|]. rewrite forallb_app. cbn [forallb].
  intros [Hs Hc]%andb_prop. rewrite andb_true_r in Hc.
  rewrite dec_val_app, length_app. cbn [length]. change (dec_val [c]) with (digit_val c).
  replace (Z.of_nat (length s + 1)) with (Z.succ (Z.of_nat (length s))) by lia.
  rewrite Z.pow_succ_r by lia. specialize (IH Hs). unfold is_digit, digit_val in *.
  change (10 ^ Z.of_nat 1) with 10. apply andb_prop in Hc as [? ?]. lia.
Qed.

(** A number has [n] digits exactly when it is between powers of ten. *)
Lemma FormatUint_length n :
  1 ≤ n → 10 ^ (Z.of_nat (length (FormatUint n)) - 1) ≤ n < 10 ^ Z.of_nat (length (FormatUint n)).
Proof.
  intros Hn. destruct (FormatUint_spec n) as (Hne & Hd & Hv); [lia|].
  destruct (FormatUint_nonzero n Hn) as (c & s & E & Hc).
  split; [|rewrite <- Hv at 1; by apply dec_val_lt].
  rewrite E in *. cbn [length]. replace (Z.of_nat (S (length s)) - 1) with (Z.of_nat (length s)) by lia.
  rewrite dec_val_cons in Hv. cbn [forallb] in Hd. apply andb_prop in Hd as [Hd Hds].
  pose proof (dec_val_nonneg s Hds). pose proof (Z.pow_pos_nonneg 10 (Z.of_nat (length s))).
  assert (1 ≤ digit_val c); [|nia]. unfold is_digit, digit_val in *. apply andb_prop in Hd as [? ?].
  assert (bval c ≠ 48); [|lia]. intros Hb. apply Hc, bval_inj. done.
Qed.

(** ** Rounding a double to itself *)

(** [num / den = m · 2^e]. *)
Definition is_value (num den m e : Z) : Prop :=
  if 0 <=? e then num = m * 2 ^ e * den else num * 2 ^ (- e) = m * den.

Definition normal (m e : Z) : Prop := 2 ^ 52 ≤ m < 2 ^ 53 ∧ min_exp ≤ e ≤ max_exp.

Lemma round_even_exact a b : 0 < b → a mod b = 0 → round_even a b = a / b.
Proof. intros Hb Hm. unfold round_even. rewrite Hm. destruct (Z.ltb_spec (2 * 0) b); [done|lia]. Qed.

(** Comparing [num / den] with [c · 2^e] by the scaled fraction. *)
Lemma scale2_value num den m e e1 a b :
  0 < den → is_value num den m e → scale2 num den e1 = (a, b) →
  0 < b ∧ (e1 ≤ e → a = m * 2 ^ (e - e1) * b).
Proof.
  intros Hd Hv Hs. unfold is_value, scale2 in *.
  destruct (Z.leb_spec e1 0); simplify_eq.
  - split; [done|]. intros He. destruct (Z.leb_spec 0 e).
    + rewrite Hv. replace (e - e1) with (e + - e1) by lia. rewrite Z.pow_add_r by lia. ring.
    + replace (- e1) with (- e + (e - e1)) by lia. rewrite Z.pow_add_r, Z.mul_assoc, Hv by lia. ring.
  - pose proof (Z.pow_pos_nonneg 2 e1). split; [nia|]. intros He. destruct (Z.leb_spec 0 e); [|lia].
    rewrite Hv. replace e with (e - e1 + e1) at 1 by lia. rewrite Z.pow_add_r by lia. ring.
Qed.

Lemma value_log2 num den m e :
  0 < num → 0 < den → is_value num den m e → 2 ^ 52 ≤ m < 2 ^ 53 →
  e + 52 ≤ Z.log2 num - Z.log2 den ≤ e + 53.
Proof.
  intros Hn Hd Hv Hm.
  assert (Z.log2 num = Z.log2 (m * den) + e) as ->.
  { unfold is_value in Hv. destruct (Z.leb_spec 0 e).
    - rewrite Hv. replace (m * 2 ^ e * den) with (m * den * 2 ^ e) by ring. rewrite Z.log2_mul_pow2 by nia. lia.
    - rewrite <- Hv, Z.log2_mul_pow2 by lia. lia. }
  pose proof (Z.log2_spec den Hd) as [Hl Hu]. pose proof (Z.log2_nonneg den).
  assert (52 + Z.log2 den ≤ Z.log2 (m * den)).
  { apply Z.log2_le_pow2; [nia|]. rewrite Z.pow_add_r by lia. nia. }
  assert (Z.log2 (m * den) < 54 + Z.log2 den); [|lia].
  apply Z.log2_lt_pow2; [nia|]. replace (54 + Z.log2 den) with (53 + Z.succ (Z.log2 den)) by lia.
  rewrite Z.pow_add_r by lia. nia.
Qed.

Lemma pick_exp_value num den m e :
  0 < num → 0 < den → is_value num den m e → normal m e → pick_exp num den = e.
Proof.
  intros Hn Hd Hv [Hm He]. pose proof (value_log2 num den m e Hn Hd Hv Hm) as Hl.
  unfold pick_exp. destruct (scale2 _ _ _) as [a b] eqn:Es.
  destruct (scale2_value _ _ _ _ _ _ _ Hd Hv Es) as [Hb Ha]. specialize (Ha ltac:(lia)).
  assert (Z.log2 num - Z.log2 den - 53 = e ∨ Z.log2 num - Z.log2 den - 53 = e - 1) as [E|E] by lia;
    rewrite E in *.
  - replace (e - e) with 0 in Ha by lia. destruct (Z.leb_spec (2 ^ 53 * b) a); [nia|]. lia.
  - replace (e - (e - 1)) with 1 in Ha by lia. destruct (Z.leb_spec (2 ^ 53 * b) a); [lia|nia].
Qed.

(** The double nearest to a double is itself. *)
Lemma round_pos_value num den m e :
  0 < num → 0 < den → is_value num den m e → normal m e → round_pos num den = Some (m, e).
Proof.
  intros Hn Hd Hv Hne. unfold round_pos. rewrite (pick_exp_value _ _ m e) by done.
  destruct (scale2 num den e) as [a b] eqn:Es.
  destruct (scale2_value _ _ _ _ _ _ _ Hd Hv Es) as [Hb Ha]. specialize (Ha ltac:(lia)).
  rewrite Z.sub_diag, Z.pow_0_r, Z.mul_1_r in Ha. subst a.
  rewrite round_even_exact, Z.div_mul by (lia || by rewrite Z.mod_mul by lia).
  destruct Hne as [Hm He]. destruct (Z.eqb_spec m (2 ^ 53)); [lia|].
  destruct (Z.leb_spec e max_exp); [done|lia].
Qed.

(** ** Integers below [2^53] *)

(** The double of a positive integer. *)
Definition int_exp (n : Z) : Z := Z.log2 n - 52.
Definition int_mant (n : Z) : Z := n * 2 ^ (52 - Z.log2 n).

Section integers.
Context (n : Z) (Hn : 1 ≤ n < 2 ^ 53).

Lemma int_log2 : 0 ≤ Z.log2 n ≤ 52.
Proof.
  split; [apply Z.log2_nonneg|]. assert (Z.log2 n < 53); [|lia]. apply Z.log2_lt_pow2; lia.
Qed.

Lemma int_normal : normal (int_mant n) (int_exp n).
Proof.
  pose proof int_log2. unfold normal, int_mant, int_exp, min_exp, max_exp. split; [|lia].
  pose proof (Z.log2_spec n ltac:(lia)) as [Hl Hu].
  replace (2 ^ 52) with (2 ^ Z.log2 n * 2 ^ (52 - Z.log2 n)) by (rewrite <- Z.pow_add_r by lia; f_equal; lia).
  replace (2 ^ 53) with (2 ^ Z.succ (Z.log2 n) * 2 ^ (52 - Z.log2 n))
    by (rewrite <- Z.pow_add_r by lia; f_equal; lia).
  pose proof (Z.pow_pos_nonneg 2 (52 - Z.log2 n)). nia.
Qed.

Lemma int_value den : is_value (n * den) den (int_mant n) (int_exp n).
Proof.
  pose proof int_log2. unfold is_value, int_exp, int_mant. destruct (Z.leb_spec 0 (Z.log2 n - 52)).
  - replace (Z.log2 n) with 52 by lia. rewrite Z.sub_diag, Z.pow_0_r. ring.
  - replace (- (Z.log2 n - 52)) with (52 - Z.log2 n) by lia. ring.
Qed.

Lemma int_frac : ∃ den, 0 < den ∧ f64_frac (int_mant n) (int_exp n) = (n * den, den).
Proof.
  pose proof int_log2. unfold f64_frac, frac2, int_mant, int_exp.
  destruct (Z.leb_spec 0 (Z.log2 n - 52)).
  - exists 1. split; [lia|]. replace (Z.log2 n) with 52 by lia. rewrite Z.sub_diag, Z.pow_0_r. f_equal; ring.
  - exists (2 ^ (52 - Z.log2 n)). split; [apply Z.pow_pos_nonneg; lia|]. do 2 f_equal. lia.
Qed.
End integers.

Lemma int_round n : 1 ≤ n < 2 ^ 53 → round_pos n 1 = Some (int_mant n, int_exp n).
Proof.
  intros Hn. apply round_pos_value; [lia..| |by apply int_normal].
  rewrite <- (Z.mul_1_r n) at 1. by apply int_value.
Qed.

(** Larger integers round to doubles with a positive exponent. *)
Lemma large_round v m e : 2 ^ 53 ≤ v → round_pos v 1 = Some (m, e) → 1 ≤ e.
Proof.
  intros Hv. unfold round_pos.
  assert (1 ≤ pick_exp v 1) as Hp.
  { unfold pick_exp. assert (53 ≤ Z.log2 v) by (apply Z.log2_le_pow2; lia).
    change (Z.log2 1) with 0. destruct (scale2 _ _ _) as [a b] eqn:Es.
    destruct (Z.leb_spec (2 ^ 53 * b) a) as [Ha|Ha]; [lia|]. exfalso.
    pose proof (Z.log2_spec v ltac:(lia)) as [Hl _]. unfold scale2 in Es.
    destruct (Z.leb_spec (Z.log2 v - 0 - 53) 0); injection Es as <- <-.
    - replace (Z.log2 v) with 53 in * by lia. change (- (53 - 0 - 53)) with 0 in Ha. lia.
    - replace (Z.log2 v) with (53 + (Z.log2 v - 0 - 53)) in Hl by lia. rewrite Z.pow_add_r in Hl by lia. nia. }
  destruct (scale2 _ _ _). destruct (_ =? _); destruct (_ <=? _); intros; simplify_eq; lia.
Qed.

(** No other integer has the double of [n]. *)
Lemma int_round_inj n v :
  1 ≤ n < 2 ^ 53 → 1 ≤ v → round_pos v 1 = Some (int_mant n, int_exp n) → v = n.
Proof.
  intros Hn Hv Hr. pose proof (int_log2 n Hn). destruct (Z.le_gt_cases (2 ^ 53) v) as [Hb|Hs].
  { apply large_round in Hr; [|done]. unfold int_exp in Hr. lia. }
  rewrite int_round in Hr by lia. simplify_eq. unfold int_exp, int_mant in *.
  assert (Z.log2 v = Z.log2 n) as E by lia. rewrite E in *.
  pose proof (Z.pow_pos_nonneg 2 (52 - Z.log2 n)). nia.
Qed.

(** ** The shortest digits of an integer *)

Section shortest.
Context (n den : Z) (Hn : 1 ≤ n < 2 ^ 53) (Hden : 0 < den).
Abbreviation dp := (Z.of_nat (length (FormatUint n))).

Lemma rounds_to_int d k :
  1 ≤ d → 0 ≤ k → rounds_to (int_mant n) (int_exp n) d k = true ↔ d * 10 ^ k = n.
Proof.
  intros Hd Hk. unfold rounds_to, frac10. destruct (Z.leb_spec 0 k); [|lia].
  pose proof (Z.pow_pos_nonneg 10 k). split.
  - destruct (round_pos _ _) as [[m e]|] eqn:E; [|done].
    intros [->%Z.eqb_eq ->%Z.eqb_eq]%andb_prop. apply int_round_inj; [done|nia|done].
  - intros ->. rewrite int_round by done. by rewrite !Z.eqb_refl.
Qed.

Lemma in_units_div j a b :
  j ≤ dp → in_units (n * den) den dp j = (a, b) → a / b = n / 10 ^ (dp - j).
Proof.
  intros Hj. unfold in_units. destruct (Z.leb_spec dp j); intros [= <- <-].
  - replace (j - dp) with 0 by lia. replace (dp - j) with 0 by lia.
    rewrite Z.pow_0_r, Z.mul_1_r, Z.div_mul, Z.div_1_r by lia. done.
  - pose proof (Z.pow_pos_nonneg 10 (dp - j)).
    rewrite (Z.mul_comm den), Z.div_mul_cancel_r by lia. done.
Qed.

Lemma leading_digits j : 1 ≤ j ≤ dp → 1 ≤ n / 10 ^ (dp - j).
Proof.
  intros Hj. pose proof (FormatUint_length n ltac:(lia)) as [Hl _].
  apply Z.div_le_lower_bound; [apply Z.pow_pos_nonneg; lia|].
  assert (10 ^ (dp - j) ≤ 10 ^ (dp - 1)) by (apply Z.pow_le_mono_r; lia). lia.
Qed.

Lemma candidate_int j d :
  1 ≤ j ≤ dp → candidate (int_mant n) (int_exp n) (n * den) den dp j = Some d →
  1 ≤ d ∧ d * 10 ^ (dp - j) = n.
Proof.
  intros Hj. unfold candidate. destruct (in_units _ _ _ _) as [a b] eqn:E.
  rewrite (in_units_div j a b ltac:(lia) E). pose proof (leading_digits j Hj) as Hlo.
  generalize dependent (n / 10 ^ (dp - j)). intros lo Hlo. pose proof (Z.pow_pos_nonneg 10 (dp - j)).
  destruct (rounds_to _ _ lo _) eqn:E1, (rounds_to _ _ (lo + 1) _) eqn:E2; cbn [andb];
    try (apply rounds_to_int in E1; [|lia..]); try (apply rounds_to_int in E2; [|lia..]);
    [nia|intros [= <-]; by split|intros [= <-]; split; [lia|done]|done].
Qed.

Lemma candidate_full : candidate (int_mant n) (int_exp n) (n * den) den dp dp ≠ None.
Proof.
  unfold candidate. destruct (in_units _ _ _ _) as [a b] eqn:E.
  rewrite (in_units_div dp a b ltac:(lia) E). replace (dp - dp) with 0 by lia. rewrite Z.pow_0_r, Z.div_1_r.
  rewrite (proj2 (rounds_to_int n 0 ltac:(lia) ltac:(lia))) by lia. by destruct (rounds_to _ _ _ _).
Qed.

Lemma shortest_int fuel j :
  1 ≤ j ≤ dp → dp - j < Z.of_nat fuel →
  ∃ d j', shortest_from fuel (int_mant n) (int_exp n) (n * den) den dp j = Some (d, j') ∧
          j ≤ j' ≤ dp ∧ 1 ≤ d ∧ d * 10 ^ (dp - j') = n.
Proof.
  revert j. induction fuel as [|fuel IH]; intros j Hj Hf; [lia|]. cbn [shortest_from].
  destruct (candidate _ _ _ _ _ j) as [d|] eqn:E.
  - exists d, j. apply candidate_int in E; [|done]. split_and!; [done|lia..].
  - destruct (decide (j = dp)) as [->|Hne]; [by apply candidate_full in E|].
    destruct (IH (j + 1)) as (d & j' & -> & ? & ?); [lia..|]. exists d, j'. split_and!; [done|lia..].
Qed.
End shortest.

Lemma strip_zeros_spec fuel d k d' k' :
  1 ≤ d → 0 ≤ k → strip_zeros fuel d k = (d', k') → 1 ≤ d' ∧ 0 ≤ k' ∧ d' * 10 ^ k' = d * 10 ^ k.
Proof.
  revert d k. induction fuel as [|fuel IH]; intros d k Hd Hk; cbn [strip_zeros]; [by intros [= <- <-]|].
  destruct (Z.eqb_spec (d mod 10) 0) as [Hm|]; [|by intros [= <- <-]].
  destruct (Z.eqb_spec d 0); [lia|]. cbn [andb negb]. intros E.
  pose proof (Z.div_mod d 10 ltac:(lia)) as Hdm. rewrite Hm in Hdm.
  apply IH in E as (? & ? & E); [|lia..]. split_and!; [done..|].
  rewrite E, Z.pow_add_r by lia. change (10 ^ 1) with 10. rewrite Hdm at 2. ring.
Qed.

(** The digits of an integer with its zeros are its decimal text. *)
Lemma digits_of_int d k :
  1 ≤ d → 0 ≤ k → let '(ds, k') := digits_of d k in fmt_f ds k' = FormatUint (d * 10 ^ k).
Proof.
  intros Hd Hk. unfold digits_of. destruct (strip_zeros _ d k) as [d' k'] eqn:E.
  apply strip_zeros_spec in E as (Hd' & Hk' & <-); [|done..].
  unfold fmt_f. destruct (Z.leb_spec 0 k'); [|lia]. by rewrite FormatUint_times_pow.
Qed.

Lemma FormatUint_length_bound n : 1 ≤ n < 2 ^ 53 → Z.of_nat (length (FormatUint n)) ≤ 16.
Proof.
  intros Hn. pose proof (FormatUint_length n ltac:(lia)) as [Hl _].
  destruct (Z.le_gt_cases (Z.of_nat (length (FormatUint n))) 16) as [|Hg]; [done|].
  assert (10 ^ 16 ≤ 10 ^ (Z.of_nat (length (FormatUint n)) - 1)) by (apply Z.pow_le_mono_r; lia). lia.
Qed.

Lemma shortest_digits_int n :
  1 ≤ n < 2 ^ 53 → let '(ds, k) := shortest_digits (int_mant n) (int_exp n) in fmt_f ds k = FormatUint n.
Proof.
  intros Hn. destruct (int_frac n Hn) as (den & Hden & E). unfold shortest_digits. rewrite E.
  assert (decimal_point (n * den) den = Z.of_nat (length (FormatUint n))) as ->.
  { unfold decimal_point. destruct (Z.leb_spec den (n * den)); [|nia]. by rewrite Z.div_mul by lia. }
  pose proof (FormatUint_length_bound n Hn). pose proof (FormatUint_length n ltac:(lia)) as Hl.
  destruct (shortest_int n den Hn Hden 1100 1) as (d & j & -> & Hj & Hd & Ed); [|lia|].
  { split; [lia|]. destruct (FormatUint_nonzero n ltac:(lia)) as (c & s & -> & _). cbn. lia. }
  pose proof (digits_of_int d (Z.of_nat (length (FormatUint n)) - j) ltac:(lia) ltac:(lia)) as Hf.
  destruct (digits_of _ _). by rewrite Hf, Ed.
Qed.

(** ** Printing an integer *)

Lemma bits_finite s k x :
  (s = 0 ∨ s = 2 ^ 63) → 0 ≤ x < 2 ^ 52 → 0 ≤ k < 2047 →
  Z.land (s + (k * 2 ^ 52 + x)) invalidPattern ≠ invalidPattern.
Proof.
  intros Hs Hx Hk E. apply (f_equal (λ z, Z.shiftr z 52)) in E. rewrite Z.shiftr_land in E.
  change (Z.shiftr invalidPattern 52) with (Z.ones 11) in E. rewrite Z.land_ones in E by lia.
  rewrite Z.shiftr_div_pow2 in E by lia. change (Z.ones 11) with 2047 in E.
  destruct Hs as [-> | ->].
  - rewrite Z.add_0_l, Z.div_add_l, (Z.div_small x), Z.add_0_r, Z.mod_small in E by lia. lia.
  - replace (2 ^ 63 + (k * 2 ^ 52 + x)) with ((2048 + k) * 2 ^ 52 + x) in E by lia.
    rewrite Z.div_add_l, (Z.div_small x), Z.add_0_r in E by lia.
    change (2 ^ 11) with 2048 in E. rewrite (Z.add_comm 2048), <- (Z.mul_1_l 2048) in E.
    rewrite Z.mul_1_l in E. rewrite Z.add_mod, Z.mod_same, Z.add_0_r, Z.mod_mod, Z.mod_small in E by lia. lia.
Qed.

Lemma int_bits neg n : 1 ≤ n < 2 ^ 53 →
  (Z.land (Float64bits (FFin neg (int_mant n) (int_exp n))) invalidPattern =? invalidPattern) = false.
Proof.
  intros Hn. apply Z.eqb_neq. destruct (int_normal n Hn) as [Hm He]. pose proof (int_log2 n Hn).
  unfold Float64bits. destruct (Z.ltb_spec (int_mant n) (2 ^ 52)); [lia|].
  unfold int_exp. apply bits_finite; [destruct neg; auto|lia..].
Qed.

Lemma int_below n : 1 ≤ n < 2 ^ 53 → lt_const (int_mant n) (int_exp n) (10 ^ 21) 1 = true.
Proof.
  intros Hn. unfold lt_const. destruct (round_pos (10 ^ 21) 1) as [[m e]|] eqn:E; [|done].
  vm_compute in E. injection E as <- <-. unfold f64_lt. destruct (int_frac n Hn) as (den & Hden & ->).
  vm_compute (f64_frac _ _). apply Z.ltb_lt. nia.
Qed.

Lemma int_above n : 1 ≤ n < 2 ^ 53 → lt_const (int_mant n) (int_exp n) 1 (10 ^ 6) = false.
Proof.
  intros Hn. unfold lt_const. destruct (round_pos 1 (10 ^ 6)) as [[m e]|] eqn:E; [|done].
  vm_compute in E. injection E as <- <-. unfold f64_lt. destruct (int_frac n Hn) as (den & Hden & ->).
  vm_compute (f64_frac _ _). apply Z.ltb_ge. nia.
Qed.

Lemma IndexByte_digits s c : forallb is_digit s = true → is_digit c = false → IndexByte s c = None.
Proof.
  intros Hs Hc. induction s as [|d s IH]; [done|]. cbn [forallb IndexByte] in *.
  apply andb_prop in Hs as [Hd Hs]. rewrite bool_decide_eq_false_2 by congruence. by rewrite IH.
Qed.

Lemma trim_left_zeros fuel s : ∃ k, s = replicate k "0"%char ++ trim_left fuel ["0" : bytes] s.
Proof.
  revert s. induction fuel as [|fuel IH]; intros s; [by exists 0%nat|]. cbn [trim_left first_stripped].
  destruct (strip_prefix "0" s) as [r|] eqn:E; [|by exists 0%nat].
  apply strip_prefix_Some in E. destruct (IH r) as [k Hk]. exists (S k). rewrite E, Hk at 1. done.
Qed.

(** The byte after the last digit that is not zero is a zero. *)
Lemma trim_zeros_lookup s : (trim_zeros_len s < length s)%nat → s !! trim_zeros_len s = Some "0"%char.
Proof.
  unfold trim_zeros_len. destruct (trim_left_zeros (length s) (reverse s)) as [k Hk].
  set (r := trim_left (length s) ["0" : bytes] (reverse s)) in *.
  assert (s = reverse r ++ replicate k "0"%char) as E.
  { rewrite <- (reverse_involutive s), Hk, reverse_app, reverse_replicate. done. }
  intros Hl. rewrite E in Hl |- * at 1. rewrite length_app in Hl.
  rewrite lookup_app_r, Nat.sub_diag by lia. destruct k; [rewrite length_replicate in Hl; lia|done].
Qed.

Lemma fix_integer_int m e n : fmt_f0 m e = FormatUint n → fix_integer m e (FormatUint n) = FormatUint n.
Proof.
  intros E. unfold fix_integer. rewrite E.
  destruct (Nat.eqb_spec (trim_zeros_len (FormatUint n)) (length (FormatUint n))) as [|Hne]; [done|].
  destruct (FormatUint n !! trim_zeros_len (FormatUint n)) as [d|] eqn:Hd; [|done].
  apply lookup_lt_Some in Hd as Hl. rewrite trim_zeros_lookup in Hd by done. injection Hd as <-.
  by destruct (_ !! pred _).
Qed.

Lemma fmt_f0_int n : 1 ≤ n < 2 ^ 53 → fmt_f0 (int_mant n) (int_exp n) = FormatUint n.
Proof.
  intros Hn. unfold fmt_f0. destruct (int_frac n Hn) as (den & Hden & ->).
  by rewrite round_even_exact, Z.div_mul by (lia || by rewrite Z.mod_mul by lia).
Qed.

Lemma NumberToJSON_int neg n : 1 ≤ n < 2 ^ 53 →
  NumberToJSON (FFin neg (int_mant n) (int_exp n)) =
  ((if neg then ["-"%char] else []) ++ FormatUint n, None).
Proof.
  intros Hn. unfold NumberToJSON. rewrite int_bits by done.
  destruct (int_normal n Hn) as [Hm _]. destruct (Z.eqb_spec (int_mant n) 0); [lia|].
  pose proof (shortest_digits_int n Hn) as Hs. destruct (shortest_digits _ _) as [ds k].
  rewrite int_below, int_above by done. cbn [andb negb]. rewrite Hs.
  destruct (FormatUint_spec n) as (_ & Hd & _); [lia|].
  rewrite !IndexByte_digits, fix_integer_int by (done || by apply fmt_f0_int).
  by destruct neg, (_ <=? _)%nat.
Qed.

(** ** Reading an integer *)

Lemma digit_facts c : is_digit c = true →
  lower_c c = c ∧ bool_decide (c = "_"%char) = false ∧ bool_decide (c = "."%char) = false ∧
  bool_decide (c = "-"%char) = false ∧ bool_decide (c = "+"%char) = false ∧ c ≠ "x"%char ∧ c ≠ "i"%char ∧ c ≠ "n"%char.
Proof. byte_cases c. Qed.

Lemma lower_digits s : forallb is_digit s = true → lower s = s.
Proof.
  induction s as [|c s IH]; [done|]. cbn [forallb]. intros [Hc Hs]%andb_prop.
  unfold lower in *. cbn. rewrite IH by done. by destruct (digit_facts c Hc) as [-> _].
Qed.

Lemma scan_mant_digits s : ∀ st,
  forallb is_digit s = true → ms_dot st = false →
  scan_mant false s st =
  (MantState (ms_val st * 10 ^ Z.of_nat (length s) + dec_val s) (ms_frac st) false
     (ms_digits st || negb (bool_decide (s = []))), []).
Proof.
  induction s as [|c s IH]; intros st Hs Hdot.
  { cbn. rewrite orb_false_r. destruct st. cbn in *. subst. f_equal. f_equal. lia. }
  cbn [forallb] in Hs. apply andb_prop in Hs as [Hc Hs]. cbn [scan_mant].
  destruct (digit_facts c Hc) as (_ & -> & -> & _). rewrite Hc, Hdot, IH by done. cbn [ms_val ms_frac ms_digits].
  f_equal. f_equal; [|by rewrite orb_true_r].
  rewrite dec_val_cons. cbn [length]. rewrite Nat2Z.inj_succ, Z.pow_succ_r by lia. ring.
Qed.

Lemma underscores_digits s p : forallb is_digit s = true → p = PStart ∨ p = PDigit →
  underscores_ok false s p = true.
Proof.
  revert p. induction s as [|c s IH]; intros p Hs Hp; [by destruct Hp as [->| ->]|].
  cbn [forallb underscores_ok] in *. apply andb_prop in Hs as [Hc Hs]. rewrite Hc. cbn [orb]. auto.
Qed.

Lemma split_sign_digits s : forallb is_digit s = true → split_sign s = (false, s).
Proof.
  destruct s as [|c s]; [done|]. cbn [forallb split_sign]. intros [Hc _]%andb_prop.
  by destruct (digit_facts c Hc) as (_ & _ & _ & -> & -> & _).
Qed.

Lemma read_special_digits s (neg : bool) :
  s ≠ [] → forallb is_digit s = true → split_sign (if neg then "-"%char :: s else s) = (neg, s) →
  read_special (if neg then "-"%char :: s else s) = None.
Proof.
  intros Hne Hs E. unfold read_special. rewrite E, lower_digits by done.
  destruct s as [|c s]; [done|]. cbn [forallb] in Hs. apply andb_prop in Hs as [Hc Hs].
  destruct (digit_facts c Hc) as (Hl & _ & _ & _ & _ & _ & Hi & Hn). unfold beq.
  rewrite 2!bool_decide_eq_false_2 by (by intros [=]). cbn [orb].
  destruct neg; rewrite bool_decide_eq_false_2; try done; unfold lower; cbn; rewrite ?Hl; by intros [=].
Qed.

Lemma read_float_digits s (neg : bool) :
  s ≠ [] → forallb is_digit s = true → split_sign (if neg then "-"%char :: s else s) = (neg, s) →
  read_float (if neg then "-"%char :: s else s) = Some (Literal neg false (dec_val s) 0).
Proof.
  intros Hne Hs E. unfold read_float. rewrite E.
  assert (strip_prefix "0x" (lower (take 2 s)) = None) as ->.
  { destruct s as [|c [|d s]]; [done|cbn; by case_bool_decide|]. cbn [forallb] in Hs.
    apply andb_prop in Hs as [_ [Hd _]%andb_prop]. destruct (digit_facts d Hd) as (Hl & _ & _ & _ & _ & Hx & _).
    unfold lower. cbn. case_bool_decide; [|done]. rewrite Hl. by rewrite bool_decide_eq_false_2. }
  rewrite scan_mant_digits by done. cbn [ms_digits ms_val ms_frac orb].
  rewrite bool_decide_eq_false_2 by done. cbn -[underscores_ok].
  rewrite underscores_digits by auto. done.
Qed.

Lemma ParseFloat_int n : - 2 ^ 53 < n < 2 ^ 53 → n ≠ 0 →
  ParseFloat (FormatInt n) = (FFin (n <? 0) (int_mant (Z.abs n)) (int_exp (Z.abs n)), None).
Proof.
  intros Hn H0. set (s := FormatUint (Z.abs n)).
  destruct (FormatUint_spec (Z.abs n)) as (Hne & Hd & Hv); [lia|].
  assert (FormatInt n = if n <? 0 then "-"%char :: s else s) as ->.
  { unfold FormatInt, s. destruct (Z.ltb_spec n 0); [by rewrite Z.abs_neq by lia|by rewrite Z.abs_eq]. }
  assert (split_sign (if n <? 0 then "-"%char :: s else s) = (n <? 0, s)) as Hs.
  { destruct (n <? 0); [done|by apply split_sign_digits]. }
  unfold ParseFloat. rewrite read_special_digits, read_float_digits by done.
  unfold literal_value. cbn [lit_mant lit_hex lit_exp lit_neg]. unfold s. rewrite Hv.
  destruct (Z.eqb_spec (Z.abs n) 0); [lia|]. unfold frac10. cbn [Z.leb Z.compare].
  change (10 ^ 0) with 1. rewrite Z.mul_1_r, int_round by lia. done.
Qed.

(** Integers below [2^53] are printed as they were read. *)
Lemma NumberToJSON_ParseFloat_int n : - 2 ^ 53 < n < 2 ^ 53 →
  (ParseFloat (FormatInt n)).2 = None ∧
  NumberToJSON (ParseFloat (FormatInt n)).1 = (FormatInt n, None).
Proof.
  intros Hn. destruct (decide (n = 0)) as [->|H0]; [by vm_compute|].
  rewrite ParseFloat_int by done. split; [done|]. cbn [fst]. rewrite NumberToJSON_int by lia.
  f_equal. unfold FormatInt. destruct (Z.ltb_spec n 0); [by rewrite Z.abs_neq by lia|by rewrite Z.abs_eq].
Qed.
