(* ===== verification/JsonCanonFacts.v ===== *)
(** * Facts about the JSON canonicalizer

    [Transform] always returns; on the text of a document without duplicate
    member names it returns the canonical text of the document, whatever
    escapes the text uses, and no error; the canonical text is a fixed point
    and does not depend on the order of members. *)

From S2P Require Import Prelude GoStrings Utf GoJson GoJsonFacts GoFloat JsonCanon.

Open Scope Z_scope.

(** ** Reading positions

    With no error so far, a state is its remaining input. *)

Section positions.
Variable jsonData : bytes.

Definition pos (rest : bytes) : state := State (length jsonData - length rest) None.

Lemma suffix_cons_inv (c : ascii) rest (data : bytes) :
  (c :: rest) `suffix_of` data → rest `suffix_of` data.
Proof. intros [k ->]. exists (k ++ [c]). by rewrite <- app_assoc. Qed.

Lemma suffix_app_inv (a rest data : bytes) : (a ++ rest) `suffix_of` data → rest `suffix_of` data.
Proof. intros [k ->]. exists (k ++ a). by rewrite app_assoc. Qed.

Lemma lookup_pos c rest :
  (c :: rest) `suffix_of` jsonData → jsonData !! index (pos (c :: rest)) = Some c.
Proof.
  intros [k E]. unfold pos. cbn [index]. rewrite E, length_app.
  replace (length k + length (c :: rest) - length (c :: rest))%nat with (length k) by lia.
  rewrite lookup_app_r by lia. by rewrite Nat.sub_diag.
Qed.

Lemma advance_pos c rest :
  (c :: rest) `suffix_of` jsonData → advance (pos (c :: rest)) = pos rest.
Proof.
  intros Hs. apply suffix_length in Hs. cbn in Hs. unfold advance, pos. cbn. f_equal. lia.
Qed.

Lemma retreat_pos c rest :
  (c :: rest) `suffix_of` jsonData → State (pred (index (pos rest))) None = pos (c :: rest).
Proof. intros Hs. apply suffix_length in Hs. cbn in Hs. unfold pos. cbn. f_equal. lia. Qed.

Lemma drop_pos rest : rest `suffix_of` jsonData → drop (index (pos rest)) jsonData = rest.
Proof.
  intros [k E]. unfold pos. cbn [index]. rewrite E, length_app.
  replace (length k + length rest - length rest)%nat with (length k) by lia. apply drop_app_length.
Qed.

Definition ascii_char (c : ascii) : bool := bval c <? 128.

Lemma nextChar_pos c rest :
  (c :: rest) `suffix_of` jsonData → ascii_char c = true → nextChar jsonData (pos (c :: rest)) = (c, pos rest).
Proof.
  intros Hs Hc. unfold nextChar. rewrite lookup_pos by done.
  unfold ascii_char in Hc. apply Z.ltb_lt in Hc. destruct (Z.ltb_spec 127 (bval c)); [lia|].
  by rewrite advance_pos.
Qed.

(** A byte a scan stops at. *)
Definition visible (c : ascii) : bool := ascii_char c && negb (isWhiteSpace c).

Lemma scan_pos c rest :
  (c :: rest) `suffix_of` jsonData → visible c = true → scan jsonData (pos (c :: rest)) = (c, pos rest).
Proof.
  intros Hs [Hc Hw%negb_true_iff]%andb_prop. unfold scan.
  destruct (length jsonData); cbn [scan_loop]; by rewrite nextChar_pos, Hw.
Qed.

Lemma test_pos c rest :
  (c :: rest) `suffix_of` jsonData → visible c = true →
  testNextNonWhiteSpaceChar jsonData (pos (c :: rest)) = (c, pos (c :: rest)).
Proof. intros Hs Hc. unfold testNextNonWhiteSpaceChar. by rewrite scan_pos. Qed.

Lemma scanFor_pos c rest :
  (c :: rest) `suffix_of` jsonData → visible c = true → scanFor jsonData c (pos (c :: rest)) = pos rest.
Proof. intros Hs Hc. unfold scanFor. by rewrite scan_pos, bool_decide_eq_true_2. Qed.

(** ** String literals *)

(** [units text s]: the text between the quotes stands for [s]. *)
Inductive units : bytes → bytes → Prop :=
| units_nil : units [] []
| units_plain c t s :
    32 ≤ bval c → c ≠ quote_c → c ≠ backslash → units t s → units (c :: t) (c :: s)
| units_escape e b t s :
    escape_of asciiEscapes binaryEscapes e = Some b → units t s → units (backslash :: e :: t) (b :: s)
| units_hex a b c d u t s :
    hex4 a b c d = Some u → is_surrogate u = false → units t s →
    units (backslash :: "u"%char :: a :: b :: c :: d :: t) (encode_rune u ++ s).

Lemma units_app t1 s1 t2 s2 : units t1 s1 → units t2 s2 → units (t1 ++ t2) (s1 ++ s2).
Proof.
  induction 1; intros; cbn [app]; [done|..]; rewrite <- ?app_assoc; constructor; eauto.
Qed.

Lemma escape_char e b :
  escape_of asciiEscapes binaryEscapes e = Some b →
  ascii_char e = true ∧ e ≠ "u"%char ∧ e ≠ "/"%char.
Proof. destruct e as [[] [] [] [] [] [] [] []]; vm_compute; intros; by simplify_eq. Qed.

Lemma hex_val_ascii c x : hex_val c = Some x → ascii_char c = true.
Proof. destruct c as [[] [] [] [] [] [] [] []]; vm_compute; by intros. Qed.

Lemma hex4_ascii a b c d u :
  hex4 a b c d = Some u →
  ascii_char a = true ∧ ascii_char b = true ∧ ascii_char c = true ∧ ascii_char d = true.
Proof.
  unfold hex4. destruct (hex_val a) eqn:?, (hex_val b) eqn:?, (hex_val c) eqn:?, (hex_val d) eqn:?; try done.
  intros _. repeat split; by eapply hex_val_ascii.
Qed.

Lemma getUEscape_pos a b c d rest u :
  (a :: b :: c :: d :: rest) `suffix_of` jsonData → hex4 a b c d = Some u →
  getUEscape jsonData (pos (a :: b :: c :: d :: rest)) = (u, pos rest).
Proof.
  intros Hs Hu. destruct (hex4_ascii _ _ _ _ _ Hu) as (Ha & Hb & Hc & Hd).
  pose proof (suffix_cons_inv _ _ _ Hs) as H1. pose proof (suffix_cons_inv _ _ _ H1) as H2.
  pose proof (suffix_cons_inv _ _ _ H2) as H3. unfold getUEscape.
  rewrite !nextChar_pos by done. rewrite drop_pos by done.
  apply suffix_length in Hs as Hl. cbn in Hl.
  replace (index (pos rest) - index (pos (a :: b :: c :: d :: rest)))%nat with 4%nat by (cbn; lia).
  change (no_error (pos rest)) with true. cbn [take]. by rewrite Hu.
Qed.

Lemma quoted_units text raw : units text raw → ∀ fuel rest acc,
  (text ++ quote_c :: rest) `suffix_of` jsonData → (length text < fuel)%nat →
  quoted_loop jsonData fuel (pos (text ++ quote_c :: rest)) acc = (acc ++ raw, pos rest).
Proof.
  induction 1 as [|c t s Hc Hq Hb _ IH|e b t s He _ IH|a b c d u t s Hu Hsur _ IH];
    intros fuel rest acc Hs Hf; cbn [app length] in *;
    (destruct fuel as [|fuel]; [lia|]); cbn [quoted_loop];
    change (no_error (pos _)) with true; cbv iota; rewrite lookup_pos, advance_pos by done.
  - by rewrite bool_decide_eq_true_2, app_nil_r.
  - rewrite !bool_decide_eq_false_2 by done. destruct (Z.ltb_spec (bval c) 32); [lia|].
    rewrite IH; [by rewrite <- app_assoc|by eapply suffix_cons_inv|lia].
  - rewrite bool_decide_eq_false_2, bool_decide_eq_true_2 by done. cbn [Z.ltb bval].
    change (bval backslash <? 32) with false. cbv iota.
    destruct (escape_char e b He) as (Ha & Hu & Hsl). apply suffix_cons_inv in Hs.
    unfold parseEscape. rewrite nextChar_pos by done. rewrite !bool_decide_eq_false_2, He by done.
    rewrite IH; [by rewrite <- app_assoc|by eapply suffix_cons_inv|lia].
  - rewrite bool_decide_eq_false_2, bool_decide_eq_true_2 by done.
    change (bval backslash <? 32) with false. cbv iota. apply suffix_cons_inv in Hs.
    unfold parseEscape. rewrite nextChar_pos by done. rewrite bool_decide_eq_true_2 by done.
    apply suffix_cons_inv in Hs. rewrite getUEscape_pos with (u := u) by done. rewrite Hsur.
    rewrite IH; [by rewrite <- app_assoc| |lia]. by do 4 apply suffix_cons_inv in Hs.
Qed.

Lemma parseQuotedString_pos text raw rest :
  units text raw → (text ++ quote_c :: rest) `suffix_of` jsonData →
  parseQuotedString jsonData (pos (text ++ quote_c :: rest)) = (raw, pos rest).
Proof.
  intros Hu Hs. unfold parseQuotedString. rewrite (quoted_units _ _ Hu); [done..|].
  apply suffix_length in Hs. rewrite length_app in Hs. cbn in Hs. lia.
Qed.

(** ** Tokens *)

Definition token_char (c : ascii) : bool := visible c && negb (is_delimiter c).

Lemma token_pos w : ∀ fuel d rest acc,
  forallb token_char w = true → is_delimiter d = true →
  (w ++ d :: rest) `suffix_of` jsonData → (length w < fuel)%nat →
  token_loop jsonData fuel (pos (w ++ d :: rest)) acc = (acc ++ w, pos (d :: rest)).
Proof.
  induction w as [|c w IH]; intros fuel d rest acc Hw Hd Hs Hf; cbn [app length forallb] in *;
    (destruct fuel as [|fuel]; [lia|]); cbn [token_loop];
    change (no_error (pos _)) with true; cbv iota.
  - rewrite test_pos by (done || by revert Hd; byte_cases d). by rewrite Hd, app_nil_r.
  - apply andb_prop in Hw as [[Hv Hnd%negb_true_iff]%andb_prop Hw]. rewrite test_pos by done.
    apply andb_prop in Hv as [Ha Hws%negb_true_iff]. rewrite Hnd, nextChar_pos, Hws by done.
    rewrite IH; [by rewrite <- app_assoc|done..|by eapply suffix_cons_inv|lia].
Qed.

(** The canonical text of a number literal. *)
Definition canon_num (lit : bytes) : option bytes :=
  match ParseFloat lit with
  | (f, None) => match NumberToJSON f with (s, None) => Some s | (_, Some _) => None end
  | (_, Some _) => None
  end.

(** The text of a token that is neither a string nor a container. *)
Definition canon_token (w : bytes) : option bytes :=
  if existsb (beq w) literals then Some w else canon_num w.

Lemma parseSimpleType_pos c w d rest out :
  forallb token_char (c :: w) = true → is_delimiter d = true → canon_token (c :: w) = Some out →
  (c :: w ++ d :: rest) `suffix_of` jsonData →
  parseSimpleType jsonData (pos (w ++ d :: rest)) = (out, pos (d :: rest)).
Proof.
  intros Hw Hd Ho Hs. unfold parseSimpleType. change (globalError (pos _)) with (@None canon_error).
  rewrite (retreat_pos c) by done. rewrite (app_comm_cons w).
  rewrite token_pos; [|done..|apply suffix_length in Hs; cbn in *; rewrite length_app in Hs; lia].
  cbn [app]. rewrite bool_decide_eq_false_2 by done. unfold canon_token in Ho.
  destruct (existsb _ _); [by simplify_eq|]. unfold canon_num in Ho.
  destruct (ParseFloat _) as [f [|]]; [done|]. destruct (NumberToJSON f) as [v [|]]; by simplify_eq.
Qed.
End positions.

(** ** The two ways strings are quoted *)

Lemma encode_rune_ascii c : ascii_char c = true → encode_rune (bval c) = [c].
Proof. byte_cases c. Qed.

Lemma units_u00 c : bval c < 128 → units (u00 c) [c].
Proof.
  intros Hc. rewrite <- (app_nil_r [c]), <- encode_rune_ascii by (by apply Z.ltb_lt).
  apply units_hex; [by apply hex4_u00| |constructor].
  unfold is_surrogate. destruct (Z.leb_spec 55296 (bval c)); [lia|done].
Qed.

Lemma escape_inverse c e :
  escape_of binaryEscapes asciiEscapes c = Some e → escape_of asciiEscapes binaryEscapes e = Some c.
Proof. destruct c as [[] [] [] [] [] [] [] []]; vm_compute; intros; by simplify_eq. Qed.

Lemma no_escape_char c :
  escape_of binaryEscapes asciiEscapes c = None → c ≠ quote_c ∧ c ≠ backslash.
Proof. intros Hc. split; intros ->; by vm_compute in Hc. Qed.

Lemma units_decorate_byte c : units (decorate_byte c) [c].
Proof.
  unfold decorate_byte. destruct (escape_of _ _ c) as [e|] eqn:He.
  { apply units_escape; [by apply escape_inverse|constructor]. }
  destruct (Z.ltb_spec (bval c) 32); [apply units_u00; lia|].
  apply no_escape_char in He as [? ?]. apply units_plain; [lia|done..|constructor].
Qed.

Lemma units_decorate s : units (s ≫= decorate_byte) s.
Proof.
  induction s as [|c s IH]; [constructor|]. cbn. rewrite <- (app_nil_l s) at 2.
  rewrite app_comm_cons. apply units_app; [apply units_decorate_byte|done].
Qed.

Lemma units_go_escape c : bval c < 128 → units (go_escape c) [c].
Proof.
  intros Hc. unfold go_escape. destruct (bool_decide (c = quote_c) || bool_decide (c = backslash)) eqn:Hq.
  { apply units_escape; [|constructor].
    apply orb_true_iff in Hq as [->%bool_decide_eq_true| ->%bool_decide_eq_true]; reflexivity. }
  apply orb_false_iff in Hq as [Hq%bool_decide_eq_false Hb%bool_decide_eq_false].
  assert (∀ e z, escape_of asciiEscapes binaryEscapes e = Some (chr z) → bval c = z →
    units [backslash; e] [c]) as Hesc.
  { intros e z He <-. rewrite chr_bval in He. apply units_escape; [done|constructor]. }
  destruct (Z.eqb_spec (bval c) 10); [by eapply Hesc|].
  destruct (Z.eqb_spec (bval c) 13); [by eapply Hesc|].
  destruct (Z.eqb_spec (bval c) 9); [by eapply Hesc|].
  destruct (Z.ltb_spec (bval c) 32); [by apply units_u00|]. cbn [orb].
  destruct (_ || _); [by apply units_u00|]. apply units_plain; [lia|done..|constructor].
Qed.

(** The bytes of a rune after the first are continuation bytes. *)
Lemma rune_len_cont c s n :
  rune_len (c :: s) = Some (S n) → Forall (λ d, 128 ≤ bval d) (take n s).
Proof.
  assert (∀ d, is_cont d = true → 128 ≤ bval d) as Hcont by (intros d; byte_cases d).
  assert (∀ d, second_ok c d = true → 128 ≤ bval d) as Hsec.
  { unfold second_ok, is_cont, in_range. intros d. z_cases; done. }
  cbn [rune_len]. intros Hr. go_cases;
    repeat match goal with H : _ && _ = true |- _ => apply andb_true_iff in H as [? ?] end;
    cbn; repeat constructor; auto.
Qed.

Lemma units_high c t s : 128 ≤ bval c → units t s → units (c :: t) (c :: s).
Proof.
  intros Hc. apply units_plain; [lia|intros ->; by vm_compute in Hc..].
Qed.

Lemma units_line_sep b : is_line_sep b = true →
  units ([backslash; "u"; "2"; "0"; "2"]%char ++ [hex_digit (rune_val b mod 16)]) b.
Proof.
  unfold is_line_sep. intros [->%bool_decide_eq_true| ->%bool_decide_eq_true]%orb_true_iff.
  - refine (units_hex "2" "0" "2" "8" 8232 [] [] _ _ _); [done..|constructor].
  - refine (units_hex "2" "0" "2" "9" 8233 [] [] _ _ _); [done..|constructor].
Qed.

Lemma units_quote_body s : ∀ m,
  (qskip m ≤ length s)%nat → valid_from (qskip m) s = true →
  Forall (λ d, 128 ≤ bval d) (take (qcopy m) s) →
  units (quote_body m s) (qbody m s).
Proof.
  induction s as [|c s IH]; intros m Hm Hv Hh.
  { destruct (qbody_0 m []) as [_ ->]; [cbn in Hm; lia|]. constructor. }
  destruct (decide (qskip m = 0%nat)) as [H0|H0].
  - rewrite quote_body_scan by done. destruct (qbody_0 m (c :: s) H0) as [_ ->].
    rewrite H0 in Hv. apply valid_from_scan in Hv as (n & Hn & Hv).
    pose proof (rune_len_bounds _ _ Hn) as Hb. cbn in Hb. cbn [quote_body].
    destruct (Z.ltb_spec (bval c) 128) as [Hc|Hc].
    + rewrite rune_len_ascii in Hn by done. simplify_eq.
      apply (units_app _ [c]); [by apply units_go_escape|]. apply (IH QScan); [cbn; lia|done..].
    + rewrite Hn. cbn [Nat.pred]. destruct (is_line_sep (take (S n) (c :: s))) eqn:Hs.
      * rewrite <- (take_drop (S n) (c :: s)) at 2.
        apply (units_app ([backslash; "u"; "2"; "0"; "2"]%char ++ [_]) _ (quote_body (QSkip n) s)).
        -- by apply units_line_sep.
        -- apply (IH (QSkip n)); [cbn; lia|done..].
      * apply units_high; [done|]. apply (IH (QCopy n)); [cbn; lia|done|]. by eapply rune_len_cont.
  - destruct m as [|[|k]|[|k]]; cbn in Hm, Hv, H0; try done; cbn [quote_body].
    + cbn in Hh. apply Forall_cons in Hh as [Hc Hh]. apply units_high; [done|].
      apply (IH (QCopy k)); [cbn; lia|done..].
    + apply (IH (QSkip k)); [cbn; lia|done..].
Qed.

(** A quoting of strings that [parseQuotedString] reads back. *)
Definition readable (q : bytes → bytes) (ok_str : bytes → bool) : Prop :=
  ∀ s, ok_str s = true → ∃ text, q s = quote_c :: text ++ [quote_c] ∧ units text s.

Lemma go_quote_readable : readable go_quote valid_utf8.
Proof.
  intros s Hs. eexists. split; [done|]. apply (units_quote_body s QScan); [cbn; lia|done..].
Qed.

Lemma decorate_readable : readable decorateString (λ _, true).
Proof. intros s _. eexists. split; [done|]. apply units_decorate. Qed.

(** ** [json.Unmarshal] reads canonical strings *)

Lemma decorate_high c : 128 ≤ bval c → decorate_byte c = [c].
Proof. destruct c as [[] [] [] [] [] [] [] []]; (by intros []) || reflexivity. Qed.

Lemma decorate_high_all s : Forall (λ d, 128 ≤ bval d) s → s ≫= decorate_byte = s.
Proof. induction 1 as [|c s Hc _ IH]; [done|]. cbn. by rewrite decorate_high, IH. Qed.

Lemma str_body_decorate_byte c t :
  bval c < 128 → str_body 0 (decorate_byte c ++ t) = prepend [c] (str_body 0 t).
Proof.
  intros H. destruct c as [[] [] [] [] [] [] [] []]; try (by exfalso; vm_compute in H); reflexivity.
Qed.

Lemma str_body_decorate s : ∀ k t,
  (k ≤ length s)%nat → valid_from k s = true → Forall (λ d, 128 ≤ bval d) (take k s) →
  str_body k ((s ≫= decorate_byte) ++ quote_c :: t) = Some (s, t).
Proof.
  induction s as [|c s IH]; intros k t Hk Hv Hh.
  { destruct k; [done|]. cbn in Hk. lia. }
  cbn [mbind list_bind]. rewrite <- app_assoc. destruct k as [|k].
  - apply valid_from_scan in Hv as (n & Hn & Hv). destruct (Z.ltb_spec (bval c) 128) as [Hc|Hc].
    + rewrite rune_len_ascii in Hn by done. simplify_eq.
      rewrite str_body_decorate_byte by done. pose proof (IH 0%nat t) as E. cbn [mbind list_bind] in E.
      rewrite E by (done || lia). done.
    + rewrite decorate_high by done. pose proof (rune_len_cont _ _ _ Hn) as Hcont.
      pose proof (rune_len_bounds _ _ Hn) as Hb. cbn in Hb.
      assert (rune_len (c :: (s ≫= decorate_byte) ++ quote_c :: t) = Some (S n)) as Hr.
      { rewrite <- (take_drop n s), bind_app, decorate_high_all, <- app_assoc by done.
        exact (rune_len_take (c :: s) _ (S n) Hn). }
      destruct (high_byte c Hc) as (E1 & E2 & E3). cbn [app str_body mbind list_bind] in Hr |- *.
      rewrite E1, E2, E3, Hr. cbn [Nat.pred]. pose proof (IH n t) as E. cbn [mbind list_bind] in E.
      rewrite E by (done || lia). done.
  - cbn in Hh, Hk, Hv. apply Forall_cons in Hh as [Hc Hh]. rewrite decorate_high by done.
    cbn [app str_body]. pose proof (IH k t) as E. cbn [mbind list_bind] in E |- *. rewrite E by (done || lia). done.
Qed.

Lemma decorate_roundtrip s t :
  valid_utf8 s = true → ∃ r, decorateString s ++ t = quote_c :: r ∧ str_body 0 r = Some (s, t).
Proof.
  intros Hv. eexists. split; [unfold decorateString; rewrite <- app_comm_cons, <- app_assoc; done|].
  apply (str_body_decorate s 0); [lia|done..].
Qed.
