(* ===== verification/Jcs.v ===== *)
(** * The canonical form and its properties

    [canon] gives the canonical document of a document, and the theorems say
    that [Transform] computes its text, for every way of quoting strings the
    canonicalizer reads back. *)

From Stdlib Require Import Sorted.
From stdpp Require Import sorting.
From S2P Require Import Prelude GoStrings Utf GoJson GoJsonFacts GoFloat JsonCanon JsonCanonFacts.

Open Scope Z_scope.

(** ** Canonical documents *)

Definition sort_key (k : bytes) : list Z := utf16_encode (runes k).

(** Insertion of a member before the first one with a greater name. *)
Fixpoint insert_by (p : bytes * json) (l : list (bytes * json)) : list (bytes * json) :=
  match l with
  | [] => [p]
  | e :: l' =>
      match compare_keys (sort_key p.1) (sort_key e.1) with
      | Some true => p :: e :: l'
      | _ => e :: insert_by p l'
      end
  end.
Definition insert_all (acc l : list (bytes * json)) : list (bytes * json) := foldl (flip insert_by) acc l.
Definition sort_members (l : list (bytes * json)) : list (bytes * json) := insert_all [] l.

Fixpoint canon (j : json) : json :=
  match j with
  | JNum lit => JNum (default lit (canon_num lit))
  | JArr l => JArr (List.map canon l)
  | JObj l => JObj (sort_members (List.map (λ kv, (kv.1, canon kv.2)) l))
  | _ => j
  end.

Definition canon_text (j : json) : bytes := render decorateString (canon j).

(** Numbers with a canonical text. *)
Definition num_ok (lit : bytes) : bool :=
  num_lit lit && forallb token_char lit && bool_decide (is_Some (canon_num lit)).

Definition keys_ok (l : list (bytes * json)) : bool := bool_decide (NoDup ((λ kv, sort_key kv.1) <$> l)).

(** Documents that have a canonical form: no member name occurs twice. *)
Fixpoint canon_ok (ok_str : bytes → bool) (j : json) : bool :=
  match j with
  | JNum lit => num_ok lit
  | JStr s => ok_str s
  | JArr l => forallb (canon_ok ok_str) l
  | JObj l => forallb (λ kv, ok_str kv.1 && canon_ok ok_str kv.2) l && keys_ok l
  | _ => true
  end.

(** ** The order of member names *)

Lemma compare_keys_refl a : compare_keys a a = None.
Proof. induction a as [|x a IH]; [done|]. cbn. by rewrite Z.sub_diag. Qed.

Lemma compare_keys_None a b : compare_keys a b = None ↔ a = b.
Proof.
  split; [|intros ->; apply compare_keys_refl].
  revert b. induction a as [|x a IH]; intros [|y b]; try done. cbn.
  destruct (Z.ltb_spec (x - y) 0); [done|]. destruct (Z.gtb_spec (x - y) 0); [done|].
  intros E%IH. f_equal; [lia|done].
Qed.

Lemma compare_keys_flip a b : compare_keys a b = Some true ↔ compare_keys b a = Some false.
Proof.
  revert b. induction a as [|x a IH]; intros [|y b]; cbn; try done.
  destruct (Z.ltb_spec (x - y) 0), (Z.ltb_spec (y - x) 0), (Z.gtb_spec (x - y) 0), (Z.gtb_spec (y - x) 0);
    try lia; done || apply IH.
Qed.

Lemma compare_keys_trans a b c :
  compare_keys a b = Some true → compare_keys b c = Some true → compare_keys a c = Some true.
Proof.
  revert b c. induction a as [|x a IH]; intros [|y b] [|z c]; cbn; try done.
  destruct (Z.ltb_spec (x - y) 0), (Z.ltb_spec (y - z) 0), (Z.ltb_spec (x - z) 0),
    (Z.gtb_spec (x - y) 0), (Z.gtb_spec (y - z) 0), (Z.gtb_spec (x - z) 0); try lia; try done.
  eauto.
Qed.

Definition member_lt (p e : bytes * json) : Prop := compare_keys (sort_key p.1) (sort_key e.1) = Some true.

Lemma insert_by_Permutation p l : insert_by p l ≡ₚ p :: l.
Proof.
  induction l as [|e l IH]; [done|]. cbn. destruct (compare_keys _ _) as [[]|]; [done|..];
    rewrite IH; apply Permutation_swap.
Qed.

Lemma insert_all_Permutation acc l : insert_all acc l ≡ₚ acc ++ l.
Proof.
  revert acc. induction l as [|p l IH]; intros acc; [by rewrite app_nil_r|].
  unfold insert_all in *. cbn. rewrite IH. unfold flip. rewrite insert_by_Permutation.
  apply Permutation_middle.
Qed.

Lemma insert_by_sorted p l :
  StronglySorted member_lt l → sort_key p.1 ∉ (λ kv, sort_key kv.1) <$> l →
  StronglySorted member_lt (insert_by p l).
Proof.
  induction 1 as [|e l Hl IH He]; intros Hp; cbn; [by repeat constructor|].
  cbn in Hp. apply not_elem_of_cons in Hp as [Hpe Hp].
  destruct (compare_keys (sort_key p.1) (sort_key e.1)) as [[]|] eqn:E.
  - constructor; [by constructor|]. constructor; [done|].
    eapply Forall_impl; [exact He|]. intros x. by apply compare_keys_trans.
  - constructor; [by apply IH|]. rewrite insert_by_Permutation. constructor; [|done].
    by apply compare_keys_flip.
  - by apply compare_keys_None in E.
Qed.

Lemma insert_all_sorted acc l :
  StronglySorted member_lt acc → NoDup ((λ kv, sort_key kv.1) <$> acc ++ l) →
  StronglySorted member_lt (insert_all acc l).
Proof.
  revert acc. induction l as [|p l IH]; intros acc Ha Hn; [done|].
  unfold insert_all. cbn. apply IH.
  - apply insert_by_sorted; [done|]. rewrite fmap_app in Hn. cbn in Hn.
    apply NoDup_app in Hn as (_ & Hn & _). set_solver.
  - unfold flip. rewrite insert_by_Permutation. by rewrite <- Permutation_middle in Hn.
Qed.

#[export] Instance member_lt_antisymm : AntiSymm (=) member_lt.
Proof.
  intros p e Hp He. unfold member_lt in *. apply compare_keys_flip in He. congruence.
Qed.

Lemma sort_members_Permutation l : sort_members l ≡ₚ l.
Proof. apply (insert_all_Permutation []). Qed.

Lemma sort_members_sorted l : keys_ok l = true → StronglySorted member_lt (sort_members l).
Proof. intros Hl%bool_decide_eq_true. by apply insert_all_sorted; [constructor|]. Qed.

Lemma keys_ok_Permutation l l' : l ≡ₚ l' → keys_ok l = keys_ok l'.
Proof. intros Hl. unfold keys_ok. apply bool_decide_ext. by rewrite Hl. Qed.

(** The result of sorting does not depend on the order of the members. *)
Lemma sort_members_unique l l' :
  l ≡ₚ l' → keys_ok l = true → sort_members l = sort_members l'.
Proof.
  intros Hp Hk. apply (StronglySorted_unique member_lt).
  - by apply sort_members_sorted.
  - apply sort_members_sorted. by rewrite <- (keys_ok_Permutation l l').
  - by rewrite !sort_members_Permutation.
Qed.

Lemma sort_members_fixed l :
  keys_ok l = true → sort_members (sort_members l) = sort_members l.
Proof.
  intros Hk. apply sort_members_unique; [apply sort_members_Permutation|].
  by rewrite (keys_ok_Permutation _ l) by apply sort_members_Permutation.
Qed.

(** ** Reading a document *)

(** A separator in front of every text. *)
Definition with_commas {A} (f : A → bytes) (l : list A) : bytes := l ≫= (λ x, ","%char :: f x).

Lemma Join_commas {A} (f : A → bytes) x l :
  Join (List.map f (x :: l)) "," = f x ++ with_commas f l.
Proof.
  revert x. induction l as [|y l IH]; intros x; [by cbn; rewrite app_nil_r|].
  cbn [List.map]. cbn [List.map] in IH. rewrite (Join_cons (f x)), IH by done. done.
Qed.

Definition to_nv (p : bytes * json) : nameValueType :=
  NameValue p.1 (sort_key p.1) (render decorateString p.2).

Definition member_text (q : bytes → bytes) (kv : bytes * json) : bytes :=
  q kv.1 ++ ":"%char :: render q kv.2.

Lemma serialize_object_render l :
  serialize_object (to_nv <$> l) = render decorateString (JObj l).
Proof.
  unfold serialize_object. cbn [render]. do 2 f_equal. f_equal.
  induction l as [|p l IH]; [done|]. cbn. by rewrite IH.
Qed.

Lemma insert_member_new p l st :
  sort_key p.1 ∉ (λ kv, sort_key kv.1) <$> l →
  insert_member (to_nv p) (to_nv <$> l) st = (to_nv <$> insert_by p l, st).
Proof.
  induction l as [|e l IH]; intros Hp; [done|]. cbn in Hp. apply not_elem_of_cons in Hp as [Hpe Hp].
  rewrite fmap_cons. cbn [insert_member insert_by]. unfold lexicographicallyPrecedes. cbn [nv_sortKey to_nv].
  destruct (compare_keys _ _) as [[]|] eqn:E; [done|..].
  - by rewrite IH.
  - by apply compare_keys_None in E.
Qed.

Section read_document.
Context (q : bytes → bytes) (ok_str : bytes → bool) (Hq : readable q ok_str).
Variable jsonData : bytes.
Abbreviation pos := (pos jsonData).

Definition closing (c : ascii) : bool := bool_decide (c = "]"%char) || bool_decide (c = "}"%char).

Lemma render_start j : canon_ok ok_str j = true →
  ∃ c r, render q j = c :: r ∧ visible c = true ∧ closing c = false.
Proof.
  destruct j as [|[]|lit|s|l|l]; cbn [canon_ok render]; intros Hok; try (by do 2 eexists).
  - unfold num_ok in Hok. apply andb_prop in Hok as [[Hl _]%andb_prop _].
    apply num_lit_head in Hl as (c & r & -> & Hc). do 2 eexists. split; [done|].
    destruct Hc as [Hc| ->]; [|done]. revert Hc. byte_cases c.
  - destruct (Hq s Hok) as (text & -> & _). by do 2 eexists.
Qed.

(** Tokens: numbers and the three names. *)
Lemma parse_token c w d rest out fuel :
  forallb token_char (c :: w) = true → is_delimiter d = true → canon_token (c :: w) = Some out →
  bool_decide (c = "{"%char) = false → bool_decide (c = quote_c) = false → bool_decide (c = "["%char) = false →
  (c :: w ++ d :: rest) `suffix_of` jsonData → (1 ≤ fuel)%nat →
  parseElement jsonData fuel (pos (c :: w ++ d :: rest)) = Some (out, pos (d :: rest)).
Proof.
  intros Hw Hd Ho H1 H2 H3 Hs Hf. destruct fuel as [|fuel]; [lia|]. cbn [parseElement].
  cbn [forallb] in Hw. pose proof Hw as [[Hv _]%andb_prop _]%andb_prop.
  rewrite scan_pos by done. rewrite H1, H2, H3.
  by erewrite parseSimpleType_pos by done.
Qed.

Lemma num_start c : is_digit c = true ∨ c = "-"%char →
  bool_decide (c = "{"%char) = false ∧ bool_decide (c = quote_c) = false ∧
  bool_decide (c = "["%char) = false ∧ ∀ w, existsb (beq (c :: w)) literals = false.
Proof.
  intros Hc. assert (c ≠ "{"%char ∧ c ≠ quote_c ∧ c ≠ "["%char ∧ c ≠ "t"%char ∧ c ≠ "f"%char ∧ c ≠ "n"%char)
    as (? & ? & ? & ? & ? & ?).
  { destruct Hc as [Hc| ->]; [|done]. repeat split; intros ->; by vm_compute in Hc. }
  rewrite !bool_decide_eq_false_2 by done. repeat split. intros w. cbn. unfold beq.
  rewrite !bool_decide_eq_false_2; [done|..]; by intros [=].
Qed.

Lemma num_ok_token lit d rest fuel :
  num_ok lit = true → is_delimiter d = true → (lit ++ d :: rest) `suffix_of` jsonData → (1 ≤ fuel)%nat →
  parseElement jsonData fuel (pos (lit ++ d :: rest)) =
  Some (default lit (canon_num lit), pos (d :: rest)).
Proof.
  intros [[Hl Ht]%andb_prop [out Ho]%bool_decide_eq_true]%andb_prop Hd Hs Hf.
  destruct (num_lit_head _ Hl) as (c & w & -> & Hc). rewrite Ho. cbn [default].
  destruct (num_start _ Hc) as (H1 & H2 & H3 & H4).
  apply parse_token; [assumption| assumption| |assumption..].
  unfold canon_token. by rewrite H4.
Qed.

(** What the parser does with a document of the right form. *)
Definition reads (j : json) : Prop := ∀ fuel d rest,
  canon_ok ok_str j = true → is_delimiter d = true → (2 * length (render q j) ≤ fuel)%nat →
  (render q j ++ d :: rest) `suffix_of` jsonData →
  parseElement jsonData fuel (pos (render q j ++ d :: rest)) = Some (canon_text j, pos (d :: rest)).

(** The fuel of a loop over the texts of [l]. *)
Definition loop_fuel {A} (f : A → bytes) (l : list A) : nat :=
  S (list_sum ((λ x, S (2 * length (f x))) <$> l)).

Lemma loop_fuel_cons {A} (f : A → bytes) x l :
  loop_fuel f (x :: l) = S (2 * length (f x) + loop_fuel f l).
Proof. unfold loop_fuel. rewrite fmap_cons. cbn [list_sum foldr]. unfold list_sum. lia. Qed.

Lemma commas_head {A} (f : A → bytes) (l : list A) e rest :
  is_delimiter e = true → ∃ d r, with_commas f l ++ e :: rest = d :: r ∧ is_delimiter d = true.
Proof. intros He. destruct l as [|x l]; [by do 2 eexists|]. cbn. by do 2 eexists. Qed.

Lemma array_commas l : Forall reads l → ∀ fuel acc rest,
  forallb (canon_ok ok_str) l = true → (loop_fuel (render q) l ≤ fuel)%nat →
  (with_commas (render q) l ++ "]"%char :: rest) `suffix_of` jsonData →
  array_loop jsonData fuel (pos (with_commas (render q) l ++ "]"%char :: rest)) true acc =
  Some (acc ++ with_commas canon_text l ++ ["]"%char], pos rest).
Proof.
  induction 1 as [|j l Hj _ IH]; intros fuel acc rest Hok Hf Hs;
    (destruct fuel as [|fuel]; [unfold loop_fuel in Hf; lia|]).
  - cbn [with_commas mbind list_bind app] in *. cbn [array_loop]. change (no_error (pos _)) with true. cbv iota.
    rewrite test_pos, bool_decide_eq_true_2 by done. cbn [negb]. by rewrite scan_pos.
  - cbn [forallb] in Hok. apply andb_prop in Hok as [Hok Hokl].
    rewrite loop_fuel_cons in Hf.
    change (with_commas (render q) (j :: l)) with (","%char :: render q j ++ with_commas (render q) l) in *.
    rewrite <- app_comm_cons, <- app_assoc in *. cbn [array_loop]. change (no_error (pos _)) with true. cbv iota.
    rewrite test_pos, bool_decide_eq_false_2, scanFor_pos by done. cbn [negb].
    apply suffix_cons_inv in Hs.
    destruct (commas_head (render q) l "]" rest) as (d & r & Er & Hd); [done|].
    rewrite Er in Hs |- *. rewrite Hj by (done || lia). cbn. rewrite <- Er in Hs |- *.
    apply suffix_app_inv in Hs. rewrite IH by (done || lia).
    unfold with_commas. cbn. by rewrite <- !app_assoc.
Qed.

Lemma array_elems l fuel acc rest : Forall reads l →
  forallb (canon_ok ok_str) l = true → (loop_fuel (render q) l ≤ fuel)%nat →
  (Join (List.map (render q) l) "," ++ "]"%char :: rest) `suffix_of` jsonData →
  array_loop jsonData fuel (pos (Join (List.map (render q) l) "," ++ "]"%char :: rest)) false acc =
  Some (acc ++ Join (List.map canon_text l) "," ++ ["]"%char], pos rest).
Proof.
  intros Hl Hok Hf Hs. destruct Hl as [|j l Hj Hl]; (destruct fuel as [|fuel]; [unfold loop_fuel in Hf; lia|]).
  - cbn [List.map Join app] in *. cbn [array_loop]. change (no_error (pos _)) with true. cbv iota.
    rewrite test_pos, bool_decide_eq_true_2 by done. cbn [negb]. by rewrite scan_pos.
  - cbn [forallb] in Hok. apply andb_prop in Hok as [Hok Hokl].
    rewrite loop_fuel_cons in Hf. rewrite !Join_commas in *. rewrite <- !app_assoc in *.
    destruct (render_start j Hok) as (c & r & Ec & Hv & Hcl%orb_false_iff).
    assert (∃ r', render q j ++ with_commas (render q) l ++ "]"%char :: rest = c :: r') as [r' Er'].
    { rewrite Ec. cbn. by eexists. }
    cbn [array_loop]. change (no_error (pos _)) with true. cbv iota. rewrite Er' in Hs |- *.
    rewrite test_pos by done. destruct Hcl as [-> _]. cbn [negb]. rewrite <- Er' in Hs |- *.
    destruct (commas_head (render q) l "]" rest) as (d & t & Et & Hd); [done|].
    rewrite Et in Hs |- *. rewrite Hj by (done || lia). cbn. rewrite <- Et in Hs |- *.
    apply suffix_app_inv in Hs.
    rewrite array_commas by (done || lia). by rewrite <- !app_assoc.
Qed.

(** One member is read and inserted. *)
Lemma object_member_read fuel k v d rest acc next :
  canon_ok ok_str v = true → ok_str k = true → reads v → is_delimiter d = true →
  (2 * length (render q v) ≤ fuel)%nat →
  ((if (next : bool) then [","%char] else []) ++ member_text q (k, v) ++ d :: rest) `suffix_of` jsonData →
  object_loop jsonData (S fuel)
    (pos ((if next then [","%char] else []) ++ member_text q (k, v) ++ d :: rest)) next (to_nv <$> acc) =
  (let '(l, st) := insert_member (to_nv (k, canon v)) (to_nv <$> acc) (pos (d :: rest)) in
   object_loop jsonData fuel st true l).
Proof.
  intros Hv Hk Hr Hd Hf Hs. destruct (Hq k Hk) as (text & Etext & Hu).
  assert (member_text q (k, v) ++ d :: rest =
    quote_c :: text ++ quote_c :: ":"%char :: render q v ++ d :: rest) as E.
  { unfold member_text. cbn [fst snd]. rewrite Etext. cbn. rewrite <- !app_assoc. cbn. by rewrite <- ?app_assoc. }
  rewrite E in Hs |- *. remember (text ++ quote_c :: ":"%char :: render q v ++ d :: rest) as body eqn:Eb.
  assert ((quote_c :: body) `suffix_of` jsonData) as Hs1 by (by apply suffix_app_inv in Hs).
  assert (∃ c r, (if next then [","%char] else []) ++ quote_c :: body = c :: r ∧ visible c = true ∧ c ≠ "}"%char)
    as (c & r & Ec & Hvis & Hc) by (destruct next; by do 2 eexists).
  cbn [object_loop]. change (no_error (pos _)) with true. cbv iota.
  rewrite Ec in Hs |- *. rewrite test_pos, bool_decide_eq_false_2 by done. cbn [negb]. rewrite <- Ec in Hs |- *.
  assert ((if next then scanFor jsonData "," (pos ((if next then [","%char] else []) ++ quote_c :: body))
           else pos ((if next then [","%char] else []) ++ quote_c :: body)) = pos (quote_c :: body)) as ->.
  { destruct next; [|done]. by apply scanFor_pos. }
  rewrite scanFor_pos by done. apply suffix_cons_inv in Hs1. subst body.
  rewrite (parseQuotedString_pos _ _ k) by done. change (no_error (pos _)) with true. cbv iota.
  apply suffix_app_inv, suffix_cons_inv in Hs1. rewrite scanFor_pos by done.
  apply suffix_cons_inv in Hs1. rewrite Hr by done. cbn -[object_loop].
  done.
Qed.

(** The members read so far, by name, and the rest of the object. *)
Lemma object_member fuel k v d rest acc next :
  canon_ok ok_str v = true → ok_str k = true → reads v → is_delimiter d = true →
  (2 * length (render q v) ≤ fuel)%nat → sort_key k ∉ (λ kv, sort_key kv.1) <$> acc →
  ((if (next : bool) then [","%char] else []) ++ member_text q (k, v) ++ d :: rest) `suffix_of` jsonData →
  object_loop jsonData (S fuel)
    (pos ((if next then [","%char] else []) ++ member_text q (k, v) ++ d :: rest)) next (to_nv <$> acc) =
  object_loop jsonData fuel (pos (d :: rest)) true (to_nv <$> insert_by (k, canon v) acc).
Proof. intros. rewrite object_member_read by done. by rewrite insert_member_new. Qed.

Definition canon_member (kv : bytes * json) : bytes * json := (kv.1, canon kv.2).
Definition member_ok (kv : bytes * json) : bool := ok_str kv.1 && canon_ok ok_str kv.2.
Abbreviation keys l := ((λ kv : bytes * json, sort_key kv.1) <$> l).

Lemma object_end acc fuel next rest :
  ("}"%char :: rest) `suffix_of` jsonData → (1 ≤ fuel)%nat →
  object_loop jsonData fuel (pos ("}"%char :: rest)) next (to_nv <$> acc) =
  Some (render decorateString (JObj acc), pos rest).
Proof.
  intros Hs Hf. destruct fuel as [|fuel]; [lia|]. cbn [object_loop]. change (no_error (pos _)) with true.
  cbv iota. rewrite test_pos, bool_decide_eq_true_2 by done. cbn [negb]. rewrite scan_pos by done.
  by rewrite serialize_object_render.
Qed.

Lemma keys_insert_by p acc l :
  NoDup (keys (acc ++ p :: l)) → NoDup (keys (insert_by (canon_member p) acc ++ l)).
Proof.
  rewrite insert_by_Permutation, <- Permutation_middle. done.
Qed.

Lemma object_commas l : Forall (λ kv, reads kv.2) l → ∀ fuel acc rest,
  forallb member_ok l = true → NoDup (keys (acc ++ l)) → (loop_fuel (member_text q) l ≤ fuel)%nat →
  (with_commas (member_text q) l ++ "}"%char :: rest) `suffix_of` jsonData →
  object_loop jsonData fuel (pos (with_commas (member_text q) l ++ "}"%char :: rest)) true (to_nv <$> acc) =
  Some (render decorateString (JObj (insert_all acc (List.map canon_member l))), pos rest).
Proof.
  induction 1 as [|[k v] l Hv _ IH]; intros fuel acc rest Hok Hn Hf Hs.
  { apply object_end; [done|]. unfold loop_fuel in Hf. lia. }
  cbn [forallb] in Hok. apply andb_prop in Hok as [[Hk Hok]%andb_prop Hokl].
  rewrite loop_fuel_cons in Hf. destruct fuel as [|fuel]; [lia|].
  change (with_commas (member_text q) ((k, v) :: l)) with
    ([","%char] ++ member_text q (k, v) ++ with_commas (member_text q) l) in *.
  rewrite <- !app_assoc in *.
  destruct (commas_head (member_text q) l "}" rest) as (d & r & Er & Hd); [done|].
  rewrite Er in Hs |- *. unfold member_text in Hf at 1. rewrite length_app in Hf. cbn in Hf.
  rewrite (object_member fuel k v d r acc true); [|done..|lia|rewrite fmap_app in Hn; cbn in Hn;
    apply NoDup_app in Hn as (_ & Hn & _); set_solver|done].
  rewrite <- Er in Hs |- *. do 2 apply suffix_app_inv in Hs.
  rewrite IH; [done..|by apply keys_insert_by in Hn|lia|done].
Qed.

Lemma object_members l fuel rest : Forall (λ kv, reads kv.2) l →
  forallb member_ok l = true → keys_ok l = true → (loop_fuel (member_text q) l ≤ fuel)%nat →
  (Join (List.map (member_text q) l) "," ++ "}"%char :: rest) `suffix_of` jsonData →
  object_loop jsonData fuel (pos (Join (List.map (member_text q) l) "," ++ "}"%char :: rest)) false [] =
  Some (render decorateString (JObj (sort_members (List.map canon_member l))), pos rest).
Proof.
  intros Hl Hok Hn%bool_decide_eq_true Hf Hs. destruct Hl as [|[k v] l Hv Hl].
  { apply (object_end []); [done|]. unfold loop_fuel in Hf. lia. }
  cbn [forallb] in Hok. apply andb_prop in Hok as [[Hk Hok]%andb_prop Hokl].
  rewrite loop_fuel_cons in Hf. destruct fuel as [|fuel]; [lia|].
  rewrite Join_commas, <- app_assoc in *.
  destruct (commas_head (member_text q) l "}" rest) as (d & r & Er & Hd); [done|].
  rewrite Er in Hs |- *. unfold member_text in Hf at 1. rewrite length_app in Hf. cbn in Hf.
  etrans; [apply (object_member fuel k v d r [] false); [done..|lia|cbn; set_solver|done]|].
  rewrite <- Er in Hs |- *. apply suffix_app_inv in Hs.
  rewrite object_commas; [done..| |lia|done]. exact Hn.
Qed.

Lemma loop_fuel_commas {A} (f : A → bytes) l : (loop_fuel f l ≤ 2 * length (with_commas f l) + 1)%nat.
Proof.
  induction l as [|y l IH]; [unfold loop_fuel; cbn; lia|]. rewrite loop_fuel_cons.
  change (with_commas f (y :: l)) with (","%char :: f y ++ with_commas f l). cbn. rewrite length_app. lia.
Qed.

Lemma loop_fuel_Join {A} (f : A → bytes) l :
  (loop_fuel f l ≤ 2 * length (Join (List.map f l) ",") + 2)%nat.
Proof.
  destruct l as [|x l]; [unfold loop_fuel; cbn; lia|]. rewrite Join_commas, length_app, loop_fuel_cons.
  pose proof (loop_fuel_commas f l). lia.
Qed.

Lemma reads_literal w out d rest fuel :
  w ∈ literals → out = w → is_delimiter d = true → (w ++ d :: rest) `suffix_of` jsonData → (1 ≤ fuel)%nat →
  parseElement jsonData fuel (pos (w ++ d :: rest)) = Some (out, pos (d :: rest)).
Proof.
  intros Hw -> Hd Hs Hf. unfold literals in Hw.
  repeat (apply elem_of_cons in Hw as [->|Hw]; [by apply (parse_token _ _ d)|]). by apply not_elem_of_nil in Hw.
Qed.

Lemma reads_all j : reads j.
Proof.
  induction j as [|[]|lit|s|l IH|l IH] using json_induction; intros fuel d rest Hok Hd Hf Hs;
    unfold canon_text; cbn [render canon canon_ok] in *.
  - apply reads_literal; [set_solver|done..|cbn in Hf; lia].
  - apply reads_literal; [set_solver|done..|cbn in Hf; lia].
  - apply reads_literal; [set_solver|done..|cbn in Hf; lia].
  - apply num_ok_token; [done..|]. unfold num_ok in Hok. apply andb_prop in Hok as [[Hl _]%andb_prop _].
    apply num_lit_head in Hl as (c & r & -> & _). cbn in Hf. lia.
  - destruct (Hq s Hok) as (text & Et & Hu). rewrite Et in Hs |- *. rewrite <- app_comm_cons, <- app_assoc in *.
    cbn [app] in *. destruct fuel as [|fuel]; [rewrite Et in Hf; cbn in Hf; lia|]. cbn [parseElement].
    rewrite scan_pos by done. cbn [bool_decide]. apply suffix_cons_inv in Hs.
    by rewrite (parseQuotedString_pos _ _ s).
  - rewrite <- app_comm_cons, <- app_assoc in *. cbn [app] in *. cbn [length] in Hf. rewrite length_app in Hf.
    destruct fuel as [|fuel]; [lia|]. cbn [parseElement]. rewrite scan_pos by done.
    apply suffix_cons_inv in Hs.
    etrans; [apply (array_elems l fuel ["["%char] (d :: rest)); [done..| |done]|].
    { pose proof (loop_fuel_Join (render q) l). cbn in Hf. lia. }
    unfold canon_text. by rewrite List.map_map.
  - rewrite <- app_comm_cons, <- app_assoc in *. cbn [app] in *. cbn [length] in Hf. rewrite length_app in Hf.
    destruct fuel as [|fuel]; [lia|]. cbn [parseElement]. rewrite scan_pos by done.
    apply suffix_cons_inv in Hs. apply andb_prop in Hok as [Hok Hk].
    etrans; [apply (object_members l fuel (d :: rest)); [done..| |done]|done].
    pose proof (loop_fuel_Join (member_text q) l). unfold member_text in *. cbn in Hf. lia.
Qed.
End read_document.

Definition is_container (j : json) : bool :=
  match j with JArr _ | JObj _ => true | _ => false end.

Lemma check_trailing_space t st :
  forallb isWhiteSpace t = true → globalError (check_trailing t st) = globalError st.
Proof.
  revert st. induction t as [|c t IH]; intros st; [done|]. cbn [forallb check_trailing].
  intros [-> Ht]%andb_prop. by rewrite IH.
Qed.

(** [Transform] on the text of a document, with white space after it. *)
Lemma Transform_render q ok_str j t :
  readable q ok_str → canon_ok ok_str j = true → is_container j = true → forallb isWhiteSpace t = true →
  Transform (render q j ++ t) = Some (canon_text j, None).
Proof.
  intros Hq Hok Hj Ht. set (data := render q j ++ t). unfold Transform, Transform_fuel.
  assert (State 0 None = pos data data) as -> by (unfold pos; by rewrite Nat.sub_diag).
  destruct j as [| | | |l|l]; try done; cbn [canon_ok] in Hok.
  - pose proof (loop_fuel_Join (render q) l) as Hf.
    assert (data = "["%char :: Join (List.map (render q) l) "," ++ "]"%char :: t) as E.
    { unfold data. cbn [render]. by rewrite <- app_comm_cons, <- app_assoc. }
    assert (pos data data = pos data ("["%char :: Join (List.map (render q) l) "," ++ "]"%char :: t)) as ->
      by (by f_equal).
    assert (("["%char :: Join (List.map (render q) l) "," ++ "]"%char :: t) `suffix_of` data) as Hs by by rewrite E.
    rewrite test_pos, scan_pos, bool_decide_eq_true_2 by done. apply suffix_cons_inv in Hs.
    rewrite (array_elems q ok_str Hq data l); [|by apply Forall_true, reads_all|done|..|done].
    2:{ rewrite E. cbn [length]. rewrite length_app. lia. }
    cbn [mbind option_bind]. rewrite drop_pos by by apply suffix_app_inv, suffix_cons_inv in Hs.
    rewrite check_trailing_space by done. unfold canon_text. cbn [canon render]. by rewrite List.map_map.
  - pose proof (loop_fuel_Join (member_text q) l) as Hf.
    assert (data = "{"%char :: Join (List.map (member_text q) l) "," ++ "}"%char :: t) as E.
    { unfold data. cbn [render]. by rewrite <- app_comm_cons, <- app_assoc. }
    assert (pos data data = pos data ("{"%char :: Join (List.map (member_text q) l) "," ++ "}"%char :: t)) as ->
      by (by f_equal).
    assert (("{"%char :: Join (List.map (member_text q) l) "," ++ "}"%char :: t) `suffix_of` data) as Hs by by rewrite E.
    rewrite test_pos, scanFor_pos, bool_decide_eq_false_2 by done. apply suffix_cons_inv in Hs.
    apply andb_prop in Hok as [Hok Hk].
    rewrite (object_members q ok_str Hq data l); [|by apply Forall_true; intros; apply reads_all|done|done|..|done].
    2:{ rewrite E. cbn [length]. rewrite length_app. lia. }
    cbn [mbind option_bind]. rewrite drop_pos by by apply suffix_app_inv, suffix_cons_inv in Hs.
    by rewrite check_trailing_space.
Qed.
