(* ===== verification/JcsTotal.v ===== *)
(** * [Transform] always returns

    Every step of the scanner moves forward or records an error, so the fuel
    of [Transform] is never used up. *)

From S2P Require Import Prelude GoStrings Utf GoJson GoFloat JsonCanon.

#[local] Open Scope nat_scope.

Section total.
Variable jsonData : bytes.
Abbreviation len := (length jsonData).

(** From one state to a later one; [n] bytes at least were read if there is
    no error. *)
Definition moves (n : nat) (st st' : state) : Prop :=
  (index st ≤ len → index st' ≤ len) ∧
  (globalError st' = None → globalError st = None ∧ index st + n ≤ index st').

Lemma moves_refl st : moves 0 st st.
Proof. unfold moves. intuition lia. Qed.

Lemma moves_trans n m st st1 st2 : moves n st st1 → moves m st1 st2 → moves (n + m) st st2.
Proof.
  unfold moves. intros [H1 H2] [H3 H4]. split; [intuition lia|].
  intros He. destruct (H4 He) as [He1 ?]. destruct (H2 He1) as [He0 ?]. split; [done|lia].
Qed.

Lemma moves_weaken n m st st' : moves n st st' → m ≤ n → moves m st st'.
Proof. unfold moves. intros [H1 H2] Hm. split; [done|]. intros He. destruct (H2 He). split; [done|lia]. Qed.

Lemma checkError_moves e st : moves 0 st (checkError e st).
Proof. unfold moves, checkError. destruct (globalError st) eqn:E; cbn; rewrite ?E; intuition (lia || done). Qed.

Lemma setError_moves n e st st' : moves 0 st st' → moves n st (setError e st').
Proof.
  unfold moves, setError, checkError. intros [H1 H2].
  destruct (globalError st') eqn:E; cbn; (split; [done|]); [rewrite E|]; done.
Qed.

Lemma nextChar_moves st : moves 1 st (nextChar jsonData st).2.
Proof.
  unfold nextChar. destruct (jsonData !! index st) as [c|] eqn:E; cbn [snd].
  - apply lookup_lt_Some in E. unfold moves, setError, checkError, advance.
    destruct (127 <? bval c)%Z; [|cbn; intuition lia].
    destruct (globalError st) eqn:Eg; cbn; rewrite ?Eg; split; (done || lia).
  - apply setError_moves, moves_refl.
Qed.

Lemma scan_loop_moves fuel st : moves 1 st (scan_loop jsonData fuel st).2.
Proof.
  revert st. induction fuel as [|fuel IH]; intros st; cbn [scan_loop];
    pose proof (nextChar_moves st) as Hn; destruct (nextChar jsonData st) as [c st1]; cbn [snd] in Hn;
    destruct (isWhiteSpace c); try done.
  eapply moves_weaken; [eapply moves_trans; [exact Hn|apply IH]|lia].
Qed.

Lemma scan_moves st : moves 1 st (scan jsonData st).2.
Proof. apply scan_loop_moves. Qed.

Lemma scanFor_moves c st : moves 1 st (scanFor jsonData c st).
Proof.
  unfold scanFor. pose proof (scan_moves st) as Hs. destruct (scan jsonData st) as [d st1]. cbn [snd] in Hs.
  case_bool_decide; [done|]. apply setError_moves. eapply moves_weaken; [exact Hs|lia].
Qed.

Lemma test_moves st : moves 0 st (testNextNonWhiteSpaceChar jsonData st).2.
Proof.
  unfold testNextNonWhiteSpaceChar. pose proof (scan_moves st) as [_ H2].
  destruct (scan jsonData st) as [d st1]. cbn [snd] in *. unfold moves. cbn. split; [lia|].
  intros He. destruct (H2 He). split; [done|lia].
Qed.

(** Run a step of the goal and keep its bound. *)
Ltac run_step lem :=
  let H := fresh "Hm" in
  pose proof lem as H;
  match type of H with moves _ _ (?t).2 => destruct t as [? ?] eqn:?; cbn [snd] in H end.
Ltac moves_chain :=
  eapply moves_weaken; [repeat first [eassumption | eapply moves_trans; [eassumption|]]|lia].

Lemma moves_after n m st st1 st2 : moves n st st1 → moves m st1 st2 → moves m st st2.
Proof. intros H1 H2. eapply moves_weaken; [by eapply moves_trans|lia]. Qed.

Lemma moves_before n m st st1 st2 : moves n st st1 → moves m st1 st2 → moves n st st2.
Proof. intros H1 H2. eapply moves_weaken; [by eapply moves_trans|lia]. Qed.

Lemma moves_0 n st st' : moves n st st' → moves 0 st st'.
Proof. intros H. eapply moves_weaken; [done|lia]. Qed.

Lemma getUEscape_moves st : moves 0 st (getUEscape jsonData st).2.
Proof.
  unfold getUEscape. run_step (nextChar_moves st). run_step (nextChar_moves s).
  run_step (nextChar_moves s0). run_step (nextChar_moves s1).
  assert (moves 0 st s2) as Hs by (eapply moves_0, moves_trans; [|eassumption];
    eapply moves_trans; [|eassumption]; eapply moves_trans; eassumption).
  destruct (no_error s2); [|done].
  assert (∀ e, moves 0 st (checkError e s2)) as He by (intros e; eapply moves_after; [exact Hs|apply checkError_moves]).
  go_cases; try done; apply He.
Qed.

Lemma parseEscape_moves st : moves 1 st (parseEscape jsonData st).2.
Proof.
  unfold parseEscape. run_step (nextChar_moves st). case_bool_decide.
  - run_step (getUEscape_moves s). assert (moves 1 st s0) as H0 by (by eapply moves_before).
    destruct (is_surrogate z); [|done]. run_step (nextChar_moves s0).
    assert (moves 0 st s1) as H1 by (eapply moves_0, moves_before; eassumption).
    case_bool_decide; [|by apply setError_moves]. run_step (nextChar_moves s1).
    assert (moves 1 st s2) as H3 by (eapply moves_after; eassumption).
    case_bool_decide; [|apply setError_moves; by eapply moves_0].
    run_step (getUEscape_moves s2). by eapply moves_before.
  - case_bool_decide; [done|]. destruct (escape_of _ _ _); [done|]. apply setError_moves. by eapply moves_0.
Qed.

Lemma advance_moves st c : jsonData !! index st = Some c → moves 1 st (advance st).
Proof. intros E%lookup_lt_Some. unfold moves, advance. cbn. intuition lia. Qed.

Lemma quoted_loop_moves fuel st raw : moves 0 st (quoted_loop jsonData fuel st raw).2.
Proof.
  revert st raw. induction fuel as [|fuel IH]; intros st raw; [apply moves_refl|]. cbn [quoted_loop].
  destruct (no_error st); [|apply moves_refl].
  destruct (jsonData !! index st) as [c|] eqn:E; [|eapply moves_0, nextChar_moves].
  pose proof (advance_moves st c E) as Ha. case_bool_decide; [by eapply moves_0|].
  destruct (bval c <? 32)%Z.
  { eapply moves_after; [|apply IH]. apply (setError_moves 0). by eapply moves_0. }
  case_bool_decide; [|eapply moves_after; [exact Ha|apply IH]].
  run_step (parseEscape_moves (advance st)). eapply moves_after; [|apply IH].
  eapply moves_after; eassumption.
Qed.

Lemma parseQuotedString_moves st : moves 0 st (parseQuotedString jsonData st).2.
Proof. apply quoted_loop_moves. Qed.

(** A token of [n] bytes is read by [n] steps. *)
Lemma token_loop_moves fuel st tok :
  ∃ n, moves n st (token_loop jsonData fuel st tok).2 ∧
       length (token_loop jsonData fuel st tok).1 = length tok + n.
Proof.
  revert st tok. induction fuel as [|fuel IH]; intros st tok; cbn [token_loop];
    [exists 0; split; [apply moves_refl|cbn; lia]|].
  destruct (no_error st); [|exists 0; split; [apply moves_refl|cbn; lia]].
  run_step (test_moves st). destruct (is_delimiter a); [exists 0; cbn; split; [done|lia]|].
  run_step (nextChar_moves s). assert (moves 1 st s0) as H1 by (by eapply moves_after).
  destruct (isWhiteSpace a0); [exists 0; cbn; split; [by eapply moves_0|lia]|].
  destruct (IH s0 (tok ++ [a0])) as (n & Hn & Hl). exists (1 + n). split; [by eapply moves_trans|].
  rewrite Hl, length_app. cbn. lia.
Qed.

(** An element that is no string and no container is at least one byte; the
    first one was scanned before. *)
Lemma parseSimpleType_moves st st1 :
  moves 1 st st1 → moves 1 st (parseSimpleType jsonData st1).2.
Proof.
  intros [H1 H2]. unfold parseSimpleType.
  set (st2 := State (pred (index st1)) (globalError st1)).
  destruct (token_loop_moves (S (S len)) st2 []) as (n & Hn & Hl).
  destruct (token_loop _ _ _ _) as [value st3]. cbn [fst snd] in Hn, Hl.
  assert (moves 1 st (if bool_decide (value = []) then setError EMissingArgument st3 else st3)) as Hst.
  { destruct Hn as [Hn1 Hn2]. subst st2. cbn in *. case_bool_decide as Hv.
    - apply setError_moves. split; [intros; apply Hn1; lia|]. intros He. destruct (Hn2 He) as [He1 ?].
      destruct (H2 He1). split; [done|lia].
    - destruct n as [|n]; [by destruct value|]. split; [intros; apply Hn1; lia|].
      intros He. destruct (Hn2 He) as [He1 ?]. destruct (H2 He1). split; [done|lia]. }
  destruct (existsb _ _); [done|]. destruct (ParseFloat value) as [f err].
  destruct (NumberToJSON f) as [v err']. cbn [snd].
  repeat (eapply moves_before; [|apply checkError_moves]). done.
Qed.

Lemma insert_member_moves nv l st : moves 0 st (insert_member nv l st).2.
Proof.
  revert st. induction l as [|e l IH]; intros st; cbn [insert_member]; [apply moves_refl|].
  unfold lexicographicallyPrecedes. destruct (compare_keys _ _) as [[]|]; [apply moves_refl|..].
  - specialize (IH st). by destruct (insert_member nv l st).
  - specialize (IH (setError (EDuplicateKey (nv_name e)) st)).
    destruct (insert_member _ _ _). cbn in *. eapply moves_after; [|exact IH].
    apply (setError_moves 0), moves_refl.
Qed.

(** ** Enough fuel *)

Definition elem_fuel (st : state) : nat := if no_error st then 2 * (len - index st) + 2 else 2.
Definition loop_fuel (st : state) : nat := if no_error st then 2 * (len - index st) + 3 else 1.

Definition returns (r : option (bytes * state)) (st : state) : Prop :=
  ∃ v st', r = Some (v, st') ∧ moves 1 st st'.

Lemma no_error_true st : no_error st = true ↔ globalError st = None.
Proof. apply bool_decide_eq_true. Qed.

Lemma elem_fuel_after n st st' :
  moves n st st' → index st ≤ len → (globalError st = None → elem_fuel st' ≤ elem_fuel st) ∧ 2 ≤ elem_fuel st'.
Proof.
  intros [_ Hm] Hi. unfold elem_fuel. destruct (no_error st') eqn:E'; [|split; [|lia]].
  - apply no_error_true in E'. destruct (Hm E') as [E ?]. apply no_error_true in E. rewrite E. lia.
  - intros E%no_error_true. rewrite E. lia.
Qed.

Lemma loop_fuel_after st st' :
  moves 1 st st' → index st ≤ len → index st' ≤ len → globalError st = None → S (loop_fuel st') ≤ elem_fuel st.
Proof.
  intros [_ Hm] Hi Hi' E. unfold elem_fuel, loop_fuel. apply no_error_true in E as ->.
  destruct (no_error st') eqn:E'; [|lia]. apply no_error_true in E'. destruct (Hm E') as [_ ?]. lia.
Qed.

Lemma scan_end st r : returns (let '(_, st') := scan jsonData st in Some (r, st')) st.
Proof. run_step (scan_moves st). by do 2 eexists. Qed.

Lemma returns_after n r st st1 : moves n st st1 → returns r st1 → returns r st.
Proof. intros H1 (v & st' & -> & H2). do 2 eexists. split; [done|]. by eapply moves_after. Qed.

(** One round of a loop: the element, then the rest. *)
Lemma loop_round fuel st st2 (k : bytes → state → option (bytes * state)) :
  (∀ st, index st ≤ len → elem_fuel st ≤ fuel → returns (parseElement jsonData fuel st) st) →
  (∀ v st3, index st3 ≤ len → loop_fuel st3 ≤ fuel → returns (k v st3) st3) →
  index st ≤ len → globalError st = None → loop_fuel st ≤ S fuel → moves 0 st st2 →
  returns ('(v, st3) ← parseElement jsonData fuel st2; k v st3) st.
Proof.
  intros He Hk Hi E Hf Hm.
  assert (elem_fuel st ≤ fuel) as Hef.
  { unfold elem_fuel, loop_fuel in *. apply no_error_true in E. rewrite E in *. lia. }
  destruct (elem_fuel_after 0 st st2 Hm Hi) as [H1 _]. pose proof Hm as [Hi2 _].
  destruct (He st2) as (v & st3 & -> & Hm3); [by apply Hi2|by etrans; [apply H1|]|].
  cbn. pose proof (moves_after _ _ _ _ _ Hm Hm3) as Hm4. pose proof Hm4 as [Hi3 _].
  eapply returns_after; [exact Hm4|]. apply Hk; [by apply Hi3|].
  pose proof (loop_fuel_after _ _ Hm4 Hi (Hi3 Hi) E). lia.
Qed.

Definition elem_returns fuel : Prop := ∀ st,
  index st ≤ len → elem_fuel st ≤ fuel → returns (parseElement jsonData fuel st) st.
Definition array_returns fuel : Prop := ∀ st next acc,
  index st ≤ len → loop_fuel st ≤ fuel → returns (array_loop jsonData fuel st next acc) st.
Definition object_returns fuel : Prop := ∀ st next l,
  index st ≤ len → loop_fuel st ≤ fuel → returns (object_loop jsonData fuel st next l) st.

Lemma parseElement_returns fuel :
  array_returns fuel → object_returns fuel → elem_returns (S fuel).
Proof.
  intros IHa IHo st Hi Hf. cbn [parseElement]. run_step (scan_moves st). rename a into c, s into st1.
  pose proof Hm as [Hi1 _].
  assert (loop_fuel st1 ≤ fuel) as Hl.
  { destruct (globalError st) eqn:E.
    - unfold loop_fuel, elem_fuel in *. destruct (no_error st1) eqn:E1; [|destruct (no_error st); lia].
      apply no_error_true in E1. destruct Hm as [_ Hm]. destruct (Hm E1). congruence.
    - pose proof (loop_fuel_after _ _ Hm Hi (Hi1 Hi) E). lia. }
  case_bool_decide; [eapply returns_after; [exact Hm|]; apply IHo; auto|].
  case_bool_decide.
  { run_step (parseQuotedString_moves st1). do 2 eexists. split; [done|]. by eapply moves_before. }
  case_bool_decide; [eapply returns_after; [exact Hm|]; apply IHa; auto|].
  destruct (parseSimpleType jsonData st1) as [v st2] eqn:Es. do 2 eexists. split; [done|].
  change st2 with (v, st2).2. rewrite <- Es. by apply parseSimpleType_moves.
Qed.

Lemma array_loop_returns fuel : elem_returns fuel → array_returns fuel → array_returns (S fuel).
Proof.
  intros IHe IHa st next acc Hi Hf. cbn [array_loop]. destruct (no_error st) eqn:E; [|apply scan_end].
  apply no_error_true in E. run_step (test_moves st). destruct (negb _).
  2:{ eapply returns_after; [exact Hm|apply scan_end]. }
  destruct next.
  - apply (loop_round fuel st _ (λ v st3, array_loop jsonData fuel st3 true ((acc ++ [","%char]) ++ v)));
      [done|intros; by apply IHa|done..|]. eapply moves_0, moves_after; [exact Hm|apply scanFor_moves].
  - apply (loop_round fuel st s (λ v st3, array_loop jsonData fuel st3 true (acc ++ v)));
      [done|intros; by apply IHa|done..].
Qed.

Lemma object_loop_returns fuel : elem_returns fuel → object_returns fuel → object_returns (S fuel).
Proof.
  intros IHe IHo st next l Hi Hf. cbn [object_loop]. destruct (no_error st) eqn:E; [|apply scan_end].
  apply no_error_true in E. run_step (test_moves st). destruct (negb _).
  2:{ eapply returns_after; [exact Hm|apply scan_end]. }
  set (st1 := if next then scanFor jsonData "," s else s).
  assert (moves 0 st st1) as H1.
  { subst st1. destruct next; [|done]. eapply moves_0, moves_after; [exact Hm|apply scanFor_moves]. }
  pose proof (scanFor_moves quote_c st1) as H2.
  pose proof (parseQuotedString_moves (scanFor jsonData quote_c st1)) as Hq.
  destruct (parseQuotedString _ _) as [raw st2]. cbn [snd] in Hq.
  assert (moves 0 st st2) as H3 by (eapply moves_0, moves_before; [|exact Hq]; by eapply moves_after).
  destruct (no_error st2); [|eapply returns_after; [exact H3|apply scan_end]].
  apply (loop_round fuel st _ (λ v st3, let '(l', st4) :=
    insert_member (NameValue raw (utf16_encode (runes raw)) v) l st3 in object_loop jsonData fuel st4 true l'));
    [done| |done..|eapply moves_0, moves_after; [exact H3|apply scanFor_moves]].
  intros v st3 Hi3 Hf3. pose proof (insert_member_moves (NameValue raw (utf16_encode (runes raw)) v) l st3) as Hins.
  destruct (insert_member _ _ _) as [l' st4]. cbn [snd] in Hins.
  eapply returns_after; [exact Hins|]. destruct Hins as [Hi4 Hm4]. apply IHo; [by apply Hi4|].
  unfold loop_fuel in *. destruct (no_error st4) eqn:E4; [|destruct (no_error st3); lia].
  apply no_error_true in E4. destruct (Hm4 E4) as [E3%no_error_true ?]. rewrite E3 in Hf3. lia.
Qed.

Lemma parse_returns fuel : elem_returns fuel ∧ array_returns fuel ∧ object_returns fuel.
Proof.
  induction fuel as [|fuel (IHe & IHa & IHo)].
  - split_and!; intros st *; unfold elem_fuel, loop_fuel; destruct (no_error st); lia.
  - split_and!; auto using parseElement_returns, array_loop_returns, object_loop_returns.
Qed.

Lemma Transform_returns : ∃ out e, Transform jsonData = Some (out, e).
Proof.
  unfold Transform, Transform_fuel. run_step (test_moves (State 0 None)).
  destruct (parse_returns (3 * len + 4)) as (_ & Ha & Ho).
  assert (∀ st', moves 1 s st' → loop_fuel st' ≤ 3 * len + 4) as Hl.
  { intros st' _. unfold loop_fuel. destruct (no_error st'); lia. }
  pose proof Hm as [Hi _].
  assert (∃ v st', (if bool_decide (a = "["%char) then
      let '(_, st) := scan jsonData s in array_loop jsonData (3 * len + 4) st false ["["%char]
    else object_loop jsonData (3 * len + 4) (scanFor jsonData "{" s) false []) = Some (v, st')) as (v & st' & ->).
  { case_bool_decide.
    - run_step (scan_moves s). destruct (Ha s0 false ["["%char]) as (v & st' & -> & _); [|by apply Hl|by eauto].
      destruct Hm0 as [Hi0 _]. apply Hi0, Hi. cbn. lia.
    - pose proof (scanFor_moves "{" s) as Hm0.
      destruct (Ho (scanFor jsonData "{" s) false []) as (v & st' & -> & _); [|by apply Hl|by eauto].
      destruct Hm0 as [Hi0 _]. apply Hi0, Hi. cbn. lia. }
  cbn. by do 2 eexists.
Qed.
End total.
