(* ===== verification/JcsFacts.v ===== *)
(** * Properties of canonical documents

    Canonical documents are fixed points, they do not depend on the order of
    members, [json.Unmarshal] reads them back, integers below [2^53] are kept,
    and a member name that occurs twice is an error. *)

From Stdlib Require Import Sorted.
From S2P Require Import Prelude GoStrings Utf GoJson GoJsonFacts GoFloat GoFloatFacts.
From S2P Require Import JsonCanon JsonCanonFacts Jcs JcsTotal.

Open Scope Z_scope.

(** ** Documents whose canonical numbers are canonical *)

Definition num_stable (lit : bytes) : bool :=
  match canon_num lit with
  | Some out => num_ok out && bool_decide (canon_num out = Some out)
  | None => false
  end.

Fixpoint stable (j : json) : bool :=
  match j with
  | JNum lit => num_stable lit
  | JArr l => forallb stable l
  | JObj l => forallb (λ kv, stable kv.2) l
  | _ => true
  end.

Lemma forallb_Permutation {A} (f : A → bool) l l' : l ≡ₚ l' → forallb f l = forallb f l'.
Proof.
  induction 1 as [|x l l' _ IH|x y l|]; cbn; [done|by rewrite IH| |congruence].
  by rewrite !andb_assoc, (andb_comm (f y)).
Qed.

Lemma forallb_map {A B} (f : B → bool) (g : A → B) l : forallb f (List.map g l) = forallb (λ x, f (g x)) l.
Proof. induction l as [|x l IH]; [done|]. cbn. by rewrite IH. Qed.

Lemma forallb_impl {A} (f g : A → bool) l :
  Forall (λ x, f x = true → g x = true) l → forallb f l = true → forallb g l = true.
Proof.
  induction 1 as [|x l Hx _ IH]; [done|]. cbn. intros [Hf Hl]%andb_prop. by rewrite Hx, IH.
Qed.

Lemma keys_canon l : keys_ok (List.map canon_member l) = keys_ok l.
Proof.
  unfold keys_ok. apply bool_decide_ext. replace ((λ kv, sort_key kv.1) <$> List.map canon_member l)
    with ((λ kv, sort_key kv.1) <$> l); [done|]. induction l as [|x l IH]; [done|]. cbn. by rewrite IH.
Qed.

Lemma forallb_and {A} (f g : A → bool) l :
  forallb f l = true → forallb g l = true → forallb (λ x, f x && g x) l = true.
Proof. induction l as [|x l IH]; [done|]. cbn. intros [-> ?]%andb_prop [-> ?]%andb_prop. by apply IH. Qed.

(** The canonical document has a canonical form, whatever quotes its strings. *)
Lemma canon_ok_canon ok_str j :
  canon_ok ok_str j = true → stable j = true → canon_ok ok_str (canon j) = true.
Proof.
  induction j as [|b|lit|s|l IH|l IH] using json_induction; cbn [canon_ok stable canon]; intros Hok Hst; try done.
  - unfold num_stable in Hst. destruct (canon_num lit); [|done]. cbn. by apply andb_prop in Hst as [? _].
  - rewrite forallb_map. eapply forallb_impl; [|exact (forallb_and _ _ _ Hok Hst)].
    eapply Forall_impl; [exact IH|]. intros x Hx [? ?]%andb_prop. by apply Hx.
  - apply andb_prop in Hok as [Hok Hk]. change (λ kv : bytes * json, (kv.1, canon kv.2)) with canon_member.
    rewrite (keys_ok_Permutation _ _ (sort_members_Permutation _)), keys_canon, Hk, andb_true_r.
    rewrite (forallb_Permutation _ _ _ (sort_members_Permutation _)), forallb_map. cbn.
    eapply forallb_impl; [|exact (forallb_and _ _ _ Hok Hst)].
    eapply Forall_impl; [exact IH|]. intros x Hx [[-> ?]%andb_prop ?]%andb_prop. by apply Hx.
Qed.

Lemma Forall_sort (P : bytes * json → Prop) l : Forall P l → Forall P (sort_members l).
Proof. intros H. by rewrite sort_members_Permutation. Qed.

Lemma map_fixed {A} (f : A → A) l : Forall (λ x, f x = x) l → List.map f l = l.
Proof. induction 1 as [|x l Hx _ IH]; [done|]. cbn. by rewrite Hx, IH. Qed.

(** Canonical documents are fixed points of [canon]. *)
Lemma canon_idem ok_str j :
  canon_ok ok_str j = true → stable j = true → canon (canon j) = canon j.
Proof.
  induction j as [|b|lit|s|l IH|l IH] using json_induction; cbn [canon_ok stable canon]; intros Hok Hst; try done.
  - unfold num_stable in Hst. destruct (canon_num lit) as [out|]; [|done]. cbn.
    apply andb_prop in Hst as [_ ->%bool_decide_eq_true]. done.
  - f_equal. apply map_fixed. rewrite Forall_forall in IH. apply Forall_forall. intros x Hx.
    apply list_elem_of_In, in_map_iff in Hx as (y & <- & Hy). rewrite forallb_forall in Hok, Hst.
    apply IH; [by apply list_elem_of_In|auto..].
  - f_equal. apply andb_prop in Hok as [Hok Hk].
    change (λ kv : bytes * json, (kv.1, canon kv.2)) with canon_member.
    rewrite (map_fixed canon_member); [apply sort_members_fixed; by rewrite keys_canon|].
    apply Forall_sort, Forall_forall. intros x Hx.
    apply list_elem_of_In, in_map_iff in Hx as ([k v] & <- & Hy). rewrite forallb_forall in Hok, Hst.
    rewrite Forall_forall in IH. unfold canon_member. cbn. f_equal.
    apply (IH (k, v)); [by apply list_elem_of_In| |by apply (Hst (k, v))].
    by apply Hok in Hy as [_ ?]%andb_prop.
Qed.

(** ** Integers *)

Lemma canon_num_int n : - 2 ^ 53 < n < 2 ^ 53 → canon_num (FormatInt n) = Some (FormatInt n).
Proof.
  intros Hn. unfold canon_num. destruct (NumberToJSON_ParseFloat_int n Hn) as [H1 H2].
  destruct (ParseFloat _) as [f e]. cbn in *. subst. by rewrite H2.
Qed.

Lemma FormatInt_token n : forallb token_char (FormatInt n) = true.
Proof.
  assert (∀ m, 0 ≤ m → forallb token_char (FormatUint m) = true) as Hu.
  { intros m Hm. destruct (FormatUint_spec m Hm) as (_ & Hd & _). rewrite forallb_forall in *.
    intros c Hc. generalize (Hd c Hc). byte_cases c. }
  unfold FormatInt. destruct (Z.ltb_spec n 0); [|by apply Hu]. cbn [forallb]. by rewrite Hu by lia.
Qed.

Lemma num_ok_int n : - 2 ^ 53 < n < 2 ^ 53 → num_ok (FormatInt n) = true.
Proof.
  intros Hn. unfold num_ok. rewrite num_lit_FormatInt, FormatInt_token, canon_num_int by done. done.
Qed.

Lemma num_stable_int n : - 2 ^ 53 < n < 2 ^ 53 → num_stable (FormatInt n) = true.
Proof.
  intros Hn. unfold num_stable. rewrite canon_num_int, num_ok_int, canon_num_int by done.
  by rewrite bool_decide_eq_true_2.
Qed.

(** ** Reading canonical text back *)

Lemma canon_ok_json_ok ok_str j : canon_ok ok_str j = true → json_ok ok_str j = true.
Proof.
  induction j as [|b|lit|s|l IH|l IH] using json_induction; cbn [canon_ok json_ok]; try done.
  - unfold num_ok. by intros [[? _]%andb_prop _]%andb_prop.
  - by apply forallb_impl.
  - intros [Hl _]%andb_prop. eapply forallb_impl; [|exact Hl]. eapply Forall_impl; [exact IH|].
    intros x Hx [-> ?]%andb_prop. by apply Hx.
Qed.

Lemma list_max_Permutation l l' : l ≡ₚ l' → list_max l = list_max l'.
Proof. unfold list_max. induction 1; cbn; lia. Qed.

Lemma canon_depth j : json_depth (canon j) = json_depth j.
Proof.
  induction j as [|b|lit|s|l IH|l IH] using json_induction; cbn [canon json_depth]; try done; f_equal.
  - rewrite List.map_map. f_equal. induction IH as [|x l Hx _ IHl]; [done|]. cbn. by rewrite Hx, IHl.
  - assert (List.map (λ kv : bytes * json, json_depth kv.2) (sort_members (List.map canon_member l)) ≡ₚ
      List.map (λ kv : bytes * json, json_depth kv.2) (List.map canon_member l)) as Hp
      by (apply Permutation_map, sort_members_Permutation).
    change (λ kv : bytes * json, (kv.1, canon kv.2)) with canon_member.
    rewrite (list_max_Permutation _ _ Hp), List.map_map. clear Hp. f_equal.
    induction IH as [|x l Hx _ IHl]; [done|]. cbn [List.map]. rewrite IHl. f_equal. exact Hx.
Qed.

Lemma unmarshal_canon j :
  canon_ok valid_utf8 j = true → stable j = true → (json_depth j ≤ max_depth)%nat →
  unmarshal (canon_text j) = Ok (canon j).
Proof.
  intros Hok Hst Hd. apply (unmarshal_render decorateString valid_utf8 decorate_roundtrip).
  - by apply canon_ok_json_ok, canon_ok_canon.
  - by rewrite canon_depth.
Qed.

(** ** Order of members *)

(** The same document up to the order of the members of its objects. *)
Inductive same_doc : json → json → Prop :=
| same_refl j : same_doc j j
| same_arr l l' : Forall2 same_doc l l' → same_doc (JArr l) (JArr l')
| same_obj l l1 l' :
    Forall2 (λ p p', p.1 = p'.1 ∧ same_doc p.2 p'.2) l l1 → l1 ≡ₚ l' → same_doc (JObj l) (JObj l').

Lemma same_doc_canon ok_str j j' : same_doc j j' → canon_ok ok_str j = true → canon j = canon j'.
Proof.
  revert j'. induction j as [|b|lit|s|l IH|l IH] using json_induction; intros j' Hs Hok;
    inversion Hs as [|? l' Hl|? l1 l' Hl Hp]; simplify_eq; try done; cbn [canon canon_ok] in *.
  - f_equal. clear Hs. induction Hl as [|x x' l l' Hx _ IHl]; [done|]. apply Forall_cons in IH as [IHx IH].
    cbn in Hok |- *. apply andb_prop in Hok as [? ?]. f_equal; auto.
  - f_equal. apply andb_prop in Hok as [Hok Hk].
    assert (List.map canon_member l = List.map canon_member l1) as E.
    { clear Hs Hp Hk. induction Hl as [|[k v] [k' v'] l l1 [Hkk Hv] _ IHl]; [done|].
      apply Forall_cons in IH as [IHx IH]. cbn in Hok, Hkk, Hv, IHx |- *.
      apply andb_prop in Hok as [[_ Hx]%andb_prop Hok]. unfold canon_member at 1 3. cbn.
      rewrite Hkk, (IHx v'), IHl by auto. done. }
    apply (sort_members_unique (List.map canon_member l)); [|by rewrite keys_canon].
    rewrite E. by apply Permutation_map.
Qed.

(** ** Names that occur twice *)

Lemma insert_member_dup p l st :
  StronglySorted member_lt l → sort_key p.1 ∈ (λ kv, sort_key kv.1) <$> l →
  globalError (insert_member (to_nv p) (to_nv <$> l) st).2 ≠ None.
Proof.
  induction 1 as [|e l Hl IH He]; intros Hp; [by apply not_elem_of_nil in Hp|].
  rewrite fmap_cons. cbn [insert_member]. unfold lexicographicallyPrecedes. cbn [nv_sortKey to_nv].
  destruct (compare_keys (sort_key p.1) (sort_key e.1)) as [[]|] eqn:E.
  - exfalso. cbn in Hp. apply elem_of_cons in Hp as [Hp|Hp].
    + apply compare_keys_None in Hp. congruence.
    + apply list_elem_of_fmap in Hp as (e' & Hp & He'). rewrite Forall_forall in He. specialize (He e' He').
      unfold member_lt in He. rewrite <- Hp in He. apply compare_keys_flip in He. congruence.
  - cbn in Hp. apply elem_of_cons in Hp as [Hp|Hp]; [apply compare_keys_None in Hp; congruence|].
    specialize (IH Hp). by destruct (insert_member _ _ st).
  - pose proof (insert_member_moves [] (to_nv p) (to_nv <$> l) (setError (EDuplicateKey e.1) st)) as [_ Hm].
    cbn [nv_name to_nv] in *. destruct (insert_member _ _ (setError _ _)) as [r st']. cbn [snd] in *.
    intros Hn. destruct (Hm Hn) as [Hn' _]. revert Hn'. unfold setError, checkError. destruct (globalError st) eqn:Eg; cbn; congruence.
Qed.

Section duplicate.
Context (q : bytes → bytes) (ok_str : bytes → bool) (Hq : readable q ok_str).
Variable jsonData : bytes.
Abbreviation pos := (pos jsonData).
Abbreviation keys l := ((λ kv : bytes * json, sort_key kv.1) <$> l).

(** After an error, whatever is read, the error stays. *)
Lemma object_loop_error fuel st next l v st' :
  (index st ≤ length jsonData)%nat → (loop_fuel jsonData st ≤ fuel)%nat → globalError st ≠ None →
  object_loop jsonData fuel st next l = Some (v, st') → globalError st' ≠ None.
Proof.
  intros Hi Hf He E. destruct (parse_returns jsonData fuel) as (_ & _ & Ho).
  destruct (Ho st next l Hi Hf) as (v' & st'' & E' & _ & Hm). rewrite E in E'. simplify_eq.
  intros Hn. by destruct (Hm Hn).
Qed.

Lemma pos_fuel st rest : index st = index (pos rest) → globalError st ≠ None →
  (index st ≤ length jsonData)%nat ∧ loop_fuel jsonData st = 1%nat.
Proof.
  intros Hi He. split; [rewrite Hi; cbn; lia|]. unfold loop_fuel, no_error. by rewrite bool_decide_eq_false_2.
Qed.

Lemma insert_member_index nv l st : index (insert_member nv l st).2 = index st.
Proof.
  revert st. induction l as [|e l IH]; intros st; [done|]. cbn [insert_member].
  unfold lexicographicallyPrecedes. destruct (compare_keys _ _) as [[]|]; [done|..].
  - specialize (IH st). by destruct (insert_member nv l st).
  - specialize (IH (setError (EDuplicateKey (nv_name e)) st)). destruct (insert_member _ _ _). cbn in *.
    rewrite IH. unfold setError, checkError. by destruct (globalError st).
Qed.

(** A member with a name read before. *)
Lemma object_member_dup fuel k v d rest acc next out st' :
  canon_ok ok_str v = true → ok_str k = true → is_delimiter d = true →
  (2 * length (render q v) ≤ fuel)%nat → (1 ≤ fuel)%nat → StronglySorted member_lt acc → sort_key k ∈ keys acc →
  ((if (next : bool) then [","%char] else []) ++ member_text q (k, v) ++ d :: rest) `suffix_of` jsonData →
  object_loop jsonData (S fuel)
    (pos ((if next then [","%char] else []) ++ member_text q (k, v) ++ d :: rest)) next (to_nv <$> acc) =
  Some (out, st') → globalError st' ≠ None.
Proof.
  intros Hv Hk Hd Hf Hf1 Hsort Hin Hs. rewrite (object_member_read q ok_str Hq) by (done || apply reads_all, Hq).
  pose proof (insert_member_dup (k, canon v) acc (pos (d :: rest)) Hsort Hin) as He.
  pose proof (insert_member_index (to_nv (k, canon v)) (to_nv <$> acc) (pos (d :: rest))) as Hi.
  destruct (insert_member _ _ _) as [l st]. cbn [snd] in *.
  destruct (pos_fuel st (d :: rest) Hi He) as [Hi' Hl]. apply object_loop_error; [done|lia|done].
Qed.

Lemma object_commas_dup l : ∀ fuel acc rest out st',
  forallb (member_ok ok_str) l = true → StronglySorted member_lt acc → NoDup (keys acc) → ¬ NoDup (keys (acc ++ l)) →
  (Jcs.loop_fuel (member_text q) l ≤ fuel)%nat →
  (with_commas (member_text q) l ++ "}"%char :: rest) `suffix_of` jsonData →
  object_loop jsonData fuel (pos (with_commas (member_text q) l ++ "}"%char :: rest)) true (to_nv <$> acc) =
  Some (out, st') → globalError st' ≠ None.
Proof.
  induction l as [|[k v] l IH]; intros fuel acc rest out st' Hok Hsort Hn Hnn Hf Hs; [by rewrite app_nil_r in Hnn|].
  cbn [forallb] in Hok. apply andb_prop in Hok as [[Hk Hok]%andb_prop Hokl]. cbn in Hk, Hok.
  rewrite loop_fuel_cons in Hf. destruct fuel as [|fuel]; [lia|].
  change (with_commas (member_text q) ((k, v) :: l)) with
    ([","%char] ++ member_text q (k, v) ++ with_commas (member_text q) l) in *. rewrite <- !app_assoc in *.
  destruct (commas_head (member_text q) l "}" rest) as (d & r & Er & Hd); [done|].
  rewrite Er in Hs |- *. unfold member_text in Hf at 1. rewrite length_app in Hf. cbn in Hf.
  destruct (decide (sort_key k ∈ keys acc)) as [Hin|Hin].
  { apply (object_member_dup fuel k v d r acc true); try done; lia. }
  rewrite (object_member q ok_str Hq jsonData fuel k v d r acc true) by (done || lia || apply reads_all, Hq).
  rewrite <- Er in Hs |- *. do 2 apply suffix_app_inv in Hs.
  apply IH; [done|by apply insert_by_sorted| | |lia|done].
  - rewrite insert_by_Permutation. cbn. by apply NoDup_cons.
  - rewrite insert_by_Permutation. by rewrite <- Permutation_middle in Hnn.
Qed.
End duplicate.

Lemma check_trailing_error s st : globalError st ≠ None → globalError (check_trailing s st) ≠ None.
Proof.
  revert st. induction s as [|c s IH]; intros st He; [done|]. cbn. destruct (isWhiteSpace c); [by apply IH|].
  unfold setError, checkError. destruct (globalError st) eqn:E; cbn; congruence.
Qed.

Lemma Transform_duplicate q ok_str l :
  readable q ok_str → forallb (member_ok ok_str) l = true → keys_ok l = false →
  ∃ out e, Transform (render q (JObj l)) = Some (out, Some e).
Proof.
  intros Hq Hok Hk%bool_decide_eq_false. set (data := render q (JObj l)).
  destruct (Transform_returns data) as (out & [e|] & E); [by eauto|]. exfalso. revert E.
  unfold Transform, Transform_fuel.
  assert (State 0 None = pos data data) as -> by (unfold pos; by rewrite Nat.sub_diag).
  destruct l as [|[k v] l]; [destruct Hk; apply NoDup_nil_2|].
  assert (data = "{"%char :: member_text q (k, v) ++ with_commas (member_text q) l ++ ["}"%char]) as E.
  { unfold data. cbn [render]. change (λ kv : bytes * json, q kv.1 ++ ":"%char :: render q kv.2) with (member_text q).
    by rewrite Join_commas, <- app_assoc. }
  assert (pos data data = pos data ("{"%char :: member_text q (k, v) ++ with_commas (member_text q) l ++ ["}"%char]))
    as -> by (by f_equal).
  assert (("{"%char :: member_text q (k, v) ++ with_commas (member_text q) l ++ ["}"%char]) `suffix_of` data) as Hs
    by by rewrite <- E.
  rewrite test_pos, scanFor_pos, bool_decide_eq_false_2 by done. apply suffix_cons_inv in Hs.
  cbn [forallb] in Hok. apply andb_prop in Hok as [[Hkk Hok]%andb_prop Hokl]. cbn in Hkk, Hok.
  destruct (object_loop _ _ _ _ _) as [[v' st']|] eqn:El; [|done]. cbn. intros [= <- He].
  revert He. apply check_trailing_error. revert El.
  replace (3 * length data + 4)%nat with (S (3 * length data + 3)) by lia.
  destruct (commas_head (member_text q) l "}" []) as (d & r & Er & Hd); [done|]. rewrite Er in Hs |- *.
  clearbody data.
  assert (length data = S (length (member_text q (k, v)) + S (length r))) as Hlen.
  { rewrite E, Er. cbn. by rewrite length_app. }
  unfold member_text in Hlen at 1. rewrite length_app in Hlen. cbn in Hlen.
  pose proof (object_member q ok_str Hq data (3 * length data + 3) k v d r [] false Hok Hkk
    (reads_all q ok_str Hq data v) Hd ltac:(lia) ltac:(set_solver) Hs) as Hom.
  cbn [app fmap list_fmap] in Hom. rewrite Hom. rewrite <- Er in Hs |- *. apply suffix_app_inv in Hs.
  apply (object_commas_dup q ok_str Hq data l _ [(k, canon v)]); try done.
  - repeat constructor.
  - cbn. by apply NoDup_singleton.
  - pose proof (loop_fuel_commas (member_text q) l). apply suffix_length in Hs. rewrite length_app in Hs.
    cbn in Hs. lia.
Qed.
