(* ===== verification/Errors.v ===== *)
(** * Service errors

    [pkg/controller/errors]: error values, the chain of wrapped errors and
    the HTTP status of an error.  The errors of libraries are opaque values;
    the grpc package's [status.FromError] is a parameter. *)

From S2P Require Import Prelude GoStrings.

Open Scope Z_scope.

(** ** Error values *)

(** - [ENew]: [errors.New], and [fmt.Errorf] without a [%w] verb;
    - [EWrap pre e post]: [fmt.Errorf] whose format has the text [pre]
      before its [%w] verb and [post] after it;
    - [EStatusErr]: a [*StatusErr];
    - [EForeign]: an error of a library, with the error it wraps. *)
Inductive error :=
| ENew (text : bytes)
| EWrap (pre : bytes) (inner : error) (post : bytes)
| EStatusErr (inner : error) (status : Z)
| EForeign (text : bytes) (inner : option error).

(** [err.Error()]. *)
Fixpoint Error (e : error) : bytes :=
  match e with
  | ENew text => text
  | EWrap pre inner post => pre ++ Error inner ++ post
  | EStatusErr inner _ => Error inner
  | EForeign text _ => text
  end.

(** [errors.Unwrap]; the method of [*StatusErr] unwraps the error it embeds. *)
Fixpoint Unwrap (e : error) : option error :=
  match e with
  | ENew _ => None
  | EWrap _ inner _ => Some inner
  | EStatusErr inner _ => Unwrap inner
  | EForeign _ inner => inner
  end.

(** ** Constructors *)

Definition StatusOK : Z := 200.
Definition StatusBadRequest : Z := 400.
Definition StatusUnauthorized : Z := 401.
Definition StatusForbidden : Z := 403.
Definition StatusNotFound : Z := 404.
Definition StatusRequestTimeout : Z := 408.
Definition StatusConflict : Z := 409.
Definition StatusPreconditionFailed : Z := 412.
Definition StatusInternalServerError : Z := 500.
Definition StatusNotImplemented : Z := 501.
Definition StatusServiceUnavailable : Z := 503.

Definition New (text : bytes) : error := ENew text.
Definition NewStatusInternalServerError (err : error) : error := EStatusErr err StatusInternalServerError.
Definition NewBadRequestError (err : error) : error := EStatusErr err StatusBadRequest.
Definition NewNotFoundError (err : error) : error := EStatusErr err StatusNotFound.
Definition NewUnauthorizedError (err : error) : error := EStatusErr err StatusUnauthorized.

Definition ErrValidation : error := NewBadRequestError (New "validation failed").
Definition ErrBadRequest : error := NewBadRequestError (New "bad request").
Definition ErrNotFound : error := NewNotFoundError (New "not found").
Definition ErrInternal : error := NewStatusInternalServerError (New "internal error").

(** ** HTTP status of an error *)

Inductive rpc_code :=
| OK | Canceled | Unknown | InvalidArgument | DeadlineExceeded | NotFound
| AlreadyExists | PermissionDenied | ResourceExhausted | FailedPrecondition
| Aborted | OutOfRange | Unimplemented | Internal | Unavailable | DataLoss
| Unauthenticated | OtherCode (n : Z).

#[export] Instance rpc_code_eq_dec : EqDecision rpc_code.
Proof. solve_decision. Defined.

Definition statusCodeFromRPCError (c : rpc_code) : Z :=
  match c with
  | OK => StatusOK
  | Canceled | DeadlineExceeded => StatusRequestTimeout
  | InvalidArgument | OutOfRange | AlreadyExists => StatusBadRequest
  | NotFound => StatusNotFound
  | PermissionDenied | ResourceExhausted => StatusForbidden
  | Unauthenticated => StatusUnauthorized
  | FailedPrecondition => StatusPreconditionFailed
  | Aborted => StatusConflict
  | Unimplemented => StatusNotImplemented
  | Unavailable => StatusServiceUnavailable
  | _ => StatusInternalServerError
  end.

(** [status.FromError]: the code when its second result is true. *)
Class GrpcStatus := FromError : error → option rpc_code.

(** What the package documents: only an error made by it has a status (the
    errors of this program are not), and [OK] is the status of no error. *)
Class GrpcStatusLaws `{GrpcStatus} := {
  FromError_foreign e c : FromError e = Some c → ∃ text inner, e = EForeign text inner;
  FromError_not_ok e : FromError e ≠ Some OK
}.

Section status_code.
Context `{GrpcStatus}.

(** [StatusCodeFromError]. *)
Fixpoint StatusCodeFromError (e : error) : Z :=
  match e with
  | EStatusErr _ status => status
  | _ =>
      match FromError e, e with
      | Some c, _ => statusCodeFromRPCError c
      | None, EWrap _ inner _ => StatusCodeFromError inner
      | None, EForeign _ (Some inner) => StatusCodeFromError inner
      | None, _ => StatusInternalServerError
      end
  end.

(** The code an error carries itself. *)
Definition own_code (e : error) : option Z :=
  match e with
  | EStatusErr _ status => Some status
  | _ => statusCodeFromRPCError <$> FromError e
  end.

(** The recursion follows [errors.Unwrap], as the code is written. *)
Lemma StatusCodeFromError_eq e :
  StatusCodeFromError e =
    match own_code e with
    | Some code => code
    | None =>
        match Unwrap e with
        | Some err => StatusCodeFromError err
        | None => StatusInternalServerError
        end
    end.
Proof.
  destruct e as [| | |t [i|]]; unfold own_code; cbn [StatusCodeFromError Unwrap];
    try done; by destruct (FromError _).
Qed.

(** Successive results of [errors.Unwrap], the error itself first. *)
Inductive in_chain : error → error → Prop :=
| chain_here e : in_chain e e
| chain_next e e' e'' : Unwrap e = Some e' → in_chain e' e'' → in_chain e e''.

(** [code_found e code]: the first error of the chain of [e] that carries
    a code carries [code]. *)
Inductive code_found : error → Z → Prop :=
| found_here e code : own_code e = Some code → code_found e code
| found_next e e' code : own_code e = None → Unwrap e = Some e' → code_found e' code → code_found e code.

Fixpoint error_size (e : error) : nat :=
  match e with
  | ENew _ => 1
  | EWrap _ i _ => S (error_size i)
  | EStatusErr i _ => S (error_size i)
  | EForeign _ (Some i) => S (error_size i)
  | EForeign _ None => 1
  end.

Lemma Unwrap_size e e' : Unwrap e = Some e' → (error_size e' < error_size e)%nat.
Proof.
  induction e as [| |i IH|t [i|]]; cbn; intros; simplify_eq; [lia| |lia].
  specialize (IH ltac:(done)). lia.
Qed.

Lemma StatusCodeFromError_found e code : code_found e code → StatusCodeFromError e = code.
Proof.
  induction 1 as [e code Ho|e e' code Ho Hu _ IH]; rewrite StatusCodeFromError_eq, Ho; [done|].
  by rewrite Hu.
Qed.

Lemma StatusCodeFromError_wrap `{!GrpcStatusLaws} pre e post :
  StatusCodeFromError (EWrap pre e post) = StatusCodeFromError e.
Proof.
  cbn. destruct (FromError _) eqn:E; [|done].
  apply FromError_foreign in E as (? & ? & ?). done.
Qed.

Lemma StatusCodeFromError_new `{!GrpcStatusLaws} text :
  StatusCodeFromError (ENew text) = StatusInternalServerError.
Proof.
  cbn. destruct (FromError _) eqn:E; [|done].
  apply FromError_foreign in E as (? & ? & ?). done.
Qed.
End status_code.

#[export] Hint Rewrite @StatusCodeFromError_wrap @StatusCodeFromError_new using (typeclasses eauto) : go_rw.

(** ** Properties *)

(** [StatusCodeFromError] returns the code of the first error of the
    chain of [errors.Unwrap] that carries one, and 500 exactly when no error
    of the chain does. *)
Theorem StatusCodeFromError_first `{GrpcStatus} e :
  code_found e (StatusCodeFromError e) ∨
  (StatusCodeFromError e = StatusInternalServerError ∧ ∀ e', in_chain e e' → own_code e' = None).
Proof.
  induction e as [e IH] using (induction_ltof1 _ error_size). unfold ltof in IH.
  rewrite StatusCodeFromError_eq. destruct (own_code e) as [code|] eqn:Ho; [by left; constructor|].
  destruct (Unwrap e) as [e'|] eqn:Hu.
  - destruct (IH e' (Unwrap_size _ _ Hu)) as [Hf|[Hc Hn]].
    + left. by eapply found_next.
    + right. split; [done|]. inversion 1; simplify_eq; auto.
  - right. split; [done|]. inversion 1; simplify_eq; auto.
Qed.
