(* ===== verification/Sha256.v ===== *)
(** * [crypto/sha256.Sum256]

    SHA-256 on byte sequences, as FIPS 180-4 gives it: padding to 64-byte
    blocks, the message schedule and 64 rounds on eight 32-bit words. *)

From S2P Require Import Prelude.

Open Scope Z_scope.

Definition w32 (z : Z) : Z := z mod 2 ^ 32.
Definition rotr (n x : Z) : Z := Z.lor (Z.shiftr x n) (w32 (Z.shiftl x (32 - n))).
Definition not32 (x : Z) : Z := 2 ^ 32 - 1 - x.

Definition bsig0 (x : Z) : Z := Z.lxor (Z.lxor (rotr 2 x) (rotr 13 x)) (rotr 22 x).
Definition bsig1 (x : Z) : Z := Z.lxor (Z.lxor (rotr 6 x) (rotr 11 x)) (rotr 25 x).
Definition ssig0 (x : Z) : Z := Z.lxor (Z.lxor (rotr 7 x) (rotr 18 x)) (Z.shiftr x 3).
Definition ssig1 (x : Z) : Z := Z.lxor (Z.lxor (rotr 17 x) (rotr 19 x)) (Z.shiftr x 10).
Definition ch (x y z : Z) : Z := Z.lxor (Z.land x y) (Z.land (not32 x) z).
Definition maj (x y z : Z) : Z := Z.lxor (Z.lxor (Z.land x y) (Z.land x z)) (Z.land y z).

(** The constants of the standard are the first 32 bits of the fractional
    parts of the cube and square roots of the first primes. *)

Definition is_prime (n : Z) : bool :=
  (2 <=? n) && forallb (λ d, negb (n mod d =? 0)) (seqZ 2 (n - 2)).

Definition small_primes : list Z := List.filter is_prime (seqZ 0 312).

(** [root f n]: the largest [r] below [2 ^ bits] with [f r ≤ n], bit by bit. *)
Fixpoint root_from (f : Z → Z) (n : Z) (bits : nat) (r : Z) : Z :=
  match bits with
  | O => r
  | S b => root_from f n b (let r' := r + 2 ^ Z.of_nat b in if f r' <=? n then r' else r)
  end.

Definition cube_root_bits (p : Z) : Z := w32 (root_from (λ x, x * x * x) (p * 2 ^ 96) 36 0).
Definition square_root_bits (p : Z) : Z := w32 (root_from (λ x, x * x) (p * 2 ^ 64) 38 0).

Definition round_constants : list Z := Eval vm_compute in List.map cube_root_bits small_primes.

Record words := Words { wa : Z; wb : Z; wc : Z; wd : Z; we : Z; wf : Z; wg : Z; wh : Z }.

Definition initial_words : words := Eval vm_compute in
  match List.map square_root_bits (take 8 small_primes) with
  | [a; b; c; d; e; f; g; h] => Words a b c d e f g h
  | _ => Words 0 0 0 0 0 0 0 0
  end.

Definition sha_round (s : words) (kw : Z) : words :=
  let t1 := wh s + bsig1 (we s) + ch (we s) (wf s) (wg s) + kw in
  let t2 := bsig0 (wa s) + maj (wa s) (wb s) (wc s) in
  Words (w32 (t1 + t2)) (wa s) (wb s) (wc s) (w32 (wd s + t1)) (we s) (wf s) (wg s).

(** Rounds with the last sixteen schedule words as a window. *)
Fixpoint sha_rounds (ks window : list Z) (s : words) : words :=
  match ks with
  | [] => s
  | k :: ks' =>
      let w0 := nth 0 window 0 in
      let next := w32 (ssig1 (nth 14 window 0) + nth 9 window 0 + ssig0 (nth 1 window 0) + w0) in
      sha_rounds ks' (tail window ++ [next]) (sha_round s (k + w0))
  end.

Definition add_words (a b : words) : words :=
  Words (w32 (wa a + wa b)) (w32 (wb a + wb b)) (w32 (wc a + wc b)) (w32 (wd a + wd b))
        (w32 (we a + we b)) (w32 (wf a + wf b)) (w32 (wg a + wg b)) (w32 (wh a + wh b)).

Fixpoint be32s (s : bytes) : list Z :=
  match s with
  | a :: b :: c :: d :: s' => (((bval a * 256 + bval b) * 256 + bval c) * 256 + bval d) :: be32s s'
  | _ => []
  end.

Definition be32_bytes (x : Z) : bytes :=
  [chr (x / 2 ^ 24); chr (x / 2 ^ 16); chr (x / 2 ^ 8); chr x].

Definition sha_block (s : words) (window : list Z) : words :=
  add_words s (sha_rounds round_constants window s).

Fixpoint sha_blocks (n : nat) (ws : list Z) (s : words) : words :=
  match n with
  | O => s
  | S n' => sha_blocks n' (drop 16 ws) (sha_block s (take 16 ws))
  end.

Definition sha_pad (s : bytes) : bytes :=
  let bits := 8 * Z.of_nat (length s) in
  let zeros := (55 - Z.of_nat (length s)) mod 64 in
  s ++ chr 128 :: replicate (Z.to_nat zeros) (chr 0) ++ be32_bytes (bits / 2 ^ 32) ++ be32_bytes bits.

Definition Sum256 (s : bytes) : bytes :=
  let p := sha_pad s in
  let r := sha_blocks (length p / 64) (be32s p) initial_words in
  [wa r; wb r; wc r; wd r; we r; wf r; wg r; wh r] ≫= be32_bytes.

(** The test vector of the standard. *)
Example Sum256_abc :
  be32s (Sum256 "abc") =
  [0xba7816bf; 0x8f01cfea; 0x414140de; 0x5dae2223; 0xb00361a3; 0x96177a9c; 0xb410ff61; 0xf20015ad].
Proof. vm_compute. reflexivity. Qed.

Lemma Sum256_length s : length (Sum256 s) = 32%nat.
Proof. reflexivity. Qed.
