(* ===== verification/GoFmt.v ===== *)
(** * Formatting verbs of Go's [fmt] the program uses

    [%q] ([strconv.Quote]), [%d], and [%v] of a byte slice.  Whether a
    non-ASCII rune is printable is a question to the Unicode tables, which
    are a parameter. *)

From S2P Require Import Prelude GoStrings Utf GoJson.

Open Scope Z_scope.

(** [unicode.IsPrint] on the runes from 128 on. *)
Class UnicodeTable := IsPrint : Z → bool.

(** A table for examples: no rune above ASCII is printable. *)
Definition ascii_only : UnicodeTable := λ _, false.

Definition hex_byte (b : Z) : bytes := [hex_digit (b / 16); hex_digit (b mod 16)].

(** [strconv.Quote] writes the escape of one rune. *)
Definition quote_rune `{UnicodeTable} (r : Z) : bytes :=
  if (r =? 34) || (r =? 92) then [backslash; chr r]
  else if (if r <? 128 then (32 <=? r) && (r <? 127) else IsPrint r) then encode_rune r
  else if r =? 7 then [backslash; "a"%char]
  else if r =? 8 then [backslash; "b"%char]
  else if r =? 12 then [backslash; "f"%char]
  else if r =? 10 then [backslash; "n"%char]
  else if r =? 13 then [backslash; "r"%char]
  else if r =? 9 then [backslash; "t"%char]
  else if r =? 11 then [backslash; "v"%char]
  else if (r <? 32) || (r =? 127) then [backslash; "x"%char] ++ hex_byte r
  else if r <? 65536 then [backslash; "u"%char] ++ hex_byte (r / 256) ++ hex_byte (r mod 256)
  else [backslash; "U"%char] ++ hex_byte (r / 2 ^ 24) ++ hex_byte (r / 2 ^ 16 mod 256)
         ++ hex_byte (r / 256 mod 256) ++ hex_byte (r mod 256).

Fixpoint quote_from `{UnicodeTable} (skip : nat) (s : bytes) : bytes :=
  match s with
  | [] => []
  | c :: s' =>
      match skip with
      | S k => quote_from k s'
      | O =>
          match rune_len s with
          | Some n => quote_rune (rune_val (take n s)) ++ quote_from (pred n) s'
          | None => [backslash; "x"%char] ++ hex_byte (bval c) ++ quote_from 0 s'
          end
      end
  end.

(** The verb [%q] of a string. *)
Definition Quote `{UnicodeTable} (s : bytes) : bytes := quote_c :: quote_from 0 s ++ [quote_c].

(** The verb [%v] of a byte slice. *)
Definition fmt_bytes (s : option bytes) : bytes :=
  "["%char :: Join ((λ c, FormatUint (bval c)) <$> default [] s) " " ++ ["]"%char].

(** Printable ASCII, without the two characters that are escaped. *)
Definition plain_char (c : ascii) : bool :=
  in_range 32 126 c && negb (bool_decide (c = quote_c)) && negb (bool_decide (c = backslash)).

Lemma plain_char_bounds c :
  plain_char c = true → 32 ≤ bval c < 127 ∧ bval c ≠ 34 ∧ bval c ≠ 92.
Proof. byte_cases c; lia. Qed.

Lemma quote_from_plain `{UnicodeTable} s : forallb plain_char s = true → quote_from 0 s = s.
Proof.
  induction s as [|c s IH]; [done|]. cbn [forallb quote_from]. intros [Hc Hs]%andb_prop.
  apply plain_char_bounds in Hc as (Hb & Hq & Hbs).
  assert (rune_len (c :: s) = Some 1%nat) as ->.
  { cbn [rune_len]. by rewrite (proj2 (Z.ltb_lt _ _)) by lia. }
  change (rune_val (take 1 (c :: s))) with (bval c). cbn [Nat.pred]. rewrite (IH Hs). change (c :: s) with ([c] ++ s). f_equal.
  unfold quote_rune. rewrite (proj2 (Z.eqb_neq (bval c) 34)), (proj2 (Z.eqb_neq (bval c) 92)) by done.
  cbn [orb]. assert (encode_rune (bval c) = [c]) as ->.
  { unfold encode_rune. assert ((bval c <? 0) || (1114111 <? bval c) || is_surrogate (bval c) = false) as ->
      by (unfold is_surrogate; z_cases; done).
    z_cases. by rewrite chr_bval. }
  z_cases. done.
Qed.

(** Text made of plain characters is quoted as it stands. *)
Lemma Quote_plain `{UnicodeTable} s :
  forallb plain_char s = true → Quote s = quote_c :: s ++ [quote_c].
Proof. intros Hs. unfold Quote. by rewrite quote_from_plain. Qed.
