(* ===== verification/GoUrl.v ===== *)
(** * Go's [net/url]: parsing, printing and query strings

    [url.Parse] and [URL.String], [QueryEscape] and [QueryUnescape],
    [Values.Encode] and [ParseQuery], as the handlers and the client use
    them. *)

From S2P Require Import Prelude GoStrings Utf GoFmt Errors.

Open Scope Z_scope.

(** ** Percent encoding *)

Inductive encoding :=
| encodePath | encodeUserPassword | encodeHost | encodeZone | encodeQueryComponent | encodeFragment.

#[export] Instance encoding_eq_dec : EqDecision encoding.
Proof. solve_decision. Defined.

Definition is_lower (c : ascii) : bool := in_range 97 122 c.
Definition is_upper (c : ascii) : bool := in_range 65 90 c.
Definition is_alnum (c : ascii) : bool := is_lower c || is_upper c || is_digit c.
Definition mem_byte (c : ascii) (s : bytes) : bool := existsb (λ d, bool_decide (c = d)) s.

Definition is_host_mode (mode : encoding) : bool :=
  match mode with encodeHost | encodeZone => true | _ => false end.

Definition mode_is (mode m : encoding) : bool := bool_decide (mode = m).

(** [shouldEscape]. *)
Definition shouldEscape (c : ascii) (mode : encoding) : bool :=
  if is_alnum c then false
  else if is_host_mode mode && mem_byte c (chr 34 :: ("!$&'()*+,;=:[]<>" : bytes)) then false
  else if mem_byte c "-_.~" then false
  else if mem_byte c "$&+,/:;=?@" && negb (is_host_mode mode) then
    match mode with
    | encodePath => bool_decide (c = "?"%char)
    | encodeUserPassword => mem_byte c "@/?:"
    | encodeQueryComponent => true
    | _ => false
    end
  else if mode_is mode encodeFragment && mem_byte c "!()*" then false
  else true.

Definition upper_hex (d : Z) : ascii := if d <? 10 then chr (48 + d) else chr (55 + d).

Definition escape_byte (mode : encoding) (c : ascii) : bytes :=
  if shouldEscape c mode then
    if bool_decide (c = " "%char) && mode_is mode encodeQueryComponent then ["+"%char]
    else ["%"%char; upper_hex (bval c / 16); upper_hex (bval c mod 16)]
  else [c].
Definition escape (s : bytes) (mode : encoding) : bytes := s ≫= escape_byte mode.

Section url.
Context `{UnicodeTable}.

Definition EscapeError (s : bytes) : error := ENew ("invalid URL escape " ++ Quote (take 3 s)).
Definition InvalidHostError (c : ascii) : error :=
  ENew ("invalid character " ++ Quote [c] ++ " in host name").

(** [unescape]; the restrictions on hosts and zones come first. *)
Fixpoint unescape (s : bytes) (mode : encoding) : result error bytes :=
  match s with
  | [] => Ok []
  | c :: s' =>
      if bool_decide (c = "%"%char) then
        match s' with
        | a :: b :: s2 =>
            match hex_val a, hex_val b with
            | Some x, Some y =>
                let is25 := bool_decide (s' = "2"%char :: "5"%char :: s2) in
                let v := chr (16 * x + y) in
                if mode_is mode encodeHost && (x <? 8) && negb is25 then Err (EscapeError s)
                else if mode_is mode encodeZone && negb is25 && negb (bool_decide (v = " "%char))
                          && shouldEscape v encodeHost then Err (EscapeError s)
                else r ← unescape s2 mode; Ok (v :: r)
            | _, _ => Err (EscapeError s)
            end
        | _ => Err (EscapeError s)
        end
      else if is_host_mode mode && (bval c <? 128) && shouldEscape c mode then Err (InvalidHostError c)
      else
        r ← unescape s' mode;
        Ok ((if bool_decide (c = "+"%char) && mode_is mode encodeQueryComponent then " "%char else c) :: r)
  end.

Definition QueryEscape (s : bytes) : bytes := escape s encodeQueryComponent.
Definition QueryUnescape (s : bytes) : result error bytes := unescape s encodeQueryComponent.
Definition PathUnescape (s : bytes) : result error bytes := unescape s encodePath.

(** ** URLs *)

Record URL := Url {
  Scheme : bytes;
  Opaque : bytes;
  User : option (bytes * option bytes);
  Host : bytes;
  Path : bytes;
  RawPath : bytes;
  OmitHost : bool;
  ForceQuery : bool;
  RawQuery : bytes;
  Fragment : bytes;
  RawFragment : bytes
}.

(** [getScheme]; [None] when the text starts with a colon. *)
Fixpoint scheme_from (first : bool) (s : bytes) : option (option (bytes * bytes)) :=
  match s with
  | [] => Some None
  | c :: s' =>
      if is_lower c || is_upper c then
        r ← scheme_from false s'; Some ('(a, b) ← r; Some (c :: a, b))
      else if is_digit c || mem_byte c "+-." then
        if first then Some None else r ← scheme_from false s'; Some ('(a, b) ← r; Some (c :: a, b))
      else if bool_decide (c = ":"%char) then if first then None else Some (Some ([], s'))
      else Some None
  end.
Definition getScheme (s : bytes) : result error (bytes * bytes) :=
  match scheme_from true s with
  | None => Err (ENew "missing protocol scheme")
  | Some None => Ok ([], s)
  | Some (Some p) => Ok p
  end.

(** Cut around the last occurrence of a byte. *)
Fixpoint cut_last (c : ascii) (s : bytes) : option (bytes * bytes) :=
  match s with
  | [] => None
  | d :: s' =>
      match cut_last c s' with
      | Some (a, b) => Some (d :: a, b)
      | None => if bool_decide (d = c) then Some ([], s') else None
      end
  end.

Definition validOptionalPort (port : bytes) : bool :=
  match port with
  | [] => true
  | c :: ds => bool_decide (c = ":"%char) && forallb is_digit ds
  end.

Definition bad_port (colonPort : bytes) : error :=
  ENew ("invalid port " ++ Quote colonPort ++ " after host").

Definition parseHost (host : bytes) : result error bytes :=
  if HasPrefix host "[" then
    match cut_last "]" host with
    | None => Err (ENew "missing ']' in host")
    | Some (inner, colonPort) =>
        if negb (validOptionalPort colonPort) then Err (bad_port colonPort)
        else match cut "%25" inner with
             | Some (h1, h2) =>
                 host1 ← unescape h1 encodeHost;
                 host2 ← unescape (("%25" : bytes) ++ h2) encodeZone;
                 host3 ← unescape ("]"%char :: colonPort) encodeHost;
                 Ok (host1 ++ host2 ++ host3)
             | None => unescape host encodeHost
             end
    end
  else
    match cut_last ":" host with
    | Some (_, port) =>
        if validOptionalPort (":"%char :: port) then unescape host encodeHost
        else Err (bad_port (":"%char :: port))
    | None => unescape host encodeHost
    end.

Definition validUserinfo (s : bytes) : bool :=
  forallb (λ c, is_alnum c || mem_byte c "-._:~!$&'()*+,;=%@") s.

Definition parseAuthority (authority : bytes) : result error (option (bytes * option bytes) * bytes) :=
  match cut_last "@" authority with
  | None => host ← parseHost authority; Ok (None, host)
  | Some (userinfo, h) =>
      host ← parseHost h;
      if negb (validUserinfo userinfo) then Err (ENew "net/url: invalid userinfo")
      else match cut ":" userinfo with
           | None => username ← unescape userinfo encodeUserPassword; Ok (Some (username, None), host)
           | Some (u, p) =>
               username ← unescape u encodeUserPassword;
               password ← unescape p encodeUserPassword;
               Ok (Some (username, Some password), host)
           end
  end.

Definition has_ctl (s : bytes) : bool := existsb (λ c, (bval c <? 32) || (bval c =? 127)) s.
Definition ToLower (s : bytes) : bytes := (λ c, if is_upper c then chr (bval c + 32) else c) <$> s.

(** The part of [parse] from the path on. *)
Definition split_query (rest : bytes) : bytes * bool * bytes :=
  match cut "?" rest with
  | Some (a, b) => if bool_decide (b = []) then (a, true, []) else (a, false, b)
  | None => (rest, false, [])
  end.

Definition path_parts (rest : bytes) : result error (bytes * bytes) :=
  path ← PathUnescape rest;
  Ok (path, if bool_decide (rest = escape path encodePath) then [] else rest).

Definition parse (rawURL : bytes) : result error URL :=
  if has_ctl rawURL then Err (ENew "net/url: invalid control character in URL")
  else if bool_decide (rawURL = "*") then Ok (Url [] [] None [] "*" [] false false [] [] [])
  else
    '(scheme, rest) ← getScheme rawURL;
    let scheme := ToLower scheme in
    let '(rest, force, query) := split_query rest in
    let rooted := HasPrefix rest "/" in
    if negb rooted && negb (bool_decide (scheme = [])) then
      Ok (Url scheme rest None [] [] [] false force query [] [])
    else if negb rooted && Contains (default rest (fst <$> cut "/" rest)) ":" then
      Err (ENew "first path segment in URL cannot contain colon")
    else if (negb (bool_decide (scheme = [])) || negb (HasPrefix rest "///")) && HasPrefix rest "//" then
      let authority := drop 2 rest in
      let '(authority, rest) :=
        match cut "/" authority with Some (a, b) => (a, "/"%char :: b) | None => (authority, []) end in
      '(user, host) ← parseAuthority authority;
      '(path, raw) ← path_parts rest;
      Ok (Url scheme [] user host path raw false force query [] [])
    else
      '(path, raw) ← path_parts rest;
      Ok (Url scheme [] None [] path raw (negb (bool_decide (scheme = [])) && rooted) force query [] []).

Definition url_error (u : bytes) (e : error) : error := EWrap (("parse " : bytes) ++ Quote u ++ ": ") e [].

(** [url.Parse]. *)
Definition url_Parse (rawURL : bytes) : result error URL :=
  let '(u, frag) := default (rawURL, []) (cut "#" rawURL) in
  match parse u with
  | Err e => Err (url_error u e)
  | Ok r =>
      if bool_decide (frag = []) then Ok r
      else match unescape frag encodeFragment with
           | Err e => Err (url_error rawURL e)
           | Ok f =>
               Ok (Url (Scheme r) (Opaque r) (User r) (Host r) (Path r) (RawPath r) (OmitHost r)
                     (ForceQuery r) (RawQuery r) f
                     (if bool_decide (frag = escape f encodeFragment) then [] else frag))
           end
  end.

(** [validEncoded], [EscapedPath] and [EscapedFragment]. *)
Definition validEncoded (s : bytes) (mode : encoding) : bool :=
  forallb (λ c, mem_byte c "!$&'()*+,;=:@" || mem_byte c "[]" || bool_decide (c = "%"%char)
                || negb (shouldEscape c mode)) s.
Definition escaped (raw s : bytes) (mode : encoding) : bytes :=
  if negb (bool_decide (raw = [])) && validEncoded raw mode then raw else escape s mode.

Definition EscapedPath (u : URL) : bytes :=
  if negb (bool_decide (RawPath u = [])) && validEncoded (RawPath u) encodePath then RawPath u
  else if bool_decide (Path u = "*") then "*" else escape (Path u) encodePath.

Definition user_String (u : bytes * option bytes) : bytes :=
  escape u.1 encodeUserPassword ++
  match u.2 with Some p => ":"%char :: escape p encodeUserPassword | None => [] end.

(** [URL.String]. *)
Definition url_String (u : URL) : bytes :=
  let scheme := if bool_decide (Scheme u = []) then [] else Scheme u ++ [":"%char] in
  let body :=
    if negb (bool_decide (Opaque u = [])) then Opaque u
    else
      let no_host := bool_decide (Host u = []) in
      let no_user := bool_decide (User u = None) in
      let slashes := if no_host && bool_decide (Path u = []) && no_user then [] else ("//" : bytes) in
      let userinfo := match User u with Some ui => user_String ui ++ ["@"%char] | None => [] end in
      let auth :=
        if bool_decide (Scheme u = []) && no_host && no_user then []
        else if OmitHost u && no_host && no_user then []
        else slashes ++ userinfo ++ escape (Host u) encodeHost in
      let path := EscapedPath u in
      let sep := if negb (bool_decide (path = [])) && negb (HasPrefix path "/") && negb no_host
                 then ["/"%char] else [] in
      let dot := if bool_decide (scheme ++ auth ++ sep = []) && Contains (default path (fst <$> cut "/" path)) ":"
                 then ("./" : bytes) else [] in
      auth ++ sep ++ dot ++ path in
  let query := if ForceQuery u || negb (bool_decide (RawQuery u = [])) then "?"%char :: RawQuery u else [] in
  let frag := if bool_decide (Fragment u = []) then []
              else "#"%char :: escaped (RawFragment u) (Fragment u) encodeFragment in
  scheme ++ body ++ query ++ frag.

(** ** Query strings *)

(** [ParseQuery] without its error, as [URL.Query] uses it: the pairs in
    order. *)
Definition query_pair (key : bytes) : option (bytes * bytes) :=
  if Contains key ";" || bool_decide (key = []) then None
  else
    let '(k, v) := default (key, []) (cut "=" key) in
    match QueryUnescape k, QueryUnescape v with
    | Ok k', Ok v' => Some (k', v')
    | _, _ => None
    end.
Definition ParseQuery (query : bytes) : list (bytes * bytes) := omap query_pair (Split query "&").
End url.

(** [Values.Get] and [Values[k]]. *)
Definition values_all (m : list (bytes * bytes)) (k : bytes) : list bytes :=
  snd <$> filter (λ p, p.1 = k) m.
Definition values_Get (m : list (bytes * bytes)) (k : bytes) : bytes :=
  default [] (head (values_all m k)).

Fixpoint insert_pair (p : bytes * bytes) (l : list (bytes * bytes)) : list (bytes * bytes) :=
  match l with
  | [] => [p]
  | q :: l' => if bytes_ltb p.1 q.1 then p :: q :: l' else q :: insert_pair p l'
  end.
(** Keys in increasing order, the values of a key in the order they were added. *)
Definition sort_pairs (m : list (bytes * bytes)) : list (bytes * bytes) := foldl (flip insert_pair) [] m.

(** [Values.Encode] of the pairs in the order they were added. *)
Definition Values_Encode (m : list (bytes * bytes)) : bytes :=
  Join ((λ p, QueryEscape p.1 ++ "="%char :: QueryEscape p.2) <$> sort_pairs m) "&".
