(* ===== verification/Codec.v ===== *)
(** * JSON codecs of Go structs

    What [encoding/json] does with a struct: its fields are encoded in order
    under their tags, and decoded by name over the current value.  The class
    [JsonCodec] is the interface between the wire format of a type and the
    handlers; its laws give the round trips through [json.Marshal] and
    [json.Unmarshal] for every type that has them. *)

From S2P Require Import Prelude GoStrings Utf GoJson GoJsonFacts.

Open Scope Z_scope.

(** A field decoder updates one component of a struct. *)
Definition field {A B} (get : A → B) (set : B → A → A) (d : decoder B) : decoder A := λ j old,
  let '(x, e) := d j (get old) in (set x old, e).

Class JsonCodec (A : Type) := {
  enc : A → json;
  dec : decoder A;
  zero : A;
  wf : A → bool
}.

Class JsonCodecLaws (A : Type) `{JsonCodec A} := {
  enc_ok (x : A) : wf x = true → json_ok valid_utf8 (enc x) = true;
  enc_depth (x : A) : wf x = true → (json_depth (enc x) ≤ max_depth)%nat;
  dec_enc (x old : A) : wf x = true → dec (enc x) old = (x, false)
}.

(** [json.Marshal], [json.Unmarshal], [Encoder.Encode] and [Decoder.Decode]
    at a type. *)
Definition json_Marshal `{JsonCodec A} (x : A) : bytes := Marshal (enc x).
Definition json_Encode `{JsonCodec A} (x : A) : bytes := Encode (enc x).
Definition json_Unmarshal `{JsonCodec A} (data : bytes) : result json_error A := Unmarshal dec zero data.
Definition json_Decode `{JsonCodec A} (r : bytes) : result json_error A := Decode dec zero r.

(** Pointers: [null] is nil. *)
#[export] Instance ptr_codec `{JsonCodec A} : JsonCodec (option A) := {
  enc := λ x, match x with Some x => enc x | None => JNull end;
  dec := dec_ptr dec zero;
  zero := None;
  wf := λ x, match x with Some x => wf x | None => true end
}.

#[export] Instance string_codec : JsonCodec bytes := {
  enc := enc_string; dec := dec_string; zero := []; wf := valid_utf8
}.

Section codec_facts.
Context `{JsonCodec A, !JsonCodecLaws A}.

Lemma Unmarshal_Marshal (x : A) : wf x = true → json_Unmarshal (json_Marshal x) = Ok x.
Proof.
  intros Hx. unfold json_Unmarshal, Unmarshal, json_Marshal.
  rewrite unmarshal_Marshal by auto using enc_ok, enc_depth. cbn.
  unfold run_decoder. by rewrite dec_enc.
Qed.

Lemma Decode_Marshal (x : A) t :
  wf x = true → num_stop t = true → json_Decode (json_Marshal x ++ t) = Ok x.
Proof.
  intros Hx Ht. unfold json_Decode, Decode, json_Marshal.
  rewrite decode_stream_Marshal by auto using enc_ok, enc_depth. cbn.
  unfold run_decoder. by rewrite dec_enc.
Qed.

Lemma Decode_Encode (x : A) : wf x = true → json_Decode (json_Encode x) = Ok x.
Proof. intros Hx. by apply Decode_Marshal. Qed.

(** Decoding into a pointer. *)
Lemma dec_ptr_enc (x : A) old :
  enc x ≠ JNull → wf x = true → dec (A := option A) (enc x) old = (Some x, false).
Proof.
  intros Hn Hx. cbn. unfold dec_ptr. destruct (enc x) eqn:E; try done; rewrite <- E, dec_enc by done; done.
Qed.

Lemma Decode_ptr (x : A) t :
  enc x ≠ JNull → wf x = true → num_stop t = true → json_Decode (A := option A) (json_Marshal x ++ t) = Ok (Some x).
Proof.
  intros Hn Hx Ht. unfold json_Decode, Decode, json_Marshal.
  rewrite decode_stream_Marshal by auto using enc_ok, enc_depth. cbn [mbind result_bind].
  unfold run_decoder. by rewrite dec_ptr_enc.
Qed.

Lemma Decode_Encode_ptr (x : A) :
  enc x ≠ JNull → wf x = true → json_Decode (A := option A) (json_Encode x) = Ok (Some x).
Proof. intros. by apply (Decode_ptr x [chr 10]). Qed.

Lemma Unmarshal_Encode_ptr (x : A) :
  enc x ≠ JNull → wf x = true → json_Unmarshal (A := option A) (json_Encode x) = Ok (Some x).
Proof.
  intros Hn Hx. unfold json_Unmarshal, Unmarshal, json_Encode.
  rewrite unmarshal_Encode by auto using enc_ok, enc_depth. cbn [mbind result_bind].
  unfold run_decoder. by rewrite dec_ptr_enc.
Qed.

Lemma Unmarshal_ptr (x : A) :
  enc x ≠ JNull → wf x = true → json_Unmarshal (A := option A) (json_Marshal x) = Ok (Some x).
Proof.
  intros Hn Hx. unfold json_Unmarshal, Unmarshal, json_Marshal.
  rewrite unmarshal_Marshal by auto using enc_ok, enc_depth. cbn [mbind result_bind].
  unfold run_decoder. by rewrite dec_ptr_enc.
Qed.
End codec_facts.

(** ** Components of structs *)

Lemma dec_enc_int64 z old : is_int64 z → dec_int64 (enc_int z) old = (z, false).
Proof. intros Hz. unfold dec_int64, dec_num, enc_int. by rewrite ParseInt64_FormatInt. Qed.

Lemma ParseUint_FormatInt z m : 0 ≤ z ≤ m → ParseUint (FormatInt z) m = Ok z.
Proof.
  intros Hz. unfold FormatInt. destruct (Z.ltb_spec z 0); [lia|]. apply ParseUint_FormatUint. lia.
Qed.

Lemma dec_enc_uint64 z old : is_uint64 z → dec_uint64 (enc_int z) old = (z, false).
Proof.
  intros Hz. unfold dec_uint64, dec_num, enc_int, ParseUint64. by rewrite ParseUint_FormatInt by int_lia.
Qed.

Lemma dec_enc_uint8 z old : 0 ≤ z ≤ 255 → dec_uint8 (enc_int z) old = (z, false).
Proof. intros Hz. unfold dec_uint8, dec_num, enc_int. by rewrite ParseUint_FormatInt by int_lia. Qed.

Lemma dec_enc_bytes b old : dec_bytes (enc_bytes b) old = (b, false).
Proof. destruct b as [b|]; cbn; [|done]. by rewrite b64_decode_encode. Qed.

Definition is_ascii (c : ascii) : bool := bval c <? 128.

Lemma ascii_utf8 s : forallb is_ascii s = true → valid_utf8 s = true.
Proof.
  unfold valid_utf8. induction s as [|c s IH]; [done|]. cbn [forallb valid_from].
  intros [Hc Hs]%andb_prop. unfold rune_len. unfold is_ascii in Hc. rewrite Hc. by apply IH.
Qed.

Lemma b64_encode_utf8 b : valid_utf8 (b64_encode b) = true.
Proof.
  apply ascii_utf8. pose proof (b64_encode_alphabet b) as Hb.
  apply forallb_forall. intros c Hc. rewrite forallb_forall in Hb. generalize (Hb c Hc). byte_cases c.
Qed.

Lemma enc_int_ok z : json_ok valid_utf8 (enc_int z) = true.
Proof. apply num_lit_FormatInt. Qed.

Lemma enc_bytes_ok b : json_ok valid_utf8 (enc_bytes b) = true.
Proof. destruct b; [|done]. apply b64_encode_utf8. Qed.

Lemma dec_elems_enc {A} (d : decoder A) (e : A → json) z l old :
  (∀ x o, x ∈ l → d (e x) o = (x, false)) → dec_elems d z (List.map e l) old = (l, false).
Proof.
  revert old. induction l as [|x l IH]; intros old Hd; [done|]. cbn.
  rewrite Hd by set_solver. rewrite IH by set_solver. done.
Qed.

Lemma dec_slice_enc {A} (d : decoder A) (e : A → json) z l old :
  (∀ x o, x ∈ default [] l → d (e x) o = (x, false)) → dec_slice d z (enc_slice e l) old = (l, false).
Proof. intros Hd. destruct l as [l|]; [|done]. cbn. by rewrite dec_elems_enc. Qed.

Lemma enc_slice_ok {A} (f : A → json) l :
  (∀ x, json_ok valid_utf8 (f x) = true) → json_ok valid_utf8 (enc_slice f l) = true.
Proof.
  intros Hf. destruct l as [l|]; [|done]. cbn. induction l as [|x l IH]; [done|]. cbn. by rewrite Hf.
Qed.

Lemma enc_slice_bytes_ok l : json_ok valid_utf8 (enc_slice enc_bytes l) = true.
Proof. apply enc_slice_ok, enc_bytes_ok. Qed.

Lemma dec_members_cons {A} (fields : list (bytes * decoder A)) k v l d old x y :
  find_field fields k = Some d → d v old = (x, false) → dec_members fields l x = (y, false) →
  dec_members fields ((k, v) :: l) old = (y, false).
Proof. intros Hk Hd Hl. cbn. by rewrite Hk, Hd, Hl. Qed.

Lemma field_dec {A B} (get : A → B) set (d : decoder B) j old x :
  d j (get old) = (x, false) → field get set d j old = (set x old, false).
Proof. intros Hd. unfold field. by rewrite Hd. Qed.

Lemma string_dec_enc s old : dec_string (enc_string s) old = (s, false).
Proof. done. Qed.

(** Decoding an encoded pointer allocates unless it is nil. *)
Lemma ptr_dec_enc {A} (d : decoder A) z j x old :
  j ≠ JNull → (∀ o, d j o = (x, false)) → dec_ptr d z j old = (Some x, false).
Proof. intros Hj Hd. unfold dec_ptr. destruct j; by rewrite ?Hd. Qed.

#[export] Instance string_codec_laws : JsonCodecLaws bytes.
Proof. split; cbn; [done| |done]. intros. apply Nat.le_0_l. Qed.

#[export] Hint Resolve dec_enc_int64 dec_enc_uint64 dec_enc_uint8 dec_enc_bytes string_dec_enc
  dec_slice_enc enc_int_ok enc_bytes_ok enc_slice_bytes_ok : go.

(** Splits a boolean conjunction of the context. *)
Ltac split_wf :=
  repeat match goal with
  | H : _ && _ = true |- _ => apply andb_true_iff in H as [? ?]
  | H : bool_decide _ = true |- _ => apply bool_decide_eq_true in H
  end.

(** The decoding law of a struct whose fields are all encoded. *)
Ltac solve_dec_enc :=
  intros []; cbn -[dec_struct field enc_int enc_bytes enc_slice enc_string valid_utf8 json_ok];
  intros; split_wf; cbn [dec_struct];
  repeat (eapply dec_members_cons; [reflexivity|apply field_dec; eauto with go|]); reflexivity.

Ltac solve_enc_ok :=
  intros []; cbn -[enc_int enc_bytes enc_slice valid_utf8]; intros; split_wf;
  repeat match goal with
  | |- _ && _ = true => apply andb_true_iff; split
  | |- json_ok _ (enc_string _) = true => assumption
  end; eauto with go; done.

(** Bounds on the nesting of encoded values. *)
Lemma depth_obj l n :
  Forall (λ kv, (json_depth kv.2 ≤ n)%nat) l → (json_depth (JObj l) ≤ S n)%nat.
Proof.
  intros Hl. apply le_n_S. cbn. induction Hl as [|kv l Hkv _ IH]; [apply Nat.le_0_l|].
  cbn. by apply Nat.max_lub.
Qed.

Lemma depth_slice {A} (f : A → json) l n :
  (∀ x, json_depth (f x) ≤ n)%nat → (json_depth (enc_slice f l) ≤ S n)%nat.
Proof.
  intros Hf. destruct l as [l|]; [|apply Nat.le_0_l]. apply le_n_S. cbn.
  induction l as [|x l IH]; [apply Nat.le_0_l|]. cbn. by apply Nat.max_lub.
Qed.

Lemma depth_bytes b n : (json_depth (enc_bytes b) ≤ n)%nat.
Proof. destruct b; apply Nat.le_0_l. Qed.

Lemma depth_flat j n : json_depth j = 0%nat → (json_depth j ≤ n)%nat.
Proof. intros ->. apply Nat.le_0_l. Qed.

Lemma depth_small j : (json_depth j ≤ 9)%nat → (json_depth j ≤ max_depth)%nat.
Proof. intros Hj. eapply Nat.le_trans; [exact Hj|]. by apply Nat.leb_le. Qed.

Ltac solve_depth :=
  repeat first
    [ apply depth_bytes
    | apply depth_flat; reflexivity
    | apply depth_slice; intro
    | apply depth_obj
    | apply Forall_cons; split; cbn [snd]
    | apply Forall_nil; exact I
    | match goal with |- context [enc ?x] => is_var x; destruct x end; cbn [enc] ].

(** One decoded field of a struct, named by its projection. *)
Ltac dec_field get :=
  eapply dec_members_cons; [reflexivity|refine (field_dec get _ _ _ _ _ _)|].

Ltac solve_codec :=
  split; [solve_enc_ok | intros [] _; apply depth_small; solve_depth | solve_dec_enc].
