(* ===== verification/Canonicalizer.v ===== *)
(** * [pkg/canonicalizer.MarshalCanonical]

    Marshals a value and rewrites the text into its canonical form, with the
    errors of [Transform] as error values. *)

From S2P Require Import Prelude GoStrings Utf GoJson GoFloat JsonCanon Errors GoFmt Codec.

Open Scope Z_scope.

(** Lower-case hexadecimal, [strconv.FormatUint(u, 16)]. *)
Fixpoint hex_aux (fuel : nat) (n : Z) (acc : bytes) : bytes :=
  match fuel with
  | O => acc
  | S f =>
      let acc := hex_digit (n mod 16) :: acc in
      if n <? 16 then acc else hex_aux f (n / 16) acc
  end.
Definition FormatHex (n : Z) : bytes := hex_aux 16 n [].

(** The text of a [*strconv.NumError]. *)
Definition num_error_text `{UnicodeTable} (func num : bytes) (e : num_error) : bytes :=
  "strconv." ++ func ++ ": parsing " ++ Quote num ++ ": " ++
  match e with ErrSyntax => "invalid syntax" : bytes | ErrRange => "value out of range" end.

Definition byte_string (c : ascii) : bytes := encode_rune (bval c).

(** The errors of [Transform] as Go values. *)
Definition canon_error_value `{UnicodeTable} (e : canon_error) : error :=
  ENew match e with
       | ENonAscii => "Unexpected non-ASCII character"
       | EEof => "Unexpected EOF reached"
       | EExpected expected c => "Expected '" ++ byte_string expected ++ "' but got '" ++ byte_string c ++ "'"
       | EBadHex digits => num_error_text "ParseUint" digits ErrSyntax
       | EUnterminated => "Unterminated string literal"
       | EMissingSurrogate => "Missing surrogate"
       | EBadEscape c => "Unexpected escape: " ++ backslash :: byte_string c
       | EMissingArgument => "Missing argument"
       | ENumber token e => num_error_text "ParseFloat" token e
       | EInvalidNumber bits => "Invalid JSON number: " ++ FormatHex bits
       | EDuplicateKey name => "Duplicate key: " ++ name
       | ETrailing => "Improperly terminated JSON object"
       end.

(** The result pair of [Transform] as a result; [None] does not occur
    ([Transform] always has enough fuel). *)
Definition transform_result `{UnicodeTable} (r : option (bytes * option canon_error)) : result error bytes :=
  match r with
  | Some (out, None) => Ok out
  | Some (_, Some e) => Err (canon_error_value e)
  | None => Err (ENew [])
  end.

(** [MarshalCanonical] of a byte slice, and of a value to be marshalled. *)
Definition MarshalCanonical_bytes `{UnicodeTable} (valueBytes : bytes) : result error bytes :=
  transform_result (Transform valueBytes).
Definition MarshalCanonical `{UnicodeTable} (value : json) : result error bytes :=
  MarshalCanonical_bytes (Marshal value).
