(* ===== verification/Models.v ===== *)
(** * Requests and responses

    [pkg/controller/command/models.go]: one module per struct, with its
    fields, its wire format and its [Validate] method. *)

From S2P Require Import Prelude GoStrings Utf GoJson GoJsonFacts GoFloat JsonCanon GoFmt Errors Codec.

Open Scope Z_scope.

(** ** Constants *)

Definition V1 : Z := 0.
Definition ECDSASignature : bytes := "ECDSA".
Definition EDDSASignature : bytes := "EDDSA".
Definition VCTimestampSignatureType : Z := 100.
Definition TreeHeadSignatureType : Z := 101.
Definition TimestampedEntryLeafType : Z := 100.
Definition VCLogEntryType : Z := 100.

(** [fmt.Errorf("%w: ...", errors.ErrValidation, ...)]. *)
Definition validation (text : bytes) : result error unit := Err (EWrap [] ErrValidation (": " ++ text)).

(** A pair of numbers in an error text. *)
Definition two_numbers (a : bytes) (x : Z) (b : bytes) (y : Z) (c : bytes) : bytes :=
  a ++ " " ++ FormatInt x ++ " and " ++ b ++ " " ++ FormatInt y ++ " " ++ c.

(** ** get-entry-and-proof *)

Module GetEntryAndProofRequest.
Record t := mk { Alias : bytes; LeafIndex : Z; TreeSize : Z }.
#[global] Instance codec : JsonCodec t := {
  enc r := JObj [
    ("alias" : bytes, enc_string (Alias r));
    ("leaf_index" : bytes, enc_int (LeafIndex r));
    ("tree_size" : bytes, enc_int (TreeSize r))];
  dec := dec_struct [
    ("alias" : bytes, field Alias (λ x r, mk x (LeafIndex r) (TreeSize r)) dec_string);
    ("leaf_index" : bytes, field LeafIndex (λ x r, mk (Alias r) x (TreeSize r)) dec_int64);
    ("tree_size" : bytes, field TreeSize (λ x r, mk (Alias r) (LeafIndex r) x) dec_int64)];
  zero := mk [] 0 0;
  wf r := valid_utf8 (Alias r) && bool_decide (is_int64 (LeafIndex r)) && bool_decide (is_int64 (TreeSize r))
}.
#[global] Instance codec_laws : JsonCodecLaws t.
Proof. solve_codec. Qed.

Definition Validate (r : option t) : result error unit :=
  match r with
  | None => validation "validate on nil value"
  | Some r =>
      if TreeSize r <? 1 then validation "tree_size value must be greater than zero"
      else if LeafIndex r <? 0 then validation "leaf_index must be greater than or equal to zero"
      else if TreeSize r <=? LeafIndex r then validation "leaf_index must be less than tree_size"
      else Ok ()
  end.
End GetEntryAndProofRequest.

Module GetEntryAndProofResponse.
Record t := mk { LeafInput : option bytes; ExtraData : option bytes; AuditPath : option (list (option bytes)) }.
#[global] Instance codec : JsonCodec t := {
  enc r := JObj [
    ("leaf_input" : bytes, enc_bytes (LeafInput r));
    ("extra_data" : bytes, enc_bytes (ExtraData r));
    ("audit_path" : bytes, enc_slice enc_bytes (AuditPath r))];
  dec := dec_struct [
    ("leaf_input" : bytes, field LeafInput (λ x r, mk x (ExtraData r) (AuditPath r)) dec_bytes);
    ("extra_data" : bytes, field ExtraData (λ x r, mk (LeafInput r) x (AuditPath r)) dec_bytes);
    ("audit_path" : bytes, field AuditPath (λ x r, mk (LeafInput r) (ExtraData r) x) (dec_slice dec_bytes None))];
  zero := mk None None None;
  wf r := true
}.
#[global] Instance codec_laws : JsonCodecLaws t.
Proof. solve_codec. Qed.
End GetEntryAndProofResponse.

(** ** get-proof-by-hash *)

Module GetProofByHashRequest.
Record t := mk { Alias : bytes; Hash : bytes; TreeSize : Z }.
#[global] Instance codec : JsonCodec t := {
  enc r := JObj [
    ("alias" : bytes, enc_string (Alias r));
    ("hash" : bytes, enc_string (Hash r));
    ("tree_size" : bytes, enc_int (TreeSize r))];
  dec := dec_struct [
    ("alias" : bytes, field Alias (λ x r, mk x (Hash r) (TreeSize r)) dec_string);
    ("hash" : bytes, field Hash (λ x r, mk (Alias r) x (TreeSize r)) dec_string);
    ("tree_size" : bytes, field TreeSize (λ x r, mk (Alias r) (Hash r) x) dec_int64)];
  zero := mk [] [] 0;
  wf r := valid_utf8 (Alias r) && valid_utf8 (Hash r) && bool_decide (is_int64 (TreeSize r))
}.
#[global] Instance codec_laws : JsonCodecLaws t.
Proof. solve_codec. Qed.

Definition Validate (r : option t) : result error unit :=
  match r with
  | None => validation "validate on nil value"
  | Some r =>
      if TreeSize r <? 1 then validation "tree_size value must be greater than zero" else Ok ()
  end.
End GetProofByHashRequest.

Module GetProofByHashResponse.
Record t := mk { LeafIndex : Z; AuditPath : option (list (option bytes)) }.
#[global] Instance codec : JsonCodec t := {
  enc r := JObj [
    ("leaf_index" : bytes, enc_int (LeafIndex r));
    ("audit_path" : bytes, enc_slice enc_bytes (AuditPath r))];
  dec := dec_struct [
    ("leaf_index" : bytes, field LeafIndex (λ x r, mk x (AuditPath r)) dec_int64);
    ("audit_path" : bytes, field AuditPath (λ x r, mk (LeafIndex r) x) (dec_slice dec_bytes None))];
  zero := mk 0 None;
  wf r := bool_decide (is_int64 (LeafIndex r))
}.
#[global] Instance codec_laws : JsonCodecLaws t.
Proof. solve_codec. Qed.
End GetProofByHashResponse.

(** ** get-entries *)

Module GetEntriesRequest.
Record t := mk { Alias : bytes; Start : Z; End_ : Z }.
#[global] Instance codec : JsonCodec t := {
  enc r := JObj [
    ("alias" : bytes, enc_string (Alias r));
    ("start" : bytes, enc_int (Start r));
    ("end" : bytes, enc_int (End_ r))];
  dec := dec_struct [
    ("alias" : bytes, field Alias (λ x r, mk x (Start r) (End_ r)) dec_string);
    ("start" : bytes, field Start (λ x r, mk (Alias r) x (End_ r)) dec_int64);
    ("end" : bytes, field End_ (λ x r, mk (Alias r) (Start r) x) dec_int64)];
  zero := mk [] 0 0;
  wf r := valid_utf8 (Alias r) && bool_decide (is_int64 (Start r)) && bool_decide (is_int64 (End_ r))
}.
#[global] Instance codec_laws : JsonCodecLaws t.
Proof. solve_codec. Qed.

Definition Validate (r : option t) : result error unit :=
  match r with
  | None => validation "validate on nil value"
  | Some r =>
      if (Start r <? 0) || (End_ r <? 0)
      then validation (two_numbers "start" (Start r) "end" (End_ r) "values must be >= 0")
      else if End_ r <? Start r
      then validation (two_numbers "start" (Start r) "end" (End_ r) "values is not a valid range")
      else Ok ()
  end.
End GetEntriesRequest.

Module LeafEntry.
Record t := mk { LeafInput : option bytes; ExtraData : option bytes }.
#[global] Instance codec : JsonCodec t := {
  enc r := JObj [
    ("leaf_input" : bytes, enc_bytes (LeafInput r));
    ("extra_data" : bytes, enc_bytes (ExtraData r))];
  dec := dec_struct [
    ("leaf_input" : bytes, field LeafInput (λ x r, mk x (ExtraData r)) dec_bytes);
    ("extra_data" : bytes, field ExtraData (λ x r, mk (LeafInput r) x) dec_bytes)];
  zero := mk None None;
  wf r := true
}.
#[global] Instance codec_laws : JsonCodecLaws t.
Proof. solve_codec. Qed.
End LeafEntry.

Module GetEntriesResponse.
Record t := mk { Entries : option (list LeafEntry.t) }.
#[global] Instance codec : JsonCodec t := {
  enc r := JObj [
    ("entries" : bytes, enc_slice enc (Entries r))];
  dec := dec_struct [
    ("entries" : bytes, field Entries (λ x r, mk x) (dec_slice dec zero))];
  zero := mk None;
  wf r := true
}.
#[global] Instance codec_laws : JsonCodecLaws t.
Proof.
  split.
  - intros [l] _. cbn -[json_ok enc_slice LeafEntry.codec]. cbn [json_ok forallb fst snd].
    rewrite enc_slice_ok; [done|]. intros x. by apply enc_ok.
  - intros [] _. apply depth_small. solve_depth.
  - intros [l] old _. dec_field Entries; [|done]. apply dec_slice_enc. intros. by apply dec_enc.
Qed.
End GetEntriesResponse.

(** ** get-sth-consistency *)

Module GetSTHConsistencyRequest.
Record t := mk { Alias : bytes; FirstTreeSize : Z; SecondTreeSize : Z }.
#[global] Instance codec : JsonCodec t := {
  enc r := JObj [
    ("alias" : bytes, enc_string (Alias r));
    ("first_tree_size" : bytes, enc_int (FirstTreeSize r));
    ("second_tree_size" : bytes, enc_int (SecondTreeSize r))];
  dec := dec_struct [
    ("alias" : bytes, field Alias (λ x r, mk x (FirstTreeSize r) (SecondTreeSize r)) dec_string);
    ("first_tree_size" : bytes, field FirstTreeSize (λ x r, mk (Alias r) x (SecondTreeSize r)) dec_int64);
    ("second_tree_size" : bytes, field SecondTreeSize (λ x r, mk (Alias r) (FirstTreeSize r) x) dec_int64)];
  zero := mk [] 0 0;
  wf r := valid_utf8 (Alias r) && bool_decide (is_int64 (FirstTreeSize r)) && bool_decide (is_int64 (SecondTreeSize r))
}.
#[global] Instance codec_laws : JsonCodecLaws t.
Proof. solve_codec. Qed.

Definition Validate (r : option t) : result error unit :=
  match r with
  | None => validation "validate on nil value"
  | Some r =>
      if (FirstTreeSize r <? 0) || (SecondTreeSize r <? 0)
      then validation (two_numbers "first_tree_size" (FirstTreeSize r) "second_tree_size" (SecondTreeSize r)
                         "values must be >= 0")
      else if SecondTreeSize r <? FirstTreeSize r
      then validation (two_numbers "first_tree_size" (FirstTreeSize r) "second_tree_size" (SecondTreeSize r)
                         "values is not a valid range")
      else Ok ()
  end.
End GetSTHConsistencyRequest.

Module GetSTHConsistencyResponse.
Record t := mk { Consistency : option (list (option bytes)) }.
#[global] Instance codec : JsonCodec t := {
  enc r := JObj [
    ("consistency" : bytes, enc_slice enc_bytes (Consistency r))];
  dec := dec_struct [
    ("consistency" : bytes, field Consistency (λ x r, mk x) (dec_slice dec_bytes None))];
  zero := mk None;
  wf r := true
}.
#[global] Instance codec_laws : JsonCodecLaws t.
Proof. solve_codec. Qed.
End GetSTHConsistencyResponse.

(** ** get-sth *)

Module GetSTHResponse.
Record t := mk { TreeSize : Z; Timestamp : Z; SHA256RootHash : option bytes; TreeHeadSignature : option bytes }.
#[global] Instance codec : JsonCodec t := {
  enc r := JObj [
    ("tree_size" : bytes, enc_int (TreeSize r));
    ("timestamp" : bytes, enc_int (Timestamp r));
    ("sha256_root_hash" : bytes, enc_bytes (SHA256RootHash r));
    ("tree_head_signature" : bytes, enc_bytes (TreeHeadSignature r))];
  dec := dec_struct [
    ("tree_size" : bytes, field TreeSize (λ x r, mk x (Timestamp r) (SHA256RootHash r) (TreeHeadSignature r)) dec_uint64);
    ("timestamp" : bytes, field Timestamp (λ x r, mk (TreeSize r) x (SHA256RootHash r) (TreeHeadSignature r)) dec_uint64);
    ("sha256_root_hash" : bytes, field SHA256RootHash (λ x r, mk (TreeSize r) (Timestamp r) x (TreeHeadSignature r)) dec_bytes);
    ("tree_head_signature" : bytes, field TreeHeadSignature (λ x r, mk (TreeSize r) (Timestamp r) (SHA256RootHash r) x) dec_bytes)];
  zero := mk 0 0 None None;
  wf r := bool_decide (is_uint64 (TreeSize r)) && bool_decide (is_uint64 (Timestamp r))
}.
#[global] Instance codec_laws : JsonCodecLaws t.
Proof. solve_codec. Qed.
End GetSTHResponse.

Module TreeHeadSignature.
Record t := mk { Version : Z; SignatureType : Z; Timestamp : Z; TreeSize : Z; SHA256RootHash : option bytes }.
#[global] Instance codec : JsonCodec t := {
  enc r := JObj [
    ("version" : bytes, enc_int (Version r));
    ("signature_type" : bytes, enc_int (SignatureType r));
    ("timestamp" : bytes, enc_int (Timestamp r));
    ("tree_size" : bytes, enc_int (TreeSize r));
    ("sha_256_root_hash" : bytes, enc_bytes (SHA256RootHash r))];
  dec := dec_struct [
    ("version" : bytes, field Version (λ x r, mk x (SignatureType r) (Timestamp r) (TreeSize r) (SHA256RootHash r)) dec_uint8);
    ("signature_type" : bytes, field SignatureType (λ x r, mk (Version r) x (Timestamp r) (TreeSize r) (SHA256RootHash r)) dec_uint64);
    ("timestamp" : bytes, field Timestamp (λ x r, mk (Version r) (SignatureType r) x (TreeSize r) (SHA256RootHash r)) dec_uint64);
    ("tree_size" : bytes, field TreeSize (λ x r, mk (Version r) (SignatureType r) (Timestamp r) x (SHA256RootHash r)) dec_uint64);
    ("sha_256_root_hash" : bytes, field SHA256RootHash (λ x r, mk (Version r) (SignatureType r) (Timestamp r) (TreeSize r) x) dec_bytes)];
  zero := mk 0 0 0 0 None;
  wf r := bool_decide (0 ≤ Version r ≤ 255) && bool_decide (is_uint64 (SignatureType r)) && bool_decide (is_uint64 (Timestamp r)) && bool_decide (is_uint64 (TreeSize r))
}.
#[global] Instance codec_laws : JsonCodecLaws t.
Proof. solve_codec. Qed.
End TreeHeadSignature.

(** ** Signatures *)

Module SignatureAndHashAlgorithm.
Record t := mk { Signature : bytes; Type_ : bytes }.
#[global] Instance codec : JsonCodec t := {
  enc r := JObj [
    ("signature" : bytes, enc_string (Signature r));
    ("type" : bytes, enc_string (Type_ r))];
  dec := dec_struct [
    ("signature" : bytes, field Signature (λ x r, mk x (Type_ r)) dec_string);
    ("type" : bytes, field Type_ (λ x r, mk (Signature r) x) dec_string)];
  zero := mk [] [];
  wf r := valid_utf8 (Signature r) && valid_utf8 (Type_ r)
}.
#[global] Instance codec_laws : JsonCodecLaws t.
Proof. solve_codec. Qed.
End SignatureAndHashAlgorithm.

Module DigitallySigned.
Record t := mk { Algorithm : SignatureAndHashAlgorithm.t; Signature : option bytes }.
#[global] Instance codec : JsonCodec t := {
  enc r := JObj [
    ("algorithm" : bytes, enc (Algorithm r));
    ("signature" : bytes, enc_bytes (Signature r))];
  dec := dec_struct [
    ("algorithm" : bytes, field Algorithm (λ x r, mk x (Signature r)) dec);
    ("signature" : bytes, field Signature (λ x r, mk (Algorithm r) x) dec_bytes)];
  zero := mk zero None;
  wf r := wf (Algorithm r)
}.
#[global] Instance codec_laws : JsonCodecLaws t.
Proof.
  split.
  - intros [a s] Ha. cbn [enc codec json_ok forallb fst snd Algorithm].
    rewrite enc_ok, enc_bytes_ok by done. done.
  - intros [] _. apply depth_small. solve_depth.
  - intros [a s] old Ha. dec_field Algorithm; [by apply dec_enc|].
    dec_field Signature; [apply dec_enc_bytes|]. done.
Qed.
End DigitallySigned.

(** ** Leaves *)

Module TimestampedEntry.
Record t := mk { Timestamp : Z; EntryType : Z; VCEntry : option bytes; Extensions : option bytes }.
#[global] Instance codec : JsonCodec t := {
  enc r := JObj [
    ("timestamp" : bytes, enc_int (Timestamp r));
    ("entry_type" : bytes, enc_int (EntryType r));
    ("vc_entry" : bytes, enc_bytes (VCEntry r));
    ("extensions" : bytes, enc_bytes (Extensions r))];
  dec := dec_struct [
    ("timestamp" : bytes, field Timestamp (λ x r, mk x (EntryType r) (VCEntry r) (Extensions r)) dec_uint64);
    ("entry_type" : bytes, field EntryType (λ x r, mk (Timestamp r) x (VCEntry r) (Extensions r)) dec_uint64);
    ("vc_entry" : bytes, field VCEntry (λ x r, mk (Timestamp r) (EntryType r) x (Extensions r)) dec_bytes);
    ("extensions" : bytes, field Extensions (λ x r, mk (Timestamp r) (EntryType r) (VCEntry r) x) dec_bytes)];
  zero := mk 0 0 None None;
  wf r := bool_decide (is_uint64 (Timestamp r)) && bool_decide (is_uint64 (EntryType r))
}.
#[global] Instance codec_laws : JsonCodecLaws t.
Proof. solve_codec. Qed.
End TimestampedEntry.

Module MerkleTreeLeaf.
Record t := mk { Version : Z; LeafType : Z; TimestampedEntry : option TimestampedEntry.t }.
#[global] Instance codec : JsonCodec t := {
  enc r := JObj [
    ("version" : bytes, enc_int (Version r));
    ("leaf_type" : bytes, enc_int (LeafType r));
    ("timestamped_entry" : bytes, enc (TimestampedEntry r))];
  dec := dec_struct [
    ("version" : bytes, field Version (λ x r, mk x (LeafType r) (TimestampedEntry r)) dec_uint8);
    ("leaf_type" : bytes, field LeafType (λ x r, mk (Version r) x (TimestampedEntry r)) dec_uint64);
    ("timestamped_entry" : bytes, field TimestampedEntry (λ x r, mk (Version r) (LeafType r) x) dec)];
  zero := mk 0 0 None;
  wf r := bool_decide (0 ≤ Version r ≤ 255) && bool_decide (is_uint64 (LeafType r)) && wf (TimestampedEntry r)
}.
#[global] Instance codec_laws : JsonCodecLaws t.
Proof.
  split.
  - intros [v l e] Ht. apply andb_true_iff in Ht as [_ He].
    cbn [enc codec json_ok forallb fst snd ptr_codec TimestampedEntry]. rewrite !enc_int_ok.
    destruct e as [e|]; [|done]. by rewrite enc_ok.
  - intros [v l [e|]] _; apply depth_small; [|by apply Nat.leb_le]. cbn [enc codec]. solve_depth.
  - intros [v l e] old Ht. cbn [wf codec Version LeafType] in Ht. split_wf. dec_field Version; [apply dec_enc_uint8; assumption|].
    dec_field LeafType; [apply dec_enc_uint64; assumption|].
    dec_field TimestampedEntry; [|done]. destruct e as [e|]; [|done].
    apply ptr_dec_enc; [done|]. intros o. by apply (dec_enc e).
Qed.
End MerkleTreeLeaf.

Module VCTimestampSignature.
Record t := mk { SVCTVersion : Z; SignatureType : Z; Timestamp : Z; EntryType : Z; VCEntry : option bytes; Extensions : option bytes }.
#[global] Instance codec : JsonCodec t := {
  enc r := JObj [
    ("svct_version" : bytes, enc_int (SVCTVersion r));
    ("signature_type" : bytes, enc_int (SignatureType r));
    ("timestamp" : bytes, enc_int (Timestamp r));
    ("entry_type" : bytes, enc_int (EntryType r));
    ("vc_entry" : bytes, enc_bytes (VCEntry r));
    ("extensions" : bytes, enc_bytes (Extensions r))];
  dec := dec_struct [
    ("svct_version" : bytes, field SVCTVersion (λ x r, mk x (SignatureType r) (Timestamp r) (EntryType r) (VCEntry r) (Extensions r)) dec_uint8);
    ("signature_type" : bytes, field SignatureType (λ x r, mk (SVCTVersion r) x (Timestamp r) (EntryType r) (VCEntry r) (Extensions r)) dec_uint64);
    ("timestamp" : bytes, field Timestamp (λ x r, mk (SVCTVersion r) (SignatureType r) x (EntryType r) (VCEntry r) (Extensions r)) dec_uint64);
    ("entry_type" : bytes, field EntryType (λ x r, mk (SVCTVersion r) (SignatureType r) (Timestamp r) x (VCEntry r) (Extensions r)) dec_uint64);
    ("vc_entry" : bytes, field VCEntry (λ x r, mk (SVCTVersion r) (SignatureType r) (Timestamp r) (EntryType r) x (Extensions r)) dec_bytes);
    ("extensions" : bytes, field Extensions (λ x r, mk (SVCTVersion r) (SignatureType r) (Timestamp r) (EntryType r) (VCEntry r) x) dec_bytes)];
  zero := mk 0 0 0 0 None None;
  wf r := bool_decide (0 ≤ SVCTVersion r ≤ 255) && bool_decide (is_uint64 (SignatureType r)) && bool_decide (is_uint64 (Timestamp r)) && bool_decide (is_uint64 (EntryType r))
}.
#[global] Instance codec_laws : JsonCodecLaws t.
Proof. solve_codec. Qed.
End VCTimestampSignature.

(** ** add-vc *)

Module AddVCResponse.
Record t := mk { SVCTVersion : Z; ID : option bytes; Timestamp : Z; Extensions : bytes; Signature : option bytes }.
#[global] Instance codec : JsonCodec t := {
  enc r := JObj [
    ("svct_version" : bytes, enc_int (SVCTVersion r));
    ("id" : bytes, enc_bytes (ID r));
    ("timestamp" : bytes, enc_int (Timestamp r));
    ("extensions" : bytes, enc_string (Extensions r));
    ("signature" : bytes, enc_bytes (Signature r))];
  dec := dec_struct [
    ("svct_version" : bytes, field SVCTVersion (λ x r, mk x (ID r) (Timestamp r) (Extensions r) (Signature r)) dec_uint8);
    ("id" : bytes, field ID (λ x r, mk (SVCTVersion r) x (Timestamp r) (Extensions r) (Signature r)) dec_bytes);
    ("timestamp" : bytes, field Timestamp (λ x r, mk (SVCTVersion r) (ID r) x (Extensions r) (Signature r)) dec_uint64);
    ("extensions" : bytes, field Extensions (λ x r, mk (SVCTVersion r) (ID r) (Timestamp r) x (Signature r)) dec_string);
    ("signature" : bytes, field Signature (λ x r, mk (SVCTVersion r) (ID r) (Timestamp r) (Extensions r) x) dec_bytes)];
  zero := mk 0 None 0 [] None;
  wf r := bool_decide (0 ≤ SVCTVersion r ≤ 255) && bool_decide (is_uint64 (Timestamp r)) && valid_utf8 (Extensions r)
}.
#[global] Instance codec_laws : JsonCodecLaws t.
Proof. solve_codec. Qed.
End AddVCResponse.

Module AddVCRequest.
Record t := mk { Alias : bytes; VCEntry : option bytes }.
#[global] Instance codec : JsonCodec t := {
  enc r := JObj [
    ("alias" : bytes, enc_string (Alias r));
    ("vc_entry" : bytes, enc_bytes (VCEntry r))];
  dec := dec_struct [
    ("alias" : bytes, field Alias (λ x r, mk x (VCEntry r)) dec_string);
    ("vc_entry" : bytes, field VCEntry (λ x r, mk (Alias r) x) dec_bytes)];
  zero := mk [] None;
  wf r := valid_utf8 (Alias r)
}.
#[global] Instance codec_laws : JsonCodecLaws t.
Proof. solve_codec. Qed.
End AddVCRequest.

(** ** Values of type [map[string]interface{}] and [interface{}]

    A map is the list of its members by increasing key, a number is the text
    of its [float64]. *)

Fixpoint map_insert (k : bytes) (v : json) (m : list (bytes * json)) : list (bytes * json) :=
  match m with
  | [] => [(k, v)]
  | (k', v') :: m' =>
      if bool_decide (k = k') then (k, v) :: m'
      else if bytes_ltb k k' then (k, v) :: m
      else (k', v') :: map_insert k v m'
  end.

Definition iface_num (lit : bytes) : json * bool :=
  match ParseFloat lit with
  | (f, None) =>
      match f with
      | FFin true 0 _ => (JNum "-0", false)
      | _ => (JNum (NumberToJSON f).1, false)
      end
  | (_, Some _) => (JNull, true)
  end.

(** Decoding into an [interface{}]: the value, and whether a number was out
    of range. *)
Fixpoint iface_of (j : json) : json * bool :=
  match j with
  | JNum lit => iface_num lit
  | JArr l =>
      let rs := List.map iface_of l in
      (JArr (List.map fst rs), existsb snd rs)
  | JObj l =>
      let rs := List.map (λ kv, (kv.1, iface_of kv.2)) l in
      (JObj (foldl (λ m kv, map_insert kv.1 kv.2.1 m) [] rs), existsb (λ kv, kv.2.2) rs)
  | _ => (j, false)
  end.

(** Decoding into a [map[string]interface{}]; [None] is the nil map. *)
Definition dec_map : decoder (option (list (bytes * json))) := λ j old,
  match j with
  | JObj _ =>
      match iface_of j with
      | (JObj m, e) => (Some (foldl (λ m kv, map_insert kv.1 kv.2 m) (default [] old) m), e)
      | (_, e) => (old, e)
      end
  | JNull => (None, false)
  | _ => (old, true)
  end.

(** ** webfinger *)

(** A field with the option [omitempty]. *)
Definition omit (empty : bool) (tag : bytes) (v : json) : list (bytes * json) :=
  if empty then [] else [(tag, v)].

Module WebFingerLink.
Record t := mk { Rel : bytes; Type_ : bytes; Href : bytes }.
#[global] Instance codec : JsonCodec t := {
  enc r := JObj (omit (beq (Rel r) []) "rel" (enc_string (Rel r)) ++
                 omit (beq (Type_ r) []) "type" (enc_string (Type_ r)) ++
                 omit (beq (Href r) []) "href" (enc_string (Href r)));
  dec := dec_struct [
    ("rel" : bytes, field Rel (λ x r, mk x (Type_ r) (Href r)) dec_string);
    ("type" : bytes, field Type_ (λ x r, mk (Rel r) x (Href r)) dec_string);
    ("href" : bytes, field Href (λ x r, mk (Rel r) (Type_ r) x) dec_string)];
  zero := mk [] [] [];
  wf r := valid_utf8 (Rel r) && valid_utf8 (Type_ r) && valid_utf8 (Href r)
}.
End WebFingerLink.

Module WebFingerResponse.
Record t := mk {
  Subject : bytes;
  Properties : option (list (bytes * json));
  Links : option (list WebFingerLink.t)
}.
#[global] Instance codec : JsonCodec t := {
  enc r := JObj (omit (beq (Subject r) []) "subject" (enc_string (Subject r)) ++
                 omit (bool_decide (length (default [] (Properties r)) = 0%nat)) "properties"
                   (JObj (default [] (Properties r))) ++
                 omit (bool_decide (length (default [] (Links r)) = 0%nat)) "links" (enc_slice enc (Links r)));
  dec := dec_struct [
    ("subject" : bytes, field Subject (λ x r, mk x (Properties r) (Links r)) dec_string);
    ("properties" : bytes, field Properties (λ x r, mk (Subject r) x (Links r)) dec_map);
    ("links" : bytes, field Links (λ x r, mk (Subject r) (Properties r) x) (dec_slice dec zero))];
  zero := mk [] None None;
  wf r := valid_utf8 (Subject r) &&
          forallb (λ kv, valid_utf8 kv.1 && json_ok valid_utf8 kv.2) (default [] (Properties r)) &&
          forallb wf (default [] (Links r))
}.
End WebFingerResponse.
