(* ===== verification/LeafFacts.v ===== *)
(** * Canonical texts of leaves and signed data

    The canonical text of a leaf, and of the data that is signed, exists when
    their numbers are below [2^53] and decodes to the value it was made from. *)

From S2P Require Import Prelude GoStrings Utf GoJson GoJsonFacts GoFmt Errors Codec Models.
From S2P Require Import JsonCanon JsonCanonFacts Jcs JcsFacts Canonicalizer.

Open Scope Z_scope.

(** Integers a [float64] holds exactly. *)
Definition is_small (z : Z) : bool := (0 <=? z) && (z <? 2 ^ 53).

Lemma is_small_range z : is_small z = true → 0 ≤ z < 2 ^ 53.
Proof. intros [?%Z.leb_le ?%Z.ltb_lt]%andb_prop. done. Qed.

Lemma is_small_uint64 z : is_small z = true → is_uint64 z.
Proof. intros ?%is_small_range. int_lia. Qed.

(** ** Components *)

Lemma canon_ok_int z : is_small z = true → canon_ok valid_utf8 (enc_int z) = true.
Proof. intros ?%is_small_range. apply num_ok_int. lia. Qed.

Lemma stable_int z : is_small z = true → stable (enc_int z) = true.
Proof. intros ?%is_small_range. apply num_stable_int. lia. Qed.

Lemma canon_int z : is_small z = true → canon (enc_int z) = enc_int z.
Proof. intros ?%is_small_range. unfold enc_int. cbn. by rewrite canon_num_int by lia. Qed.

Lemma canon_ok_bytes b : canon_ok valid_utf8 (enc_bytes b) = true.
Proof. destruct b; [apply b64_encode_utf8|done]. Qed.

Lemma stable_bytes b : stable (enc_bytes b) = true.
Proof. by destruct b. Qed.

Lemma canon_bytes b : canon (enc_bytes b) = enc_bytes b.
Proof. by destruct b. Qed.

#[export] Hint Resolve canon_ok_int stable_int canon_ok_bytes stable_bytes : go.

(** [MarshalCanonical] of a document with a canonical form. *)
Lemma MarshalCanonical_ok `{UnicodeTable} j :
  canon_ok valid_utf8 j = true → is_container j = true → MarshalCanonical j = Ok (canon_text j).
Proof.
  intros Hok Hc. unfold MarshalCanonical, MarshalCanonical_bytes, Marshal.
  rewrite <- (app_nil_r (render go_quote j)).
  by rewrite (Transform_render go_quote valid_utf8) by (done || apply go_quote_readable).
Qed.

(** ** Timestamped entries and leaves *)

Definition small_entry (e : TimestampedEntry.t) : bool :=
  is_small (TimestampedEntry.Timestamp e) && is_small (TimestampedEntry.EntryType e).
Definition small_leaf (l : MerkleTreeLeaf.t) : bool :=
  bool_decide (0 ≤ MerkleTreeLeaf.Version l ≤ 255) && is_small (MerkleTreeLeaf.LeafType l) &&
  match MerkleTreeLeaf.TimestampedEntry l with Some e => small_entry e | None => true end.

Ltac forallb_split := repeat match goal with |- _ && _ = true => apply andb_true_iff; split end.

Lemma entry_canon_ok e :
  small_entry e = true → canon_ok valid_utf8 (enc e) = true ∧ stable (enc e) = true.
Proof.
  intros [? ?]%andb_prop. cbn -[enc_int enc_bytes keys_ok canon_ok stable]. cbn [canon_ok stable forallb fst snd].
  split; forallb_split; auto with go; done.
Qed.

Lemma version_small z : 0 ≤ z ≤ 255 → is_small z = true.
Proof. intros Hz. apply andb_true_iff. rewrite Z.leb_le, Z.ltb_lt. lia. Qed.

Lemma leaf_canon_ok l :
  small_leaf l = true → canon_ok valid_utf8 (enc l) = true ∧ stable (enc l) = true.
Proof.
  destruct l as [v t e]. unfold small_leaf. cbn [MerkleTreeLeaf.Version MerkleTreeLeaf.LeafType MerkleTreeLeaf.TimestampedEntry].
  intros [[Hv%bool_decide_eq_true Ht]%andb_prop He]%andb_prop. apply version_small in Hv.
  assert (canon_ok valid_utf8 (enc e) = true ∧ stable (enc e) = true) as [Hok Hst].
  { destruct e as [e|]; [by apply entry_canon_ok|done]. }
  cbn [enc MerkleTreeLeaf.codec canon_ok stable forallb fst snd MerkleTreeLeaf.TimestampedEntry].
  split; forallb_split; auto with go; done.
Qed.

Lemma entry_canon e :
  small_entry e = true →
  canon (enc e) = JObj [("entry_type" : bytes, enc_int (TimestampedEntry.EntryType e));
                        ("extensions" : bytes, enc_bytes (TimestampedEntry.Extensions e));
                        ("timestamp" : bytes, enc_int (TimestampedEntry.Timestamp e));
                        ("vc_entry" : bytes, enc_bytes (TimestampedEntry.VCEntry e))].
Proof.
  intros [? ?]%andb_prop. cbn [enc TimestampedEntry.codec canon List.map fst snd].
  rewrite !canon_int, !canon_bytes by done. reflexivity.
Qed.

Lemma leaf_canon l :
  small_leaf l = true →
  canon (enc l) = JObj [("leaf_type" : bytes, enc_int (MerkleTreeLeaf.LeafType l));
                        ("timestamped_entry" : bytes, canon (enc (MerkleTreeLeaf.TimestampedEntry l)));
                        ("version" : bytes, enc_int (MerkleTreeLeaf.Version l))].
Proof.
  destruct l as [v t e]. unfold small_leaf. cbn [MerkleTreeLeaf.Version MerkleTreeLeaf.LeafType MerkleTreeLeaf.TimestampedEntry].
  intros [[Hv%bool_decide_eq_true Ht]%andb_prop He]%andb_prop. apply version_small in Hv.
  cbn [enc MerkleTreeLeaf.codec canon List.map fst snd MerkleTreeLeaf.TimestampedEntry MerkleTreeLeaf.Version MerkleTreeLeaf.LeafType].
  rewrite !canon_int by done. reflexivity.
Qed.

Lemma entry_dec_canon e o : small_entry e = true → dec (canon (enc e)) o = (e, false).
Proof.
  intros He. rewrite entry_canon by done. apply andb_prop in He as [? ?]. destruct e as [ts et vc ext].
  dec_field TimestampedEntry.EntryType; [by apply dec_enc_uint64, is_small_uint64|].
  dec_field TimestampedEntry.Extensions; [apply dec_enc_bytes|].
  dec_field TimestampedEntry.Timestamp; [by apply dec_enc_uint64, is_small_uint64|].
  dec_field TimestampedEntry.VCEntry; [apply dec_enc_bytes|]. done.
Qed.

Lemma leaf_dec_canon l o : small_leaf l = true → dec (canon (enc l)) o = (l, false).
Proof.
  intros Hl. rewrite leaf_canon by done. destruct l as [v t e]. unfold small_leaf in Hl.
  cbn [MerkleTreeLeaf.Version MerkleTreeLeaf.LeafType MerkleTreeLeaf.TimestampedEntry] in *.
  apply andb_prop in Hl as [[Hv%bool_decide_eq_true Ht]%andb_prop He].
  dec_field MerkleTreeLeaf.LeafType; [by apply dec_enc_uint64, is_small_uint64|].
  dec_field MerkleTreeLeaf.TimestampedEntry.
  { destruct e as [e|]; [|done]. change (canon (enc (Some e))) with (canon (enc e)).
    apply ptr_dec_enc; [by rewrite entry_canon|].
    intros o'. by apply entry_dec_canon. }
  dec_field MerkleTreeLeaf.Version; [by apply dec_enc_uint8|]. done.
Qed.

Lemma small_leaf_wf l : small_leaf l = true → wf l = true.
Proof.
  intros [[Hv Ht]%andb_prop He]%andb_prop. cbn. rewrite Hv.
  rewrite bool_decide_eq_true_2 by by apply is_small_uint64.
  destruct (MerkleTreeLeaf.TimestampedEntry l); [|done]. apply andb_prop in He as [? ?]. cbn.
  by rewrite !bool_decide_eq_true_2 by by apply is_small_uint64.
Qed.

(** A leaf survives its canonical text. *)
Lemma leaf_roundtrip l : small_leaf l = true → json_Unmarshal (canon_text (enc l)) = Ok l.
Proof.
  intros Hl. destruct (leaf_canon_ok l Hl) as [Hok Hst]. unfold json_Unmarshal, Unmarshal.
  assert (json_depth (enc l) ≤ max_depth)%nat as Hd by apply enc_depth, small_leaf_wf, Hl.
  rewrite unmarshal_canon by done.
  cbn [mbind result_bind]. unfold run_decoder. by rewrite leaf_dec_canon.
Qed.
