(* ===== verification/CanonicalizerFacts.v ===== *)
(** * Properties of canonicalisation

    The canonicaliser always returns; on a document it prints the members of
    every object in the order of their UTF-16 names and the numbers in
    ECMAScript form, and nothing else changes.  Equal texts are therefore
    equal documents, which is what signatures and leaf hashes rely on. *)

From Stdlib Require Import Sorted.
From stdpp Require Import sorting.
From S2P Require Import Prelude GoStrings Utf GoJson GoJsonFacts GoFloat JsonCanon GoFloatFacts JsonCanonFacts.
From S2P Require Import Jcs JcsTotal JcsFacts GoFmt Errors Codec Canonicalizer Models LeafFacts.

Open Scope Z_scope.

(** ** Sorted documents *)

(** The members of every object are in increasing order of their names. *)
Fixpoint all_sorted (j : json) : Prop :=
  match j with
  | JArr l => foldr (λ x p, all_sorted x ∧ p) True l
  | JObj l => StronglySorted member_lt l ∧ foldr (λ kv p, all_sorted kv.2 ∧ p) True l
  | _ => True
  end.

Lemma foldr_Forall {A} (P : A → Prop) l : foldr (λ x p, P x ∧ p) True l ↔ Forall P l.
Proof. induction l; cbn; [by split|]. by rewrite Forall_cons, IHl. Qed.

Lemma canon_sorted ok_str j : canon_ok ok_str j = true → all_sorted (canon j).
Proof.
  induction j as [|b|lit|s|l IH|l IH] using json_induction; try done; cbn.
  - intros Hl. apply foldr_Forall. rewrite forallb_forall in Hl.
    apply Forall_forall. intros x Hx. apply list_elem_of_In, in_map_iff in Hx as (y & <- & Hy).
    rewrite Forall_forall in IH. apply IH; [by apply list_elem_of_In|auto].
  - intros [Hl Hk]%andb_true_iff. change (λ kv, (kv.1, canon kv.2)) with canon_member. split.
    + apply sort_members_sorted. by rewrite keys_canon.
    + apply (foldr_Forall (λ kv, all_sorted kv.2)), Forall_sort. apply Forall_forall.
      intros x Hx. apply list_elem_of_In, in_map_iff in Hx as (y & <- & Hy). cbn.
      rewrite Forall_forall in IH. rewrite forallb_forall in Hl. specialize (Hl y Hy).
      apply andb_true_iff in Hl as [_ Hl]. apply IH; [by apply list_elem_of_In|done].
Qed.

(** Numbers that are printed as they were read. *)
Fixpoint plain_numbers (j : json) : bool :=
  match j with
  | JNum lit => bool_decide (canon_num lit = Some lit)
  | JArr l => forallb plain_numbers l
  | JObj l => forallb (λ kv, plain_numbers kv.2) l
  | _ => true
  end.

Lemma canon_same j : plain_numbers j = true → same_doc j (canon j).
Proof.
  induction j as [|b|lit|s|l IH|l IH] using json_induction; cbn; intros Hp; try constructor.
  - apply bool_decide_eq_true in Hp. rewrite Hp. constructor.
  - clear - IH Hp. induction IH as [|x l Hx _ IHl]; cbn in *; constructor; apply andb_true_iff in Hp as [??]; auto.
  - change (λ kv, (kv.1, canon kv.2)) with canon_member.
    apply (same_obj _ (List.map canon_member l)); [|symmetry; apply sort_members_Permutation].
    clear - IH Hp. induction IH as [|x l Hx _ IHl]; cbn in *; constructor; apply andb_true_iff in Hp as [??]; auto.
Qed.

Lemma plain_stable ok_str j : canon_ok ok_str j = true → plain_numbers j = true → stable j = true.
Proof.
  induction j as [|b|lit|s|l IH|l IH] using json_induction; cbn; intros Hok Hp; try done.
  - apply bool_decide_eq_true in Hp. unfold num_stable. rewrite Hp. by rewrite Hok, bool_decide_eq_true_2.
  - eapply forallb_impl, Hp. rewrite forallb_forall in Hok. rewrite Forall_forall in *.
    intros x Hx. apply IH; [done|]. by apply Hok, list_elem_of_In.
  - apply andb_true_iff in Hok as [Hok _]. eapply forallb_impl, Hp. rewrite forallb_forall in Hok.
    rewrite Forall_forall in *. intros x Hx. apply IH; [done|].
    apply list_elem_of_In, Hok, andb_true_iff in Hx as [_ Hx]. done.
Qed.

Lemma Transform_Marshal j :
  canon_ok valid_utf8 j = true → is_container j = true → Transform (Marshal j) = Some (canon_text j, None).
Proof.
  intros Hok Hc. unfold Marshal.
  pose proof (Transform_render go_quote valid_utf8 j [] go_quote_readable Hok Hc eq_refl) as E.
  by rewrite app_nil_r in E.
Qed.

Lemma is_container_canon j : is_container (canon j) = is_container j.
Proof. by destruct j. Qed.

Lemma Transform_canon_text j :
  canon_ok valid_utf8 j = true → stable j = true → is_container j = true →
  Transform (canon_text j) = Some (canon_text j, None).
Proof.
  intros Hok Hst Hc. unfold canon_text at 1.
  pose proof (Transform_render decorateString valid_utf8 (canon j) []
    (λ s _, decorate_readable s eq_refl)) as E.
  rewrite app_nil_r in E. rewrite E; [|by apply canon_ok_canon|by rewrite is_container_canon|done].
  unfold canon_text. by rewrite (canon_idem valid_utf8).
Qed.

(** ** Claims *)

(** A document for examples: members out of order, a nested object. *)
Definition sample_doc : json :=
  JObj [("b" : bytes, JNum "1"); ("a" : bytes, JObj [("y" : bytes, JNull); ("x" : bytes, JStr "v")])].
Definition sample_doc_swapped : json :=
  JObj [("a" : bytes, JObj [("y" : bytes, JNull); ("x" : bytes, JStr "v")]); ("b" : bytes, JNum "1")].

Lemma sample_same : same_doc sample_doc sample_doc_swapped.
Proof.
  eapply same_obj; [|apply perm_swap]. repeat (constructor; [split; [reflexivity|apply same_refl]|]). constructor.
Qed.




(** Canonicalisation is idempotent: the canonical text of a document is
    its own canonical text. *)
Lemma Transform_idempotent j :
  canon_ok valid_utf8 j = true → plain_numbers j = true → is_container j = true →
  ∃ text, Transform (Marshal j) = Some (text, None) ∧ Transform text = Some (text, None).
Proof.
  intros Hok Hp Hc. exists (canon_text j). split; [by apply Transform_Marshal|].
  apply Transform_canon_text; [done|by eapply plain_stable|done].
Qed.

Lemma Transform_idempotent_witness :
  ∃ text, Transform (Marshal sample_doc) = Some (text, None) ∧ Transform text = Some (text, None).
Proof. apply (Transform_idempotent sample_doc); vm_compute; reflexivity. Defined.

(** C24: the order in which members are written does not matter: documents that
    differ only in the order of members, at any depth, have the same canonical
    text. *)
Theorem MarshalCanonical_order `{UnicodeTable} j j' :
  canon_ok valid_utf8 j = true → canon_ok valid_utf8 j' = true → is_container j = true → is_container j' = true →
  same_doc j j' → MarshalCanonical j = MarshalCanonical j'.
Proof.
  intros Hok Hok' Hc Hc' Hs. rewrite !MarshalCanonical_ok by done.
  unfold canon_text. by rewrite (same_doc_canon valid_utf8 j j').
Qed.

Lemma MarshalCanonical_order_witness :
  MarshalCanonical (H := ascii_only) sample_doc = MarshalCanonical (H := ascii_only) sample_doc_swapped.
Proof.
  apply (MarshalCanonical_order sample_doc sample_doc_swapped);
    [vm_compute; reflexivity..|exact sample_same].
Defined.

(** C14: a canonical text determines the document: two documents with canonical
    numbers that have the same canonical text are equal up to the order of
    members, for reading the text back gives the sorted document. *)
Theorem MarshalCanonical_injective `{UnicodeTable} j j' text :
  canon_ok valid_utf8 j = true → canon_ok valid_utf8 j' = true → is_container j = true → is_container j' = true →
  plain_numbers j = true → plain_numbers j' = true →
  (json_depth j ≤ max_depth)%nat → (json_depth j' ≤ max_depth)%nat →
  MarshalCanonical j = Ok text → MarshalCanonical j' = Ok text →
  ∃ c, unmarshal text = Ok c ∧ same_doc j c ∧ same_doc j' c.
Proof.
  intros Hok Hok' Hc Hc' Hp Hp' Hd Hd'. rewrite !MarshalCanonical_ok by done. intros [= <-] [= Heq].
  exists (canon j). split; [|split].
  - apply unmarshal_canon; [done|by eapply plain_stable|done].
  - by apply canon_same.
  - pose proof (unmarshal_canon j Hok (plain_stable _ _ Hok Hp) Hd) as H1.
    pose proof (unmarshal_canon j' Hok' (plain_stable _ _ Hok' Hp') Hd') as H2.
    rewrite Heq, H1 in H2. injection H2 as ->. by apply canon_same.
Qed.

Lemma MarshalCanonical_injective_witness :
  ∃ c, unmarshal (canon_text sample_doc) = Ok c ∧ same_doc sample_doc c ∧ same_doc sample_doc_swapped c.
Proof.
  apply (MarshalCanonical_injective (H := ascii_only) sample_doc sample_doc_swapped (canon_text sample_doc));
    try (vm_compute; reflexivity); apply depth_small; cbn; lia.
Defined.

(** an object with two members of the same name is refused: the
    canonicaliser reports an error. *)
Theorem MarshalCanonical_duplicate `{UnicodeTable} l :
  forallb (member_ok valid_utf8) l = true → keys_ok l = false → ∃ e, MarshalCanonical (JObj l) = Err e.
Proof.
  intros Hl Hk. destruct (Transform_duplicate go_quote valid_utf8 l go_quote_readable Hl Hk) as (out & e & E).
  exists (canon_error_value e). unfold MarshalCanonical, MarshalCanonical_bytes, Marshal. by rewrite E.
Qed.

Lemma MarshalCanonical_duplicate_witness :
  ∃ e, MarshalCanonical (H := ascii_only) (JObj [("a" : bytes, JNum "1"); ("a" : bytes, JNum "2")]) = Err e.
Proof. apply (MarshalCanonical_duplicate [("a" : bytes, JNum "1"); ("a" : bytes, JNum "2")]); vm_compute; reflexivity. Defined.

(** integers of magnitude below [2 ^ 53] survive canonicalisation: read as
    a double and printed again, the text is the same. *)
Theorem integers_preserved n :
  - 2 ^ 53 < n < 2 ^ 53 →
  (ParseFloat (FormatInt n)).2 = None ∧ NumberToJSON (ParseFloat (FormatInt n)).1 = (FormatInt n, None).
Proof. apply NumberToJSON_ParseFloat_int. Qed.

Lemma integers_preserved_witness :
  (ParseFloat (FormatInt 1636000000123)).2 = None ∧
  NumberToJSON (ParseFloat (FormatInt 1636000000123)).1 = (FormatInt 1636000000123, None).
Proof. apply (integers_preserved 1636000000123). lia. Defined.

(** C31: a Merkle tree leaf survives its storage: the canonical text of a leaf
    whose numbers are below [2 ^ 53] unmarshals to the same leaf. *)
Theorem leaf_canonical_roundtrip `{UnicodeTable} leaf :
  small_leaf leaf = true →
  ∃ text, MarshalCanonical (enc leaf) = Ok text ∧ json_Unmarshal text = Ok leaf.
Proof.
  intros Hl. exists (canon_text (enc leaf)). split; [|by apply leaf_roundtrip].
  apply MarshalCanonical_ok; [by apply leaf_canon_ok|done].
Qed.

Definition sample_leaf : MerkleTreeLeaf.t :=
  MerkleTreeLeaf.mk V1 TimestampedEntryLeafType
    (Some (TimestampedEntry.mk 1636000000123 VCLogEntryType (Some ("credential" : bytes)) None)).

Lemma leaf_canonical_roundtrip_witness :
  ∃ text, MarshalCanonical (H := ascii_only) (enc sample_leaf) = Ok text ∧ json_Unmarshal text = Ok sample_leaf.
Proof. apply (leaf_canonical_roundtrip sample_leaf). vm_compute. reflexivity. Defined.
