(* ===== verification/Effects.v ===== *)
(** * Effectful Go code

    A Go function that talks to services is a state transformer over the
    world [W] of those services; its outcome is a value, an error value or a
    panic.  Running a function that does not reach a service leaves the
    world unchanged. *)

From S2P Require Import Prelude Errors.

Inductive outcome (A : Type) : Type :=
| Return (a : A)
| Fail (e : error)
| Panic (why : bytes).
Arguments Return {A} a.
Arguments Fail {A} e.
Arguments Panic {A} why.

Section effects.
Context {W : Type}.

Definition M (A : Type) : Type := W → W * outcome A.

#[global] Instance M_ret : MRet M := λ _ a w, (w, Return a).
#[global] Instance M_bind : MBind M := λ _ _ k m w,
  match m w with
  | (w', Return a) => k a w'
  | (w', Fail e) => (w', Fail e)
  | (w', Panic p) => (w', Panic p)
  end.

#[global] Instance M_fmap : FMap M := λ _ _ f m w,
  match m w with
  | (w', Return a) => (w', Return (f a))
  | (w', Fail e) => (w', Fail e)
  | (w', Panic p) => (w', Panic p)
  end.

Definition fail {A} (e : error) : M A := λ w, (w, Fail e).
Definition panic {A} (why : bytes) : M A := λ w, (w, Panic why).

(** [if err != nil { return wrap(err) }] after a pure call. *)
Definition try {A} (wrap : error → error) (r : result error A) : M A :=
  match r with Ok a => mret a | Err e => fail (wrap e) end.

(** The same after a call of a service. *)
Definition call {A} (wrap : error → error) (f : W → W * result error A) : M A := λ w,
  let '(w', r) := f w in
  match r with Ok a => (w', Return a) | Err e => (w', Fail (wrap e)) end.

(** The same after a call of a function of the program. *)
Definition within {A} (wrap : error → error) (m : M A) : M A := λ w,
  match m w with
  | (w', Fail e) => (w', Fail (wrap e))
  | o => o
  end.

Definition guard_ (ok : bool) (e : error) : M unit := if ok then mret () else fail e.

(** [fmt.Errorf("text: %w", err)]. *)
Definition wrapf (text : bytes) (e : error) : error := EWrap (text ++ ": ") e [].

Lemma bind_ret {A B} (m : M A) (k : A → M B) w w' a :
  m w = (w', Return a) → (m ≫= k) w = k a w'.
Proof. intros E. unfold mbind, M_bind. by rewrite E. Qed.

Lemma bind_fail {A B} (m : M A) (k : A → M B) w w' e :
  m w = (w', Fail e) → (m ≫= k) w = (w', Fail e).
Proof. intros E. unfold mbind, M_bind. by rewrite E. Qed.

Lemma bind_Return {A B} (m : M A) (k : A → M B) w w' b :
  (m ≫= k) w = (w', Return b) ↔ ∃ a w1, m w = (w1, Return a) ∧ k a w1 = (w', Return b).
Proof.
  unfold mbind, M_bind. split.
  - destruct (m w) as [w1 [a|e|p]]; intros; simplify_eq. eauto.
  - intros (a & w1 & -> & E). done.
Qed.

Lemma try_ok {A B} f (a : A) (k : A → M B) w : (try f (Ok a) ≫= k) w = k a w.
Proof. done. Qed.

Lemma call_ok {A B} f (g : W → W * result error A) (k : A → M B) w w' a :
  g w = (w', Ok a) → (call f g ≫= k) w = k a w'.
Proof. intros Hg. unfold mbind, M_bind, call. by rewrite Hg. Qed.

Lemma guard_ok {B} e (k : unit → M B) w : (guard_ true e ≫= k) w = k () w.
Proof. done. Qed.

Lemma try_Return {A} f (r : result error A) w w' a :
  try f r w = (w', Return a) ↔ r = Ok a ∧ w' = w.
Proof. destruct r; split; [by intros [= -> ->]|by intros [[= ->] ->]|by intros [=]|by intros [[=] _]]. Qed.

Lemma guard_Return b e w w' u : guard_ b e w = (w', Return u) ↔ b = true ∧ w' = w.
Proof. destruct b, u; split; [by intros [= ->]|by intros [_ ->]|by intros [=]|by intros [[=] _]]. Qed.

Lemma call_Return {A} f (g : W → W * result error A) w w' a :
  call f g w = (w', Return a) ↔ g w = (w', Ok a).
Proof. unfold call. destruct (g w) as [w1 [b|e]]; split; intros; by simplify_eq. Qed.

Lemma within_Return {A} f (m : M A) w w' a :
  within f m w = (w', Return a) ↔ m w = (w', Return a).
Proof. unfold within. destruct (m w) as [w1 [b|e|p]]; split; intros; by simplify_eq. Qed.

Lemma fmap_Return {A B} (f : A → B) (m : M A) w w' b :
  (f <$> m) w = (w', Return b) ↔ ∃ a, m w = (w', Return a) ∧ b = f a.
Proof.
  unfold fmap, M_fmap. split.
  - destruct (m w) as [w1 [a|e|p]]; intros; simplify_eq. eauto.
  - intros (a & -> & ->). done.
Qed.

Lemma ret_Return {A} (x : A) w w' a : (mret x : M A) w = (w', Return a) ↔ a = x ∧ w' = w.
Proof. split; [by intros [= -> ->]|by intros [-> ->]]. Qed.
End effects.
Arguments M W A : clear implicits.

(** Inverts a successful run into the results of its steps. *)
Ltac inv_run :=
  repeat match goal with
  | H : (_ ≫= _) _ = (_, Return _) |- _ => apply bind_Return in H as (? & ? & ? & H)
  | H : try _ _ _ = (_, Return _) |- _ => apply try_Return in H as [? ->]
  | H : guard_ _ _ _ = (_, Return _) |- _ => apply guard_Return in H as [? ->]
  | H : within _ _ _ = (_, Return _) |- _ => apply within_Return in H
  | H : (_ <$> _) _ = (_, Return _) |- _ => apply fmap_Return in H as (? & H & ?)
  | H : call _ _ _ = (_, Return _) |- _ => apply call_Return in H
  | H : mret _ _ = (_, Return _) |- _ => apply ret_Return in H as [? ->]
  | H : (_, Return _) = (_, Return _) |- _ => simplify_eq H
  | H : fail _ _ = (_, Return _) |- _ => discriminate H
  | H : panic _ _ = (_, Return _) |- _ => discriminate H
  end.

(** The way back: runs the first computation of a sequence, with its result
    from a hypothesis. *)
Ltac run_step :=
  cbv beta iota;
  lazymatch goal with
  | |- (guard_ ?b ?e ≫= ?k) ?w = _ =>
      rewrite (bind_ret (guard_ b e) k w w tt) by (apply guard_Return; split; [assumption|reflexivity])
  | |- (?m ≫= _) _ = _ =>
      erewrite (bind_ret m);
        [|lazymatch goal with
          | |- try _ _ _ = _ => apply try_Return; split; [eassumption|reflexivity]
          | |- call _ _ _ = _ => apply call_Return; eassumption
          | |- within _ _ _ = _ => apply within_Return; eassumption
          | |- _ = _ => eassumption
          end]
  end.
