(* ===== verification/Command.v ===== *)
(** * The command controller

    [pkg/controller/command/command.go]: the handlers behind the HTTP API.
    The Trillian log client, the credential parser, the JSON-LD processor,
    the signer and the clock are services of the world; the documents, the
    checks, the requests sent and the responses built are the code's. *)

From S2P Require Import Prelude GoStrings Utf GoJson GoFmt GoUrl Errors Codec Canonicalizer Sha256 Models Effects.

Open Scope Z_scope.

(** ** Trillian messages *)

Record LogLeaf := mkLogLeaf {
  LeafValue : option bytes;
  LeafExtraData : option bytes;
  LeafIdentityHash : option bytes;
  LeafIndex : Z
}.
Record QueueLeafRequest := mkQueueLeafRequest { ql_LogId : Z; ql_Leaf : LogLeaf }.
(** [QueuedLeaf.Leaf], both pointers nilable. *)
Record QueueLeafResponse := mkQueueLeafResponse { QueuedLeaf : option (option LogLeaf) }.

(** [SignedLogRoot] with its serialized root. *)
Abbreviation SignedLogRoot := (option (option bytes)).
Definition GetLogRoot (r : SignedLogRoot) : option bytes := default None r.

Record Proof_ := mkProof { ProofLeafIndex : Z; Hashes : option (list (option bytes)) }.

Record GetLeavesByRangeRequest := mkGetLeavesByRangeRequest { glr_LogId : Z; StartIndex : Z; Count : Z }.
Record GetLeavesByRangeResponse := mkGetLeavesByRangeResponse {
  glr_Leaves : list LogLeaf; glr_SignedLogRoot : SignedLogRoot }.
Record TrEntryAndProofRequest := mkEntryAndProofRequest { ge_LogId : Z; ge_LeafIndex : Z; ge_TreeSize : Z }.
Record TrEntryAndProofResponse := mkEntryAndProofResponse {
  ge_Proof : option Proof_; ge_Leaf : option LogLeaf; ge_SignedLogRoot : SignedLogRoot }.
Record InclusionProofByHashRequest := mkInclusionProofByHashRequest {
  ip_LogId : Z; ip_LeafHash : bytes; ip_TreeSize : Z; OrderBySequence : bool }.
Record InclusionProofByHashResponse := mkInclusionProofByHashResponse {
  ip_Proof : list Proof_; ip_SignedLogRoot : SignedLogRoot }.
Record ConsistencyProofRequest := mkConsistencyProofRequest {
  cp_LogId : Z; cp_FirstTreeSize : Z; cp_SecondTreeSize : Z }.
Record ConsistencyProofResponse := mkConsistencyProofResponse {
  cp_Proof : option Proof_; cp_SignedLogRoot : SignedLogRoot }.

(** [types.LogRootV1], the fields the handlers use. *)
Record LogRootV1 := mkLogRootV1 { TreeSize : Z; RootHash : option bytes; TimestampNanos : Z }.

(** The remote procedures of the log service. *)
Record TrillianLogClient (W : Type) := mkClient {
  rpc_QueueLeaf : QueueLeafRequest → W → W * result error QueueLeafResponse;
  rpc_GetLatestSignedLogRoot : Z → W → W * result error SignedLogRoot;
  rpc_GetLeavesByRange : GetLeavesByRangeRequest → W → W * result error GetLeavesByRangeResponse;
  rpc_GetEntryAndProof : TrEntryAndProofRequest → W → W * result error TrEntryAndProofResponse;
  rpc_GetInclusionProofByHash : InclusionProofByHashRequest → W → W * result error InclusionProofByHashResponse;
  rpc_GetConsistencyProof : ConsistencyProofRequest → W → W * result error ConsistencyProofResponse
}.
Arguments rpc_QueueLeaf {W} _.
Arguments rpc_GetLatestSignedLogRoot {W} _.
Arguments rpc_GetLeavesByRange {W} _.
Arguments rpc_GetEntryAndProof {W} _.
Arguments rpc_GetInclusionProofByHash {W} _.
Arguments rpc_GetConsistencyProof {W} _.

(** ** Libraries the handlers call *)

(** What a parsed credential gives the handler. *)
Record Credential := mkCredential { IssuerID : bytes; Proofs : list json }.

Class Libraries (W Loader : Type) := {
  (** [verifiable.ParseCredential] with the key fetcher and the loader. *)
  ParseCredential : bytes → Loader → W → W * result error Credential;
  (** [jsonld.Processor.GetCanonicalDocument] of a document. *)
  GetCanonicalDocument : list (bytes * json) → Loader → W → W * result error bytes;
  (** [LogRootV1.UnmarshalBinary]. *)
  UnmarshalBinary : option bytes → result error LogRootV1;
  (** [time.Now().UnixNano()]. *)
  UnixNano : W → W * Z;
  (** The text of a decoding error of encoding/json for an input. *)
  json_error_text : json_error → bytes → bytes;
  (** The text of a [base64.CorruptInputError]. *)
  base64_error_text : bytes → bytes;
  (** The verb [%v] of a message. *)
  show_entry_and_proof : TrEntryAndProofResponse → bytes
}.

(** ** The controller *)

Definition read : Z := 114.
Definition write : Z := 119.

Definition PublicKeyType : bytes := "https://trustbloc.dev/ns/public-key".
Definition LedgerType : bytes := "https://trustbloc.dev/ns/ledger-type".
Definition ldProofField : bytes := "proof".
Definition vctV1 : bytes := "vct-v1".

Record Log (W : Type) := mkLog {
  ID : Z;
  Alias : bytes;
  Permission : bytes;
  Endpoint : bytes;
  Issuers : option (list bytes);
  Client : TrillianLogClient W
}.
Arguments ID {W} _.
Arguments Alias {W} _.
Arguments Permission {W} _.
Arguments Endpoint {W} _.
Arguments Issuers {W} _.
Arguments Client {W} _.

(** [crypto.Sign] with the key handle [kh] is the field [Sign]. *)
Record Cmd (W Loader : Type) := mkCmd {
  baseURL : URL;
  logs : gmap bytes (Log W);
  VCLogID : bytes;
  PubKey : bytes;
  alg : SignatureAndHashAlgorithm.t;
  loaders : gmap bytes Loader;
  Sign : bytes → W → W * result error (option bytes)
}.
Arguments baseURL {W Loader} _.
Arguments logs {W Loader} _.
Arguments VCLogID {W Loader} _.
Arguments PubKey {W Loader} _.
Arguments alg {W Loader} _.
Arguments loaders {W Loader} _.
Arguments Sign {W Loader} _.

(** ** Key types of the key manager *)

(** The names the key management package gives them. *)
Class KeyTypes := {
  ECDSAP256DER : bytes;
  ECDSAP384DER : bytes;
  ECDSAP521DER : bytes;
  ECDSAP256IEEEP1363 : bytes;
  ECDSAP384IEEEP1363 : bytes;
  ECDSAP521IEEEP1363 : bytes;
  ED25519 : bytes
}.

Definition signatureAndHashAlgorithmByKeyType `{KeyTypes} (keyType : bytes) : result error SignatureAndHashAlgorithm.t :=
  if existsb (beq keyType) [ECDSAP256DER; ECDSAP256IEEEP1363; ECDSAP384DER; ECDSAP384IEEEP1363;
                            ECDSAP521DER; ECDSAP521IEEEP1363]
  then Ok (SignatureAndHashAlgorithm.mk ECDSASignature keyType)
  else if beq keyType ED25519 then Ok (SignatureAndHashAlgorithm.mk EDDSASignature keyType)
  else Err (EWrap [] ErrInternal (": key type " ++ keyType ++ " is not supported")).

Definition contains (s : list bytes) (e : bytes) : bool := existsb (λ x, beq x e) s.

(** ** Construction *)

(** The key manager and the configuration. *)
Record KeyManager (W KH : Type) := mkKMS {
  ExportPubKeyBytes : bytes → W → W * result error (bytes * bytes);
  Get : bytes → W → W * result error KH
}.
Arguments ExportPubKeyBytes {W KH} _.
Arguments Get {W KH} _.

Record Config (W Loader KH : Type) := mkConfig {
  KMS : KeyManager W KH;
  Crypto_Sign : KH → bytes → W → W * result error (option bytes);
  Logs : list (Log W);
  DocumentLoaders : gmap bytes Loader;
  KeyID : bytes;
  BaseURL : bytes
}.
Arguments KMS {W Loader KH} _.
Arguments Crypto_Sign {W Loader KH} _.
Arguments Logs {W Loader KH} _.
Arguments DocumentLoaders {W Loader KH} _.
Arguments KeyID {W Loader KH} _.
Arguments BaseURL {W Loader KH} _.

Section command.
Context {W Loader : Type} `{!Libraries W Loader, !UnicodeTable, !KeyTypes}.

(** Later logs replace earlier ones of the same alias. *)
Definition logs_of (l : list (Log W)) : gmap bytes (Log W) :=
  foldl (λ m log, <[Alias log := log]> m) ∅ l.

Definition New {KH} (cfg : Config W Loader KH) : M W (Cmd W Loader) :=
  '(pubBytes, keyType) ← call (wrapf "export pub key bytes") (ExportPubKeyBytes (KMS cfg) (KeyID cfg));
  guard_ (negb (bool_decide (pubBytes = []))) (ENew "public key is empty");;
  a ← try (λ _, ENew ("key type " ++ keyType ++ " is not supported"))
        (signatureAndHashAlgorithmByKeyType keyType);
  kh ← call (wrapf "kms get kh") (Get (KMS cfg) (KeyID cfg));
  base ← try (wrapf "invalid base URL") (url_Parse (BaseURL cfg));
  mret (mkCmd _ _ base (logs_of (Logs cfg)) (Sum256 pubBytes) pubBytes a (DocumentLoaders cfg)
          (Crypto_Sign cfg kh)).

(** ** Permissions *)

Definition hasPermissions (c : Cmd W Loader) (alias : bytes) (perm : Z) : result error unit :=
  match logs c !! alias with
  | None => Err (NewNotFoundError (ENew ("alias " ++ Quote alias ++ " is not supported")))
  | Some log =>
      if existsb (λ p, p =? perm) (runes (Permission log)) then Ok ()
      else Err (NewUnauthorizedError (ENew ("action forbidden for " ++ Quote alias)))
  end.

(** The map access [c.logs[alias]] after the permission check. *)
Definition with_log {A} (c : Cmd W Loader) (alias : bytes) (perm : Z) (k : Log W → M W A) : M W A :=
  try (wrapf "has permissions") (hasPermissions c alias perm);;
  match logs c !! alias with
  | Some log => k log
  | None => panic "nil map entry"
  end.

(** ** Decoding of requests *)

(** Requests that are one string. *)
Definition decode_alias (what : bytes) (r : bytes) : M W bytes :=
  try (λ _, EWrap [] ErrInternal (": decode " ++ what ++ " failed"))
    (match json_Decode r with Ok a => Ok a | Err _ => Err ErrInternal end).

(** Requests decoded into a pointer, then validated. *)
Definition decode_request {A} `{JsonCodec A} (name : bytes) (r : bytes) : M W (option A) :=
  match json_Decode (A := option A) r with
  | Ok q => mret q
  | Err e => fail (wrapf ("decode " ++ name ++ " request") (ENew (json_error_text e r)))
  end.

Definition decode_valid {A} `{JsonCodec A} (name : bytes) (validate : option A → result error unit)
    (r : bytes) : M W A :=
  q ← decode_request name r;
  try (wrapf ("validate " ++ name ++ " request")) (validate q);;
  match q with Some q => mret q | None => panic "nil request" end.

(** ** Issuers and discovery *)

Definition GetIssuers (c : Cmd W Loader) (r : bytes) : M W bytes :=
  alias ← decode_alias "alias" r;
  with_log c alias read (λ log,
  mret (Encode (enc_slice enc_string (Issuers log)))).

Definition Webfinger (c : Cmd W Loader) (r : bytes) : M W bytes :=
  resourceID ← decode_alias "resource ID" r;
  guard_ (negb (bool_decide (resourceID = []))) (NewBadRequestError (ENew "resource is required"));;
  resourceURI ← try (λ _, NewBadRequestError (ENew "invalid resource URI <nil>")) (url_Parse resourceID);
  guard_ (beq (Host resourceURI) (Host (baseURL c)))
    (NewNotFoundError (ENew ("resource not found " ++ Quote (url_String resourceURI))));;
  guard_ (negb (Z.of_nat (length (Path resourceURI)) <=? 1)) (NewNotFoundError (ENew "ledger ID is required"));;
  let ledgerID := drop 1 (Path resourceURI) in
  guard_ (bool_decide (is_Some (logs c !! ledgerID)))
    (NewNotFoundError (ENew ("ledger ID not found " ++ Quote ledgerID)));;
  mret (json_Encode (WebFingerResponse.mk resourceID
    (Some (map_insert PublicKeyType (enc_bytes (Some (PubKey c)))
             (map_insert LedgerType (enc_string vctV1) [])))
    (Some [WebFingerLink.mk "self" [] resourceID]))).

(** ** Leaves and signatures *)

Definition CreateLeaf (timestamp : Z) (vcBytes : bytes) (loader : Loader) : M W MerkleTreeLeaf.t :=
  vcDoc ← match Unmarshal dec_map None vcBytes with
          | Ok d => mret d
          | Err e => fail (wrapf "unmarshal VC to document" (ENew (json_error_text e vcBytes)))
          end;
  match vcDoc with
  | None => panic "assignment to entry in nil map"
  | Some vcDoc =>
      canonicalBytes ← call (wrapf "marshal canonical")
                         (GetCanonicalDocument (map_insert ldProofField JNull vcDoc) loader);
      mret (MerkleTreeLeaf.mk V1 TimestampedEntryLeafType
              (Some (TimestampedEntry.mk timestamp VCLogEntryType (Some canonicalBytes) None)))
  end.

Definition CreateVCTimestampSignature (leaf : MerkleTreeLeaf.t) : option VCTimestampSignature.t :=
  e ← MerkleTreeLeaf.TimestampedEntry leaf;
  Some (VCTimestampSignature.mk V1 VCTimestampSignatureType (TimestampedEntry.Timestamp e)
          (TimestampedEntry.EntryType e) (TimestampedEntry.VCEntry e) (TimestampedEntry.Extensions e)).

Definition signV1VCTS (c : Cmd W Loader) (leaf : MerkleTreeLeaf.t) : M W DigitallySigned.t :=
  match CreateVCTimestampSignature leaf with
  | None => panic "nil TimestampedEntry"
  | Some vcts =>
      data ← try (wrapf "marshal VCTimestampSignature") (MarshalCanonical (enc vcts));
      signature ← call (wrapf "sign TreeHeadSignature") (Sign c data);
      mret (DigitallySigned.mk (alg c) signature)
  end.

(** Nanoseconds per millisecond. *)
Definition Millisecond : Z := 1000000.

Definition signV1TreeHead (c : Cmd W Loader) (root : LogRootV1) : M W DigitallySigned.t :=
  sthBytes ← try (wrapf "marshal TreeHeadSignature")
    (MarshalCanonical (enc (TreeHeadSignature.mk V1 TreeHeadSignatureType
       (TimestampNanos root / Millisecond) (TreeSize root) (RootHash root))));
  signature ← call (wrapf "sign TreeHeadSignature") (Sign c sthBytes);
  mret (DigitallySigned.mk (alg c) signature).

(** ** add-vc *)

(** The leaf that the log has is decoded and its data signed. *)
Definition sign_logged (c : Cmd W Loader) (logged : bytes) : M W bytes :=
  loggedLeaf ← match json_Unmarshal (A := MerkleTreeLeaf.t) logged with
               | Ok x => mret x
               | Err e => fail (NewStatusInternalServerError
                            (wrapf "failed to reconstruct MerkleTreeLeaf" (ENew (json_error_text e logged))))
               end;
  sct ← within (wrapf "sign V1 VCTS") (signV1VCTS c loggedLeaf);
  match MerkleTreeLeaf.TimestampedEntry loggedLeaf with
  | None => panic "nil TimestampedEntry"
  | Some e =>
      mret (json_Encode (AddVCResponse.mk V1 (Some (VCLogID c)) (TimestampedEntry.Timestamp e)
        (b64_encode (default [] (TimestampedEntry.Extensions e))) (Some (json_Marshal sct))))
  end.

(** The bytes that identify a leaf: its canonical credential. *)
Definition leaf_id (leaf : MerkleTreeLeaf.t) : bytes :=
  Sum256 (default [] (MerkleTreeLeaf.TimestampedEntry leaf ≫= TimestampedEntry.VCEntry)).

Definition queue_leaf (c : Cmd W Loader) (log : Log W) (vc : Credential) (leaf : MerkleTreeLeaf.t) : M W bytes :=
  leafData ← try (λ e, NewStatusInternalServerError (wrapf "marshal MerkleTreeLeaf" e))
               (MarshalCanonical (enc leaf));
  extraData ← (if bool_decide (Proofs vc = []) then mret None
               else Some <$> try (λ e, NewStatusInternalServerError (wrapf "marshal credential proofs" e))
                               (MarshalCanonical (JArr (Proofs vc))));
  resp ← call (wrapf "queue leaf")
    (rpc_QueueLeaf (Client log)
       (mkQueueLeafRequest (ID log) (mkLogLeaf (Some leafData) extraData (Some (leaf_id leaf)) 0)));
  match QueuedLeaf resp with
  | None => fail (EWrap [] ErrInternal ": no leaf")
  | Some None => panic "nil leaf"
  | Some (Some l) => sign_logged c (default [] (LeafValue l))
  end.

Definition AddVC (c : Cmd W Loader) (r : bytes) : M W bytes :=
  req ← try (λ _, wrapf "decode AddVC request" ErrInternal)
          (match json_Decode (A := AddVCRequest.t) r with Ok q => Ok q | Err _ => Err ErrInternal end);
  with_log c (AddVCRequest.Alias req) write (λ log,
  loader ← match loaders c !! AddVCRequest.Alias req with
           | Some l => mret l
           | None => fail (ENew ("no document loader found for alias " ++ AddVCRequest.Alias req))
           end;
  vc ← call (λ e, NewBadRequestError (wrapf "parse credential" e))
         (ParseCredential (default [] (AddVCRequest.VCEntry req)) loader);
  guard_ (bool_decide (default [] (Issuers log) = []) || contains (default [] (Issuers log)) (IssuerID vc))
    (EWrap [] ErrBadRequest (": issuer " ++ IssuerID vc ++ " is not in a list"));;
  now ← call id (λ w, let '(w', t) := UnixNano w in (w', Ok t));
  leaf ← within (wrapf "create leaf")
           (CreateLeaf (wrap_u64 (Z.quot now Millisecond)) (default [] (AddVCRequest.VCEntry req)) loader);
  queue_leaf c log vc leaf).

(** ** Signed tree heads *)

Definition GetSTH (c : Cmd W Loader) (r : bytes) : M W bytes :=
  alias ← decode_alias "alias" r;
  with_log c alias read (λ log,
  resp ← call (wrapf "get latest signed log root") (rpc_GetLatestSignedLogRoot (Client log) (ID log));
  match resp with
  | None => fail (EWrap [] ErrInternal ": no signed log root returned")
  | Some logRoot =>
      root ← try (wrapf "unmarshal binary") (UnmarshalBinary logRoot);
      ths ← within (wrapf "sign tree head (v1)") (signV1TreeHead c root);
      mret (json_Encode (GetSTHResponse.mk (TreeSize root) (TimestampNanos root / Millisecond)
              (RootHash root) (Some (json_Marshal ths))))
  end).

(** [currentRoot.UnmarshalBinary(resp.GetSignedLogRoot().GetLogRoot())]. *)
Definition current_root (r : SignedLogRoot) : M W LogRootV1 :=
  try (λ _, EWrap [] ErrInternal (": unmarshal binary: " ++ fmt_bytes (GetLogRoot r)))
    (UnmarshalBinary (GetLogRoot r)).

(** ** get-entries *)

Definition maxRange : Z := 1000.

(** The end of the range after the clamp, on [int64]. *)
Definition clamp_end (start end_ : Z) : Z :=
  if maxRange <? add64 (sub64 end_ start) 1 then sub64 (add64 start maxRange) 1 else end_.

(** The first index at which a leaf is not where it should be. *)
Fixpoint misplaced_leaf (start : Z) (i : Z) (leaves : list LogLeaf) : option (Z * Z) :=
  match leaves with
  | [] => None
  | l :: ls =>
      if LeafIndex l =? add64 start i then misplaced_leaf start (i + 1) ls else Some (i, LeafIndex l)
  end.

Definition range_text (start end_ : Z) : bytes :=
  "[" ++ FormatInt start ++ "," ++ FormatInt end_ ++ "]".

(** The request for [count] leaves, and the checks of the reply. *)
Definition fetch_range (log : Log W) (start end_ count : Z) : M W bytes :=
  resp ← call (wrapf "get leaves by range")
           (rpc_GetLeavesByRange (Client log) (mkGetLeavesByRangeRequest (ID log) start count));
  currentRoot ← current_root (glr_SignedLogRoot resp);
  guard_ (negb (TreeSize currentRoot <=? wrap_u64 start))
    (EWrap [] ErrInternal (": need tree size: " ++ FormatInt (add64 start 1) ++
       " to get leaves but only got: " ++ FormatInt (TreeSize currentRoot)));;
  guard_ (negb (count <? Z.of_nat (length (glr_Leaves resp))))
    (EWrap [] ErrInternal (": too many leaves: got " ++ FormatInt (Z.of_nat (length (glr_Leaves resp))) ++
       " in range " ++ range_text start end_));;
  match misplaced_leaf start 0 (glr_Leaves resp) with
  | Some (i, idx) =>
      fail (EWrap [] ErrInternal (": unexpected leaf index: rsp.Leaves[" ++ FormatInt i ++ "].LeafIndex=" ++
              FormatInt idx ++ " for range " ++ range_text start end_))
  | None =>
      mret (json_Encode (GetEntriesResponse.mk
        (Some (List.map (λ l, LeafEntry.mk (LeafValue l) (LeafExtraData l)) (glr_Leaves resp)))))
  end.

Definition GetEntries (c : Cmd W Loader) (r : bytes) : M W bytes :=
  request ← decode_valid "GetEntries" GetEntriesRequest.Validate r;
  with_log c (GetEntriesRequest.Alias request) read (λ log,
  let start := GetEntriesRequest.Start request in
  let end_ := clamp_end start (GetEntriesRequest.End_ request) in
  fetch_range log start end_ (sub64 (add64 end_ 1) start)).

(** ** get-entry-and-proof *)

Definition is_empty (b : option bytes) : bool := bool_decide (default [] b = []).

Definition GetEntryAndProof (c : Cmd W Loader) (r : bytes) : M W bytes :=
  request ← decode_valid "GetEntryAndProof" GetEntryAndProofRequest.Validate r;
  with_log c (GetEntryAndProofRequest.Alias request) read (λ log,
  let treeSize := GetEntryAndProofRequest.TreeSize request in
  let req := mkEntryAndProofRequest (ID log) (GetEntryAndProofRequest.LeafIndex request) treeSize in
  resp ← call (wrapf "get entry and proof") (rpc_GetEntryAndProof (Client log) req);
  currentRoot ← current_root (ge_SignedLogRoot resp);
  guard_ (negb (TreeSize currentRoot <? wrap_u64 treeSize))
    (EWrap [] ErrBadRequest (": need tree size: " ++ FormatInt treeSize ++ " for proof, got: " ++
       FormatInt (TreeSize currentRoot)));;
  let corrupted := EWrap [] ErrInternal (": corrupted data received: " ++ show_entry_and_proof resp) in
  match ge_Leaf resp, ge_Proof resp with
  | Some leaf, Some proof =>
      guard_ (negb (is_empty (LeafValue leaf))) corrupted;;
      guard_ (negb ((1 <? treeSize) && bool_decide (default [] (Hashes proof) = [])))
        (EWrap [] ErrInternal (": no proof: " ++ show_entry_and_proof resp));;
      mret (json_Encode (GetEntryAndProofResponse.mk (LeafValue leaf) (LeafExtraData leaf) (Hashes proof)))
  | _, _ => fail corrupted
  end).

(** ** get-proof-by-hash *)

(** [base64.StdEncoding.DecodeString], with the text of its error. *)
Definition DecodeString (s : bytes) : result error bytes :=
  match b64_decode s with Some b => Ok b | None => Err (ENew (base64_error_text s)) end.

Definition GetProofByHash (c : Cmd W Loader) (r : bytes) : M W bytes :=
  request ← decode_valid "GetProofByHash" GetProofByHashRequest.Validate r;
  with_log c (GetProofByHashRequest.Alias request) read (λ log,
  leafHash ← try (λ e, NewBadRequestError (wrapf "invalid base64 hash" e))
               (DecodeString (GetProofByHashRequest.Hash request));
  let treeSize := GetProofByHashRequest.TreeSize request in
  let req := mkInclusionProofByHashRequest (ID log) leafHash treeSize true in
  resp ← call (wrapf "get leaves by range") (rpc_GetInclusionProofByHash (Client log) req);
  currentRoot ← current_root (ip_SignedLogRoot resp);
  guard_ (negb (TreeSize currentRoot <? wrap_u64 treeSize))
    (EWrap [] ErrNotFound (": got tree size: " ++ FormatInt (TreeSize currentRoot) ++
       " but we expected: " ++ FormatInt treeSize));;
  match ip_Proof resp with
  | [] => fail (EWrap [] ErrNotFound ": no proof")
  | p :: _ => mret (json_Encode (GetProofByHashResponse.mk (ProofLeafIndex p) (Hashes p)))
  end).

(** ** get-sth-consistency *)

Definition GetSTHConsistency (c : Cmd W Loader) (r : bytes) : M W bytes :=
  request ← decode_valid "GetSTHConsistency" GetSTHConsistencyRequest.Validate r;
  with_log c (GetSTHConsistencyRequest.Alias request) read (λ log,
  let first := GetSTHConsistencyRequest.FirstTreeSize request in
  let second := GetSTHConsistencyRequest.SecondTreeSize request in
  if first =? 0 then mret (json_Encode (GetSTHConsistencyResponse.mk None))
  else
    let req := mkConsistencyProofRequest (ID log) first second in
    resp ← call (wrapf "get consistency proof") (rpc_GetConsistencyProof (Client log) req);
    root ← current_root (cp_SignedLogRoot resp);
    guard_ (negb (TreeSize root <? wrap_u64 second))
      (EWrap [] ErrValidation (": need tree size: " ++ FormatInt second ++ " for proof but only got: " ++
         FormatInt (TreeSize root)));;
    mret (json_Encode (GetSTHConsistencyResponse.mk (cp_Proof resp ≫= Hashes)))).

(** ** The table of handlers *)

Definition Handler : Type := bytes * (bytes → M W bytes).

Definition GetHandlers (c : Cmd W Loader) : list Handler :=
  [("getSTHConsistency" : bytes, GetSTHConsistency c);
   ("getSTH" : bytes, GetSTH c);
   ("getEntries" : bytes, GetEntries c);
   ("getProofByHash" : bytes, GetProofByHash c);
   ("getEntryAndProof" : bytes, GetEntryAndProof c);
   ("getIssuers" : bytes, GetIssuers c);
   ("webfinger" : bytes, Webfinger c);
   ("addVC" : bytes, AddVC c)].
End command.
