(* ===== verification/Samples.v ===== *)
(** * Services for examples

    A small world in which the services the controller calls can be run: a
    log in memory, a canonical form that is the JSON text, signatures that
    repeat the data.  Examples instantiate the parameters of the theorems
    with them. *)

From S2P Require Import Prelude GoStrings Utf GoJson GoFmt GoUrl Errors Codec Canonicalizer Sha256 Models Effects Command.

Open Scope Z_scope.

(** The world: the leaves of the log. *)
Definition sample_world : Type := list LogLeaf.

(** No error carries an RPC status. *)
Definition no_rpc_status : GrpcStatus := λ _, None.
Lemma no_rpc_status_laws : @GrpcStatusLaws no_rpc_status.
Proof. split; done. Qed.

(** The names of the key types in the aries framework. *)
Definition aries_key_types : KeyTypes := {|
  ECDSAP256DER := "ECDSAP256DER";
  ECDSAP384DER := "ECDSAP384DER";
  ECDSAP521DER := "ECDSAP521DER";
  ECDSAP256IEEEP1363 := "ECDSAP256IEEEP1363";
  ECDSAP384IEEEP1363 := "ECDSAP384IEEEP1363";
  ECDSAP521IEEEP1363 := "ECDSAP521IEEEP1363";
  ED25519 := "ED25519"
|}.

Definition sample_root (leaves : list LogLeaf) : SignedLogRoot :=
  Some (Some (replicate (length leaves) "."%char)).

Definition sample_libraries : Libraries sample_world unit := {|
  ParseCredential vc _ w := (w, Ok (mkCredential "did:example:issuer" []));
  GetCanonicalDocument d _ w := (w, Ok (Marshal (JObj d)));
  UnmarshalBinary b :=
    match b with
    | Some b => Ok (mkLogRootV1 (Z.of_nat (length b)) (Some ("root" : bytes)) 1636000000123000000)
    | None => Err (ENew "no root")
    end;
  UnixNano w := (w, 1636000000123000000);
  json_error_text _ _ := "bad JSON";
  base64_error_text _ := "bad base64";
  show_entry_and_proof _ := "reply"
|}.

(** A log in memory: leaves are sequenced at once. *)
Definition sample_client : TrillianLogClient sample_world := {|
  rpc_QueueLeaf q w :=
    let l := mkLogLeaf (LeafValue (ql_Leaf q)) (LeafExtraData (ql_Leaf q)) (LeafIdentityHash (ql_Leaf q))
               (Z.of_nat (length w)) in
    (w ++ [l], Ok (mkQueueLeafResponse (Some (Some l))));
  rpc_GetLatestSignedLogRoot _ w := (w, Ok (sample_root w));
  rpc_GetLeavesByRange q w :=
    (w, Ok (mkGetLeavesByRangeResponse (take (Z.to_nat (Count q)) (drop (Z.to_nat (StartIndex q)) w)) (sample_root w)));
  rpc_GetEntryAndProof _ w := (w, Err (ENew "no proofs"));
  rpc_GetInclusionProofByHash _ w := (w, Err (ENew "no proofs"));
  rpc_GetConsistencyProof _ w := (w, Err (ENew "no proofs"))
|}.

Definition sample_log : Log sample_world := mkLog _ 1 "maple2021" "rw" [] None sample_client.
(** A log that can only be read. *)
Definition archive_log : Log sample_world := mkLog _ 2 "archive" "r" [] None sample_client.

Definition sample_url : URL := Url "https" [] None "vct.example.com" [] [] false false [] [] [].

Definition sample_cmd : Cmd sample_world unit :=
  mkCmd _ _ sample_url (<["maple2021" : bytes := sample_log]> {["archive" : bytes := archive_log]})
    (Sum256 "public key") "public key" (SignatureAndHashAlgorithm.mk ECDSASignature "ECDSAP256DER")
    {["maple2021" : bytes := ()]} (λ data w, (w, Ok (Some (("signed " : bytes) ++ data)))).

(** A credential and a request to add it. *)
Definition sample_vc : bytes := Marshal (JObj [("id" : bytes, JStr "urn:1"); ("proof" : bytes, JStr "p")]).
Definition sample_add : bytes := json_Marshal (AddVCRequest.mk "maple2021" (Some sample_vc)).
