(* ===== verification/CommandFacts.v ===== *)
(** * Properties of the command controller *)

From S2P Require Import Prelude GoStrings Utf GoJson GoFmt GoUrl Errors Codec Canonicalizer Sha256 Models LeafFacts.
From S2P Require Import Jcs JcsFacts Effects Command.

Open Scope Z_scope.

(** ** Validation *)

Ltac validate_case :=
  split; [intros ?; first [discriminate | eexists; split; [reflexivity|lia]]
         | intros (? & [= <-] & ?); first [reflexivity | lia]].

Lemma Validate_entry_and_proof q :
  is_ok (GetEntryAndProofRequest.Validate q) = true ↔
  ∃ r, q = Some r ∧ 0 ≤ GetEntryAndProofRequest.LeafIndex r < GetEntryAndProofRequest.TreeSize r.
Proof.
  destruct q as [r|]; cbn; [|split; [done|by intros (? & ? & _)]].
  destruct (Z.ltb_spec (GetEntryAndProofRequest.TreeSize r) 1), (Z.ltb_spec (GetEntryAndProofRequest.LeafIndex r) 0),
    (Z.leb_spec (GetEntryAndProofRequest.TreeSize r) (GetEntryAndProofRequest.LeafIndex r)); cbn;
    validate_case.
Qed.

Lemma Validate_entries q :
  is_ok (GetEntriesRequest.Validate q) = true ↔
  ∃ r, q = Some r ∧ 0 ≤ GetEntriesRequest.Start r ≤ GetEntriesRequest.End_ r.
Proof.
  destruct q as [r|]; cbn; [|split; [done|by intros (? & ? & _)]].
  destruct (Z.ltb_spec (GetEntriesRequest.Start r) 0), (Z.ltb_spec (GetEntriesRequest.End_ r) 0),
    (Z.ltb_spec (GetEntriesRequest.End_ r) (GetEntriesRequest.Start r)); cbn;
    validate_case.
Qed.

Lemma Validate_consistency q :
  is_ok (GetSTHConsistencyRequest.Validate q) = true ↔
  ∃ r, q = Some r ∧ 0 ≤ GetSTHConsistencyRequest.FirstTreeSize r ≤ GetSTHConsistencyRequest.SecondTreeSize r.
Proof.
  destruct q as [r|]; cbn; [|split; [done|by intros (? & ? & _)]].
  destruct (Z.ltb_spec (GetSTHConsistencyRequest.FirstTreeSize r) 0),
    (Z.ltb_spec (GetSTHConsistencyRequest.SecondTreeSize r) 0),
    (Z.ltb_spec (GetSTHConsistencyRequest.SecondTreeSize r) (GetSTHConsistencyRequest.FirstTreeSize r)); cbn;
    validate_case.
Qed.

Lemma Validate_proof_by_hash q :
  is_ok (GetProofByHashRequest.Validate q) = true ↔
  ∃ r, q = Some r ∧ 1 ≤ GetProofByHashRequest.TreeSize r.
Proof.
  destruct q as [r|]; cbn; [|split; [done|by intros (? & ? & _)]].
  destruct (Z.ltb_spec (GetProofByHashRequest.TreeSize r) 1); cbn;
    validate_case.
Qed.

(** ** Permissions *)

Section permissions.
Context {W Loader : Type} `{!Libraries W Loader, !UnicodeTable, !KeyTypes}.
Implicit Types c : Cmd W Loader.

(** A log grants a permission when its permission string has the letter. *)
Definition granted c (alias : bytes) (perm : Z) : Prop :=
  ∃ log, logs c !! alias = Some log ∧ perm ∈ runes (Permission log).

Lemma hasPermissions_Ok c alias perm : hasPermissions c alias perm = Ok () ↔ granted c alias perm.
Proof.
  unfold hasPermissions, granted. destruct (logs c !! alias) as [log|].
  - destruct (existsb _ _) eqn:E.
    + split; [|done]. intros _. exists log. split; [done|].
      apply existsb_exists in E as (p & Hp & ->%Z.eqb_eq). by apply list_elem_of_In.
    + split; [done|]. intros (log' & [= <-] & Hp). apply not_true_iff_false in E. destruct E.
      apply existsb_exists. exists perm. split; [by apply list_elem_of_In|apply Z.eqb_refl].
  - split; [done|]. by intros (? & ? & _).
Qed.

(** The status of a refused request. *)
Lemma hasPermissions_status `{!GrpcStatus} c alias perm e :
  hasPermissions c alias perm = Err e →
  StatusCodeFromError e = match logs c !! alias with Some _ => StatusUnauthorized | None => StatusNotFound end.
Proof. unfold hasPermissions. intros He. go_cases; done. Qed.

Lemma with_log_denied {A} c alias perm (k : Log W → M W A) w e :
  hasPermissions c alias perm = Err e → with_log c alias perm k w = (w, Fail (wrapf "has permissions" e)).
Proof. intros He. unfold with_log. rewrite He. done. Qed.

Lemma with_log_granted {A} c alias perm (k : Log W → M W A) w log :
  logs c !! alias = Some log → granted c alias perm → with_log c alias perm k w = k log w.
Proof. intros Hl Hg%hasPermissions_Ok. unfold with_log. by rewrite Hg, Hl. Qed.

Lemma with_log_effect {A} c alias perm (k : Log W → M W A) w :
  (with_log c alias perm k w).1 ≠ w → granted c alias perm.
Proof.
  destruct (hasPermissions c alias perm) as [[]|e] eqn:E; [by intros _; apply hasPermissions_Ok|].
  by rewrite (with_log_denied _ _ _ _ _ e).
Qed.

Lemma with_log_Return {A} c alias perm (k : Log W → M W A) w w' a :
  with_log c alias perm k w = (w', Return a) ↔
  ∃ log, logs c !! alias = Some log ∧ perm ∈ runes (Permission log) ∧ k log w = (w', Return a).
Proof.
  split.
  - destruct (hasPermissions c alias perm) as [[]|e] eqn:E; [|by rewrite (with_log_denied _ _ _ _ _ e)].
    pose proof E as (log & Hl & Hp)%hasPermissions_Ok. erewrite with_log_granted; [|done|by eexists]. eauto.
  - intros (log & Hl & Hp & Hk). rewrite (with_log_granted c alias perm k w log); [done..|by exists log].
Qed.

(** ** The alias a request names *)

Definition alias_of {A} `{JsonCodec A} (f : A → bytes) (r : bytes) : option bytes :=
  match json_Decode (A := option A) r with Ok (Some q) => Some (f q) | _ => None end.

Definition request_alias (name r : bytes) : option bytes :=
  if beq name "getEntries" then alias_of GetEntriesRequest.Alias r
  else if beq name "getEntryAndProof" then alias_of GetEntryAndProofRequest.Alias r
  else if beq name "getProofByHash" then alias_of GetProofByHashRequest.Alias r
  else if beq name "getSTHConsistency" then alias_of GetSTHConsistencyRequest.Alias r
  else if beq name "addVC" then
    match json_Decode (A := AddVCRequest.t) r with Ok q => Some (AddVCRequest.Alias q) | Err _ => None end
  else match json_Decode (A := bytes) r with Ok a => Some a | Err _ => None end.

Definition request_perm (name : bytes) : Z := if beq name "addVC" then write else read.

Lemma decode_valid_effect {A B} `{JsonCodec A} name validate r (f : A → bytes) c perm
    (k : A → Log W → M W B) w :
  ((decode_valid name validate r ≫= λ q, with_log c (f q) perm (k q)) w).1 ≠ w →
  ∃ alias, alias_of f r = Some alias ∧ granted c alias perm.
Proof.
  unfold decode_valid, decode_request, alias_of. unfold mbind, M_bind, try, fail, mret, M_ret, panic.
  destruct (json_Decode r) as [[q|]|]; [destruct (validate (Some q)) as [[]|e]|destruct (validate None) as [[]|e]|];
    cbn; try done.
  intros Hw. exists (f q). split; [done|]. by eapply with_log_effect.
Qed.

Lemma decode_alias_effect {B} what r c perm (k : Log W → M W B) w :
  ((decode_alias what r ≫= λ a, with_log c a perm k) w).1 ≠ w →
  ∃ alias, (match json_Decode (A := bytes) r with Ok a => Some a | Err _ => None end) = Some alias ∧
           granted c alias perm.
Proof.
  unfold decode_alias. unfold mbind, M_bind, try, fail, mret, M_ret.
  destruct (json_Decode r) as [a|e]; cbn; [|done]. intros Hw. exists a. split; [done|].
  by eapply with_log_effect.
Qed.

(** Handlers that are no RPC. *)
Lemma Webfinger_pure c r w : (Webfinger c r w).1 = w.
Proof.
  unfold Webfinger, decode_alias, guard_, mbind, M_bind, try, fail, mret, M_ret.
  repeat (case_match; simplify_eq/=; try done).
Qed.

(** The alias of a request to each handler, and the effects of the handler. *)
Lemma GetSTHConsistency_effect c r w : (GetSTHConsistency c r w).1 ≠ w →
  ∃ alias, request_alias "getSTHConsistency" r = Some alias ∧ granted c alias read.
Proof.
  assert (request_alias "getSTHConsistency" r = alias_of GetSTHConsistencyRequest.Alias r) as -> by reflexivity.
  apply decode_valid_effect.
Qed.

Lemma GetEntries_effect c r w : (GetEntries c r w).1 ≠ w →
  ∃ alias, request_alias "getEntries" r = Some alias ∧ granted c alias read.
Proof.
  assert (request_alias "getEntries" r = alias_of GetEntriesRequest.Alias r) as -> by reflexivity.
  apply decode_valid_effect.
Qed.

Lemma GetProofByHash_effect c r w : (GetProofByHash c r w).1 ≠ w →
  ∃ alias, request_alias "getProofByHash" r = Some alias ∧ granted c alias read.
Proof.
  assert (request_alias "getProofByHash" r = alias_of GetProofByHashRequest.Alias r) as -> by reflexivity.
  apply decode_valid_effect.
Qed.

Lemma GetEntryAndProof_effect c r w : (GetEntryAndProof c r w).1 ≠ w →
  ∃ alias, request_alias "getEntryAndProof" r = Some alias ∧ granted c alias read.
Proof.
  assert (request_alias "getEntryAndProof" r = alias_of GetEntryAndProofRequest.Alias r) as -> by reflexivity.
  apply decode_valid_effect.
Qed.

Lemma GetSTH_effect c r w : (GetSTH c r w).1 ≠ w →
  ∃ alias, request_alias "getSTH" r = Some alias ∧ granted c alias read.
Proof.
  assert (request_alias "getSTH" r = match json_Decode (A := bytes) r with Ok a => Some a | Err _ => None end)
    as -> by reflexivity. apply decode_alias_effect.
Qed.

Lemma GetIssuers_effect c r w : (GetIssuers c r w).1 ≠ w →
  ∃ alias, request_alias "getIssuers" r = Some alias ∧ granted c alias read.
Proof.
  assert (request_alias "getIssuers" r = match json_Decode (A := bytes) r with Ok a => Some a | Err _ => None end)
    as -> by reflexivity. apply decode_alias_effect.
Qed.

Lemma AddVC_effect c r w : (AddVC c r w).1 ≠ w →
  ∃ alias, request_alias "addVC" r = Some alias ∧ granted c alias write.
Proof.
  assert (request_alias "addVC" r = match json_Decode (A := AddVCRequest.t) r with
    | Ok q => Some (AddVCRequest.Alias q) | Err _ => None end) as -> by reflexivity.
  unfold AddVC. destruct (json_Decode r) as [q|e]; [|done]. intros Hw.
  exists (AddVCRequest.Alias q). split; [done|]. eapply with_log_effect. exact Hw.
Qed.

End permissions.

(** ** Ranges *)

Lemma wrap_s64_add a b : wrap_s64 (wrap_s64 a + b) = wrap_s64 (a + b).
Proof.
  unfold wrap_s64. f_equal.
  replace ((a + 2 ^ 63) mod 2 ^ 64 - 2 ^ 63 + b + 2 ^ 63) with ((a + 2 ^ 63) mod 2 ^ 64 + b) by lia.
  rewrite Zplus_mod_idemp_l. f_equal. lia.
Qed.

(** The range is cut to 1000 entries; the arithmetic wraps only for the
    whole range of [int64]. *)
Lemma clamp_range start end_ :
  is_int64 start → is_int64 end_ → 0 ≤ start ≤ end_ → ¬ (start = 0 ∧ end_ = int64_max) →
  clamp_end start end_ = Z.min (start + 999) end_ ∧
  sub64 (add64 (clamp_end start end_) 1) start = Z.min maxRange (end_ - start + 1).
Proof.
  intros Hs He Hr Hne.
  assert (add64 (sub64 end_ start) 1 = end_ - start + 1) as E.
  { unfold add64, sub64. rewrite wrap_s64_add, wrap_s64_id; [lia|int_lia]. }
  assert (clamp_end start end_ = Z.min (start + 999) end_) as Ec.
  { unfold clamp_end, maxRange. rewrite E. destruct (Z.ltb_spec 1000 (end_ - start + 1)); [|lia].
    unfold sub64, add64. rewrite <- Z.add_opp_r, wrap_s64_add, wrap_s64_id; int_lia. }
  split; [done|]. rewrite Ec. unfold sub64, add64, maxRange.
  rewrite <- Z.add_opp_r, wrap_s64_add, wrap_s64_id; int_lia.
Qed.

Lemma misplaced_leaf_from start i leaves :
  misplaced_leaf start i leaves = None ↔
  ∀ k l, leaves !! k = Some l → LeafIndex l = add64 start (i + Z.of_nat k).
Proof.
  revert i. induction leaves as [|l leaves IH]; intros i; [done|]. cbn [misplaced_leaf]. split.
  - destruct (Z.eqb_spec (LeafIndex l) (add64 start i)) as [E|]; [|done].
    intros Hm [|k] l' Hk; cbn in Hk; [simplify_eq; by rewrite Z.add_0_r|].
    rewrite (proj1 (IH _) Hm _ _ Hk). f_equal. lia.
  - intros Hi. rewrite (Hi 0%nat l), Z.add_0_r, Z.eqb_refl by done. apply IH.
    intros k l' Hl. rewrite (Hi (S k) l') by done. f_equal. lia.
Qed.

Lemma misplaced_leaf_None start leaves :
  misplaced_leaf start 0 leaves = None ↔
  ∀ k l, leaves !! k = Some l → LeafIndex l = add64 start (Z.of_nat k).
Proof. apply misplaced_leaf_from. Qed.

(** ** Inverting the handlers *)

(** Never unfolded in the proofs below. *)
#[local] Opaque Sum256 MarshalCanonical json_Marshal json_Encode json_Unmarshal wrap_u64 wrap_s64 FormatInt.

Section inversion.
Context {W Loader : Type} `{!Libraries W Loader, !UnicodeTable, !KeyTypes}.
Implicit Types c : Cmd W Loader.

Lemma decode_valid_Return {A} `{JsonCodec A} name validate r w w' q :
  decode_valid (A := A) (W := W) name validate r w = (w', Return q) ↔
  json_Decode (A := option A) r = Ok (Some q) ∧ is_ok (validate (Some q)) = true ∧ w' = w.
Proof.
  unfold decode_valid, decode_request, mbind, M_bind, try, fail, mret, M_ret, panic.
  destruct (json_Decode r) as [[q'|]|].
  - destruct (validate (Some q')) as [[]|] eqn:E; split; intros; destruct_and?; simplify_eq; by rewrite ?E in *.
  - destruct (validate None); naive_solver.
  - naive_solver.
Qed.

Lemma decode_alias_Return what r w w' a :
  decode_alias (W := W) what r w = (w', Return a) ↔ json_Decode (A := bytes) r = Ok a ∧ w' = w.
Proof. unfold decode_alias. rewrite try_Return. destruct (json_Decode r); naive_solver. Qed.

Lemma current_root_Return r w w' root :
  current_root r w = (w', Return root) ↔ UnmarshalBinary (GetLogRoot r) = Ok root ∧ w' = w.
Proof. apply try_Return. Qed.

Lemma fetch_range_Return (log : Log W) start end_ count w w' out :
  fetch_range log start end_ count w = (w', Return out) ↔
  ∃ resp root,
    rpc_GetLeavesByRange (Client log) (mkGetLeavesByRangeRequest (ID log) start count) w = (w', Ok resp) ∧
    UnmarshalBinary (GetLogRoot (glr_SignedLogRoot resp)) = Ok root ∧ wrap_u64 start < TreeSize root ∧
    Z.of_nat (length (glr_Leaves resp)) ≤ count ∧
    (∀ k l, glr_Leaves resp !! k = Some l → LeafIndex l = add64 start (Z.of_nat k)) ∧
    out = json_Encode (GetEntriesResponse.mk
      (Some (List.map (λ l, LeafEntry.mk (LeafValue l) (LeafExtraData l)) (glr_Leaves resp)))).
Proof.
  unfold fetch_range. split.
  - intros Hx.
    apply bind_Return in Hx as (resp & w2 & Hc & Hx). apply call_Return in Hc.
    apply bind_Return in Hx as (root & w3 & Hr & Hx). apply current_root_Return in Hr as [Hr ->].
    apply bind_Return in Hx as ([] & w4 & Hg1 & Hx). apply guard_Return in Hg1 as [Hg1%negb_true_iff%Z.leb_gt ->].
    apply bind_Return in Hx as ([] & w5 & Hg2 & Hx). apply guard_Return in Hg2 as [Hg2%negb_true_iff%Z.ltb_ge ->].
    destruct (misplaced_leaf _ _ _) as [[]|] eqn:Hm; [done|]. apply ret_Return in Hx as [-> ->].
    exists resp, root. repeat split; try assumption. exact (proj1 (misplaced_leaf_None _ _) Hm).
  - intros (resp & root & Hr & Hu & Ht & Hc & Hi & ->). run_step.
    erewrite bind_ret by (apply current_root_Return; split; [exact Hu|reflexivity]).
    apply Z.leb_gt in Ht. apply Z.ltb_ge in Hc. rewrite Ht, Hc, guard_ok, guard_ok.
    by rewrite (proj2 (misplaced_leaf_None _ _)).
Qed.

Lemma signV1VCTS_Return c leaf w w' d :
  signV1VCTS c leaf w = (w', Return d) ↔
  ∃ vcts data sig, CreateVCTimestampSignature leaf = Some vcts ∧ MarshalCanonical (enc vcts) = Ok data ∧
    Sign c data w = (w', Ok sig) ∧ d = DigitallySigned.mk (alg c) sig.
Proof.
  unfold signV1VCTS. split.
  - destruct (CreateVCTimestampSignature leaf) as [vcts|]; [|done]. intros Hx.
    apply bind_Return in Hx as (data & w1 & Hd & Hx). apply try_Return in Hd as [Hd ->].
    apply bind_Return in Hx as (sig & w2 & Hs & Hx). apply call_Return in Hs.
    apply ret_Return in Hx as [-> ->]. exists vcts, data, sig. repeat split; assumption.
  - intros (vcts & data & sig & -> & Hm & Hs & ->). run_step. by run_step.
Qed.

(** The response of add-vc for the entry [e] of the logged leaf. *)
Definition add_response c (e : TimestampedEntry.t) (sig : option bytes) : bytes :=
  json_Encode (AddVCResponse.mk V1 (Some (VCLogID c)) (TimestampedEntry.Timestamp e)
    (b64_encode (default [] (TimestampedEntry.Extensions e)))
    (Some (json_Marshal (DigitallySigned.mk (alg c) sig)))).

Lemma sign_logged_Return c logged w w' out :
  sign_logged c logged w = (w', Return out) ↔
  ∃ leaf e vcts data sig,
    json_Unmarshal logged = Ok leaf ∧ MerkleTreeLeaf.TimestampedEntry leaf = Some e ∧
    CreateVCTimestampSignature leaf = Some vcts ∧ MarshalCanonical (enc vcts) = Ok data ∧
    Sign c data w = (w', Ok sig) ∧ out = add_response c e sig.
Proof.
  unfold sign_logged, add_response. split.
  - intros Hx. apply bind_Return in Hx as (leaf & w1 & Hu & Hx).
    destruct (json_Unmarshal logged) as [leaf'|e] eqn:E; [|done]. apply ret_Return in Hu as [-> ->].
    apply bind_Return in Hx as (sct & w2 & Hs & Hx). apply within_Return in Hs.
    apply signV1VCTS_Return in Hs as (vcts & data & sig & Hv & Hd & Hs & ->).
    destruct (MerkleTreeLeaf.TimestampedEntry leaf') as [e|] eqn:Ee; [|done].
    apply ret_Return in Hx as [-> ->]. exists leaf', e, vcts, data, sig. repeat split; assumption.
  - intros (leaf & e & vcts & data & sig & -> & He & Hv & Hm & Hs & ->).
    rewrite (bind_ret _ _ w w leaf) by reflexivity.
    rewrite (bind_ret _ _ w w' (DigitallySigned.mk (alg c) sig)); [by rewrite He|].
    apply within_Return, signV1VCTS_Return. exists vcts, data, sig. repeat split; assumption.
Qed.

Lemma CreateLeaf_Return ts vcBytes (loader : Loader) w w' leaf :
  CreateLeaf ts vcBytes loader w = (w', Return leaf) ↔
  ∃ doc canonical, Unmarshal dec_map None vcBytes = Ok (Some doc) ∧
    GetCanonicalDocument (map_insert ldProofField JNull doc) loader w = (w', Ok canonical) ∧
    leaf = MerkleTreeLeaf.mk V1 TimestampedEntryLeafType
             (Some (TimestampedEntry.mk ts VCLogEntryType (Some canonical) None)).
Proof.
  unfold CreateLeaf. split.
  - intros Hx. apply bind_Return in Hx as (vcDoc & w1 & Hu & Hx).
    destruct (Unmarshal _ _ _) as [d|e]; [|done]. apply ret_Return in Hu as [-> ->].
    destruct d as [doc|]; [|done]. apply bind_Return in Hx as (canonical & w2 & Hc & Hx).
    apply call_Return in Hc. apply ret_Return in Hx as [-> ->]. exists doc, canonical. repeat split; assumption.
  - intros (doc & canonical & -> & Hg & ->). rewrite (bind_ret _ _ w w (Some doc)) by reflexivity. by run_step.
Qed.

(** The extra data of a leaf: the canonical proofs of the credential, if any. *)
Definition extra_data (vc : Credential) (extraData : option bytes) : Prop :=
  match extraData with
  | None => Proofs vc = []
  | Some x => Proofs vc ≠ [] ∧ MarshalCanonical (JArr (Proofs vc)) = Ok x
  end.

Lemma queue_leaf_Return c log vc leaf w w' out :
  queue_leaf c log vc leaf w = (w', Return out) ↔
  ∃ leafData extraData l w1,
    MarshalCanonical (enc leaf) = Ok leafData ∧ extra_data vc extraData ∧
    rpc_QueueLeaf (Client log)
      (mkQueueLeafRequest (ID log) (mkLogLeaf (Some leafData) extraData (Some (leaf_id leaf)) 0)) w =
      (w1, Ok (mkQueueLeafResponse (Some (Some l)))) ∧
    sign_logged c (default [] (LeafValue l)) w1 = (w', Return out).
Proof.
  unfold queue_leaf, extra_data. split.
  - intros Hx. apply bind_Return in Hx as (leafData & w1 & Hl & Hx).
    apply try_Return in Hl as [Hl ->]. apply bind_Return in Hx as (extra & w2 & He & Hx).
    apply bind_Return in Hx as (resp & w3 & Hc & Hx). apply call_Return in Hc.
    destruct resp as [[[l|]|]]; [|done..]. cbn [QueuedLeaf] in Hx.
    exists leafData, extra, l, w3. case_bool_decide as Hp.
    + apply ret_Return in He as [-> ->]. repeat split; assumption.
    + apply fmap_Return in He as (x & He & ->). apply try_Return in He as [He ->]. repeat split; assumption.
  - intros (leafData & extra & l & w1 & Hm & Hx & Hq & Hs). run_step. destruct extra as [x|].
    + destruct Hx as [Hp Hx]. rewrite bool_decide_eq_false_2 by done.
      erewrite bind_ret; [|apply fmap_Return; exists x; split; [|done]; by apply try_Return].
      by run_step.
    + rewrite bool_decide_eq_true_2 by done. erewrite bind_ret by reflexivity. by run_step.
Qed.

(** The issuers a log accepts: all, when it lists none. *)
Definition issuer_allowed (log : Log W) (issuer : bytes) : Prop :=
  default [] (Issuers log) = [] ∨ issuer ∈ default [] (Issuers log).

Lemma issuer_allowed_bool log issuer :
  bool_decide (default [] (Issuers log) = []) || contains (default [] (Issuers log)) issuer = true ↔
  issuer_allowed log issuer.
Proof.
  rewrite orb_true_iff, bool_decide_eq_true. unfold issuer_allowed, contains. rewrite existsb_exists.
  split; (intros [?|Hx]; [by left|right]).
  - destruct Hx as (x & Hin & ->%beq_true). by apply list_elem_of_In.
  - exists issuer. split; [by apply list_elem_of_In|by apply beq_true].
Qed.

Lemma AddVC_Return c r w w' out :
  AddVC c r w = (w', Return out) ↔
  ∃ req log loader vc now leaf w1 w2 w3,
    json_Decode (A := AddVCRequest.t) r = Ok req ∧
    logs c !! AddVCRequest.Alias req = Some log ∧ write ∈ runes (Permission log) ∧
    loaders c !! AddVCRequest.Alias req = Some loader ∧
    ParseCredential (default [] (AddVCRequest.VCEntry req)) loader w = (w1, Ok vc) ∧
    issuer_allowed log (IssuerID vc) ∧ UnixNano w1 = (w2, now) ∧
    CreateLeaf (wrap_u64 (Z.quot now Millisecond)) (default [] (AddVCRequest.VCEntry req)) loader w2 =
      (w3, Return leaf) ∧
    queue_leaf c log vc leaf w3 = (w', Return out).
Proof.
  unfold AddVC. split.
  - intros Hx. apply bind_Return in Hx as (req & w0 & Hd & Hx). apply try_Return in Hd as [Hd ->].
    assert (json_Decode (A := AddVCRequest.t) r = Ok req) as Hreq by (destruct (json_Decode r); by simplify_eq).
    apply with_log_Return in Hx as (log & Hl & Hp & Hx).
    apply bind_Return in Hx as (loader & w0 & Hld & Hx).
    destruct (loaders c !! _) as [ld|] eqn:Hloader; [|done]. apply ret_Return in Hld as [-> ->].
    apply bind_Return in Hx as (vc & w1 & Hvc & Hx). apply call_Return in Hvc.
    apply bind_Return in Hx as ([] & w2 & Hg & Hx). apply guard_Return in Hg as [Hg%issuer_allowed_bool ->].
    apply bind_Return in Hx as (now & w2 & Hn & Hx). apply call_Return in Hn.
    apply bind_Return in Hx as (leaf & w3 & Hcl & Hx). apply within_Return in Hcl.
    exists req, log, ld, vc, now, leaf, w1, w2, w3. repeat split; try assumption.
    destruct (UnixNano w1) as [w2' t]. by injection Hn as -> ->.
  - intros (req & log & loader & vc & now & leaf & w1 & w2 & w3 & Hr & Hl & Hp & Hld & Hvc & Hi & Hn & Hcl & Hx).
    rewrite Hr, try_ok. apply with_log_Return. exists log. split; [done|]. split; [done|].
    rewrite Hld. erewrite bind_ret by reflexivity. run_step. apply issuer_allowed_bool in Hi. run_step.
    rewrite (bind_ret _ _ w1 w2 now) by (apply call_Return; by rewrite Hn). run_step. exact Hx.
Qed.
End inversion.

(** ** No panics *)

Section panics.
Context {W Loader : Type} `{!Libraries W Loader, !UnicodeTable, !KeyTypes}.
Implicit Types c : Cmd W Loader.

Definition no_panic {A} (m : M W A) : Prop := ∀ w p, (m w).2 ≠ Panic p.

Lemma no_panic_bind {A B} (m : M W A) (k : A → M W B) :
  no_panic m → (∀ a, no_panic (k a)) → no_panic (m ≫= k).
Proof.
  intros Hm Hk w p. unfold mbind, M_bind. specialize (Hm w). destruct (m w) as [w1 [a|e|q]]; [apply Hk|done|].
  by specialize (Hm q).
Qed.

Lemma no_panic_ret {A} (a : A) : no_panic (mret a).
Proof. done. Qed.
Lemma no_panic_fail {A} e : no_panic (fail e : M W A).
Proof. done. Qed.
Lemma no_panic_try {A} f (r : result error A) : no_panic (try f r).
Proof. by destruct r. Qed.
Lemma no_panic_guard b e : no_panic (guard_ b e).
Proof. by destruct b. Qed.
Lemma no_panic_call {A} f (g : W → W * result error A) : no_panic (call f g).
Proof. intros w p. unfold call. by destruct (g w) as [? []]. Qed.
Lemma no_panic_within {A} f (m : M W A) : no_panic m → no_panic (within f m).
Proof. intros Hm w p. specialize (Hm w p). unfold within. by destruct (m w) as [? []]. Qed.

Lemma no_panic_with_log {A} c alias perm (k : Log W → M W A) :
  (∀ log, no_panic (k log)) → no_panic (with_log c alias perm k).
Proof.
  intros Hk w p. destruct (hasPermissions c alias perm) as [[]|e] eqn:E.
  - pose proof E as (log & Hl & Hp)%hasPermissions_Ok. erewrite with_log_granted; [apply Hk|done|by eexists].
  - by rewrite (with_log_denied _ _ _ _ _ e).
Qed.

Lemma no_panic_decode {A} `{JsonCodec A} name validate r :
  is_ok (validate None) = false → no_panic (decode_valid (A := A) name validate r).
Proof.
  intros Hv. apply no_panic_bind; [unfold decode_request; by destruct (json_Decode r)|]. intros [q|] w p.
  - unfold mbind, M_bind. by destruct (validate (Some q)).
  - unfold mbind, M_bind. by destruct (validate None).
Qed.

Lemma no_panic_alias what r : no_panic (decode_alias (W := W) what r).
Proof. apply no_panic_try. Qed.
Lemma no_panic_root r : no_panic (current_root (W := W) r).
Proof. apply no_panic_try. Qed.
End panics.

(** Follows the sequencing of a handler. *)
Ltac no_panic_steps :=
  repeat match goal with
  | |- no_panic (with_log _ _ _ _) => apply no_panic_with_log; intros ?
  | |- no_panic (decode_valid _ _ _) => apply no_panic_decode; reflexivity
  | |- no_panic (decode_alias _ _) => apply no_panic_alias
  | |- no_panic (current_root _) => apply no_panic_root
  | |- no_panic (_ ≫= _) => apply no_panic_bind; [|intros ?]
  | |- no_panic (call _ _) => apply no_panic_call
  | |- no_panic (try _ _) => apply no_panic_try
  | |- no_panic (guard_ _ _) => apply no_panic_guard
  | |- no_panic (within _ _) => apply no_panic_within
  | |- no_panic (mret _) => apply no_panic_ret
  | |- no_panic (fail _) => apply no_panic_fail
  | |- no_panic _ => case_match
  end.

Section reader_panics.
Context {W Loader : Type} `{!Libraries W Loader, !UnicodeTable, !KeyTypes}.
Implicit Types c : Cmd W Loader.

Lemma no_panic_GetSTHConsistency c r : no_panic (GetSTHConsistency c r).
Proof. unfold GetSTHConsistency. no_panic_steps. Qed.
Lemma no_panic_GetSTH c r : no_panic (GetSTH c r).
Proof. unfold GetSTH, signV1TreeHead. no_panic_steps. Qed.
Lemma no_panic_GetEntries c r : no_panic (GetEntries c r).
Proof. unfold GetEntries, fetch_range. no_panic_steps. Qed.
Lemma no_panic_GetProofByHash c r : no_panic (GetProofByHash c r).
Proof. unfold GetProofByHash. no_panic_steps. Qed.
Lemma no_panic_GetEntryAndProof c r : no_panic (GetEntryAndProof c r).
Proof. unfold GetEntryAndProof. no_panic_steps. Qed.
Lemma no_panic_GetIssuers c r : no_panic (GetIssuers c r).
Proof. unfold GetIssuers. no_panic_steps. Qed.
Lemma no_panic_Webfinger c r : no_panic (Webfinger c r).
Proof. unfold Webfinger. no_panic_steps. Qed.
End reader_panics.

(** ** Properties *)

(** C4: a handler reaches a service (the log, the signer, the credential
    parser, the clock) only for a request whose alias names a configured log
    that grants the permission the handler needs: [w] for add-vc and [r] for
    all the others; discovery never does. *)
Theorem handlers_need_permission {W Loader : Type} `{!Libraries W Loader, !UnicodeTable, !KeyTypes}
    (c : Cmd W Loader) :
  Forall (λ nh, ∀ r w, (nh.2 r w).1 ≠ w →
    ∃ alias, request_alias nh.1 r = Some alias ∧ granted c alias (request_perm nh.1)) (GetHandlers c).
Proof.
  unfold GetHandlers. repeat (apply Forall_cons; split); [..|by apply Forall_nil]; cbn [fst snd]; intros r w Hw.
  - by apply GetSTHConsistency_effect in Hw.
  - by apply GetSTH_effect in Hw.
  - by apply GetEntries_effect in Hw.
  - by apply GetProofByHash_effect in Hw.
  - by apply GetEntryAndProof_effect in Hw.
  - by apply GetIssuers_effect in Hw.
  - by rewrite Webfinger_pure in Hw.
  - by apply AddVC_effect in Hw.
Qed.



(** C9: when add-vc succeeds, and with what.  It returns exactly when the alias
    names a log that grants writing and has a document loader, the credential
    parses and its issuer is allowed, the canonical credential without proof
    is computed, the leaf of it (stamped with the current milliseconds, and
    identified by the hash of the canonical credential) is queued as its
    canonical text with the canonical proofs as extra data, the leaf the log
    answers with decodes, and the canonical text of its data is signed; the
    response carries the time of that leaf and the signature. *)
Theorem AddVC_functional {W Loader : Type} `{!Libraries W Loader, !UnicodeTable, !KeyTypes}
    (c : Cmd W Loader) r w w' out :
  AddVC c r w = (w', Return out) ↔
  ∃ req log loader vc now doc canonical leaf leafData extraData l logged e vcts data sig w1 w2 w3 w4,
    json_Decode (A := AddVCRequest.t) r = Ok req ∧
    logs c !! AddVCRequest.Alias req = Some log ∧ write ∈ runes (Permission log) ∧
    loaders c !! AddVCRequest.Alias req = Some loader ∧
    ParseCredential (default [] (AddVCRequest.VCEntry req)) loader w = (w1, Ok vc) ∧
    issuer_allowed log (IssuerID vc) ∧ UnixNano w1 = (w2, now) ∧
    Unmarshal dec_map None (default [] (AddVCRequest.VCEntry req)) = Ok (Some doc) ∧
    GetCanonicalDocument (map_insert ldProofField JNull doc) loader w2 = (w3, Ok canonical) ∧
    leaf = MerkleTreeLeaf.mk V1 TimestampedEntryLeafType
      (Some (TimestampedEntry.mk (wrap_u64 (Z.quot now Millisecond)) VCLogEntryType (Some canonical) None)) ∧
    MarshalCanonical (enc leaf) = Ok leafData ∧ extra_data vc extraData ∧
    rpc_QueueLeaf (Client log) (mkQueueLeafRequest (ID log)
      (mkLogLeaf (Some leafData) extraData (Some (Sum256 canonical)) 0)) w3 =
      (w4, Ok (mkQueueLeafResponse (Some (Some l)))) ∧
    json_Unmarshal (default [] (LeafValue l)) = Ok logged ∧
    MerkleTreeLeaf.TimestampedEntry logged = Some e ∧
    CreateVCTimestampSignature logged = Some vcts ∧ MarshalCanonical (enc vcts) = Ok data ∧
    Sign c data w4 = (w', Ok sig) ∧
    out = json_Encode (AddVCResponse.mk V1 (Some (VCLogID c)) (TimestampedEntry.Timestamp e)
            (b64_encode (default [] (TimestampedEntry.Extensions e)))
            (Some (json_Marshal (DigitallySigned.mk (alg c) sig)))).
Proof.
  rewrite AddVC_Return. split.
  - intros (req & log & loader & vc & now & leaf & w1 & w2 & w3 & Hreq & Hl & Hp & Hloader & Hvc & Hg & Hn & Hcl & Hx).
    apply CreateLeaf_Return in Hcl as (doc & canonical & Hdoc & Hcan & ->).
    apply queue_leaf_Return in Hx as (leafData & extraData & l & w4 & Hm & Hextra & Hq & Hx).
    apply sign_logged_Return in Hx as (logged & e & vcts & data & sig & Hu & He & Hcv & Hmd & Hs & ->).
    eexists req, log, loader, vc, now, doc, canonical, _, leafData, extraData, l, logged, e, vcts, data, sig, w1, w2, w3, w4.
    repeat split; eassumption.
  - intros (req & log & loader & vc & now & doc & canonical & leaf & leafData & extraData & l & logged & e & vcts
      & data & sig & w1 & w2 & w3 & w4 & Hreq & Hl & Hp & Hloader & Hvc & Hg & Hn & Hdoc & Hcan & -> & Hm & Hextra
      & Hq & Hu & He & Hcv & Hmd & Hs & ->).
    eexists req, log, loader, vc, now, _, w1, w2, w3. do 7 (split; [eassumption|]).
    split; [apply CreateLeaf_Return; exists doc, canonical; split; [exact Hdoc|split; [exact Hcan|reflexivity]]|].
    apply queue_leaf_Return. exists leafData, extraData, l, w4. do 3 (split; [assumption|]).
    apply sign_logged_Return. exists logged, e, vcts, data, sig. repeat split; assumption.
Qed.

(** when get-sth succeeds, and with what.  The tree size, the root hash and
    the time (in milliseconds) of the response are those of the latest root of
    the log, and its signature is over the canonical text of exactly these
    values; nothing else can make it fail. *)
Theorem GetSTH_functional {W Loader : Type} `{!Libraries W Loader, !UnicodeTable, !KeyTypes}
    (c : Cmd W Loader) r w w' out :
  GetSTH c r w = (w', Return out) ↔
  ∃ alias log logRoot root data sig w1,
    json_Decode (A := bytes) r = Ok alias ∧ logs c !! alias = Some log ∧ read ∈ runes (Permission log) ∧
    rpc_GetLatestSignedLogRoot (Client log) (ID log) w = (w1, Ok (Some logRoot)) ∧
    UnmarshalBinary logRoot = Ok root ∧
    MarshalCanonical (enc (TreeHeadSignature.mk V1 TreeHeadSignatureType (TimestampNanos root / Millisecond)
      (TreeSize root) (RootHash root))) = Ok data ∧
    Sign c data w1 = (w', Ok sig) ∧
    out = json_Encode (GetSTHResponse.mk (TreeSize root) (TimestampNanos root / Millisecond) (RootHash root)
            (Some (json_Marshal (DigitallySigned.mk (alg c) sig)))).
Proof.
  unfold GetSTH. split.
  - intros Hx. apply bind_Return in Hx as (alias & w0 & Hd & Hx). apply decode_alias_Return in Hd as [Hd ->].
    apply with_log_Return in Hx as (log & Hl & Hp & Hx).
    apply bind_Return in Hx as (resp & w1 & Hc & Hx). apply call_Return in Hc. destruct resp as [logRoot|]; [|done].
    apply bind_Return in Hx as (root & w2 & Hr & Hx). apply try_Return in Hr as [Hr ->].
    apply bind_Return in Hx as (ths & w3 & Hs & Hx). apply within_Return in Hs. unfold signV1TreeHead in Hs.
    apply bind_Return in Hs as (data & w4 & Hm & Hs). apply try_Return in Hm as [Hm ->].
    apply bind_Return in Hs as (sig & w5 & Hsig & Hs). apply call_Return in Hsig.
    apply ret_Return in Hs as [-> ->]. apply ret_Return in Hx as [-> ->].
    exists alias, log, logRoot, root, data, sig, w1. repeat split; assumption.
  - intros (alias & log & logRoot & root & data & sig & w1 & Hd & Hl & Hp & Hc & Hr & Hm & Hs & ->).
    assert (decode_alias (W := W) "alias" r w = (w, Return alias)) as Ha
      by (apply decode_alias_Return; split; [exact Hd|reflexivity]).
    run_step.
    apply with_log_Return. exists log. split; [done|]. split; [done|]. run_step. run_step.
    assert (signV1TreeHead c root w1 = (w', Return (DigitallySigned.mk (alg c) sig))) as Ht.
    { unfold signV1TreeHead. run_step. by run_step. }
    by run_step.
Qed.
