(* ===== verification/CommandTheorems.v ===== *)
(** * The proof handlers, bounds and errors of the command controller

    When the handlers for consistency and inclusion proofs and for discovery
    succeed, and with what; the range arithmetic of get-entries; which
    requests are refused, and with which status. *)

From S2P Require Import Prelude GoStrings Utf GoJson GoFmt GoUrl Errors Codec Canonicalizer Sha256 Models LeafFacts.
From S2P Require Import Effects Command Samples CommandFacts.

Open Scope Z_scope.

#[local] Opaque Sum256 MarshalCanonical json_Marshal json_Encode json_Unmarshal json_Decode
  wrap_u64 wrap_s64 FormatInt url_Parse.

Section handlers.
Context {W Loader : Type} `{!Libraries W Loader, !UnicodeTable, !KeyTypes}.
Implicit Types c : Cmd W Loader.

(** A handler that decodes, validates and looks its log up. *)
Lemma decode_with_log {A B} `{JsonCodec A} name validate (alias : A → bytes) perm (k : A → Log W → M W B)
    c r w w' out :
  (decode_valid name validate r ≫= λ q, with_log c (alias q) perm (k q)) w = (w', Return out) ↔
  ∃ q log, json_Decode r = Ok (Some q) ∧ is_ok (validate (Some q)) = true ∧
    logs c !! alias q = Some log ∧ perm ∈ runes (Permission log) ∧ k q log w = (w', Return out).
Proof.
  rewrite bind_Return. split.
  - intros (q & w1 & Hd & Hx). apply decode_valid_Return in Hd as (Hd & Hv & ->).
    apply with_log_Return in Hx as (log & Hx). by exists q, log.
  - intros (q & log & Hd & Hv & Hx). exists q, w. split; [by apply decode_valid_Return|].
    apply with_log_Return. by exists log.
Qed.

(** A request to a service whose reply carries a root of at least a size. *)
Lemma rooted_Return {A B} (rpc : W → W * result error A) (root_of : A → SignedLogRoot) f e size
    (k : A → LogRootV1 → M W B) w w' out :
  (resp ← call f rpc; root ← current_root (root_of resp);
   guard_ (negb (TreeSize root <? size)) (e root);; k resp root) w = (w', Return out) ↔
  ∃ resp root w1, rpc w = (w1, Ok resp) ∧ UnmarshalBinary (GetLogRoot (root_of resp)) = Ok root ∧
    size ≤ TreeSize root ∧ k resp root w1 = (w', Return out).
Proof.
  split.
  - intros Hx. apply bind_Return in Hx as (resp & w1 & Hc & Hx). apply call_Return in Hc.
    apply bind_Return in Hx as (root & w2 & Hr & Hx). apply current_root_Return in Hr as [Hr ->].
    apply bind_Return in Hx as ([] & w3 & Hg & Hx). apply guard_Return in Hg as [Hg%negb_true_iff%Z.ltb_ge ->].
    exists resp, root, w1. repeat split; assumption.
  - intros (resp & root & w1 & Hc & Hr & Hs & Hk). run_step.
    assert (current_root (W := W) (root_of resp) w1 = (w1, Return root)) as Hroot
      by (apply current_root_Return; split; [exact Hr|reflexivity]).
    run_step. apply Z.ltb_ge in Hs. rewrite Hs. exact Hk.
Qed.
End handlers.

(** What get-proof-by-hash answers: the request is valid and names a readable
    log, the hash is base64, the log answers with a root of at least the size
    asked for and with some proof; the response is the index and the path of
    the first proof. *)
Definition proof_answer {W Loader : Type} `{!Libraries W Loader, !UnicodeTable, !KeyTypes}
    (c : Cmd W Loader) (r : bytes) (w w' : W) (out : bytes) : Prop :=
  ∃ q log hash resp root p ps,
    json_Decode r = Ok (Some q) ∧ 1 ≤ GetProofByHashRequest.TreeSize q ∧
    logs c !! GetProofByHashRequest.Alias q = Some log ∧ read ∈ runes (Permission log) ∧
    b64_decode (GetProofByHashRequest.Hash q) = Some hash ∧
    rpc_GetInclusionProofByHash (Client log)
      (mkInclusionProofByHashRequest (ID log) hash (GetProofByHashRequest.TreeSize q) true) w = (w', Ok resp) ∧
    UnmarshalBinary (GetLogRoot (ip_SignedLogRoot resp)) = Ok root ∧
    wrap_u64 (GetProofByHashRequest.TreeSize q) ≤ TreeSize root ∧
    ip_Proof resp = p :: ps ∧
    out = json_Encode (GetProofByHashResponse.mk (ProofLeafIndex p) (Hashes p)).
Lemma GetProofByHash_answers {W Loader : Type} `{!Libraries W Loader, !UnicodeTable, !KeyTypes}
    (c : Cmd W Loader) r w w' out :
  GetProofByHash c r w = (w', Return out) ↔ proof_answer c r w w' out.
Proof.
  unfold proof_answer, GetProofByHash. rewrite (decode_with_log _ _ GetProofByHashRequest.Alias). split.
  - intros (q & log & Hd & Hv & Hl & Hp & Hx). apply Validate_proof_by_hash in Hv as (? & [= <-] & Hv).
    apply bind_Return in Hx as (hash & w1 & Hh & Hx). apply try_Return in Hh as [Hh ->].
    unfold DecodeString in Hh. destruct (b64_decode _) as [h|] eqn:Eh; [injection Hh as ->|done].
    apply rooted_Return in Hx as (resp & root & w1 & Hc & Hr & Hs & Hx).
    destruct (ip_Proof resp) as [|p ps] eqn:Ep; [done|]. apply ret_Return in Hx as [-> ->].
    exists q, log, hash, resp, root, p, ps. repeat split; assumption.
  - intros (q & log & hash & resp & root & p & ps & Hd & Hv & Hl & Hp & Hh & Hc & Hr & Hs & Ep & ->).
    exists q, log. split; [done|]. split; [apply Validate_proof_by_hash; eauto|]. do 2 (split; [done|]).
    unfold DecodeString. rewrite Hh, try_ok. apply rooted_Return. exists resp, root, w'.
    do 3 (split; [done|]). by rewrite Ep.
Qed.

(** What get-entry-and-proof answers: the index is within the tree size, the
    root of the reply is at least that large, and the reply has a non-empty
    leaf and, for more than one leaf, a non-empty path; they are the response. *)
Definition entry_answer {W Loader : Type} `{!Libraries W Loader, !UnicodeTable, !KeyTypes}
    (c : Cmd W Loader) (r : bytes) (w w' : W) (out : bytes) : Prop :=
  ∃ q log resp root leaf value proof,
    json_Decode r = Ok (Some q) ∧
    0 ≤ GetEntryAndProofRequest.LeafIndex q < GetEntryAndProofRequest.TreeSize q ∧
    logs c !! GetEntryAndProofRequest.Alias q = Some log ∧ read ∈ runes (Permission log) ∧
    rpc_GetEntryAndProof (Client log)
      (mkEntryAndProofRequest (ID log) (GetEntryAndProofRequest.LeafIndex q)
         (GetEntryAndProofRequest.TreeSize q)) w = (w', Ok resp) ∧
    UnmarshalBinary (GetLogRoot (ge_SignedLogRoot resp)) = Ok root ∧
    wrap_u64 (GetEntryAndProofRequest.TreeSize q) ≤ TreeSize root ∧
    ge_Leaf resp = Some leaf ∧ LeafValue leaf = Some value ∧ value ≠ [] ∧ ge_Proof resp = Some proof ∧
    (1 < GetEntryAndProofRequest.TreeSize q → default [] (Hashes proof) ≠ []) ∧
    out = json_Encode (GetEntryAndProofResponse.mk (LeafValue leaf) (LeafExtraData leaf) (Hashes proof)).
Lemma GetEntryAndProof_answers {W Loader : Type} `{!Libraries W Loader, !UnicodeTable, !KeyTypes}
    (c : Cmd W Loader) r w w' out :
  GetEntryAndProof c r w = (w', Return out) ↔ entry_answer c r w w' out.
Proof.
  unfold entry_answer, GetEntryAndProof. rewrite (decode_with_log _ _ GetEntryAndProofRequest.Alias). split.
  - intros (q & log & Hd & Hv & Hl & Hp & Hx). apply Validate_entry_and_proof in Hv as (? & [= <-] & Hv).
    apply rooted_Return in Hx as (resp & root & w1 & Hc & Hr & Hs & Hx).
    destruct (ge_Leaf resp) as [leaf|] eqn:El; [|done]. destruct (ge_Proof resp) as [proof|] eqn:Ep; [|done].
    apply bind_Return in Hx as ([] & w2 & Hg & Hx).
    apply guard_Return in Hg as [Hg%negb_true_iff%bool_decide_eq_false ->].
    apply bind_Return in Hx as ([] & w2 & Hn & Hx). apply guard_Return in Hn as [Hn%negb_true_iff ->].
    apply ret_Return in Hx as [-> ->]. destruct (LeafValue leaf) as [value|] eqn:Ev; [|done].
    exists q, log, resp, root, leaf, value, proof. rewrite Ev. repeat split; try assumption; try apply Hv.
    intros Ht He. apply andb_false_iff in Hn as [Hn%Z.ltb_ge|Hn%bool_decide_eq_false]; [lia|done].
  - intros (q & log & resp & root & leaf & value & proof & Hd & Hv & Hl & Hp & Hc & Hr & Hs & El & Ev & Hne & Ep & Hn & ->).
    exists q, log. split; [done|]. split; [apply Validate_entry_and_proof; eauto|]. do 2 (split; [done|]).
    apply rooted_Return. exists resp, root, w'. do 3 (split; [done|]). rewrite El, Ep. unfold is_empty.
    rewrite Ev. cbn [default]. rewrite (bool_decide_eq_false_2 (id value = [])) by done. rewrite guard_ok.
    assert ((1 <? GetEntryAndProofRequest.TreeSize q) && bool_decide (default [] (Hashes proof) = []) = false) as ->.
    { apply andb_false_iff. destruct (Z.ltb_spec 1 (GetEntryAndProofRequest.TreeSize q)); [right|by left].
      apply bool_decide_eq_false. auto. }
    by rewrite guard_ok.
Qed.

(** What get-sth-consistency answers.  From the empty tree the proof is empty,
    without asking the log; else the root of the reply is at least as large as
    the second tree and the proof of the reply is the response. *)
Definition consistency_answer {W Loader : Type} `{!Libraries W Loader, !UnicodeTable, !KeyTypes}
    (c : Cmd W Loader) (r : bytes) (w w' : W) (out : bytes) : Prop :=
  ∃ q log first second,
    json_Decode r = Ok (Some q) ∧ first = GetSTHConsistencyRequest.FirstTreeSize q ∧
    second = GetSTHConsistencyRequest.SecondTreeSize q ∧ 0 ≤ first ≤ second ∧
    logs c !! GetSTHConsistencyRequest.Alias q = Some log ∧ read ∈ runes (Permission log) ∧
    ((first = 0 ∧ w' = w ∧ out = json_Encode (GetSTHConsistencyResponse.mk None)) ∨
     (first ≠ 0 ∧ ∃ resp root,
        rpc_GetConsistencyProof (Client log) (mkConsistencyProofRequest (ID log) first second) w = (w', Ok resp) ∧
        UnmarshalBinary (GetLogRoot (cp_SignedLogRoot resp)) = Ok root ∧ wrap_u64 second ≤ TreeSize root ∧
        out = json_Encode (GetSTHConsistencyResponse.mk (cp_Proof resp ≫= Hashes)))).
Lemma GetSTHConsistency_answers {W Loader : Type} `{!Libraries W Loader, !UnicodeTable, !KeyTypes}
    (c : Cmd W Loader) r w w' out :
  GetSTHConsistency c r w = (w', Return out) ↔ consistency_answer c r w w' out.
Proof.
  unfold consistency_answer, GetSTHConsistency. rewrite (decode_with_log _ _ GetSTHConsistencyRequest.Alias). split.
  - intros (q & log & Hd & Hv & Hl & Hp & Hx). apply Validate_consistency in Hv as (? & [= <-] & Hv).
    do 4 eexists. split; [exact Hd|]. do 2 (split; [reflexivity|]). do 3 (split; [eassumption|]).
    destruct (Z.eqb_spec (GetSTHConsistencyRequest.FirstTreeSize q) 0) as [E|E].
    + apply ret_Return in Hx as [-> ->]. by left.
    + right. split; [done|]. apply rooted_Return in Hx as (resp & root & w1 & Hc & Hr & Hs & Hx).
      apply ret_Return in Hx as [-> ->]. exists resp, root. repeat split; assumption.
  - intros (q & log & first & second & Hd & -> & -> & Hv & Hl & Hp & Hx).
    exists q, log. split; [done|]. split; [apply Validate_consistency; eauto|]. do 2 (split; [done|]).
    destruct Hx as [(E & -> & ->)|(E & resp & root & Hc & Hr & Hs & ->)].
    + by rewrite E.
    + rewrite (proj2 (Z.eqb_neq _ _) E). apply rooted_Return. exists resp, root, w'. by do 3 (split; [done|]).
Qed.

(** C27: when the three handlers that return proofs succeed, and with what:
    [proof_answer], [entry_answer] and [consistency_answer]. *)
Theorem proofs_functional {W Loader : Type} `{!Libraries W Loader, !UnicodeTable, !KeyTypes}
    (c : Cmd W Loader) r w w' out :
  (GetProofByHash c r w = (w', Return out) ↔ proof_answer c r w w' out) ∧
  (GetEntryAndProof c r w = (w', Return out) ↔ entry_answer c r w w' out) ∧
  (GetSTHConsistency c r w = (w', Return out) ↔ consistency_answer c r w w' out).
Proof. split_and!; [apply GetProofByHash_answers|apply GetEntryAndProof_answers|apply GetSTHConsistency_answers]. Qed.

(** ** Ranges *)

(** The range of get-entries.  For every valid request but the one for the
    whole of [int64], the arithmetic does not overflow: the number of leaves
    asked for is the size of the range, at most 1000, and the last index is the
    one it reaches. *)
Lemma GetEntries_range start end_ :
  is_int64 start → is_int64 end_ → 0 ≤ start ≤ end_ → ¬ (start = 0 ∧ end_ = int64_max) →
  let last := clamp_end start end_ in
  let count := sub64 (add64 last 1) start in
  count = Z.min 1000 (end_ - start + 1) ∧ last = start + count - 1 ∧ 1 ≤ count.
Proof.
  intros Hs He Hr Hn. destruct (clamp_range start end_ Hs He Hr Hn) as [Hl Hc]. cbv zeta. rewrite Hc, Hl.
  unfold maxRange. lia.
Qed.

Lemma GetEntries_range_witness :
  let last := clamp_end 5 5000 in
  let count := sub64 (add64 last 1) 5 in
  count = Z.min 1000 (5000 - 5 + 1) ∧ last = 5 + count - 1 ∧ 1 ≤ count.
Proof. apply (GetEntries_range 5 5000); unfold is_int64, int64_min, int64_max; lia. Defined.

(** C32: the request for the whole of [int64] can never succeed: the size of the
    range overflows, the clamp is skipped and the number of leaves asked for is
    negative, so that every reply is refused as too long. *)
Theorem GetEntries_whole_range {W Loader : Type} `{!Libraries W Loader, !UnicodeTable, !KeyTypes}
    (c : Cmd W Loader) r alias w w' out :
  json_Decode r = Ok (Some (GetEntriesRequest.mk alias 0 int64_max)) →
  sub64 (add64 (clamp_end 0 int64_max) 1) 0 = int64_min ∧ GetEntries c r w ≠ (w', Return out).
Proof.
  intros Hd. assert (sub64 (add64 (clamp_end 0 int64_max) 1) 0 = int64_min) as Hc by (vm_compute; reflexivity).
  split; [exact Hc|]. unfold GetEntries. intros Hx.
  apply (decode_with_log _ _ GetEntriesRequest.Alias) in Hx as (q & log & Hq & _ & _ & _ & Hx).
  rewrite Hd in Hq. injection Hq as <-. apply fetch_range_Return in Hx as (resp & root & _ & _ & _ & Hlen & _).
  cbn [GetEntriesRequest.Start GetEntriesRequest.End_] in Hlen. rewrite Hc in Hlen. unfold int64_min in Hlen. lia.
Qed.

Definition whole_range : bytes := json_Marshal (GetEntriesRequest.mk "maple2021" 0 int64_max).

Lemma GetEntries_whole_range_witness :
  sub64 (add64 (clamp_end 0 int64_max) 1) 0 = int64_min ∧
  GetEntries (Libraries0 := sample_libraries) (H := ascii_only) sample_cmd whole_range [] ≠ ([], Return []).
Proof.
  apply (GetEntries_whole_range (H0 := aries_key_types) sample_cmd whole_range "maple2021").
  vm_compute. reflexivity.
Defined.

(** ** Refused requests *)

Definition valid_as {A} `{JsonCodec A} (validate : option A → result error unit) (r : bytes) : bool :=
  match json_Decode (A := option A) r with Ok q => is_ok (validate q) | Err _ => false end.

(** The requests that pass the validation of a handler. *)
Definition request_valid (name r : bytes) : bool :=
  if beq name "getEntries" then valid_as GetEntriesRequest.Validate r
  else if beq name "getEntryAndProof" then valid_as GetEntryAndProofRequest.Validate r
  else if beq name "getProofByHash" then valid_as GetProofByHashRequest.Validate r
  else if beq name "getSTHConsistency" then valid_as GetSTHConsistencyRequest.Validate r
  else true.

Section refused.
Context {W Loader : Type} `{!Libraries W Loader, !UnicodeTable, !KeyTypes, !GrpcStatus, !GrpcStatusLaws}.
Implicit Types c : Cmd W Loader.

(** The status of a request for an alias without the permission. *)
Definition denied_status c (alias : bytes) : Z :=
  match logs c !! alias with Some _ => StatusUnauthorized | None => StatusNotFound end.

Definition denied {A} c (m : M W A) (alias : bytes) : Prop :=
  ∀ w, ∃ e, m w = (w, Fail e) ∧ StatusCodeFromError e = denied_status c alias.

Lemma with_log_refused {A} c alias perm (k : Log W → M W A) :
  ¬ granted c alias perm → denied c (with_log c alias perm k) alias.
Proof.
  intros Hg w. destruct (hasPermissions c alias perm) as [[]|e] eqn:E; [by apply hasPermissions_Ok in E|].
  exists (wrapf "has permissions" e). split; [by apply with_log_denied|].
  unfold wrapf. rewrite StatusCodeFromError_wrap. by eapply hasPermissions_status.
Qed.

Lemma decode_valid_refused {A B} `{JsonCodec A} name validate (f : A → bytes) perm (k : A → Log W → M W B)
    c r alias :
  alias_of f r = Some alias → valid_as validate r = true → ¬ granted c alias perm →
  denied c (decode_valid name validate r ≫= λ q, with_log c (f q) perm (k q)) alias.
Proof.
  unfold alias_of, valid_as. intros Ha Hv Hg w. destruct (json_Decode r) as [[q|]|] eqn:E; try done.
  injection Ha as <-. destruct (with_log_refused c (f q) perm (k q) Hg w) as (e & He & Hs). exists e.
  split; [|done]. erewrite bind_ret; [exact He|]. apply decode_valid_Return. by split_and!.
Qed.

Lemma decode_alias_refused {B} what perm (k : bytes → Log W → M W B) c r alias :
  json_Decode (A := bytes) r = Ok alias → ¬ granted c alias perm →
  denied c (decode_alias what r ≫= λ a, with_log c a perm (k a)) alias.
Proof.
  intros Ha Hg w. destruct (with_log_refused c alias perm (k alias) Hg w) as (e & He & Hs). exists e.
  split; [|done]. erewrite bind_ret; [exact He|]. apply decode_alias_Return. split; [exact Ha|reflexivity].
Qed.

Lemma AddVC_refused c r q :
  json_Decode (A := AddVCRequest.t) r = Ok q → ¬ granted c (AddVCRequest.Alias q) write →
  denied c (AddVC c r) (AddVCRequest.Alias q).
Proof.
  intros Ha Hg w. unfold AddVC. rewrite Ha, try_ok. by apply with_log_refused.
Qed.
End refused.

(** C25: a well-formed request for an alias that is not granted is refused
    before any service is reached, with the status 404 when no log has the
    alias and 401 when its log lacks the permission. *)
Theorem denied_requests {W Loader : Type} `{!Libraries W Loader, !UnicodeTable, !KeyTypes}
    `{!GrpcStatus, !GrpcStatusLaws} (c : Cmd W Loader) :
  Forall (λ nh, nh.1 ≠ ("webfinger" : bytes) →
    ∀ r alias w, request_alias nh.1 r = Some alias → request_valid nh.1 r = true →
      ¬ granted c alias (request_perm nh.1) →
      ∃ e, nh.2 r w = (w, Fail e) ∧
        StatusCodeFromError e = match logs c !! alias with Some _ => 401 | None => 404 end) (GetHandlers c).
Proof.
  unfold GetHandlers. repeat (apply Forall_cons; split); [..|by apply Forall_nil]; cbn [fst snd];
    intros Hn r alias w Ha Hv Hg.
  - by eapply (decode_valid_refused _ _ GetSTHConsistencyRequest.Alias).
  - destruct (json_Decode (A := bytes) r) as [a|] eqn:E; unfold request_alias in Ha; cbn in Ha; rewrite E in Ha; [|done].
    injection Ha as <-. eapply (decode_alias_refused _ _ (λ _, _)); eassumption.
  - by eapply (decode_valid_refused _ _ GetEntriesRequest.Alias).
  - by eapply (decode_valid_refused _ _ GetProofByHashRequest.Alias).
  - by eapply (decode_valid_refused _ _ GetEntryAndProofRequest.Alias).
  - destruct (json_Decode (A := bytes) r) as [a|] eqn:E; unfold request_alias in Ha; cbn in Ha; rewrite E in Ha; [|done].
    injection Ha as <-. eapply (decode_alias_refused _ _ (λ _, _)); eassumption.
  - done.
  - unfold request_alias in Ha. cbn in Ha. destruct (json_Decode r) as [q|] eqn:E; [|done]. injection Ha as <-.
    by eapply AddVC_refused.
Qed.

(** A request to add a credential to a log that can only be read. *)
Definition add_to_archive : bytes := json_Marshal (AddVCRequest.mk "archive" (Some sample_vc)).

Lemma denied_requests_witness :
  ∃ e, AddVC (Libraries0 := sample_libraries) (H := ascii_only) sample_cmd add_to_archive [] = ([], Fail e) ∧
    StatusCodeFromError (H := no_rpc_status) e = 401.
Proof.
  pose proof (denied_requests (Libraries0 := sample_libraries) (H := ascii_only) (H0 := aries_key_types)
    (H2 := no_rpc_status_laws) sample_cmd) as Hall.
  do 7 apply Forall_inv_tail in Hall. apply Forall_inv in Hall. cbn [fst snd] in Hall.
  eapply (Hall ltac:(done) add_to_archive ("archive" : bytes) []); [vm_compute; reflexivity..|].
  intros (log & Hl & Hw). vm_compute in Hl. injection Hl as <-. vm_compute in Hw. set_solver.
Defined.

Lemma validate_status `{!GrpcStatus, !GrpcStatusLaws} s : StatusCodeFromError (EWrap [] ErrValidation s) = 400.
Proof. by rewrite StatusCodeFromError_wrap. Qed.

(** One request type: [spec] says when the result [v] of [f] is a success. *)
Ltac validation_case spec v f :=
  let Hv := fresh "Hv" in let E := fresh "E" in
  pose proof spec as Hv; destruct v eqn:E;
  [by apply Hv
  |split; [|intros r -> Hr; discriminate (proj2 Hv (ex_intro _ r (conj eq_refl Hr)))];
   revert E; unfold f, validation; repeat case_match; intros; simplify_eq; apply validate_status].

(** validation accepts exactly the meaningful requests: a non-empty tree
    and an index within it, a range of non-negative indices in order, two tree
    sizes in order; whatever else, nil included, is refused with status 400. *)
Theorem validation_exact `{!GrpcStatus, !GrpcStatusLaws} :
  (∀ q, match GetEntriesRequest.Validate q with
        | Ok _ => ∃ r, q = Some r ∧ 0 ≤ GetEntriesRequest.Start r ≤ GetEntriesRequest.End_ r
        | Err e => StatusCodeFromError e = 400 ∧
            ∀ r, q = Some r → ¬ 0 ≤ GetEntriesRequest.Start r ≤ GetEntriesRequest.End_ r
        end) ∧
  (∀ q, match GetEntryAndProofRequest.Validate q with
        | Ok _ => ∃ r, q = Some r ∧ 0 ≤ GetEntryAndProofRequest.LeafIndex r < GetEntryAndProofRequest.TreeSize r
        | Err e => StatusCodeFromError e = 400 ∧
            ∀ r, q = Some r → ¬ 0 ≤ GetEntryAndProofRequest.LeafIndex r < GetEntryAndProofRequest.TreeSize r
        end) ∧
  (∀ q, match GetProofByHashRequest.Validate q with
        | Ok _ => ∃ r, q = Some r ∧ 1 ≤ GetProofByHashRequest.TreeSize r
        | Err e => StatusCodeFromError e = 400 ∧ ∀ r, q = Some r → ¬ 1 ≤ GetProofByHashRequest.TreeSize r
        end) ∧
  (∀ q, match GetSTHConsistencyRequest.Validate q with
        | Ok _ => ∃ r, q = Some r ∧
            0 ≤ GetSTHConsistencyRequest.FirstTreeSize r ≤ GetSTHConsistencyRequest.SecondTreeSize r
        | Err e => StatusCodeFromError e = 400 ∧
            ∀ r, q = Some r →
              ¬ 0 ≤ GetSTHConsistencyRequest.FirstTreeSize r ≤ GetSTHConsistencyRequest.SecondTreeSize r
        end).
Proof.
  split_and!; intros q.
  - validation_case (Validate_entries q) (GetEntriesRequest.Validate q) GetEntriesRequest.Validate.
  - validation_case (Validate_entry_and_proof q) (GetEntryAndProofRequest.Validate q) GetEntryAndProofRequest.Validate.
  - validation_case (Validate_proof_by_hash q) (GetProofByHashRequest.Validate q) GetProofByHashRequest.Validate.
  - validation_case (Validate_consistency q) (GetSTHConsistencyRequest.Validate q) GetSTHConsistencyRequest.Validate.
Qed.

Lemma validation_exact_witness :
  let q := Some (GetEntriesRequest.mk "maple2021" 3 2) in
  match GetEntriesRequest.Validate q with
  | Ok _ => ∃ r, q = Some r ∧ 0 ≤ GetEntriesRequest.Start r ≤ GetEntriesRequest.End_ r
  | Err e => StatusCodeFromError (H := no_rpc_status) e = 400 ∧
      ∀ r, q = Some r → ¬ 0 ≤ GetEntriesRequest.Start r ≤ GetEntriesRequest.End_ r
  end.
Proof. exact (proj1 (validation_exact (H0 := no_rpc_status_laws)) (Some (GetEntriesRequest.mk "maple2021" 3 2))). Defined.

(** ** Discovery and construction *)

(** When discovery succeeds, and with what: the resource is a URL on the
    host of the server whose path is the alias of a log; the document names
    the resource and carries the public key and the type of the ledger. *)
Lemma Webfinger_functional {W Loader : Type} `{!Libraries W Loader, !UnicodeTable, !KeyTypes}
    (c : Cmd W Loader) r w w' out :
  Webfinger c r w = (w', Return out) ↔
  ∃ resource u,
    json_Decode (A := bytes) r = Ok resource ∧ resource ≠ [] ∧ url_Parse resource = Ok u ∧
    Host u = Host (baseURL c) ∧ (1 < length (Path u))%nat ∧ is_Some (logs c !! drop 1 (Path u)) ∧ w' = w ∧
    out = json_Encode (WebFingerResponse.mk resource
            (Some [(LedgerType, enc_string vctV1); (PublicKeyType, enc_bytes (Some (PubKey c)))])
            (Some [WebFingerLink.mk "self" [] resource])).
Proof.
  unfold Webfinger. split.
  - intros Hx. apply bind_Return in Hx as (resource & w1 & Hd & Hx). apply decode_alias_Return in Hd as [Hd ->].
    apply bind_Return in Hx as ([] & w1 & Hn & Hx). apply guard_Return in Hn as [Hn%negb_true_iff%bool_decide_eq_false ->].
    apply bind_Return in Hx as (u & w1 & Hu & Hx). apply try_Return in Hu as [Hu ->].
    apply bind_Return in Hx as ([] & w1 & Hh & Hx). apply guard_Return in Hh as [Hh%beq_true ->].
    apply bind_Return in Hx as ([] & w1 & Hp & Hx). apply guard_Return in Hp as [Hp%negb_true_iff%Z.leb_gt ->].
    apply bind_Return in Hx as ([] & w1 & Hl & Hx). apply guard_Return in Hl as [Hl%bool_decide_eq_true ->].
    apply ret_Return in Hx as [-> ->]. exists resource, u. split_and!; try done. lia.
  - intros (resource & u & Hd & Hn & Hu & Hh & Hp & Hl & -> & ->).
    assert (decode_alias (W := W) "resource ID" r w = (w, Return resource)) as Hr
      by (apply decode_alias_Return; split; [exact Hd|reflexivity]).
    run_step. cbv beta. rewrite (bool_decide_eq_false_2 (resource = [])) by done. rewrite guard_ok. run_step.
    cbv beta. rewrite (proj2 (beq_true _ _) Hh), guard_ok.
    rewrite (proj2 (Z.leb_gt _ _)), guard_ok by lia.
    by rewrite bool_decide_eq_true_2, guard_ok.
Qed.

Lemma logs_of_lookup {W} (l : list (Log W)) a : logs_of l !! a = last (filter (λ log, Alias log = a) l).
Proof.
  unfold logs_of. induction l as [|log l IH] using rev_ind; [apply lookup_empty|].
  rewrite foldl_snoc, filter_app, filter_cons, filter_nil. destruct (decide (Alias log = a)) as [<-|Hne].
  - by rewrite lookup_insert_eq, last_snoc.
  - by rewrite lookup_insert_ne, IH, app_nil_r.
Qed.

(** Construction of the controller.  It succeeds exactly when the key is
    exported and not empty, its type is one of the seven supported ones, the
    key handle is found and the base URL parses; the identity of the log is the
    SHA-256 hash of the public key, and of several logs with one alias the last
    one is served. *)
Lemma New_functional {W Loader KH : Type} `{!Libraries W Loader, !UnicodeTable, !KeyTypes}
    (cfg : Config W Loader KH) w w' c :
  New cfg w = (w', Return c) ↔
  ∃ pub keyType a kh base w1,
    ExportPubKeyBytes (KMS cfg) (KeyID cfg) w = (w1, Ok (pub, keyType)) ∧ pub ≠ [] ∧
    signatureAndHashAlgorithmByKeyType keyType = Ok a ∧
    Get (KMS cfg) (KeyID cfg) w1 = (w', Ok kh) ∧ url_Parse (BaseURL cfg) = Ok base ∧
    baseURL c = base ∧ (∀ alias, logs c !! alias = last (filter (λ log, Alias log = alias) (Logs cfg))) ∧
    VCLogID c = Sum256 pub ∧ PubKey c = pub ∧ alg c = a ∧ loaders c = DocumentLoaders cfg ∧
    Sign c = Crypto_Sign cfg kh.
Proof.
  unfold New. split.
  - intros Hx. apply bind_Return in Hx as ([pub keyType] & w1 & He & Hx). apply call_Return in He.
    apply bind_Return in Hx as ([] & w2 & Hn & Hx). apply guard_Return in Hn as [Hn%negb_true_iff%bool_decide_eq_false ->].
    apply bind_Return in Hx as (a & w2 & Ha & Hx). apply try_Return in Ha as [Ha ->].
    apply bind_Return in Hx as (kh & w2 & Hk & Hx). apply call_Return in Hk.
    apply bind_Return in Hx as (base & w3 & Hb & Hx). apply try_Return in Hb as [Hb ->].
    apply ret_Return in Hx as [-> ->]. exists pub, keyType, a, kh, base, w1.
    do 6 (split; [done|]). split; [intros; apply logs_of_lookup|]. by split_and!.
  - intros (pub & keyType & a & kh & base & w1 & He & Hn & Ha & Hk & Hb & <- & Hl & Hid & <- & <- & Hd & Hs).
    run_step. cbv beta iota. rewrite (bool_decide_eq_false_2 (_ = [])) by done. rewrite guard_ok. do 3 run_step.
    unfold mret, M_ret. f_equal. f_equal. destruct c as [b0 l0 i0 p0 a0 d0 s0]. cbn in *.
    assert (logs_of (Logs cfg) = l0) as -> by (apply map_eq; intros; by rewrite logs_of_lookup, Hl).
    by subst.
Qed.
