(* ===== verification/Rest.v ===== *)
(** * The REST controller

    [pkg/controller/rest/operation.go]: a handler takes its parameters from
    the request, passes a JSON document to the command and turns its outcome
    into an HTTP response.  The router's path variable and the query string
    are fields of the request; metrics are left out. *)

From S2P Require Import Prelude GoStrings Utf GoJson GoFmt GoUrl Errors Codec Models Effects Command.

Open Scope Z_scope.

(** ** Paths *)

Definition AliasPath : bytes := "/{alias}".
Definition BasePath : bytes := AliasPath ++ "/v1".
Definition AddVCPath : bytes := BasePath ++ "/add-vc".
Definition GetSTHPath : bytes := BasePath ++ "/get-sth".
Definition GetSTHConsistencyPath : bytes := BasePath ++ "/get-sth-consistency".
Definition GetProofByHashPath : bytes := BasePath ++ "/get-proof-by-hash".
Definition GetEntriesPath : bytes := BasePath ++ "/get-entries".
Definition GetIssuersPath : bytes := BasePath ++ "/get-issuers".
Definition GetEntryAndProofPath : bytes := BasePath ++ "/get-entry-and-proof".
Definition WebfingerPath : bytes := "/.well-known/webfinger".
Definition HealthCheckPath : bytes := "/healthcheck".

(** ** Requests and responses *)

(** [req_Alias] is [mux.Vars(r)["alias"]].  [req_Body] is what copying the
    body into a buffer gives: an error, no bytes at all ([http.NoBody]), or the
    bytes read. *)
Record Request := mkRequest {
  req_Alias : bytes;
  req_RawQuery : bytes;
  req_Body : result error (option bytes)
}.

(** [resp_JSON]: the content type was set to JSON. *)
Record Response := mkResponse { resp_Status : Z; resp_JSON : bool; resp_Body : bytes }.

Module ErrorResponse.
Record t := mk { Message : bytes }.
#[global] Instance codec : JsonCodec t := {
  enc r := JObj [("message" : bytes, enc_string (Message r))];
  dec := dec_struct [("message" : bytes, field Message (λ x r, mk x) dec_string)];
  zero := mk [];
  wf r := valid_utf8 (Message r)
}.
#[global] Instance codec_laws : JsonCodecLaws t.
Proof. solve_codec. Qed.
End ErrorResponse.

(** The commands the controller calls. *)
Record Commands (W : Type) := mkCommands {
  cmd_AddVC : bytes → M W bytes;
  cmd_GetIssuers : bytes → M W bytes;
  cmd_GetSTH : bytes → M W bytes;
  cmd_GetSTHConsistency : bytes → M W bytes;
  cmd_GetProofByHash : bytes → M W bytes;
  cmd_GetEntries : bytes → M W bytes;
  cmd_GetEntryAndProof : bytes → M W bytes;
  cmd_Webfinger : bytes → M W bytes
}.
Arguments cmd_AddVC {W} _.
Arguments cmd_GetIssuers {W} _.
Arguments cmd_GetSTH {W} _.
Arguments cmd_GetSTHConsistency {W} _.
Arguments cmd_GetProofByHash {W} _.
Arguments cmd_GetEntries {W} _.
Arguments cmd_GetEntryAndProof {W} _.
Arguments cmd_Webfinger {W} _.

(** The database and the key manager may be nil. *)
Record Operation (W : Type) := mkOperation {
  cmd : Commands W;
  db_Ping : option (W → W * result error unit);
  km_HealthCheck : option (W → W * result error unit)
}.
Arguments cmd {W} _.
Arguments db_Ping {W} _.
Arguments km_HealthCheck {W} _.

(** The clock as RFC 3339 text, and the version of the build. *)
Class BuildInfo (W : Type) := { time_text : W → W * bytes; BuildVersion : bytes }.

Section rest.
Context {W : Type} `{!GrpcStatus, !UnicodeTable, !BuildInfo W}.

Definition sendError (json : bool) (e : error) : Response :=
  mkResponse (StatusCodeFromError e) json (json_Encode (ErrorResponse.mk (Error e))).

Definition execute (exec : bytes → M W bytes) (req : bytes) : M W Response := λ w,
  match exec req w with
  | (w', Return out) => (w', Return (mkResponse StatusOK true out))
  | (w', Fail e) => (w', Return (sendError true e))
  | (w', Panic p) => (w', Panic p)
  end.

(** [r.FormValue] and [r.URL.Query()]. *)
Definition FormValue (r : Request) (key : bytes) : bytes := values_Get (ParseQuery (req_RawQuery r)) key.

(** [strconv.ParseInt(r.FormValue(name), 10, 64)], or the error response. *)
Definition int_param (r : Request) (name : bytes) (k : Z → M W Response) : M W Response :=
  match ParseInt64 (FormValue r name) with
  | Ok z => k z
  | Err _ => mret (sendError false (EWrap [] ErrValidation (": parameter " ++ Quote name ++ " is not a number")))
  end.

Definition AddVC (c : Operation W) (r : Request) : M W Response :=
  match req_Body r with
  | Err _ => mret (sendError false (EWrap [] ErrInternal ": copy vc"))
  | Ok vcEntry => execute (cmd_AddVC (cmd c)) (json_Marshal (AddVCRequest.mk (req_Alias r) vcEntry))
  end.

Definition GetSTH (c : Operation W) (r : Request) : M W Response :=
  execute (cmd_GetSTH (cmd c)) (Quote (req_Alias r)).

Definition GetIssuers (c : Operation W) (r : Request) : M W Response :=
  execute (cmd_GetIssuers (cmd c)) (Quote (req_Alias r)).

Definition Webfinger (c : Operation W) (r : Request) : M W Response :=
  execute (cmd_Webfinger (cmd c)) (Quote (values_Get (ParseQuery (req_RawQuery r)) "resource")).

Definition GetSTHConsistency (c : Operation W) (r : Request) : M W Response :=
  int_param r "first" (λ first,
  int_param r "second" (λ second,
  execute (cmd_GetSTHConsistency (cmd c))
    (json_Marshal (GetSTHConsistencyRequest.mk (req_Alias r) first second)))).

Definition GetProofByHash (c : Operation W) (r : Request) : M W Response :=
  int_param r "tree_size" (λ treeSize,
  execute (cmd_GetProofByHash (cmd c))
    (json_Marshal (GetProofByHashRequest.mk (req_Alias r) (FormValue r "hash") treeSize))).

Definition GetEntries (c : Operation W) (r : Request) : M W Response :=
  int_param r "start" (λ start,
  int_param r "end" (λ end_,
  execute (cmd_GetEntries (cmd c)) (json_Marshal (GetEntriesRequest.mk (req_Alias r) start end_)))).

Definition GetEntryAndProof (c : Operation W) (r : Request) : M W Response :=
  int_param r "leaf_index" (λ leafIndex,
  int_param r "tree_size" (λ treeSize,
  execute (cmd_GetEntryAndProof (cmd c))
    (json_Marshal (GetEntryAndProofRequest.mk (req_Alias r) leafIndex treeSize)))).

(** ** Health *)

Definition success : bytes := "success".

(** Status of a component: empty when it is nil. *)
Definition component_status (check : option (W → W * result error unit)) (w : W) : W * bytes :=
  match check with
  | None => (w, [])
  | Some f =>
      match f w with
      | (w', Ok _) => (w', success)
      | (w', Err e) => (w', Error e)
      end
  end.

Definition health_doc (dbStatus kmsStatus now : bytes) : json :=
  JObj (omit (beq dbStatus []) "dbStatus" (enc_string dbStatus) ++
        omit (beq kmsStatus []) "kmsStatus" (enc_string kmsStatus) ++
        [("currentTime" : bytes, enc_string now)] ++
        omit (beq BuildVersion []) "version" (enc_string BuildVersion)).

Definition HealthCheck (c : Operation W) (r : Request) : M W Response := λ w,
  let '(w1, dbStatus) := component_status (db_Ping c) w in
  let '(w2, kmsStatus) := component_status (km_HealthCheck c) w1 in
  let '(w3, now) := time_text w2 in
  (w3, Return (mkResponse
    (if beq dbStatus success && beq kmsStatus success then StatusOK else StatusServiceUnavailable)
    false (Encode (health_doc dbStatus kmsStatus now)))).

(** ** Routes *)

Inductive method := GET | POST.
#[global] Instance method_eq_dec : EqDecision method.
Proof. solve_decision. Defined.

Definition GetRESTHandlers (c : Operation W) : list (bytes * method * (Request → M W Response)) :=
  [(AddVCPath, POST, AddVC c);
   (GetSTHPath, GET, GetSTH c);
   (GetSTHConsistencyPath, GET, GetSTHConsistency c);
   (GetProofByHashPath, GET, GetProofByHash c);
   (GetEntriesPath, GET, GetEntries c);
   (GetIssuersPath, GET, GetIssuers c);
   (WebfingerPath, GET, Webfinger c);
   (GetEntryAndProofPath, GET, GetEntryAndProof c);
   (HealthCheckPath, GET, HealthCheck c)].
End rest.

(** The controller over the command controller. *)
Definition commands_of {W Loader} `{!Libraries W Loader, !UnicodeTable, !KeyTypes} (c : Cmd W Loader) : Commands W :=
  mkCommands W (Command.AddVC c) (Command.GetIssuers c) (Command.GetSTH c) (Command.GetSTHConsistency c)
    (Command.GetProofByHash c) (Command.GetEntries c) (Command.GetEntryAndProof c) (Command.Webfinger c).
