(* ===== verification/Client.v ===== *)
(** * The REST client

    [pkg/client/vct/client.go]: requests to a log server, and the checks a
    client makes on its own: leaf hashes and timestamp signatures.  The HTTP
    transport and the cryptography are services. *)

From S2P Require Import Prelude GoStrings Utf GoJson GoFmt GoUrl Errors Codec Canonicalizer Models Effects Command Rest.

Open Scope Z_scope.

(** ** Transport *)

(** An HTTP request: the parsed URL, the body and the authorization header. *)
Record HttpRequest := mkHttpRequest {
  hr_Method : method;
  hr_URL : URL;
  hr_Body : option bytes;
  hr_Authorization : option bytes
}.

(** [Do] gives the status and the body, which may fail to be read. *)
Definition HTTPClient (W : Type) : Type := HttpRequest → W → W * result error (Z * result error bytes).

Record Client (W : Type) := mkClient {
  endpoint : bytes;
  ledgerURI : bytes;
  http_Do : HTTPClient W;
  authReadToken : bytes;
  authWriteToken : bytes
}.
Arguments endpoint {W} _.
Arguments ledgerURI {W} _.
Arguments http_Do {W} _.
Arguments authReadToken {W} _.
Arguments authWriteToken {W} _.

(** Options of [New], applied in order. *)
Inductive ClientOpt (W : Type) :=
| WithHTTPClient (h : HTTPClient W)
| WithAuthReadToken (t : bytes)
| WithAuthWriteToken (t : bytes)
| WithLedgerURI (u : bytes).
Arguments WithHTTPClient {W} h.
Arguments WithAuthReadToken {W} t.
Arguments WithAuthWriteToken {W} t.
Arguments WithLedgerURI {W} u.

Definition apply_opt {W} (c : Client W) (o : ClientOpt W) : Client W :=
  match o with
  | WithHTTPClient h => mkClient W (endpoint c) (ledgerURI c) h (authReadToken c) (authWriteToken c)
  | WithAuthReadToken t => mkClient W (endpoint c) (ledgerURI c) (http_Do c) t (authWriteToken c)
  | WithAuthWriteToken t => mkClient W (endpoint c) (ledgerURI c) (http_Do c) (authReadToken c) t
  | WithLedgerURI u => mkClient W (endpoint c) u (http_Do c) (authReadToken c) (authWriteToken c)
  end.

(** [default_http] is the client with a timeout of a minute. *)
Definition New {W} (default_http : HTTPClient W) (ep : bytes) (opts : list (ClientOpt W)) : Client W :=
  foldl apply_opt (mkClient W ep ep default_http [] []) opts.

(** ** Cryptography and hashing *)

Class ClientCrypto := {
  KeyHandle : Type;
  (** [LocalKMS.PubKeyBytesToHandle]. *)
  PubKeyBytesToHandle : bytes → bytes → result error KeyHandle;
  (** [tinkcrypto.Crypto.Verify]. *)
  Verify : option bytes → bytes → KeyHandle → result error unit;
  (** [hasher.DefaultHasher.HashLeaf]. *)
  HashLeaf : bytes → bytes
}.

Section client.
Context {W Loader : Type} `{!Libraries W Loader, !UnicodeTable, !ClientCrypto}.

(** ** Requests *)

Record options := mkOptions {
  op_method : method;
  op_body : option bytes;
  op_values : list (bytes * bytes);
  op_token : bytes
}.
Definition get_options (values : list (bytes * bytes)) (token : bytes) : options :=
  mkOptions GET None values token.

(** [getError]: the message of an error response, or its text. *)
Definition getError {A} (reader : result error bytes) : M W A :=
  msgBytes ← try (wrapf "read message body") reader;
  match json_Unmarshal (A := option ErrorResponse.t) msgBytes with
  | Err _ => fail (ENew msgBytes)
  | Ok None => panic "nil ErrorResponse"
  | Ok (Some e) => fail (ENew (ErrorResponse.Message e))
  end.

(** [http.NewRequestWithContext]: the URL parsed, without an empty port. *)
Definition removeEmptyPort (host : bytes) : bytes :=
  match reverse host with
  | c :: r => if bool_decide (c = ":"%char) then reverse r else host
  | [] => host
  end.
Definition new_request (method : method) (url : bytes) (body token : option bytes) : result error HttpRequest :=
  u ← url_Parse url;
  Ok (mkHttpRequest method
        (Url (Scheme u) (Opaque u) (User u) (removeEmptyPort (Host u)) (Path u) (RawPath u) (OmitHost u)
           (ForceQuery u) (RawQuery u) (Fragment u) (RawFragment u)) body token).

(** The URL of an operation under the endpoint. *)
Definition request_url (u : URL) (path : bytes) (values : list (bytes * bytes)) : bytes :=
  Scheme u ++ "://" ++ Host u ++ Replace1 path AliasPath (Path u) ++ "?" ++ Values_Encode values.

Definition do {A} `{JsonCodec A} (c : Client W) (path : bytes) (op : options) : M W A :=
  u ← try (wrapf "parse URL") (url_Parse (endpoint c));
  req ← try (wrapf "new request with context")
    (new_request (op_method op) (request_url u path (op_values op)) (op_body op)
       (if bool_decide (op_token op = []) then None else Some (("Bearer " : bytes) ++ op_token op)));
  resp ← call (wrapf "http do") (http_Do c req);
  if resp.1 =? StatusOK then
    body ← try id resp.2;
    match json_Decode body with
    | Ok x => mret x
    | Err e => fail (ENew (json_error_text e body))
    end
  else getError resp.2.

Definition AddVC (c : Client W) (credential : bytes) : M W (option AddVCResponse.t) :=
  within (wrapf "add VC") (do c AddVCPath (mkOptions POST (Some credential) [] (authWriteToken c))).

Definition HealthCheck (c : Client W) : M W unit :=
  u ← try id (url_Parse (endpoint c));
  req ← try (wrapf "new request with context")
    (new_request GET (Scheme u ++ "://" ++ Host u ++ HealthCheckPath) None None);
  resp ← call (wrapf "http do") (http_Do c req);
  if resp.1 =? StatusOK then mret () else getError resp.2.

Definition Webfinger (c : Client W) : M W (option WebFingerResponse.t) :=
  within (wrapf "webfinger") (do c WebfingerPath (get_options [("resource" : bytes, ledgerURI c)] [])).

#[global] Instance issuers_codec : JsonCodec (option (list bytes)) := {
  enc := enc_slice enc_string;
  dec := dec_slice dec_string [];
  zero := None;
  wf l := forallb valid_utf8 (default [] l)
}.

Definition GetIssuers (c : Client W) : M W (option (list bytes)) :=
  within (wrapf "get issuers") (do (A := option (list bytes)) c GetIssuersPath (get_options [] (authReadToken c))).

Definition GetSTH (c : Client W) : M W (option GetSTHResponse.t) :=
  within (wrapf "get STH") (do c GetSTHPath (get_options [] (authReadToken c))).

Definition GetSTHConsistency (c : Client W) (first second : Z) : M W (option GetSTHConsistencyResponse.t) :=
  within (wrapf "get STH consistency")
    (do c GetSTHConsistencyPath
       (get_options [("first" : bytes, FormatUint first); ("second" : bytes, FormatUint second)] (authReadToken c))).

Definition GetProofByHash (c : Client W) (hash : bytes) (treeSize : Z) : M W (option GetProofByHashResponse.t) :=
  within (wrapf "get proof by hash")
    (do c GetProofByHashPath
       (get_options [("hash" : bytes, hash); ("tree_size" : bytes, FormatUint treeSize)] (authReadToken c))).

Definition GetEntries (c : Client W) (start end_ : Z) : M W (option GetEntriesResponse.t) :=
  within (wrapf "get entries")
    (do c GetEntriesPath
       (get_options [("start" : bytes, FormatUint start); ("end" : bytes, FormatUint end_)] (authReadToken c))).

Definition GetEntryAndProof (c : Client W) (leafIndex treeSize : Z) : M W (option GetEntryAndProofResponse.t) :=
  within (wrapf "get entry and proof")
    (do c GetEntryAndProofPath
       (get_options [("leaf_index" : bytes, FormatUint leafIndex); ("tree_size" : bytes, FormatUint treeSize)]
          (authReadToken c))).

(** ** Checks of the client *)

Definition CalculateLeafHash (timestamp : Z) (vcBytes : bytes) (loader : Loader) : M W bytes :=
  leaf ← within (wrapf "create leaf") (CreateLeaf timestamp vcBytes loader);
  leafData ← try (wrapf "marshal leaf") (MarshalCanonical (enc leaf));
  mret (b64_encode (HashLeaf leafData)).

Definition VerifyVCTimestampSignature (signature pubKey : bytes) (timestamp : Z) (vcBytes : bytes)
    (loader : Loader) : M W unit :=
  sig ← match json_Unmarshal (A := option DigitallySigned.t) signature with
        | Ok s => mret s
        | Err e => fail (wrapf "unmarshal signature" (ENew (json_error_text e signature)))
        end;
  leaf ← within (wrapf "create leaf") (CreateLeaf timestamp vcBytes loader);
  match CreateVCTimestampSignature leaf with
  | None => panic "nil TimestampedEntry"
  | Some vcts =>
      data ← try (wrapf "marshal VC timestamp signature") (MarshalCanonical (enc vcts));
      match sig with
      | None => panic "nil DigitallySigned"
      | Some sig =>
          kh ← try (wrapf "pub key to handle")
            (PubKeyBytesToHandle pubKey (SignatureAndHashAlgorithm.Type_ (DigitallySigned.Algorithm sig)));
          try id (Verify (DigitallySigned.Signature sig) data kh)
      end
  end.
End client.
