(* ===== verification/UrlFacts.v ===== *)
(** * Query strings read back what was written

    Percent encoding of a query component is inverted by its decoding, and a
    query string made by [Values.Encode] parses to the pairs it was made of,
    sorted by key. *)

From Stdlib Require Import Sorted.
From S2P Require Import Prelude GoStrings Utf GoFmt Errors GoUrl.

Open Scope Z_scope.

(** ** Percent encoding *)

(** The bytes of an encoded query component. *)
Definition query_safe (c : ascii) : bool := is_alnum c || mem_byte c "-_.~%+".

Lemma escape_byte_safe c : forallb query_safe (escape_byte encodeQueryComponent c) = true.
Proof. byte_cases c. Qed.

Lemma QueryEscape_safe s : forallb query_safe (QueryEscape s) = true.
Proof.
  unfold QueryEscape, escape. induction s as [|c s IH]; [done|]. cbn [mbind list_bind].
  by rewrite forallb_app, escape_byte_safe.
Qed.

Lemma QueryEscape_no c s : query_safe c = false → c ∉ QueryEscape s.
Proof.
  intros Hc Hin%list_elem_of_In. pose proof (QueryEscape_safe s) as Hs.
  rewrite forallb_forall in Hs. specialize (Hs c Hin). congruence.
Qed.

Section escape.
Context `{UnicodeTable}.

Lemma unescape_plain c s mode :
  is_host_mode mode = false → c ≠ "%"%char →
  unescape (c :: s) mode =
  (r ← unescape s mode;
   Ok ((if bool_decide (c = "+"%char) && mode_is mode encodeQueryComponent then " "%char else c) :: r)).
Proof. intros Hm Hc. cbn [unescape]. rewrite bool_decide_eq_false_2 by done. by rewrite Hm. Qed.

Lemma unescape_hex a b x y s mode :
  is_host_mode mode = false → hex_val a = Some x → hex_val b = Some y →
  unescape ("%"%char :: a :: b :: s) mode = (r ← unescape s mode; Ok (chr (16 * x + y) :: r)).
Proof.
  intros Hm Ha Hb. cbn [unescape]. rewrite bool_decide_eq_true_2 by done. rewrite Ha, Hb.
  by destruct mode.
Qed.

(** An escaped byte is one of three forms. *)
Lemma escape_byte_cases c :
  (escape_byte encodeQueryComponent c = ["+"%char] ∧ c = " "%char) ∨
  (escape_byte encodeQueryComponent c = [c] ∧ c ≠ "%"%char ∧ c ≠ "+"%char) ∨
  (∃ a b x y, escape_byte encodeQueryComponent c = ["%"%char; a; b] ∧ hex_val a = Some x ∧
     hex_val b = Some y ∧ chr (16 * x + y) = c).
Proof.
  destruct c as [[] [] [] [] [] [] [] []];
    first [ left; vm_compute; done
          | right; left; vm_compute; done
          | right; right; do 4 eexists; split; [vm_compute; reflexivity|];
            split; [vm_compute; reflexivity|]; split; [vm_compute; reflexivity|]; vm_compute; done ].
Qed.

Lemma unescape_escape s t :
  unescape (QueryEscape s ++ t) encodeQueryComponent = (r ← unescape t encodeQueryComponent; Ok (s ++ r)).
Proof.
  unfold QueryEscape, escape. revert t. induction s as [|c s IH]; intros t.
  - cbn. by destruct (unescape t _).
  - cbn [mbind list_bind]. rewrite <- app_assoc.
    destruct (escape_byte_cases c) as [[-> ->]|[(-> & Hp & Hq)|(a & b & x & y & -> & Ha & Hb & Hc)]].
    + cbn [app]. rewrite unescape_plain by done. rewrite IH.
      by destruct (unescape t _).
    + cbn [app]. rewrite unescape_plain by done. rewrite (bool_decide_eq_false_2 (c = _)) by done. cbn [andb].
      rewrite IH. by destruct (unescape t _).
    + cbn [app]. erewrite unescape_hex by done. rewrite IH, Hc. by destruct (unescape t _).
Qed.

Lemma QueryUnescape_QueryEscape s : QueryUnescape (QueryEscape s) = Ok s.
Proof.
  unfold QueryUnescape. rewrite <- (app_nil_r (QueryEscape s)), unescape_escape. cbn. by rewrite app_nil_r.
Qed.

(** ** Query strings *)

Lemma cut_char c s t : c ∉ s → cut [c] (s ++ c :: t) = Some (s, t).
Proof.
  induction s as [|d s IH]; intros Hs; cbn [app cut strip_prefix].
  - by rewrite bool_decide_eq_true_2.
  - apply not_elem_of_cons in Hs as [Hd Hs]. rewrite bool_decide_eq_false_2 by done. cbn. by rewrite IH.
Qed.

Lemma Contains_char c s : c ∉ s → Contains s [c] = false.
Proof. intros Hs. apply Contains_false. intros a b ->. apply Hs. set_solver. Qed.

Definition pair_text (p : bytes * bytes) : bytes := QueryEscape p.1 ++ "="%char :: QueryEscape p.2.

Lemma pair_text_no c p : query_safe c = false → c ≠ "="%char → c ∉ pair_text p.
Proof.
  intros Hc He. unfold pair_text. rewrite elem_of_app, elem_of_cons.
  pose proof (QueryEscape_no c p.1 Hc). pose proof (QueryEscape_no c p.2 Hc). tauto.
Qed.

Lemma query_pair_text p : query_pair (pair_text p) = Some p.
Proof.
  unfold query_pair. cbn [String.list_ascii_of_string]. rewrite Contains_char by (by apply pair_text_no).
  rewrite bool_decide_eq_false_2 by (unfold pair_text; by destruct (QueryEscape p.1)). cbn [orb].
  unfold pair_text. rewrite cut_char by (by apply QueryEscape_no). cbn [default id from_option].
  rewrite !QueryUnescape_QueryEscape. by destruct p.
Qed.

Lemma ParseQuery_Encode m : ParseQuery (Values_Encode m) = sort_pairs m.
Proof.
  unfold ParseQuery, Values_Encode. fold pair_text. destruct (sort_pairs m) as [|p l]; [done|].
  rewrite Split_Join.
  - induction (p :: l) as [|q l' IH]; [done|]. cbn. change (_ ++ _) with (pair_text q). by rewrite query_pair_text, IH.
  - done.
  - apply Forall_fmap, Forall_true. intros q. by apply pair_text_no.
Qed.
End escape.

(** ** Looking a parameter up *)

Lemma bytes_ltb_irrefl a : bytes_ltb a a = false.
Proof. induction a as [|x a IH]; cbn; [done|]. by rewrite Z.ltb_irrefl. Qed.

Lemma bytes_ltb_trans a b c : bytes_ltb a b = true → bytes_ltb b c = true → bytes_ltb a c = true.
Proof.
  revert b c. induction a as [|x a IH]; intros [|y b] [|z c]; cbn; try done.
  repeat case_match; rewrite ?Z.ltb_lt, ?Z.ltb_ge in *; try done; try lia. apply IH.
Qed.

Definition sorted_pairs : list (bytes * bytes) → Prop := StronglySorted (λ p q, bytes_ltb q.1 p.1 = false).

Lemma insert_pair_elem p q l : q ∈ insert_pair p l ↔ q = p ∨ q ∈ l.
Proof.
  induction l as [|r l IH]; cbn; [set_solver|].
  destruct (bytes_ltb p.1 r.1); rewrite !elem_of_cons, ?IH; naive_solver.
Qed.

Lemma insert_pair_sorted p l : sorted_pairs l → sorted_pairs (insert_pair p l).
Proof.
  induction 1 as [|q l Hl IH Hq]; cbn; [repeat constructor|]. case_match eqn:E.
  - constructor; [by constructor|]. apply Forall_cons. split.
    + destruct (bytes_ltb q.1 p.1) eqn:E'; [|done].
      pose proof (bytes_ltb_trans _ _ _ E E') as Hp. by rewrite bytes_ltb_irrefl in Hp.
    + eapply Forall_impl; [exact Hq|]. cbn. intros r Hr. destruct (bytes_ltb r.1 p.1) eqn:E'; [|done].
      by rewrite (bytes_ltb_trans _ _ _ E' E) in Hr.
  - constructor; [done|]. apply Forall_forall. intros r [->|Hr]%insert_pair_elem; [done|].
    by apply (proj1 (Forall_forall _ _) Hq).
Qed.

Lemma values_all_cons p l k :
  values_all (p :: l) k = if bool_decide (p.1 = k) then p.2 :: values_all l k else values_all l k.
Proof. unfold values_all. cbn. by repeat case_decide; case_bool_decide. Qed.

Lemma values_all_absent l k : Forall (λ p, p.1 ≠ k) l → values_all l k = [].
Proof. induction 1; [done|]. rewrite values_all_cons, bool_decide_eq_false_2; done. Qed.

Lemma values_all_insert p l k :
  sorted_pairs l →
  values_all (insert_pair p l) k = values_all l k ++ (if bool_decide (p.1 = k) then [p.2] else []).
Proof.
  induction 1 as [|q l Hl IH Hq]; cbn [insert_pair].
  - rewrite values_all_cons. by case_bool_decide.
  - destruct (bytes_ltb p.1 q.1) eqn:E.
    + rewrite (values_all_cons p). destruct (decide (p.1 = k)) as [<-|Hp].
      2:{ rewrite !bool_decide_eq_false_2 by done. by rewrite app_nil_r. }
      rewrite !bool_decide_eq_true_2 by done. rewrite values_all_absent; [done|]. apply Forall_cons. split.
      * intros Heq. by rewrite Heq, bytes_ltb_irrefl in E.
      * eapply Forall_impl; [exact Hq|]. cbn. intros r Hr Heq. rewrite Heq in Hr. congruence.
    + rewrite !values_all_cons, IH. by destruct (bool_decide (q.1 = k)).
Qed.

Lemma sort_pairs_spec m :
  sorted_pairs (sort_pairs m) ∧ ∀ k, values_all (sort_pairs m) k = values_all m k.
Proof.
  unfold sort_pairs. induction m as [|p m [Hs Hk]] using rev_ind; [split; [constructor|done]|].
  rewrite foldl_snoc. unfold flip at 1 3. split; [by apply insert_pair_sorted|].
  intros k. rewrite values_all_insert, Hk by done.
  unfold values_all. rewrite filter_app, fmap_app. f_equal. cbn. by case_decide; case_bool_decide.
Qed.

(** What the server reads of a query the client wrote. *)
Lemma ParseQuery_all `{UnicodeTable} m k : values_all (ParseQuery (Values_Encode m)) k = values_all m k.
Proof. rewrite ParseQuery_Encode. apply sort_pairs_spec. Qed.

Lemma ParseQuery_Get `{UnicodeTable} m k : values_Get (ParseQuery (Values_Encode m)) k = values_Get m k.
Proof. unfold values_Get. by rewrite ParseQuery_all. Qed.

(** ** URLs of a simple shape *)

Definition path_char (c : ascii) : bool := is_alnum c || mem_byte c "-_.~/".
Definition host_char (c : ascii) : bool := is_alnum c || mem_byte c "-.:".
Definition query_char (c : ascii) : bool := query_safe c || mem_byte c "=&".

Lemma forallb_not_in (f : ascii → bool) c s : f c = false → forallb f s = true → c ∉ s.
Proof. intros Hc Hs Hin%list_elem_of_In. rewrite forallb_forall in Hs. specialize (Hs c Hin). congruence. Qed.

Lemma cut_char_None c s : c ∉ s → cut [c] s = None.
Proof.
  induction s as [|d s IH]; intros Hs; cbn [cut strip_prefix]; [done|].
  apply not_elem_of_cons in Hs as [Hd Hs]. rewrite bool_decide_eq_false_2 by done. cbn. by rewrite IH.
Qed.

Lemma has_ctl_app s t : has_ctl (s ++ t) = has_ctl s || has_ctl t.
Proof. apply existsb_app. Qed.

Lemma has_ctl_forallb (f : ascii → bool) s :
  (∀ c, f c = true → (bval c <? 32) || (bval c =? 127) = false) → forallb f s = true → has_ctl s = false.
Proof.
  intros Hf. induction s as [|c s IH]; [done|]. cbn [forallb has_ctl existsb]. intros [Hc Hs]%andb_true_iff.
  rewrite Hf by done. by apply IH.
Qed.

Lemma path_char_ctl c : path_char c = true → (bval c <? 32) || (bval c =? 127) = false.
Proof. byte_cases c. Qed.
Lemma host_char_ctl c : host_char c = true → (bval c <? 32) || (bval c =? 127) = false.
Proof. byte_cases c. Qed.
Lemma query_char_ctl c : query_char c = true → (bval c <? 32) || (bval c =? 127) = false.
Proof. byte_cases c. Qed.
Lemma lower_ctl c : is_lower c = true → (bval c <? 32) || (bval c =? 127) = false.
Proof. byte_cases c. Qed.
Lemma lower_same c : is_lower c = true → (if is_upper c then chr (bval c + 32) else c) = c.
Proof. byte_cases c. Qed.
Lemma path_char_plain c :
  path_char c = true → c ≠ "%"%char ∧ shouldEscape c encodePath = false.
Proof. byte_cases c. Qed.

Lemma scheme_lower s r first :
  forallb is_lower s = true → (s = [] → first = false) →
  scheme_from first (s ++ ":"%char :: r) = Some (Some (s, r)).
Proof.
  revert first. induction s as [|c s IH]; intros first Hs Hf.
  - by rewrite Hf.
  - cbn in Hs. apply andb_true_iff in Hs as [Hc Hs]. cbn [app scheme_from]. rewrite Hc. cbn [orb].
    by rewrite IH.
Qed.

Lemma path_plain `{UnicodeTable} s :
  forallb path_char s = true → PathUnescape s = Ok s ∧ escape s encodePath = s.
Proof.
  unfold PathUnescape, escape. induction s as [|c s IH]; [done|]. cbn [forallb mbind list_bind].
  intros [[Hp Hc]%path_char_plain Hs]%andb_true_iff. destruct (IH Hs) as [IH1 IH2].
  rewrite unescape_plain, IH1 by done. unfold escape_byte at 1. rewrite Hc, IH2. cbn.
  by rewrite andb_false_r.
Qed.

Lemma ToLower_lower s : forallb is_lower s = true → ToLower s = s.
Proof.
  unfold ToLower. induction s as [|c s IH]; [done|]. cbn [forallb fmap list_fmap].
  intros [Hc Hs]%andb_true_iff. by rewrite lower_same, IH.
Qed.

Section url_simple.
Context `{UnicodeTable}.
Variables (scheme host path : bytes).
Hypothesis Hscheme : forallb is_lower scheme = true.
Hypothesis Hne : scheme ≠ [].
Hypothesis Hhost : forallb host_char host = true.
Hypothesis Hauth : parseAuthority host = Ok (None, host).
Hypothesis Hpath : forallb path_char path = true.

Lemma parse_simple rest force q :
  split_query ("/"%char :: "/"%char :: host ++ "/"%char :: path ++ rest) =
    ("/"%char :: "/"%char :: host ++ "/"%char :: path, force, q) →
  has_ctl rest = false →
  parse (scheme ++ ":"%char :: "/"%char :: "/"%char :: host ++ "/"%char :: path ++ rest) =
  Ok (Url scheme [] None host ("/"%char :: path) [] false force q [] []).
Proof.
  intros Hq Hctl. unfold parse.
  assert (has_ctl (scheme ++ ":"%char :: "/"%char :: "/"%char :: host ++ "/"%char :: path ++ rest) = false) as ->.
  { rewrite has_ctl_app, (has_ctl_forallb is_lower scheme) by eauto using lower_ctl. cbn [orb].
    change (has_ctl (host ++ "/"%char :: path ++ rest) = false).
    rewrite has_ctl_app, (has_ctl_forallb host_char host) by eauto using host_char_ctl.
    change (has_ctl (path ++ rest) = false).
    by rewrite has_ctl_app, (has_ctl_forallb path_char path), Hctl by eauto using path_char_ctl. }
  rewrite bool_decide_eq_false_2 by (destruct scheme as [|? [|]]; naive_solver).
  unfold getScheme. rewrite scheme_lower by naive_solver. cbn [mbind result_bind].
  rewrite ToLower_lower by done.
  rewrite Hq, (bool_decide_eq_false_2 (scheme = [])) by done.
  set (r := host ++ _). change (HasPrefix _ "/") with true. change (HasPrefix _ "//") with true.
  cbn [negb andb orb drop]. unfold r.
  change (String.list_ascii_of_string "/") with ["/"%char].
  rewrite drop_0, cut_char by (eapply forallb_not_in; [|exact Hhost]; done).
  rewrite Hauth. cbn [mbind result_bind]. unfold path_parts.
  destruct (path_plain ("/"%char :: path)) as [-> E]; [done|]. cbn [mbind result_bind].
  rewrite E. by rewrite bool_decide_eq_true_2.
Qed.

Lemma no_hash (rest : bytes) :
  "#"%char ∉ rest → "#"%char ∉ scheme ++ ":"%char :: "/"%char :: "/"%char :: host ++ "/"%char :: path ++ rest.
Proof.
  intros Hr. assert ("#"%char ∉ scheme) by (by eapply forallb_not_in; [|exact Hscheme]).
  assert ("#"%char ∉ host) by (by eapply forallb_not_in; [|exact Hhost]).
  assert ("#"%char ∉ path) by (by eapply forallb_not_in; [|exact Hpath]).
  rewrite elem_of_app, !elem_of_cons, elem_of_app, elem_of_cons, elem_of_app. naive_solver.
Qed.

Lemma url_Parse_endpoint :
  url_Parse (scheme ++ ("://" : bytes) ++ host ++ "/"%char :: path) =
  Ok (Url scheme [] None host ("/"%char :: path) [] false false [] [] []).
Proof.
  unfold url_Parse. change (String.list_ascii_of_string "#") with ["#"%char].
  pose proof (no_hash [] ltac:(set_solver)) as Hh. rewrite app_nil_r in Hh.
  rewrite cut_char_None by exact Hh. cbn [default from_option].
  pose proof (parse_simple [] false []) as Hp. rewrite !app_nil_r in Hp.
  cbn [app String.list_ascii_of_string]. rewrite Hp; [done| |done].
  unfold split_query. change (String.list_ascii_of_string "?") with ["?"%char]. rewrite cut_char_None; [done|].
  assert ("?"%char ∉ host) by (by eapply forallb_not_in; [|exact Hhost]).
  assert ("?"%char ∉ path) by (by eapply forallb_not_in; [|exact Hpath]).
  rewrite !elem_of_cons, elem_of_app, elem_of_cons. naive_solver.
Qed.

Lemma url_Parse_query q :
  forallb query_char q = true →
  url_Parse (scheme ++ ("://" : bytes) ++ host ++ ("/"%char :: path) ++ "?"%char :: q) =
  Ok (Url scheme [] None host ("/"%char :: path) [] false (bool_decide (q = [])) q [] []).
Proof.
  intros Hq. unfold url_Parse. change (String.list_ascii_of_string "#") with ["#"%char].
  assert ("#"%char ∉ "?"%char :: q) as Hr.
  { apply not_elem_of_cons. split; [done|]. by eapply forallb_not_in; [|exact Hq]. }
  cbn [app String.list_ascii_of_string]. rewrite cut_char_None by (by apply no_hash). cbn [default from_option].
  rewrite (parse_simple ("?"%char :: q) (bool_decide (q = [])) q); [done| |].
  - unfold split_query. change (String.list_ascii_of_string "?") with ["?"%char].
    replace ("/"%char :: "/"%char :: host ++ "/"%char :: path ++ "?"%char :: q)
      with (("/"%char :: "/"%char :: host ++ "/"%char :: path) ++ "?"%char :: q)
      by (cbn [app]; by rewrite <- app_assoc).
    rewrite cut_char.
    + by case_bool_decide; subst.
    + assert ("?"%char ∉ host) by (by eapply forallb_not_in; [|exact Hhost]).
      assert ("?"%char ∉ path) by (by eapply forallb_not_in; [|exact Hpath]).
      rewrite !elem_of_cons, elem_of_app, elem_of_cons. naive_solver.
  - change (has_ctl q = false). eapply has_ctl_forallb; [apply query_char_ctl|done].
Qed.
End url_simple.

Lemma query_safe_char c : query_safe c = true → query_char c = true.
Proof. unfold query_char. by intros ->. Qed.

Lemma QueryEscape_chars s : forallb query_char (QueryEscape s) = true.
Proof.
  pose proof (QueryEscape_safe s) as Hs. rewrite forallb_forall in *. auto using query_safe_char.
Qed.

Lemma Values_Encode_chars m : forallb query_char (Values_Encode m) = true.
Proof.
  unfold Values_Encode. induction (sort_pairs m) as [|p [|q l] IH]; [done|..].
  - cbn. by rewrite forallb_app, QueryEscape_chars; cbn; rewrite QueryEscape_chars.
  - change (forallb query_char ((QueryEscape p.1 ++ "="%char :: QueryEscape p.2) ++ "&"%char ::
      Join ((λ p, QueryEscape p.1 ++ "="%char :: QueryEscape p.2) <$> q :: l) "&") = true).
    rewrite !forallb_app. cbn [forallb]. by rewrite IH, !QueryEscape_chars.
Qed.
