(* ===== verification/RestFacts.v ===== *)
(** * Properties of the REST controller

    What a handler makes of a query string the client wrote, and how the
    outcome of a command becomes a response. *)

From S2P Require Import Prelude GoStrings Utf GoJson GoFmt GoUrl UrlFacts Errors Codec Models Effects Command Samples Rest.
From S2P Require Import GoJsonFacts.

Open Scope Z_scope.

Lemma ParseInt64_FormatUint z : 0 ≤ z ≤ int64_max → ParseInt64 (FormatUint z) = Ok z.
Proof.
  intros Hz. pose proof (ParseInt64_FormatInt z) as Hp. unfold FormatInt in Hp.
  destruct (Z.ltb_spec z 0); [lia|]. apply Hp. int_lia.
Qed.

(** A number above the range of [int64]. *)
Lemma ParseInt64_big z : int64_max < z ≤ uint64_max → ∃ e, ParseInt64 (FormatUint z) = Err e.
Proof.
  intros Hz. destruct (FormatUint_head z) as (c & s & Hc & [? ?]%is_digit_not_sign); [int_lia|].
  pose proof (ParseUint_FormatUint z uint64_max ltac:(int_lia)) as HP. rewrite Hc in *.
  unfold ParseInt64.
  rewrite !bool_decide_eq_false_2 by done. cbn [orb]. rewrite HP. cbn [mbind result_bind].
  repeat case_match; try (by eexists); rewrite ?Z.leb_le, ?Z.ltb_ge in *; int_lia.
Qed.

(** ** Aliases as JSON *)

Lemma str_body_plain s t : forallb plain_char s = true → str_body 0 (s ++ quote_c :: t) = Some (s, t).
Proof.
  induction s as [|c s IH]; [done|]. cbn [forallb app]. intros [Hc Hs]%andb_true_iff.
  apply plain_char_bounds in Hc as (Hr & Hq & Hb). cbn [str_body].
  rewrite !bool_decide_eq_false_2 by (intros ->; done). rewrite (proj2 (Z.ltb_ge _ _)) by lia.
  rewrite rune_len_ascii by lia. cbn [pred]. by rewrite IH.
Qed.

(** [%q] of a plain alias is its JSON text. *)
Lemma Decode_Quote `{UnicodeTable} s : forallb plain_char s = true → json_Decode (A := bytes) (Quote s) = Ok s.
Proof.
  intros Hs. unfold json_Decode, Decode.
  pose proof (decode_stream_render Quote (forallb plain_char)) as Hd.
  assert (decode_stream (Quote s) = Ok (JStr s)) as ->; [|done].
  specialize (Hd ltac:(clear s Hs; intros s t Hs; rewrite Quote_plain by done; eexists; split;
    [cbn [app]; by rewrite <- app_assoc|]; by apply str_body_plain) (JStr s) []).
  cbn [render] in Hd. rewrite app_nil_r in Hd. apply Hd; [done|apply Nat.le_0_l|done].
Qed.

#[local] Opaque json_Marshal json_Encode json_Decode FormatInt FormatUint ParseInt64.

Section rest_facts.
Context {W : Type} `{!GrpcStatus, !UnicodeTable, !BuildInfo W}.

(** ** Parameters *)

Lemma FormValue_Encode alias m body k :
  FormValue (mkRequest alias (Values_Encode m) body) k = values_Get m k.
Proof. apply ParseQuery_Get. Qed.

Lemma int_param_ok r name z (k : Z → M W Response) :
  FormValue r name = FormatUint z → 0 ≤ z ≤ int64_max → int_param r name k = k z.
Proof. intros Hr Hz. unfold int_param. by rewrite Hr, ParseInt64_FormatUint. Qed.

Definition not_a_number (name : bytes) : error :=
  EWrap [] ErrValidation (": parameter " ++ Quote name ++ " is not a number").

Lemma int_param_bad r name e (k : Z → M W Response) :
  ParseInt64 (FormValue r name) = Err e → int_param r name k = mret (sendError false (not_a_number name)).
Proof. intros Hr. unfold int_param. by rewrite Hr. Qed.

(** ** Outcomes *)

Lemma execute_spec (exec : bytes → M W bytes) req w :
  execute exec req w =
  match exec req w with
  | (w', Return out) => (w', Return (mkResponse StatusOK true out))
  | (w', Fail e) => (w', Return (mkResponse (StatusCodeFromError e) true (json_Encode (ErrorResponse.mk (Error e)))))
  | (w', Panic p) => (w', Panic p)
  end.
Proof. unfold execute. by destruct (exec req w) as [? []]. Qed.
End rest_facts.

Lemma decode_typed `{JsonCodec A, !JsonCodecLaws A} (x : A) :
  enc x ≠ JNull → wf x = true → json_Decode (json_Marshal x) = Ok (Some x).
Proof. intros Hn Hx. pose proof (Decode_ptr x []) as Hd. rewrite app_nil_r in Hd. by apply Hd. Qed.


(** C33: a number the client writes into a query string is the number the
    handler passes on: for an alias and a hash that are valid UTF-8 and
    numbers up to the largest [int64], each of the four handlers with
    parameters executes its command on the JSON text of exactly the request
    the client meant, and the command decodes that request. *)
Theorem client_query_typed {W : Type} `{!GrpcStatus, !UnicodeTable}
    (op : Operation W) alias body a b hash :
  valid_utf8 alias = true → valid_utf8 hash = true → 0 ≤ a ≤ int64_max → 0 ≤ b ≤ int64_max →
  let query m := mkRequest alias (Values_Encode m) body in
  let p (name : bytes) z := (name, FormatUint z) in
  (let q := GetEntriesRequest.mk alias a b in
   Rest.GetEntries op (query [p "start" a; p "end" b]) = execute (cmd_GetEntries (cmd op)) (json_Marshal q) ∧
   json_Decode (json_Marshal q) = Ok (Some q)) ∧
  (let q := GetSTHConsistencyRequest.mk alias a b in
   Rest.GetSTHConsistency op (query [p "first" a; p "second" b]) =
     execute (cmd_GetSTHConsistency (cmd op)) (json_Marshal q) ∧
   json_Decode (json_Marshal q) = Ok (Some q)) ∧
  (let q := GetEntryAndProofRequest.mk alias a b in
   Rest.GetEntryAndProof op (query [p "leaf_index" a; p "tree_size" b]) =
     execute (cmd_GetEntryAndProof (cmd op)) (json_Marshal q) ∧
   json_Decode (json_Marshal q) = Ok (Some q)) ∧
  (let q := GetProofByHashRequest.mk alias hash b in
   Rest.GetProofByHash op (query [("hash" : bytes, hash); p "tree_size" b]) =
     execute (cmd_GetProofByHash (cmd op)) (json_Marshal q) ∧
   json_Decode (json_Marshal q) = Ok (Some q)).
Proof.
  intros Ha Hh H1 H2 query p. unfold query, p.
  split; [|split; [|split]]; cbv zeta; (split; [|apply decode_typed; [done|]]).
  all: try (cbn -[valid_utf8 is_int64]; rewrite ?Ha, ?Hh; cbn [andb];
    rewrite !bool_decide_eq_true_2 by int_lia; done).
  - unfold GetEntries. by rewrite (int_param_ok _ _ a), (int_param_ok _ _ b) by (rewrite ?FormValue_Encode; done).
  - unfold GetSTHConsistency.
    by rewrite (int_param_ok _ _ a), (int_param_ok _ _ b) by (rewrite ?FormValue_Encode; done).
  - unfold GetEntryAndProof.
    by rewrite (int_param_ok _ _ a), (int_param_ok _ _ b) by (rewrite ?FormValue_Encode; done).
  - unfold GetProofByHash.
    rewrite (int_param_ok _ _ b) by (rewrite ?FormValue_Encode; done). by rewrite FormValue_Encode.
Qed.

Definition sample_operation : Operation sample_world :=
  mkOperation _ (commands_of (Libraries0 := sample_libraries) (H := ascii_only) (H0 := aries_key_types) sample_cmd)
    None None.

Lemma client_query_typed_witness :
  let q := GetEntriesRequest.mk "maple2021" 0 9 in
  Rest.GetEntries (H := no_rpc_status) (H0 := ascii_only) sample_operation
    (mkRequest "maple2021" (Values_Encode [("start" : bytes, FormatUint 0); ("end" : bytes, FormatUint 9)]) (Ok None)) =
  execute (H := no_rpc_status) (cmd_GetEntries (cmd sample_operation)) (json_Marshal q) ∧
  json_Decode (json_Marshal q) = Ok (Some q).
Proof.
  apply (client_query_typed (H := no_rpc_status) (H0 := ascii_only) sample_operation "maple2021" (Ok None) 0 9 "");
    [reflexivity|reflexivity|unfold int64_max; lia..].
Defined.

(** A number above the largest [int64] in a query string is refused with
    status 400 before the command is called, for each parameter of each
    handler, although the client accepts it as a [uint64]. *)
Lemma big_numbers_refused {W : Type} `{!GrpcStatus, !GrpcStatusLaws, !UnicodeTable}
    (op : Operation W) alias body z b w :
  int64_max < z ≤ uint64_max → 0 ≤ b ≤ int64_max →
  let query m := mkRequest alias (Values_Encode m) body in
  let p (name : bytes) z := (name, FormatUint z) in
  Forall (λ h : M W Response, ∃ text, h w = (w, Return (mkResponse 400 false text)))
    [Rest.GetEntries op (query [p "start" z; p "end" b]); Rest.GetEntries op (query [p "start" b; p "end" z]);
     Rest.GetSTHConsistency op (query [p "first" z; p "second" b]);
     Rest.GetSTHConsistency op (query [p "first" b; p "second" z]);
     Rest.GetEntryAndProof op (query [p "leaf_index" z; p "tree_size" b]);
     Rest.GetEntryAndProof op (query [p "leaf_index" b; p "tree_size" z]);
     Rest.GetProofByHash op (query [("hash" : bytes, []); p "tree_size" z])].
Proof.
  intros Hz Hb query p. unfold query, p. destruct (ParseInt64_big z Hz) as [e He].
  assert (∀ r name (k : Z → M W Response), FormValue r name = FormatUint z →
    ∃ text, int_param r name k w = (w, Return (mkResponse 400 false text))) as Hbad.
  { intros r name k Hr. eexists. rewrite (int_param_bad r name e) by (by rewrite Hr). unfold sendError.
    unfold not_a_number. by rewrite StatusCodeFromError_wrap. }
  repeat (apply Forall_cons; split); [..|by apply Forall_nil];
    unfold Rest.GetEntries, Rest.GetSTHConsistency, Rest.GetEntryAndProof, Rest.GetProofByHash;
    rewrite ?(int_param_ok _ _ b) by (rewrite ?FormValue_Encode; done);
    apply Hbad; by rewrite FormValue_Encode.
Qed.

Lemma big_numbers_refused_witness :
  let h := Rest.GetEntries (H := no_rpc_status) (H0 := ascii_only) sample_operation
    (mkRequest "maple2021" (Values_Encode [("start" : bytes, FormatUint (2 ^ 63)); ("end" : bytes, FormatUint 9)]) (Ok None)) in
  ∃ text, h [] = ([], Return (mkResponse 400 false text)).
Proof.
  apply (Forall_inv (big_numbers_refused (H := no_rpc_status) (H0 := no_rpc_status_laws) (H1 := ascii_only)
    sample_operation "maple2021" (Ok None) (2 ^ 63) 9 [] ltac:(unfold int64_max, uint64_max; lia)
    ltac:(unfold int64_max; lia))).
Defined.

(** An alias in the path.  When it is plain ASCII, the handlers that pass
    it on alone give the command its JSON text, from which the command decodes
    the same alias. *)
Lemma alias_requests {W : Type} `{!GrpcStatus, !UnicodeTable} (op : Operation W) alias query body :
  forallb plain_char alias = true →
  let r := mkRequest alias query body in
  ∃ text, Rest.GetSTH op r = execute (cmd_GetSTH (cmd op)) text ∧
    Rest.GetIssuers op r = execute (cmd_GetIssuers (cmd op)) text ∧ json_Decode (A := bytes) text = Ok alias.
Proof. intros Ha. exists (Quote alias). split; [done|]. split; [done|]. by apply Decode_Quote. Qed.

Lemma alias_requests_witness :
  let r := mkRequest "maple2021" [] (Ok None) in
  ∃ text, Rest.GetSTH (H := no_rpc_status) (H0 := ascii_only) sample_operation r =
      execute (H := no_rpc_status) (cmd_GetSTH (cmd sample_operation)) text ∧
    Rest.GetIssuers (H := no_rpc_status) (H0 := ascii_only) sample_operation r =
      execute (H := no_rpc_status) (cmd_GetIssuers (cmd sample_operation)) text ∧
    json_Decode (A := bytes) text = Ok ("maple2021" : bytes).
Proof. apply (alias_requests (H0 := ascii_only) sample_operation "maple2021"). reflexivity. Defined.

(** A text with the control character 1 is no JSON once quoted by [%q]. *)
Lemma Decode_Quote_control `{UnicodeTable} : ∃ e, json_Decode (A := bytes) (Quote [chr 1]) = Err e.
Proof. eexists. vm_compute. reflexivity. Qed.

(** An alias with a control character is answered with status 500, not 404:
    the quoting of Go is not JSON, so that the command fails to decode it. *)
Lemma control_alias_internal_error {W Loader : Type}
    `{!Libraries W Loader, !UnicodeTable, !KeyTypes, !GrpcStatus, !GrpcStatusLaws}
    (c : Cmd W Loader) ping health query body w :
  ∃ text, Rest.GetSTH (mkOperation W (commands_of c) ping health) (mkRequest [chr 1] query body) w =
    (w, Return (mkResponse 500 true text)).
Proof.
  destruct Decode_Quote_control as [e He]. eexists. unfold Rest.GetSTH. rewrite execute_spec.
  cbn [cmd commands_of cmd_GetSTH req_Alias]. unfold Command.GetSTH, decode_alias. rewrite He.
  unfold mbind, M_bind, try, fail. by rewrite StatusCodeFromError_wrap.
Qed.

Lemma control_alias_internal_error_witness :
  ∃ text, Rest.GetSTH (H := no_rpc_status) (H0 := ascii_only) sample_operation (mkRequest [chr 1] [] (Ok None)) [] =
    ([], Return (mkResponse 500 true text)).
Proof.
  apply (control_alias_internal_error (Libraries0 := sample_libraries) (H0 := aries_key_types)
    (H2 := no_rpc_status_laws) sample_cmd None None).
Defined.
