(* ===== verification/RestTypes.v ===== *)
(** * The types of the REST responses

    Every handler of the REST controller answers with a document of the type
    its operation declares, or with an error document whose status is that of
    the error.  [returns Q m] says that whatever [m] returns satisfies [Q]; it
    is closed under the sequencing of the commands. *)

From S2P Require Import Prelude GoStrings Utf GoJson GoFmt GoUrl Errors Codec Models Effects Command Samples CommandFacts Rest RestFacts.

Open Scope Z_scope.

(** ** What a computation returns *)

Section returns.
Context {W : Type}.

Definition returns {A} (Q : A → Prop) (m : M W A) : Prop := ∀ w w' a, m w = (w', Return a) → Q a.

Lemma returns_bind {A B} (Q : B → Prop) (m : M W A) (k : A → M W B) : (∀ a, returns Q (k a)) → returns Q (m ≫= k).
Proof. intros Hk w w' b (a & w1 & _ & E)%bind_Return. by apply (Hk a w1 w'). Qed.
Lemma returns_ret {A} (Q : A → Prop) a : Q a → returns Q (mret a).
Proof. by intros ? w w' b [= _ <-]. Qed.
Lemma returns_fail {A} (Q : A → Prop) e : returns Q (fail e).
Proof. by intros w w' a. Qed.
Lemma returns_panic {A} (Q : A → Prop) p : returns Q (panic p).
Proof. by intros w w' a. Qed.
Lemma returns_with_log `{!UnicodeTable} {Loader A} (Q : A → Prop) (c : Cmd W Loader) alias perm k :
  (∀ log, returns Q (k log)) → returns Q (with_log c alias perm k).
Proof. intros Hk. apply returns_bind. intros _. case_match; [apply Hk|apply returns_panic]. Qed.
End returns.

Ltac returns_steps :=
  repeat match goal with
  | |- returns _ (with_log _ _ _ _) => apply returns_with_log; intros ?
  | |- returns _ (_ ≫= _) => apply returns_bind; intros ?
  | |- returns _ (mret _) => apply returns_ret
  | |- returns _ (fail _) => apply returns_fail
  | |- returns _ (panic _) => apply returns_panic
  | |- returns _ _ => case_match
  end.

(** ** Responses *)

Definition encoded (A : Type) `{!JsonCodec A} (body : bytes) : Prop := ∃ x : A, body = json_Encode x.

(** The list of issuers, which has no type of its own. *)
Definition issuer_list (body : bytes) : Prop := ∃ l, body = Encode (enc_slice enc_string l).

Section typing.
Context {W : Type} `{!GrpcStatus, !UnicodeTable, !BuildInfo W}.

Definition health_body (body : bytes) : Prop := ∃ dbStatus kmsStatus now, body = Encode (health_doc dbStatus kmsStatus now).

(** A response: the document of the operation, or an error. *)
Inductive typed (ty : bytes → Prop) : Response → Prop :=
  | typed_result body : ty body → typed ty (mkResponse StatusOK true body)
  | typed_error json e : typed ty (sendError json e).

(** The state of the service has its own two statuses. *)
Inductive typed_health : Response → Prop :=
  | typed_health_doc status body : status = StatusOK ∨ status = StatusServiceUnavailable → health_body body →
      typed_health (mkResponse status false body).

(** In the order of the route table. *)
Definition response_types : list (Response → Prop) :=
  [typed (encoded AddVCResponse.t); typed (encoded GetSTHResponse.t); typed (encoded GetSTHConsistencyResponse.t);
   typed (encoded GetProofByHashResponse.t); typed (encoded GetEntriesResponse.t); typed issuer_list;
   typed (encoded WebFingerResponse.t); typed (encoded GetEntryAndProofResponse.t); typed_health].

Lemma typed_execute ty exec req : returns ty (exec req) → returns (W := W) (typed ty) (execute exec req).
Proof.
  intros Hx w w' resp. unfold execute. specialize (Hx w). destruct (exec req w) as [w1 [out|e|p]]; intros [= <- <-].
  - apply typed_result. by apply (Hx w1).
  - apply typed_error.
Qed.

Lemma typed_int_param ty r name k :
  (∀ z, returns (W := W) (typed ty) (k z)) → returns (typed ty) (int_param r name k).
Proof. intros Hk. unfold int_param. case_match; [apply Hk|]. apply returns_ret, typed_error. Qed.

Context {Loader : Type} `{!Libraries W Loader, !KeyTypes}.
Implicit Types c : Cmd W Loader.

Lemma AddVC_typed c r : returns (encoded AddVCResponse.t) (Command.AddVC c r).
Proof. unfold Command.AddVC, queue_leaf, sign_logged. returns_steps; by eexists. Qed.
Lemma GetSTH_typed c r : returns (encoded GetSTHResponse.t) (Command.GetSTH c r).
Proof. unfold Command.GetSTH. returns_steps. by eexists. Qed.
Lemma GetSTHConsistency_typed c r : returns (encoded GetSTHConsistencyResponse.t) (Command.GetSTHConsistency c r).
Proof. unfold Command.GetSTHConsistency. returns_steps; by eexists. Qed.
Lemma GetProofByHash_typed c r : returns (encoded GetProofByHashResponse.t) (Command.GetProofByHash c r).
Proof. unfold Command.GetProofByHash. returns_steps. by eexists. Qed.
Lemma GetEntries_typed c r : returns (encoded GetEntriesResponse.t) (Command.GetEntries c r).
Proof. unfold Command.GetEntries, fetch_range. returns_steps. by eexists. Qed.
Lemma GetIssuers_typed c r : returns issuer_list (Command.GetIssuers c r).
Proof. unfold Command.GetIssuers. returns_steps. by eexists. Qed.
Lemma Webfinger_typed c r : returns (encoded WebFingerResponse.t) (Command.Webfinger c r).
Proof. unfold Command.Webfinger. returns_steps. by eexists. Qed.
Lemma GetEntryAndProof_typed c r : returns (encoded GetEntryAndProofResponse.t) (Command.GetEntryAndProof c r).
Proof. unfold Command.GetEntryAndProof. returns_steps. by eexists. Qed.

Lemma HealthCheck_typed (op : Operation W) r : returns typed_health (Rest.HealthCheck op r).
Proof.
  intros w w' resp. unfold Rest.HealthCheck. destruct (component_status _ w) as [w1 d]. destruct (component_status _ w1) as [w2 k].
  destruct (time_text w2) as [w3 now]. intros [= _ <-]. apply typed_health_doc; [|by eexists d, k, now].
  destruct (_ && _); tauto.
Qed.

End typing.
