(* ===== verification/Metrics.v ===== *)
(** * Metrics

    The counters and histograms of the program: which there are and when they
    are registered ([createMetrics] of [pkg/controller/rest/operation.go],
    [pkg/controller/command/command.go] and
    [pkg/storage/postgres/log_storage.go], and [NewAWSMetricsProvider] of
    [cmd/vct/startcmd/start.go]), and what the REST handlers count.  The other
    files leave metrics out; the handlers that count are shown to behave as
    those of [Rest]. *)

From S2P Require Import Prelude GoStrings Utf GoJson GoFmt GoUrl Errors Codec Models Effects Command Samples Rest RestFacts.

Open Scope Z_scope.

Inductive metric_kind := Counter | Histogram.
Record Metric := mkMetric { m_kind : metric_kind; m_name : bytes; m_help : bytes; m_labels : list bytes }.

(** ** The tables *)

(** *** The REST controller *)

Definition addVCCounter : Metric := mkMetric Counter "add_vc" "Number of /add-vc operation" ["alias" : bytes].
Definition addVCLatency : Metric := mkMetric Histogram "add_vc_latency" "Latency of /add-vc operation in seconds" ["alias" : bytes].
Definition getSTHCounter : Metric := mkMetric Counter "get_sth" "Number of /get-sth operation" ["alias" : bytes].
Definition getSTHLatency : Metric := mkMetric Histogram "get_sth_latency" "Latency of /get-sth operation in seconds" ["alias" : bytes].
Definition getSTHConsistencyCounter : Metric := mkMetric Counter "get_sth_consistency" "Number of /get-sth-consistency operation" ["alias" : bytes].
Definition getSTHConsistencyLatency : Metric := mkMetric Histogram "get_sth_consistency_latency" "Latency of /get-sth-consistency operation in seconds" ["alias" : bytes].
Definition getProofByHashCounter : Metric := mkMetric Counter "get_proof_by_hash" "Number of /get-proof-by-hash operation" ["alias" : bytes].
Definition getProofByHashLatency : Metric := mkMetric Histogram "get_proof_by_hash_latency" "Latency of /get-proof-by-hash operation in seconds" ["alias" : bytes].
Definition getEntriesCounter : Metric := mkMetric Counter "get_entries" "Number of /get-entries operation" ["alias" : bytes].
Definition getEntriesLatency : Metric := mkMetric Histogram "get_entries_latency" "Latency of /get-entries operation in seconds" ["alias" : bytes].
Definition getEntryAndProofCounter : Metric := mkMetric Counter "get_entry_and_proof" "Number of /get-entry-and-proof operation" ["alias" : bytes].
Definition getEntryAndProofLatency : Metric := mkMetric Histogram "get_entry_and_proof_latency" "Latency of /get-entry-and-proof operation in seconds" ["alias" : bytes].
Definition getIssuersCounter : Metric := mkMetric Counter "get_issuers" "Number of /get-issuers operation" ["alias" : bytes].
Definition getIssuersLatency : Metric := mkMetric Histogram "get_issuers_latency" "Latency of /get-issuers operation in seconds" ["alias" : bytes].
Definition webfingerCounter : Metric := mkMetric Counter "webfinger" "Number of /webfinger operation" ["alias" : bytes].
Definition webfingerLatency : Metric := mkMetric Histogram "webfinger_latency" "Latency of /webfinger operation in seconds" ["alias" : bytes].

Definition rest_createMetrics : list Metric :=
  [addVCCounter; addVCLatency;
   getSTHCounter; getSTHLatency;
   getSTHConsistencyCounter; getSTHConsistencyLatency;
   getProofByHashCounter; getProofByHashLatency;
   getEntriesCounter; getEntriesLatency;
   getEntryAndProofCounter; getEntryAndProofLatency;
   getIssuersCounter; getIssuersLatency;
   webfingerCounter; webfingerLatency].

(** *** The command controller *)

Definition addVCParseCredentialLatency : Metric :=
  mkMetric Histogram "add_vc_parse_credential_latency" "Latency of parse credential (add-vc operation)" ["alias" : bytes].
Definition command_createMetrics : list Metric := [addVCParseCredentialLatency].

(** *** The log storage *)

Definition logIDLabel : bytes := "logid".
Definition queuedCounter : Metric := mkMetric Counter "postgres_queued_leaves"
  "Number of leaves queued" [logIDLabel].
Definition queuedDupCounter : Metric := mkMetric Counter "postgres_queued_dup_leaves"
  "Number of duplicate leaves queued" [logIDLabel].
Definition dequeuedCounter : Metric := mkMetric Counter "postgres_dequeued_leaves"
  "Number of leaves dequeued" [logIDLabel].
Definition queueLatency : Metric := mkMetric Histogram "postgres_queue_leaves_latency"
  "Latency of queue leaves operation in seconds" [logIDLabel].
Definition queueInsertLatency : Metric := mkMetric Histogram "postgres_queue_leaves_latency_insert"
  "Latency of insertion part of queue leaves operation in seconds" [logIDLabel].
Definition queueReadLatency : Metric := mkMetric Histogram "postgres_queue_leaves_latency_read_dups"
  "Latency of read-duplicates part of queue leaves operation in seconds" [logIDLabel].
Definition queueInsertLeafLatency : Metric := mkMetric Histogram "postgres_queue_leaf_latency_leaf"
  "Latency of insert-leaf part of queue (single) leaf operation in seconds" [logIDLabel].
Definition queueInsertEntryLatency : Metric := mkMetric Histogram "postgres_queue_leaf_latency_entry"
  "Latency of insert-entry part of queue (single) leaf operation in seconds" [logIDLabel].
Definition dequeueLatency : Metric := mkMetric Histogram "postgres_dequeue_leaves_latency"
  "Latency of dequeue leaves operation in seconds" [logIDLabel].
Definition dequeueSelectLatency : Metric := mkMetric Histogram "postgres_dequeue_leaves_latency_select"
  "Latency of selection part of dequeue leaves operation in seconds" [logIDLabel].
Definition dequeueRemoveLatency : Metric := mkMetric Histogram "postgres_dequeue_leaves_latency_remove"
  "Latency of removal part of dequeue leaves operation in seconds" [logIDLabel].

Definition storage_createMetrics : list Metric :=
  [queuedCounter; queuedDupCounter; dequeuedCounter; queueLatency; queueInsertLatency; queueReadLatency;
   queueInsertLeafLatency; queueInsertEntryLatency; dequeueLatency; dequeueSelectLatency; dequeueRemoveLatency].

(** *** The AWS key manager *)

Definition signCount : Metric := mkMetric Counter "aws_sign_count" "AWS sign count" [].
Definition signTime : Metric := mkMetric Histogram "aws_sign_seconds" "AWS sign time" [].
Definition exportPublicKeyCount : Metric := mkMetric Counter "aws_export_publickey_count" "AWS export public key count" [].
Definition exportPublicKeyTime : Metric := mkMetric Histogram "aws_export_publickey_seconds" "AWS export public key time" [].
Definition aws_metrics : list Metric := [signCount; signTime; exportPublicKeyCount; exportPublicKeyTime].

(** ** Registration *)

(** The packages that create metrics. *)
Inductive creator := RestNew | CommandNew | BeginInternal | AWSProvider.
#[global] Instance creator_eq_dec : EqDecision creator.
Proof. solve_decision. Defined.
Definition metrics_of (p : creator) : list Metric :=
  match p with
  | RestNew => rest_createMetrics
  | CommandNew => command_createMetrics
  | BeginInternal => storage_createMetrics
  | AWSProvider => aws_metrics
  end.

(** Metric factories and the registry behind them; creating a metric may
    panic ([None]). *)
Class Monitoring := {
  MetricFactory : Type;
  Registry : Type;
  InertMetricFactory : MetricFactory;
  NewMetric : MetricFactory → Metric → Registry → option Registry;
  names : Registry → list bytes
}.
(** A metric whose name is new can be created. *)
Class MonitoringLaws `{!Monitoring} : Prop := {
  NewMetric_new f m reg : m_name m ∉ names reg → ∃ reg', NewMetric f m reg = Some reg' ∧ names reg' ⊆ m_name m :: names reg
}.

Section registration.
Context `{!Monitoring}.

Fixpoint create_all (f : MetricFactory) (ms : list Metric) (reg : Registry) : option Registry :=
  match ms with
  | [] => Some reg
  | m :: ms => reg' ← NewMetric f m reg; create_all f ms reg'
  end.

(** The variables [once] of the packages, as those that are done. *)
Record metric_vars := mkMetricVars { mv_done : list creator; mv_registry : Registry }.

(** The metrics of the AWS key manager are not behind a [sync.Once]. *)
Definition once_only (p : creator) : bool := bool_decide (p ≠ AWSProvider).
Definition create_metrics (p : creator) (mf : option MetricFactory) (v : metric_vars) : option metric_vars :=
  if once_only p && bool_decide (p ∈ mv_done v) then Some v
  else
    reg ← create_all (default InertMetricFactory mf) (metrics_of p) (mv_registry v);
    Some (mkMetricVars (p :: mv_done v) reg).
Fixpoint create_each (calls : list (creator * option MetricFactory)) (v : metric_vars) : option metric_vars :=
  match calls with
  | [] => Some v
  | (p, mf) :: calls => v' ← create_metrics p mf v; create_each calls v'
  end.

Lemma table_distinct p : NoDup (m_name <$> metrics_of p).
Proof. destruct p; apply (bool_decide_unpack _); vm_compute; exact I. Qed.
Lemma tables_disjoint p q n : n ∈ m_name <$> metrics_of p → n ∈ m_name <$> metrics_of q → p = q.
Proof.
  assert (forallb (λ p, forallb (λ q, bool_decide (p = q) ||
    forallb (λ n, negb (bool_decide (n ∈ m_name <$> metrics_of q))) (m_name <$> metrics_of p))
    [RestNew; CommandNew; BeginInternal; AWSProvider]) [RestNew; CommandNew; BeginInternal; AWSProvider] = true) as E
    by (vm_compute; reflexivity).
  rewrite forallb_forall in E. intros Hp Hq. specialize (E p ltac:(destruct p; cbn; tauto)). rewrite forallb_forall in E.
  specialize (E q ltac:(destruct q; cbn; tauto)). apply orb_true_iff in E as [E|E]; [by apply bool_decide_eq_true_1 in E|].
  rewrite forallb_forall in E. apply list_elem_of_In in Hp. specialize (E n Hp).
  by apply negb_true_iff, bool_decide_eq_false_1 in E.
Qed.

Context `{!MonitoringLaws}.

Lemma create_all_new f ms reg :
  NoDup (m_name <$> ms) → (∀ n, n ∈ m_name <$> ms → n ∉ names reg) →
  ∃ reg', create_all f ms reg = Some reg' ∧ ∀ n, n ∈ names reg' → n ∈ names reg ∨ n ∈ m_name <$> ms.
Proof.
  revert reg. induction ms as [|m ms IH]; intros reg Hnd Hnew; [exists reg; auto|].
  rewrite fmap_cons in Hnd, Hnew. apply NoDup_cons in Hnd as [Hm Hnd].
  destruct (NewMetric_new f m reg) as (reg1 & E1 & H1); [apply Hnew; by left|].
  destruct (IH reg1 Hnd) as (reg2 & E2 & H2).
  { intros n Hn Hin. apply H1 in Hin. apply elem_of_cons in Hin as [->|Hin]; [done|]. apply (Hnew n); [by right|done]. }
  exists reg2. split; [cbn; by rewrite E1|]. intros n [Hin|Hin]%H2; [|right; by right].
  apply H1, elem_of_cons in Hin as [->|Hin]; [right; by left|by left].
Qed.

(** Nothing of a package is registered before the package is done. *)
Definition apart_from (v : metric_vars) : Prop :=
  ∀ p n, p ∉ mv_done v → n ∈ m_name <$> metrics_of p → n ∉ names (mv_registry v).

Lemma create_metrics_ok p mf v :
  apart_from v → (p = AWSProvider → p ∉ mv_done v) →
  ∃ v', create_metrics p mf v = Some v' ∧ apart_from v' ∧ (∀ q, q ∈ mv_done v' ↔ q = p ∨ q ∈ mv_done v).
Proof.
  intros Hv Hp. unfold create_metrics. destruct (decide (p ∈ mv_done v)) as [Hd|Hd].
  - assert (once_only p = true) as -> by (apply bool_decide_eq_true_2; intros ->; by apply Hp).
    rewrite bool_decide_eq_true_2 by done. exists v. split; [done|]. split; [done|]. intros q. split; [by right|]. by intros [->|?].
  - rewrite (bool_decide_eq_false_2 (p ∈ _)), andb_false_r by done.
    destruct (create_all_new (default InertMetricFactory mf) (metrics_of p) (mv_registry v)) as (reg & -> & Hr);
      [apply table_distinct|intros n; by apply Hv|].
    eexists. split; [done|]. cbn. split; [|intros q; apply elem_of_cons].
    intros q n Hq Hn. cbn in Hq |- *. apply not_elem_of_cons in Hq as [Hne Hq]. intros [Hin|Hin]%Hr; [by apply (Hv q n)|].
    apply Hne. by eapply tables_disjoint.
Qed.

(** No process registers a metric twice, which would end it: however often the
    controllers and transactions are created, in whatever order and with
    whichever factories, all metrics can be created, provided the AWS key
    manager is created at most once. *)
Theorem metrics_created calls v :
  apart_from v → AWSProvider ∉ mv_done v →
  (length (List.filter (λ p, bool_decide (p = AWSProvider)) calls.*1) ≤ 1)%nat →
  ∃ v', create_each calls v = Some v'.
Proof.
  intros Hv Ha Hc.
  assert (AWSProvider ∈ mv_done v → AWSProvider ∉ calls.*1) as Hdone by done. clear Ha.
  revert v Hv Hdone. induction calls as [|[p mf] calls IH]; intros v Hv Hdone; [by exists v|]. cbn in *.
  destruct (create_metrics_ok p mf v Hv) as (v1 & -> & H1 & Hd1).
  { intros -> Hin. apply (Hdone Hin). by left. }
  apply IH; [|done|].
  - destruct (bool_decide _); cbn in Hc; lia.
  - intros [<-|Hin]%Hd1.
    + intros Hin%list_elem_of_In. rewrite bool_decide_eq_true_2 in Hc by done. cbn in Hc.
      assert (In AWSProvider (List.filter (λ p, bool_decide (p = AWSProvider)) calls.*1)) as Hf
        by (apply filter_In; split; [done|reflexivity]).
      destruct (List.filter _ _); [done|cbn in Hc; lia].
    + intros Hin'. apply (Hdone Hin). by right.
Qed.
End registration.

(** ** What the handlers count *)

(** What happens to the metrics of the process. *)
Inductive sample := Added (counter : Metric) (value : Z) (label : bytes) | Observed (histogram : Metric) (nanos : Z) (label : bytes).

Section counting.
Context {W : Type} `{!GrpcStatus, !UnicodeTable, !BuildInfo W}.
(** The time a request took when it is measured. *)
Context (elapsed : list sample → Z).

Definition metered_world : Type := W * list sample.
Definition lift {A} (m : M W A) : M metered_world A := λ '(w, s), let '(w', o) := m w in ((w', s), o).
Definition lift_check (f : W → W * result error unit) : metered_world → metered_world * result error unit :=
  λ '(w, s), let '(w', r) := f w in ((w', s), r).
Definition record (f : list sample → sample) : M metered_world unit := λ '(w, s), ((w, s ++ [f s]), Return ()).

(** The closure a handler passes to [execute]. *)
Definition counting (counter latency : Metric) (label : bytes) (exec : bytes → M W bytes) (req : bytes) : M metered_world bytes :=
  out ← lift (exec req);
  record (λ _, Added counter 1 label);;
  record (λ s, Observed latency (elapsed s) label);;
  mret out.

Definition resource_of (r : Request) : bytes := values_Get (ParseQuery (req_RawQuery r)) "resource".
Definition counted_commands (r : Request) (c : Commands W) : Commands metered_world :=
  mkCommands metered_world
    (counting addVCCounter addVCLatency (req_Alias r) (cmd_AddVC c))
    (counting getIssuersCounter getIssuersLatency (req_Alias r) (cmd_GetIssuers c))
    (counting getSTHCounter getSTHLatency (req_Alias r) (cmd_GetSTH c))
    (counting getSTHConsistencyCounter getSTHConsistencyLatency (req_Alias r) (cmd_GetSTHConsistency c))
    (counting getProofByHashCounter getProofByHashLatency (req_Alias r) (cmd_GetProofByHash c))
    (counting getEntriesCounter getEntriesLatency (req_Alias r) (cmd_GetEntries c))
    (counting getEntryAndProofCounter getEntryAndProofLatency (req_Alias r) (cmd_GetEntryAndProof c))
    (counting webfingerCounter webfingerLatency (resource_of r) (cmd_Webfinger c)).
Definition metered_operation (r : Request) (c : Operation W) : Operation metered_world :=
  mkOperation metered_world (counted_commands r (cmd c)) (lift_check <$> db_Ping c) (lift_check <$> km_HealthCheck c).

#[local] Instance metered_build : BuildInfo metered_world :=
  { time_text := λ '(w, s), let '(w', t) := time_text w in ((w', s), t); BuildVersion := BuildVersion }.

(** The route table, with handlers that count. *)
Definition metered_handlers (c : Operation W) : list (bytes * method * (Request → M metered_world Response)) :=
  [(AddVCPath, POST, λ r, Rest.AddVC (metered_operation r c) r);
   (GetSTHPath, GET, λ r, Rest.GetSTH (metered_operation r c) r);
   (GetSTHConsistencyPath, GET, λ r, Rest.GetSTHConsistency (metered_operation r c) r);
   (GetProofByHashPath, GET, λ r, Rest.GetProofByHash (metered_operation r c) r);
   (GetEntriesPath, GET, λ r, Rest.GetEntries (metered_operation r c) r);
   (GetIssuersPath, GET, λ r, Rest.GetIssuers (metered_operation r c) r);
   (WebfingerPath, GET, λ r, Rest.Webfinger (metered_operation r c) r);
   (GetEntryAndProofPath, GET, λ r, Rest.GetEntryAndProof (metered_operation r c) r);
   (HealthCheckPath, GET, λ r, Rest.HealthCheck (metered_operation r c) r)].

(** What each route counts, and with which label. *)
Definition route_metrics : list (option (Metric * Metric * (Request → bytes))) :=
  [Some (addVCCounter, addVCLatency, req_Alias); Some (getSTHCounter, getSTHLatency, req_Alias);
   Some (getSTHConsistencyCounter, getSTHConsistencyLatency, req_Alias);
   Some (getProofByHashCounter, getProofByHashLatency, req_Alias); Some (getEntriesCounter, getEntriesLatency, req_Alias);
   Some (getIssuersCounter, getIssuersLatency, req_Alias); Some (webfingerCounter, webfingerLatency, resource_of);
   Some (getEntryAndProofCounter, getEntryAndProofLatency, req_Alias); None].

(** The samples after a request: one count and one time for a result, none
    for an error, a panic or a health check. *)
Inductive counted (k : option (Metric * Metric * (Request → bytes))) (r : Request) (s : list sample) :
    outcome Response → list sample → Prop :=
  | counted_result c l label body : k = Some (c, l, label) →
      counted k r s (Return (mkResponse StatusOK true body))
        (s ++ [Added c 1 (label r); Observed l (elapsed (s ++ [Added c 1 (label r)])) (label r)])
  | counted_error json e : counted k r s (Return (sendError json e)) s
  | counted_panic p : counted k r s (Panic p) s
  | counted_health resp : k = None → counted k r s (Return resp) s.

(** A handler that counts, and the one that does not. *)
Definition meters (k : option (Metric * Metric * (Request → bytes))) (r : Request) (h : M W Response) (hm : M metered_world Response) :
    Prop :=
  ∀ w s, ∃ s', hm (w, s) = (((h w).1, s'), (h w).2) ∧ counted k r s (h w).2 s'.

Lemma meters_execute c l label r exec req :
  meters (Some (c, l, label)) r (execute exec req) (execute (counting c l (label r) exec) req).
Proof.
  intros w s. unfold execute, counting, lift, record, mbind, M_bind. destruct (exec req w) as [w' [out|e|p]]; cbn.
  - eexists. split; [by rewrite <- (assoc (++))|]. by apply counted_result.
  - exists s. split; [done|apply counted_error].
  - exists s. split; [done|apply counted_panic].
Qed.
Lemma meters_error k r json e : meters k r (mret (sendError json e)) (mret (sendError json e)).
Proof. intros w s. exists s. split; [done|apply counted_error]. Qed.
Lemma meters_int_param k r name f fm :
  (∀ z, meters k r (f z) (fm z)) → meters k r (int_param r name f) (int_param r name fm).
Proof. intros Hf. unfold int_param. case_match; [apply Hf|apply meters_error]. Qed.

Lemma lift_status (f : option (W → W * result error unit)) w s :
  component_status (lift_check <$> f) (w, s) = (((component_status f w).1, s), (component_status f w).2).
Proof. destruct f as [f|]; [cbn; by destruct (f w) as [w' []]|done]. Qed.
Lemma meters_health c r : meters None r (Rest.HealthCheck c r) (Rest.HealthCheck (metered_operation r c) r).
Proof.
  intros w s. exists s. unfold Rest.HealthCheck, metered_operation. cbn [db_Ping km_HealthCheck]. rewrite lift_status.
  destruct (component_status (db_Ping c) w) as [w1 d]. cbn [fst snd]. rewrite lift_status.
  destruct (component_status (km_HealthCheck c) w1) as [w2 k]. cbn [fst snd time_text metered_build BuildVersion].
  destruct (time_text w2) as [w3 t]. split; [done|by apply counted_health].
Qed.

(** C39: Counting does not change what the service does.  Every handler with its
    metrics takes the same steps and gives the same response as the handler
    without; it counts a request once, with its alias (or resource), exactly
    when the command succeeded, and never counts an error. *)
Theorem metrics_transparent c i path m h path' m' hm k :
  GetRESTHandlers c !! i = Some (path, m, h) → metered_handlers c !! i = Some (path', m', hm) → route_metrics !! i = Some k →
  path' = path ∧ m' = m ∧ ∀ r, meters k r (h r) (hm r).
Proof.
  intros Hh Hm Hk. destruct i as [|[|[|[|[|[|[|[|[|i]]]]]]]]]; [..|by destruct i];
    injection Hh as <- <- <-; injection Hm as <- <- <-; injection Hk as <-; (split_and!; [done..|intros r]).
  - unfold Rest.AddVC. case_match; [apply (meters_execute _ _ req_Alias)|apply meters_error].
  - apply (meters_execute _ _ req_Alias).
  - do 2 (apply meters_int_param; intros ?). apply (meters_execute _ _ req_Alias).
  - apply meters_int_param; intros ?. apply (meters_execute _ _ req_Alias).
  - do 2 (apply meters_int_param; intros ?). apply (meters_execute _ _ req_Alias).
  - apply (meters_execute _ _ req_Alias).
  - apply (meters_execute _ _ resource_of).
  - do 2 (apply meters_int_param; intros ?). apply (meters_execute _ _ req_Alias).
  - apply meters_health.
Qed.
End counting.

(** ** Samples *)

(** A registry that refuses a name it has, and an inert factory. *)
#[local] Instance sample_monitoring : Monitoring := {|
  MetricFactory := bool;
  Registry := list bytes;
  InertMetricFactory := false;
  NewMetric f m reg :=
    if f then if bool_decide (m_name m ∈ reg) then None else Some (m_name m :: reg) else Some reg;
  names reg := reg
|}.
#[local] Instance sample_monitoring_laws : MonitoringLaws.
Proof.
  split. intros [] m reg Hm.
  - exists (m_name m :: reg). split; [cbn; by rewrite bool_decide_eq_false_2|done].
  - exists reg. split; [done|set_solver].
Qed.

(** Two controllers and three transactions, once without a factory. *)
Lemma metrics_created_sample :
  let p mf := Some (mf : bool) in
  ∃ v', create_each [(CommandNew, p true); (RestNew, p true); (BeginInternal, p true); (AWSProvider, p true); (BeginInternal, None);
    (RestNew, None); (BeginInternal, p true)] (mkMetricVars [] []) = Some v'.
Proof. apply metrics_created; [intros q n _ _; apply not_elem_of_nil|apply not_elem_of_nil|vm_compute; lia]. Qed.
(** Creating the AWS key manager a second time panics. *)
Lemma aws_metrics_twice : create_each [(AWSProvider, Some true); (AWSProvider, Some true)] (mkMetricVars [] []) = None.
Proof. vm_compute. reflexivity. Qed.

#[local] Instance sample_build_info : BuildInfo sample_world :=
  { time_text w := (w, "2021-01-01T00:00:00Z" : bytes); BuildVersion := [] }.
(** A request for the issuers is answered, and counted. *)
Lemma metrics_transparent_witness :
  let r := mkRequest "maple2021" [] (Ok None) in
  let h := Rest.GetIssuers (H := no_rpc_status) (H0 := ascii_only) sample_operation r in
  ∃ s, Rest.GetIssuers (H := no_rpc_status) (H0 := ascii_only) (metered_operation (H0 := ascii_only) (λ _, 5) r sample_operation) r
      ([], []) = (((h []).1, s), (h []).2) ∧
    s = [Added getIssuersCounter 1 "maple2021"; Observed getIssuersLatency 5 "maple2021"].
Proof.
  intros r h.
  destruct (metrics_transparent (H := no_rpc_status) (H0 := ascii_only) (BuildInfo0 := sample_build_info) (λ _, 5) sample_operation 5
    GetIssuersPath GET (Rest.GetIssuers (H := no_rpc_status) (H0 := ascii_only) sample_operation) GetIssuersPath GET
    (λ r, Rest.GetIssuers (H := no_rpc_status) (H0 := ascii_only) (metered_operation (H0 := ascii_only) (λ _, 5) r sample_operation) r)
    (Some (getIssuersCounter, getIssuersLatency, req_Alias)) eq_refl eq_refl eq_refl) as (_ & _ & Hm).
  destruct (Hm r [] []) as (s & E & _). exists s. split; [exact E|].
  vm_compute in E. injection E as <-. vm_compute. reflexivity.
Defined.
