(* ===== verification/ClientFacts.v ===== *)
(** * The client against the server

    The request of a client call to a server of a simple URL, what the client
    makes of the response of a handler, and the two end-to-end properties:
    a client reads the leaves the log holds, and a timestamp the server signed
    verifies. *)

From S2P Require Import Prelude GoStrings Utf GoJson GoFmt GoUrl UrlFacts Errors Codec Canonicalizer Models Effects.
From S2P Require Import Jcs JcsFacts LeafFacts Command Samples CommandFacts Rest RestFacts Client.

Open Scope Z_scope.

#[local] Opaque json_Marshal json_Encode json_Decode json_Unmarshal FormatInt FormatUint wrap_u64 wrap_s64
  MarshalCanonical Sha256.Sum256.

(** ** Requests *)

Section requests.
Context {W Loader : Type} `{!Libraries W Loader, !UnicodeTable}.

(** A server [scheme://host] and the alias of one of its logs. *)
Record site (scheme host alias : bytes) : Prop := mkSite {
  site_scheme : forallb is_lower scheme = true;
  site_scheme_ne : scheme ≠ [];
  site_host : forallb host_char host = true;
  site_authority : parseAuthority host = Ok (None, host);
  site_port : removeEmptyPort host = host;
  site_alias : forallb path_char alias = true
}.

Definition site_url (scheme host alias : bytes) : bytes := scheme ++ ("://" : bytes) ++ host ++ "/"%char :: alias.

(** The URL of an operation whose path goes on with [suffix] after the alias. *)
Definition target (scheme host alias suffix : bytes) (values : list (bytes * bytes)) : URL :=
  Url scheme [] None host ("/"%char :: alias ++ suffix) [] false
    (bool_decide (Values_Encode values = [])) (Values_Encode values) [] [].

Definition bearer (token : bytes) : option bytes :=
  if bool_decide (token = []) then None else Some (("Bearer " : bytes) ++ token).

(** What [do] makes of a response. *)
Definition receive {A} `{JsonCodec A} (resp : Z * result error bytes) : M W A :=
  if resp.1 =? StatusOK then
    body ← try id resp.2;
    match json_Decode body with
    | Ok x => mret x
    | Err e => fail (ENew (json_error_text e body))
    end
  else getError resp.2.

Lemma do_request {A} `{JsonCodec A} (c : Client W) scheme host alias suffix path op w :
  site scheme host alias → endpoint c = site_url scheme host alias →
  forallb path_char suffix = true → Replace1 path AliasPath ("/"%char :: alias) = "/"%char :: alias ++ suffix →
  do c path op w =
  (call (wrapf "http do")
     (http_Do c (mkHttpRequest (op_method op) (target scheme host alias suffix (op_values op)) (op_body op)
        (bearer (op_token op)))) ≫= receive) w.
Proof.
  intros [Hs Hne Hh Hauth Hport Ha] He Hx Hp. unfold do. rewrite He. unfold site_url.
  rewrite url_Parse_endpoint by done. rewrite try_ok. unfold new_request, request_url.
  cbn [Scheme Host Path]. rewrite Hp.
  assert (forallb path_char (alias ++ suffix) = true) as Hax by (by rewrite forallb_app, Ha).
  pose proof (url_Parse_query scheme host (alias ++ suffix) Hs Hne Hh Hauth Hax
                (Values_Encode (op_values op)) (Values_Encode_chars _)) as Hq.
  change (("?" : bytes) ++ Values_Encode (op_values op)) with ("?"%char :: Values_Encode (op_values op)).
  rewrite Hq. cbn [mbind result_bind Scheme Opaque User Host Path RawPath OmitHost ForceQuery RawQuery
    Fragment RawFragment]. rewrite try_ok. by rewrite Hport.
Qed.

(** ** Responses *)

(** The HTTP server answers with the response of a handler; a panic closes
    the connection. *)
Definition answer (o : W * outcome Response) : W * result error (Z * result error bytes) :=
  match o with
  | (w, Return r) => (w, Ok (resp_Status r, Ok (resp_Body r)))
  | (w, _) => (w, Err (ENew "EOF"))
  end.
End requests.

Section responses.
Context {W Loader : Type} `{!Libraries W Loader, !UnicodeTable, !GrpcStatus}.

Lemma receive_ok {A} `{JsonCodec A, !JsonCodecLaws A} (x : A) (w : W) :
  enc x ≠ JNull → wf x = true →
  receive (StatusOK, Ok (json_Encode x)) w = (w, Return (Some x)).
Proof.
  intros Hn Hx. unfold receive. cbn [fst snd]. change (StatusOK =? StatusOK) with true. cbv iota.
  rewrite try_ok. by rewrite Decode_Encode_ptr.
Qed.

(** A failed command reaches the client as an error with the same text. *)
Lemma receive_error {A} `{JsonCodec A} e (w : W) :
  StatusCodeFromError e ≠ StatusOK → valid_utf8 (Error e) = true →
  receive (A := A) (StatusCodeFromError e, Ok (json_Encode (ErrorResponse.mk (Error e)))) w =
  (w, Fail (ENew (Error e))).
Proof.
  intros Hs Hu. unfold receive. cbn [fst snd]. rewrite (proj2 (Z.eqb_neq _ _) Hs).
  unfold getError. rewrite try_ok. by rewrite Unmarshal_Encode_ptr.
Qed.

(** The server behind a client: requests to [path] are answered by [h]. *)
Definition served_by (c : Client W) (meth : method) (path alias : bytes) (h : Request → M W Response) : Prop :=
  ∀ q w, hr_Method q = meth → Path (hr_URL q) = path →
    http_Do c q w = answer (h (mkRequest alias (RawQuery (hr_URL q)) (Ok (hr_Body q))) w).

(** What the client sees of the outcome of a command. *)
Definition seen {A} `{JsonCodec A} (o : W * outcome bytes) : W * outcome A :=
  match o with
  | (w, Return out) => receive (StatusOK, Ok out) w
  | (w, Fail e) => receive (StatusCodeFromError e, Ok (json_Encode (ErrorResponse.mk (Error e)))) w
  | (w, Panic _) => (w, Fail (wrapf "http do" (ENew "EOF")))
  end.

Lemma do_served {A} `{JsonCodec A} (c : Client W) scheme host alias suffix path op h exec req w :
  site scheme host alias → endpoint c = site_url scheme host alias →
  forallb path_char suffix = true → Replace1 path AliasPath ("/"%char :: alias) = "/"%char :: alias ++ suffix →
  served_by c (op_method op) ("/"%char :: alias ++ suffix) alias h →
  h (mkRequest alias (Values_Encode (op_values op)) (Ok (op_body op))) = execute exec req →
  do c path op w = seen (A := A) (exec req w).
Proof.
  intros Hsite He Hx Hp Hserve Hh. rewrite (do_request c scheme host alias suffix) by done.
  unfold mbind, M_bind, call. rewrite (Hserve _ w) by done. cbn [hr_URL hr_Body target RawQuery].
  rewrite Hh, execute_spec. by destruct (exec req w) as [? []].
Qed.
End responses.

(** ** Timestamps verify *)

(** A leaf with another time. *)
Definition with_time (ts : Z) (leaf : MerkleTreeLeaf.t) : MerkleTreeLeaf.t :=
  MerkleTreeLeaf.mk (MerkleTreeLeaf.Version leaf) (MerkleTreeLeaf.LeafType leaf)
    ((λ e, TimestampedEntry.mk ts (TimestampedEntry.EntryType e) (TimestampedEntry.VCEntry e)
             (TimestampedEntry.Extensions e)) <$> MerkleTreeLeaf.TimestampedEntry leaf).

Section timestamps.
Context {W Loader : Type} `{!Libraries W Loader, !UnicodeTable, !KeyTypes, !ClientCrypto}.

(** What the services promise.  Canonical documents do not depend on the
    world; the clock is between 1970 and the year 287396; a log answers
    [QueueLeaf] with the leaf it has for the credential, queued now or at an
    earlier time; signatures verify under the exported key. *)
Record honest (c : Cmd W Loader) : Prop := mkHonest {
  honest_canonical d l w1 w1' x w2 :
    GetCanonicalDocument d l w1 = (w1', Ok x) → ∃ w2', GetCanonicalDocument d l w2 = (w2', Ok x);
  honest_clock w : is_small (wrap_u64 (Z.quot (UnixNano w).2 Millisecond)) = true;
  honest_queue alias log q w w' l leaf :
    logs c !! alias = Some log → rpc_QueueLeaf (Command.Client log) q w = (w', Ok (mkQueueLeafResponse (Some (Some l)))) →
    small_leaf leaf = true → LeafValue (ql_Leaf q) = Some (canon_text (enc leaf)) →
    ∃ ts, is_small ts = true ∧ LeafValue l = Some (canon_text (enc (with_time ts leaf)));
  honest_sign data w w' sig :
    Sign c data w = (w', Ok sig) →
    ∃ kh, PubKeyBytesToHandle (PubKey c) (SignatureAndHashAlgorithm.Type_ (alg c)) = Ok kh ∧
      Verify sig data kh = Ok ();
  honest_alg : wf (alg c) = true
}.

Lemma CreateLeaf_small ts vcBytes (loader : Loader) w w' leaf :
  is_small ts = true → CreateLeaf ts vcBytes loader w = (w', Return leaf) → small_leaf leaf = true.
Proof.
  intros Ht (doc & canonical & _ & _ & ->)%CreateLeaf_Return. unfold small_leaf, small_entry. cbn. by rewrite Ht.
Qed.

(** The same credential at another time gives the same leaf but for the time. *)
Lemma CreateLeaf_again c ts ts2 vcBytes (loader : Loader) w w' w2 leaf :
  honest c → CreateLeaf ts vcBytes loader w = (w', Return leaf) →
  ∃ w3, CreateLeaf ts2 vcBytes loader w2 = (w3, Return (with_time ts2 leaf)).
Proof.
  intros Hc (doc & canonical & Hd & Hg & ->)%CreateLeaf_Return.
  destruct (honest_canonical c Hc _ _ _ _ _ w2 Hg) as [w3 Hg2]. exists w3.
  unfold CreateLeaf. rewrite Hd. unfold mbind at 1, M_bind at 1. cbn [mret M_ret].
  by rewrite (call_ok _ _ _ _ _ _ Hg2).
Qed.

Lemma small_with_time ts leaf : is_small ts = true → small_leaf leaf = true → small_leaf (with_time ts leaf) = true.
Proof.
  intros Ht. unfold small_leaf, with_time. cbn. destruct (MerkleTreeLeaf.TimestampedEntry leaf) as [e|]; [|done].
  unfold small_entry. cbn. rewrite Ht. rewrite !andb_true_iff. tauto.
Qed.

(** What add-vc signed: the data of the leaf of the credential at the time of
    the response. *)
Lemma AddVC_signed c r w w' out :
  honest c → Command.AddVC c r w = (w', Return out) →
  ∃ req loader ts leaf vcts data sig w1 w2 w3,
    json_Decode (A := AddVCRequest.t) r = Ok req ∧ loaders c !! AddVCRequest.Alias req = Some loader ∧
    is_small ts = true ∧ CreateLeaf ts (default [] (AddVCRequest.VCEntry req)) loader w1 = (w2, Return leaf) ∧
    CreateVCTimestampSignature leaf = Some vcts ∧ MarshalCanonical (enc vcts) = Ok data ∧
    Sign c data w3 = (w', Ok sig) ∧
    out = json_Encode (AddVCResponse.mk V1 (Some (VCLogID c)) ts (b64_encode [])
            (Some (json_Marshal (DigitallySigned.mk (alg c) sig)))).
Proof.
  intros Hc (req & log & loader & vc & now & leaf & w1 & w2 & w3 & Hreq & Hl & _ & Hld & _ & _ & Hn & Hcl & Hx)%AddVC_Return.
  pose proof (honest_clock c Hc w1) as Hs. rewrite Hn in Hs. cbn [snd] in Hs.
  pose proof (CreateLeaf_small _ _ _ _ _ _ Hs Hcl) as Hsmall.
  apply queue_leaf_Return in Hx as (leafData & extraData & l & w4 & Hm & _ & Hq & Hx).
  rewrite MarshalCanonical_ok in Hm by (try apply leaf_canon_ok; done). injection Hm as <-.
  destruct (honest_queue c Hc _ _ _ _ _ _ leaf Hl Hq Hsmall eq_refl) as (ts & Hts & Hlv).
  apply sign_logged_Return in Hx as (logged & e & vcts & data & sig & Hu & He & Hcv & Hmd & Hsg & ->).
  rewrite Hlv in Hu. cbn [default] in Hu.
  change (json_Unmarshal (canon_text (enc (with_time ts leaf))) = Ok logged) in Hu.
  rewrite leaf_roundtrip in Hu by (by apply small_with_time). injection Hu as <-.
  destruct (CreateLeaf_again c _ ts _ _ _ _ w1 _ Hc Hcl) as [w5 Hagain].
  exists req, loader, ts, (with_time ts leaf), vcts, data, sig, w1, w5, w4.
  apply CreateLeaf_Return in Hcl as (doc & canonical & _ & _ & ->). cbn in He. injection He as <-.
  repeat split; assumption.
Qed.

Lemma Verify_signed c vcBytes (loader : Loader) ts leaf vcts data sig w1 w2 w3 w4 :
  honest c → CreateLeaf ts vcBytes loader w1 = (w2, Return leaf) →
  CreateVCTimestampSignature leaf = Some vcts → MarshalCanonical (enc vcts) = Ok data →
  Sign c data w3 = (w4, Ok sig) →
  ∀ w, ∃ w', VerifyVCTimestampSignature (json_Marshal (DigitallySigned.mk (alg c) sig)) (PubKey c) ts vcBytes
    loader w = (w', Return ()).
Proof.
  intros Hc Hcl Hcv Hmd Hs w. destruct (honest_sign c Hc _ _ _ _ Hs) as (kh & Hk & Hv).
  destruct (CreateLeaf_again c _ ts _ _ _ _ w _ Hc Hcl) as [w' Hagain]. exists w'.
  unfold VerifyVCTimestampSignature. rewrite Unmarshal_ptr by (try done; apply Hc).
  unfold mbind at 1, M_bind at 1. cbn [mret M_ret].
  assert (with_time ts leaf = leaf) as Hsame.
  { by apply CreateLeaf_Return in Hcl as (doc & canonical & _ & _ & ->). }
  rewrite Hsame in Hagain. erewrite bind_ret by (apply within_Return; exact Hagain).
  rewrite Hcv, Hmd, try_ok. cbn [DigitallySigned.Algorithm DigitallySigned.Signature].
  rewrite Hk, try_ok, Hv. done.
Qed.
End timestamps.


(** A verifier for the signatures of the examples. *)
Definition sample_crypto : ClientCrypto := {|
  KeyHandle := unit;
  PubKeyBytesToHandle _ _ := Ok ();
  Verify sig data _ := if bool_decide (sig = Some (("signed " : bytes) ++ data)) then Ok () else Err (ENew "bad signature");
  HashLeaf data := data
|}.

Lemma sample_honest :
  honest (Libraries0 := sample_libraries) (H1 := sample_crypto) sample_cmd.
Proof.
  split.
  - intros d l w1 w1' x w2 Hx. exists w2. by injection Hx as _ <-.
  - intros w. vm_compute. reflexivity.
  - intros alias log q w w' l leaf Hl Hq Hs Hv.
    assert (Command.Client log = sample_client) as Hc.
    { unfold sample_cmd in Hl. cbn [logs] in Hl. apply lookup_insert_Some in Hl as [[_ <-]|[_ Hl]]; [done|].
      by apply lookup_singleton_Some in Hl as [_ <-]. }
    rewrite Hc in Hq. injection Hq as _ <-. cbn [LeafValue]. rewrite Hv. destruct leaf as [v k [e|]].
    + exists (TimestampedEntry.Timestamp e). split; [|by destruct e].
      unfold small_leaf, small_entry in Hs. cbn in Hs. by apply andb_true_iff in Hs as [_ [??]%andb_true_iff].
    + by exists 0.
  - intros data w w' sig Hs. exists (). injection Hs as _ <-. split; [done|]. cbn. by rewrite bool_decide_eq_true_2.
  - reflexivity.
Qed.


(** ** Reading entries end to end *)

Section entries.
Context {W Loader : Type} `{!Libraries W Loader, !UnicodeTable, !KeyTypes}.

Definition entries_of (leaves : list LogLeaf) : GetEntriesResponse.t :=
  GetEntriesResponse.mk (Some (List.map (λ l, LeafEntry.mk (LeafValue l) (LeafExtraData l)) leaves)).

Lemma fetch_range_ok (log : Log W) start end_ count w w' resp root :
  rpc_GetLeavesByRange (Command.Client log) (mkGetLeavesByRangeRequest (ID log) start count) w = (w', Ok resp) →
  UnmarshalBinary (GetLogRoot (glr_SignedLogRoot resp)) = Ok root → wrap_u64 start < TreeSize root →
  Z.of_nat (length (glr_Leaves resp)) ≤ count →
  (∀ k l, glr_Leaves resp !! k = Some l → LeafIndex l = add64 start (Z.of_nat k)) →
  fetch_range log start end_ count w = (w', Return (json_Encode (entries_of (glr_Leaves resp)))).
Proof.
  intros Hr Hu Ht Hc Hi. apply fetch_range_Return. exists resp, root. repeat split; assumption.
Qed.

Lemma GetEntries_request (c : Cmd W Loader) r q log w :
  json_Decode r = Ok (Some q) → 0 ≤ GetEntriesRequest.Start q ≤ GetEntriesRequest.End_ q →
  logs c !! GetEntriesRequest.Alias q = Some log → read ∈ runes (Permission log) →
  Command.GetEntries c r w =
  fetch_range log (GetEntriesRequest.Start q)
    (clamp_end (GetEntriesRequest.Start q) (GetEntriesRequest.End_ q))
    (sub64 (add64 (clamp_end (GetEntriesRequest.Start q) (GetEntriesRequest.End_ q)) 1)
       (GetEntriesRequest.Start q)) w.
Proof.
  intros Hd Hv Hl Hp. unfold Command.GetEntries. erewrite bind_ret.
  - by rewrite (with_log_granted c _ read _ w log) by (done || by exists log).
  - assert (is_ok (GetEntriesRequest.Validate (Some q)) = true) as Hok by (apply Validate_entries; eauto).
    unfold decode_valid, decode_request. rewrite Hd.
    destruct (GetEntriesRequest.Validate (Some q)) as [[]|e] eqn:E; [|done].
    unfold mbind, M_bind. cbn [mret M_ret]. by rewrite E.
Qed.

Lemma entries_of_wf leaves : wf (entries_of leaves) = true.
Proof. done. Qed.
End entries.

(** C12: reading entries end to end.  A client of a server at a simple URL asks
    for the entries from [a] to [b]; the server grants reading to the alias,
    and its log answers for the clamped range with at most the leaves asked
    for, in order, of a tree that is larger than [a].  Then the call of the
    client, through the query string, the REST handler, the JSON request and
    the JSON response, returns exactly the values and extra data of these
    leaves. *)
Theorem client_GetEntries_end_to_end {W Loader : Type}
    `{!Libraries W Loader, !UnicodeTable, !KeyTypes, !GrpcStatus}
    (cl : Client W) (c : Cmd W Loader) ping health scheme host alias log a b w w' resp root :
  site scheme host alias → endpoint cl = site_url scheme host alias → valid_utf8 alias = true →
  served_by cl GET ("/"%char :: alias ++ ("/v1/get-entries" : bytes)) alias
    (Rest.GetEntries (mkOperation W (commands_of c) ping health)) →
  logs c !! alias = Some log → read ∈ runes (Permission log) →
  0 ≤ a ≤ b → b < int64_max →
  rpc_GetLeavesByRange (Command.Client log)
    (mkGetLeavesByRangeRequest (ID log) a (Z.min maxRange (b - a + 1))) w = (w', Ok resp) →
  UnmarshalBinary (GetLogRoot (glr_SignedLogRoot resp)) = Ok root → a < TreeSize root →
  Z.of_nat (length (glr_Leaves resp)) ≤ Z.min maxRange (b - a + 1) →
  (∀ k l, glr_Leaves resp !! k = Some l → LeafIndex l = a + Z.of_nat k) →
  Client.GetEntries cl a b w =
  (w', Return (Some (GetEntriesResponse.mk
    (Some (List.map (λ l, LeafEntry.mk (LeafValue l) (LeafExtraData l)) (glr_Leaves resp)))))).
Proof.
  intros Hsite He Hu Hserve Hl Hp Hab Hb Hr Hroot Ha Hlen Hidx.
  unfold Client.GetEntries, within.
  rewrite (do_served cl scheme host alias "/v1/get-entries" GetEntriesPath _
             (Rest.GetEntries (mkOperation W (commands_of c) ping health))
             (Command.GetEntries c) (json_Marshal (GetEntriesRequest.mk alias a b)) w); try done.
  2:{ unfold Rest.GetEntries. cbn [op_values op_body get_options].
      by rewrite (int_param_ok _ _ a), (int_param_ok _ _ b) by (rewrite ?FormValue_Encode; done || int_lia). }
  destruct (clamp_range a b) as [He1 He2]; [int_lia..|].
  rewrite (GetEntries_request c _ (GetEntriesRequest.mk alias a b) log) by
    first [done | apply decode_typed; [done|]; cbn -[valid_utf8 is_int64]; rewrite Hu; cbn [andb];
     rewrite !bool_decide_eq_true_2 by int_lia; done].
  cbn [GetEntriesRequest.Start GetEntriesRequest.End_]. rewrite He2.
  rewrite (fetch_range_ok log a _ _ w w' resp root); try done.
  - unfold seen. by rewrite receive_ok.
  - by rewrite wrap_u64_id by int_lia.
  - intros k l Hk. rewrite (Hidx k l Hk). unfold add64. rewrite wrap_s64_id; [done|].
    apply lookup_lt_Some in Hk. unfold maxRange in *. int_lia.
Qed.

(** A client of the server of the examples. *)
Definition sample_transport : HTTPClient sample_world := λ q w,
  answer (Rest.GetEntries (H := no_rpc_status) (H0 := ascii_only) sample_operation
    (mkRequest "maple2021" (RawQuery (hr_URL q)) (Ok (hr_Body q))) w).
Definition sample_rest_client : Client sample_world :=
  Client.New sample_transport (site_url "https" "vct.example.com" "maple2021") [].

Lemma client_GetEntries_end_to_end_witness :
  let l := mkLogLeaf (Some ("leaf" : bytes)) None None 0 in
  Client.GetEntries (Libraries0 := sample_libraries) (H := ascii_only) sample_rest_client 0 9 [l] =
  ([l], Return (Some (GetEntriesResponse.mk (Some [LeafEntry.mk (Some ("leaf" : bytes)) None])))).
Proof.
  apply (client_GetEntries_end_to_end (Libraries0 := sample_libraries) (H := ascii_only) (H0 := aries_key_types)
    (H1 := no_rpc_status) sample_rest_client sample_cmd None None "https" "vct.example.com" "maple2021" sample_log 0 9
    _ _ (mkGetLeavesByRangeResponse [mkLogLeaf (Some ("leaf" : bytes)) None None 0] (Some (Some ["."%char])))
    (mkLogRootV1 1 (Some ("root" : bytes)) 1636000000123000000)).
  - split; try reflexivity. done.
  - reflexivity.
  - reflexivity.
  - intros q w Hm Hp. reflexivity.
  - reflexivity.
  - vm_compute. set_solver.
  - lia.
  - unfold int64_max. lia.
  - reflexivity.
  - reflexivity.
  - cbn. lia.
  - unfold maxRange. cbn. lia.
  - intros [|k] l Hk; [by injection Hk as <-|done].
Defined.
