(* ===== verification/Postgres.v ===== *)
(** * The database behind the storage

    The tables of [pkg/storage/postgres/schema/storage.sql] as finite maps by
    primary key, its three insert functions, and transactions: a transaction
    works on its own copy of the tables, a failed statement aborts it, and
    committing installs the copy.  Transactions run one after the other;
    locks and interleaved commits are outside the model.  Any statement may
    fail for reasons of the connection: [fault n] is the error of the [n]-th
    statement, if any. *)

From S2P Require Import Prelude GoStrings Errors Effects.

Open Scope Z_scope.

(** ** Tables *)

(** [trees], the columns the program reads. *)
Record tree_row := mkTreeRow {
  t_state : bytes;
  t_type : bytes;
  t_display_name : bytes;
  t_description : bytes;
  t_create_millis : Z;
  t_update_millis : Z;
  t_max_root_millis : Z;
  t_deleted : bool;
  t_delete_millis : option Z;
  t_current_data : option bytes;
  t_root_signature : option bytes
}.
(** [tree_control], by tree. *)
Record control_row := mkControlRow { c_signing : bool; c_sequencing : bool; c_interval : Z }.
(** [tree_head], by tree and revision. *)
Record head_row := mkHeadRow { h_timestamp : Z; h_size : Z; h_root_hash : bytes; h_signature : bytes }.
(** [leaf_data], by tree and identity hash. *)
Record leaf_row := mkLeafRow { l_value : bytes; l_extra : option bytes; l_queue_nanos : Z }.
(** [sequenced_leaf_data], by tree and sequence number. *)
Record seq_row := mkSeqRow { s_identity : bytes; s_merkle : bytes; s_integrate_nanos : Z }.

Record db := mkDb {
  trees : gmap Z tree_row;
  tree_control : gmap Z control_row;
  (** by tree, subtree and revision *)
  subtree : gmap (Z * bytes * Z) bytes;
  tree_head : gmap (Z * Z) head_row;
  leaf_data : gmap (Z * bytes) leaf_row;
  sequenced_leaf_data : gmap (Z * Z) seq_row;
  (** by tree, queue time and identity hash, all in bucket 0: the Merkle hash *)
  unsequenced : gmap (Z * Z * bytes) bytes
}.

Definition set_trees d x := mkDb x (tree_control d) (subtree d) (tree_head d) (leaf_data d) (sequenced_leaf_data d) (unsequenced d).
Definition set_tree_control d x := mkDb (trees d) x (subtree d) (tree_head d) (leaf_data d) (sequenced_leaf_data d) (unsequenced d).
Definition set_subtree d x := mkDb (trees d) (tree_control d) x (tree_head d) (leaf_data d) (sequenced_leaf_data d) (unsequenced d).
Definition set_tree_head d x := mkDb (trees d) (tree_control d) (subtree d) x (leaf_data d) (sequenced_leaf_data d) (unsequenced d).
Definition set_leaf_data d x := mkDb (trees d) (tree_control d) (subtree d) (tree_head d) x (sequenced_leaf_data d) (unsequenced d).
Definition set_sequenced d x := mkDb (trees d) (tree_control d) (subtree d) (tree_head d) (leaf_data d) x (unsequenced d).
Definition set_unsequenced d x := mkDb (trees d) (tree_control d) (subtree d) (tree_head d) (leaf_data d) (sequenced_leaf_data d) x.

(** ** The insert functions of the schema

    A duplicate key is the result false; any other violation is reported as
    a notice, after which the function ends without a result, which is an
    error. *)

Definition pq_error (text : bytes) : error := EForeign (("pq: " : bytes) ++ text) None.
Definition no_return : error := pq_error "control reached end of function without RETURN".

Definition insert_leaf_data (tree_id : Z) (identity : bytes) (value extra : option bytes) (nanos : Z) (d : db) :
    result error (db * bool) :=
  match value, trees d !! tree_id with
  | Some v, Some _ =>
      match leaf_data d !! (tree_id, identity) with
      | Some _ => Ok (d, false)
      | None => Ok (set_leaf_data d (<[(tree_id, identity) := mkLeafRow v extra nanos]> (leaf_data d)), true)
      end
  | Some _, None =>
      (* the unique index is checked before the foreign key *)
      match leaf_data d !! (tree_id, identity) with
      | Some _ => Ok (d, false)
      | None => Err no_return
      end
  | None, _ => Err no_return
  end.

Definition insert_unsequenced (tree_id : Z) (identity : bytes) (merkle : option bytes) (nanos : Z) (d : db) :
    result error (db * bool) :=
  match merkle with
  | None => Err no_return
  | Some m =>
      match unsequenced d !! (tree_id, nanos, identity) with
      | Some _ => Ok (d, false)
      | None => Ok (set_unsequenced d (<[(tree_id, nanos, identity) := m]> (unsequenced d)), true)
      end
  end.

Definition insert_sequenced (tree_id number : Z) (identity : bytes) (merkle : option bytes) (nanos : Z) (d : db) :
    result error (db * bool) :=
  match merkle with
  | None => Err no_return
  | Some m =>
      match sequenced_leaf_data d !! (tree_id, number) with
      | Some _ => Ok (d, false)
      | None =>
          match trees d !! tree_id, leaf_data d !! (tree_id, identity) with
          | Some _, Some _ =>
              Ok (set_sequenced d (<[(tree_id, number) := mkSeqRow identity m nanos]> (sequenced_leaf_data d)), true)
          | _, _ => Err no_return
          end
      end
  end.

(** ** Transactions *)

(** An open transaction: its tables, its savepoints (all of one name) and
    whether a statement failed. *)
Record txn := mkTxn { work : db; savepoints : list db; aborted : bool }.

(** The server, and the program's cache of prepared statements by text and
    number of repetitions. *)
Record pg := mkPg {
  committed : db;
  txns : gmap nat txn;
  next_txn : nat;
  statements : nat;
  prepared : gmap (bytes * Z) bytes
}.

Definition with_txns w x := mkPg (committed w) x (next_txn w) (statements w) (prepared w).
Definition tick w := mkPg (committed w) (txns w) (next_txn w) (S (statements w)) (prepared w).

Definition ErrTxDone : error := ENew "sql: transaction has already been committed or rolled back".
Definition in_failed_txn : error := pq_error "current transaction is aborted, commands ignored until end of transaction block".

Section pg.
Context (fault : nat → option error).

(** [db.BeginTx]. *)
Definition BeginTx : M pg nat := λ w,
  match fault (statements w) with
  | Some e => (tick w, Fail e)
  | None =>
      (mkPg (committed w) (<[next_txn w := mkTxn (committed w) [] false]> (txns w)) (S (next_txn w))
         (S (statements w)) (prepared w), Return (next_txn w))
  end.

(** One statement of transaction [h]: [f] says what it does to the tables. *)
Definition statement {A} (h : nat) (f : db → result error (db * A)) : M pg A := λ w,
  match txns w !! h with
  | None => (w, Fail ErrTxDone)
  | Some t =>
      let failed e := (with_txns (tick w) (<[h := mkTxn (work t) (savepoints t) true]> (txns w)), Fail e) in
      if aborted t then (tick w, Fail in_failed_txn)
      else match fault (statements w) with
           | Some e => failed e
           | None =>
               match f (work t) with
               | Ok (d, a) => (with_txns (tick w) (<[h := mkTxn d (savepoints t) false]> (txns w)), Return a)
               | Err e => failed e
               end
           end
  end.

Definition query {A} (h : nat) (f : db → A) : M pg A := statement h (λ d, Ok (d, f d)).

(** [SAVEPOINT], [ROLLBACK TO SAVEPOINT], [RELEASE SAVEPOINT] of one name: the
    newest one counts. *)
Definition savepoint (h : nat) : M pg unit := λ w,
  match statement h (λ d, Ok (d, ())) w with
  | (w', Return _) =>
      match txns w' !! h with
      | Some t => (with_txns w' (<[h := mkTxn (work t) (work t :: savepoints t) false]> (txns w')), Return ())
      | None => (w', Fail ErrTxDone)
      end
  | o => o
  end.

Definition no_savepoint : error := pq_error "savepoint does not exist".

(** Rolling back also ends the failure of the transaction. *)
Definition rollback_to (h : nat) : M pg unit := λ w,
  match txns w !! h with
  | None => (w, Fail ErrTxDone)
  | Some t =>
      match fault (statements w), savepoints t with
      | Some e, _ => (with_txns (tick w) (<[h := mkTxn (work t) (savepoints t) true]> (txns w)), Fail e)
      | None, s :: ss => (with_txns (tick w) (<[h := mkTxn s (s :: ss) false]> (txns w)), Return ())
      | None, [] => (with_txns (tick w) (<[h := mkTxn (work t) [] true]> (txns w)), Fail no_savepoint)
      end
  end.

Definition release (h : nat) : M pg unit := λ w,
  match statement h (λ d, Ok (d, ())) w with
  | (w', Return _) =>
      match txns w' !! h with
      | Some (mkTxn d (_ :: ss) _) => (with_txns w' (<[h := mkTxn d ss false]> (txns w')), Return ())
      | Some (mkTxn d [] _) => (with_txns w' (<[h := mkTxn d [] true]> (txns w')), Fail no_savepoint)
      | None => (w', Fail ErrTxDone)
      end
  | o => o
  end.

(** [tx.Commit]: a failed transaction is rolled back and reported; in every
    case the transaction is over. *)
Definition sql_Commit (h : nat) : M pg unit := λ w,
  match txns w !! h with
  | None => (w, Fail ErrTxDone)
  | Some t =>
      let over := with_txns (tick w) (delete h (txns w)) in
      if aborted t then (over, Fail (pq_error "Could not complete operation in a failed transaction"))
      else match fault (statements w) with
           | Some e => (over, Fail e)
           | None => (mkPg (work t) (txns over) (next_txn over) (statements over) (prepared over), Return ())
           end
  end.

(** [tx.Rollback]. *)
Definition sql_Rollback (h : nat) : M pg unit := λ w,
  match txns w !! h with
  | None => (w, Fail ErrTxDone)
  | Some t =>
      let over := with_txns (tick w) (delete h (txns w)) in
      match fault (statements w) with
      | Some e => (over, Fail e)
      | None => (over, Return ())
      end
  end.

(** [db.PrepareContext] outside transactions; the statement is its text. *)
Definition Prepare (text : bytes) : M pg bytes := λ w,
  match fault (statements w) with
  | Some e => (tick w, Fail e)
  | None => (tick w, Return text)
  end.
End pg.
