(* ===== verification/TreeStorage.v ===== *)
(** * Tree storage

    [pkg/storage/postgres/tree_storage.go]: SQL statements with a variable
    number of parameters and their cache, and the transaction on a tree. *)

From S2P Require Import Prelude GoStrings GoFmt Errors Effects Postgres.

Open Scope Z_scope.

(** ** Statements *)

Definition placeholderSQL : bytes := "<placeholder>".
Definition paramSQL : bytes := "<param>".

Definition insertSubtreeMultiSQL : bytes :=
  ("INSERT INTO subtree(tree_id, subtree_id, nodes, subtree_revision) " : bytes) ++ placeholderSQL.
(** A line of a raw string: a line feed and tabs. *)
Definition nl (tabs : nat) (text : bytes) : bytes := chr 10 :: replicate tabs (chr 9) ++ text.
Definition selectSubtreeSQL : bytes :=
  nl 2 "SELECT x.subtree_id, x.max_revision, subtree.nodes" ++
  nl 2 "FROM (" ++
  nl 3 "SELECT n.subtree_id, max(n.subtree_revision) AS max_revision" ++
  nl 3 "FROM subtree n" ++
  nl 3 "WHERE n.subtree_id IN (" ++ placeholderSQL ++ ") AND" ++
  nl 3 "n.tree_id = <param> AND n.subtree_revision <= <param>" ++
  nl 3 "GROUP BY n.subtree_id" ++
  nl 2 ") AS x" ++
  nl 2 "INNER JOIN subtree" ++
  nl 2 "ON subtree.subtree_id = x.subtree_id" ++
  nl 2 "AND subtree.subtree_revision = x.max_revision" ++
  nl 2 "AND subtree.tree_id = <param>".

Record statementSkeleton := mkSkeleton {
  sk_sql : bytes;
  firstInsertion : bytes;
  firstPlaceholders : Z;
  restInsertion : bytes;
  restPlaceholders : Z;
  num : Z
}.

(** [fmt.Sprintf] of string arguments with the verb [%s]. *)
Fixpoint Sprintf_s (format : bytes) (args : list bytes) : bytes :=
  match format with
  | [] =>
      match args with
      | [] => []
      | a :: args' =>
          ("%!(EXTRA string=" : bytes) ++ a ++ (args' ≫= λ x, (", string=" : bytes) ++ x) ++ [")"%char]
      end
  | c :: f' =>
      match f' with
      | d :: f2 =>
          if bool_decide (c = "%"%char) && bool_decide (d = "s"%char) then
            match args with
            | a :: args' => a ++ Sprintf_s f2 args'
            | [] => ("%!s(MISSING)" : bytes) ++ Sprintf_s f2 []
            end
          else c :: Sprintf_s f' args
      | [] => c :: Sprintf_s f' args
      end
  end.

(** [fmt.Sprintf("$%d", i)]. *)
Definition dollar (i : Z) : bytes := "$"%char :: FormatInt i.

Definition Repeat (s : bytes) (n : nat) : bytes := concat (replicate n s).

Definition expandPlaceholderSQL (sk : statementSkeleton) : result error bytes :=
  if num sk <=? 0
  then Err (ENew (("trying to expand SQL placeholder with <= 0 parameters: " : bytes) ++ sk_sql sk))
  else
    let restCount := num sk - 1 in
    let totalArray := dollar <$> seqZ 1 (firstPlaceholders sk + restPlaceholders sk * restCount) in
    let first := take (Z.to_nat (firstPlaceholders sk)) totalArray in
    let rest := drop (Z.to_nat (firstPlaceholders sk)) totalArray in
    Ok (Replace1 (sk_sql sk) placeholderSQL
      (Sprintf_s (firstInsertion sk) first ++
       Sprintf_s (Repeat (","%char :: restInsertion sk) (Z.to_nat restCount)) rest)).

(** The loop that numbers the parameters [<param>]; each turn removes one. *)
Fixpoint number_params (fuel : nat) (counter : Z) (statement : bytes) : bytes :=
  match fuel with
  | O => statement
  | S f =>
      if Contains statement paramSQL
      then number_params f (counter + 1) (Replace1 statement paramSQL (dollar counter))
      else statement
  end.

Definition stmt_text (sk : statementSkeleton) : result error bytes :=
  statement ← expandPlaceholderSQL sk;
  Ok (number_params (length statement) (restPlaceholders sk * num sk + 1) statement).

Definition set_prepared (w : pg) x := mkPg (committed w) (txns w) (next_txn w) (statements w) x.

Section tree_storage.
Context (fault : nat → option error).

(** [getStmt]: the cache is by text and number. *)
Definition remember (sk : statementSkeleton) (s : bytes) : M pg bytes := λ w,
  (set_prepared w (<[(sk_sql sk, num sk) := s]> (prepared w)), Return s).
Definition prepare_new (sk : statementSkeleton) : M pg bytes :=
  statement ← try id (stmt_text sk);
  s ← Prepare fault statement;
  remember sk s.
Definition getStmt (sk : statementSkeleton) : M pg bytes := λ w,
  match prepared w !! (sk_sql sk, num sk) with
  | Some s => (w, Return s)
  | None => prepare_new sk w
  end.

Definition list_skeleton (sql : bytes) (n : Z) : statementSkeleton := mkSkeleton sql "%s" 1 "%s" 1 n.

Definition getSubtreeStmt (n : Z) : M pg bytes := getStmt (list_skeleton selectSubtreeSQL n).

Definition setSubtreeStmt (n : Z) : M pg bytes :=
  getStmt (mkSkeleton insertSubtreeMultiSQL "VALUES(%s, %s, %s, %s)" 4 "(%s, %s, %s, %s)" 4 n).

(** ** Transactions on a tree *)

(** [storagepb.SubtreeProto], with its serialization. *)
Record SubtreeProto := mkSubtree { Prefix : option bytes; st_rest : bytes }.
Context (proto_Marshal : SubtreeProto → result error bytes) (proto_Unmarshal : bytes → result error SubtreeProto).

(** The subtree cache of Trillian: its dirty subtrees, and what setting a node
    does, given a way to load a subtree. *)
Context {SubtreeCache NodeID : Type}.
Context (dirty : SubtreeCache → list SubtreeProto).
Context (SetNodeHash : SubtreeCache → NodeID → bytes → (bytes → M pg (option SubtreeProto)) → M pg SubtreeCache).

Inductive TreeType := LOG | PREORDERED_LOG | OTHER_TREE.
#[global] Instance TreeType_eq_dec : EqDecision TreeType.
Proof. solve_decision. Defined.

Record Tree := mkTree { TreeId : Z; Tree_TreeType : TreeType }.

Record treeTX := mkTreeTX {
  closed : bool;
  tx : nat;
  treeID : Z;
  treeType : TreeType;
  hashSizeBytes : Z;
  subtreeCache : SubtreeCache;
  writeRevision : Z
}.
Definition set_closed (t : treeTX) : treeTX :=
  mkTreeTX true (tx t) (treeID t) (treeType t) (hashSizeBytes t) (subtreeCache t) (writeRevision t).
Definition set_cache (t : treeTX) (c : SubtreeCache) : treeTX :=
  mkTreeTX (closed t) (tx t) (treeID t) (treeType t) (hashSizeBytes t) c (writeRevision t).
Definition set_writeRevision (t : treeTX) (r : Z) : treeTX :=
  mkTreeTX (closed t) (tx t) (treeID t) (treeType t) (hashSizeBytes t) (subtreeCache t) r.

Definition beginTreeTx (tree : Tree) (hashSize : Z) (cache : SubtreeCache) : M pg treeTX :=
  t ← BeginTx fault;
  mret (mkTreeTX false t (TreeId tree) (Tree_TreeType tree) hashSize cache (-1)).

(** The latest revision of a subtree up to [rev]. *)
Definition latest_revision (d : db) (tree : Z) (id : bytes) (rev : Z) : option Z :=
  foldr (λ k acc, if bool_decide (k.1 = (tree, id)) && (k.2 <=? rev)
                  then Some (match acc with Some r => Z.max r k.2 | None => k.2 end) else acc)
    None (map_to_list (subtree d)).*1.

(** The rows of [selectSubtreeSQL]: one per identifier that has a revision. *)
Definition select_subtrees (tree rev : Z) (ids : list bytes) (d : db) : list (bytes * Z * bytes) :=
  remove_dups ids ≫= λ id,
    match latest_revision d tree id rev with
    | Some r => match subtree d !! (tree, id, r) with Some nodes => [(id, r, nodes)] | None => [] end
    | None => []
    end.

Definition with_prefix (s : SubtreeProto) : SubtreeProto :=
  mkSubtree (Some (default [] (Prefix s))) (st_rest s).

Fixpoint read_subtrees (rows : list (bytes * Z * bytes)) : result error (list SubtreeProto) :=
  match rows with
  | [] => Ok []
  | (_, _, nodes) :: rows' =>
      s ← proto_Unmarshal nodes;
      rest ← read_subtrees rows';
      Ok (with_prefix s :: rest)
  end.

(** Revisions are a 32-bit column. *)
Definition is_int4 (n : Z) : bool := (-2147483648 <=? n) && (n <? 2147483648).
Definition out_of_range : error := pq_error "value is out of range for type integer".

Definition getSubtrees (t : treeTX) (treeRevision : Z) (ids : list bytes) : M pg (list SubtreeProto) :=
  if bool_decide (ids = []) then mret []
  else
    _ ← getSubtreeStmt (Z.of_nat (length ids));
    rows ← statement fault (tx t) (λ d,
      if is_int4 treeRevision then Ok (d, select_subtrees (treeID t) treeRevision ids d) else Err out_of_range);
    try id (read_subtrees rows).

Definition getSubtreesAtRev (t : treeTX) (rev : Z) : list bytes → M pg (list SubtreeProto) := getSubtrees t rev.

Definition getSubtree (t : treeTX) (treeRevision : Z) (id : bytes) : M pg (option SubtreeProto) :=
  s ← getSubtrees t treeRevision [id];
  match s with
  | [] => mret None
  | [x] => mret (Some x)
  | _ => fail (ENew (("got " : bytes) ++ FormatInt (Z.of_nat (length s)) ++ " subtrees, but expected 1"))
  end.

(** One multi-row insert: all rows or, on a duplicate key, none. *)
Fixpoint insert_subtrees (tree rev : Z) (rows : list (bytes * bytes)) (d : db) : result error (db * unit) :=
  match rows with
  | [] => Ok (d, ())
  | (prefix, nodes) :: rows' =>
      match trees d !! tree, subtree d !! (tree, prefix, rev) with
      | Some _, None => insert_subtrees tree rev rows' (set_subtree d (<[(tree, prefix, rev) := nodes]> (subtree d)))
      | Some _, Some _ => Err (pq_error "duplicate key value violates unique constraint")
      | None, _ => Err (pq_error "insert or update on table violates foreign key constraint")
      end
  end.

Fixpoint marshal_subtrees (subtrees : list SubtreeProto) : M pg (list (bytes * bytes)) :=
  match subtrees with
  | [] => mret []
  | s :: rest =>
      match Prefix s with
      | None => panic "nil prefix"
      | Some p =>
          b ← try id (proto_Marshal s);
          l ← marshal_subtrees rest;
          mret ((p, b) :: l)
      end
  end.

Definition storeSubtrees (t : treeTX) (subtrees : list SubtreeProto) : M pg unit :=
  if bool_decide (subtrees = []) then mret ()
  else
    rows ← marshal_subtrees subtrees;
    _ ← setSubtreeStmt (Z.of_nat (length subtrees));
    statement fault (tx t) (λ d,
      if is_int4 (writeRevision t) then insert_subtrees (treeID t) (writeRevision t) rows d else Err out_of_range).

(** [Flush] of the cache writes its dirty subtrees. *)
Definition flush (t : treeTX) : M pg unit :=
  if -1 <? writeRevision t then storeSubtrees t (dirty (subtreeCache t)) else mret ().

(** [Commit], [Rollback] and [Close] return the transaction with its flag. *)
Definition Commit (t : treeTX) : M pg (treeTX * option error) := λ w,
  match flush t w with
  | (w1, Return _) =>
      match sql_Commit fault (tx t) w1 with
      | (w2, Fail e) => (w2, Return (set_closed t, Some e))
      | (w2, _) => (w2, Return (set_closed t, None))
      end
  | (w1, Fail e) => (w1, Return (t, Some e))
  | (w1, Panic p) => (w1, Panic p)
  end.

Definition Rollback (t : treeTX) : M pg (treeTX * option error) := λ w,
  match sql_Rollback fault (tx t) w with
  | (w1, Fail e) => (w1, Return (set_closed t, Some e))
  | (w1, _) => (w1, Return (set_closed t, None))
  end.

Definition Close (t : treeTX) : M pg (treeTX * option error) :=
  if closed t then mret (t, None) else Rollback t.

Definition IsOpen (t : treeTX) : bool := negb (closed t).

Fixpoint SetMerkleNodes (t : treeTX) (nodes : list (NodeID * bytes)) : M pg treeTX :=
  match nodes with
  | [] => mret t
  | (id, hash) :: rest =>
      c ← SetNodeHash (subtreeCache t) id hash (getSubtree t (writeRevision t));
      SetMerkleNodes (set_cache t c) rest
  end.
End tree_storage.

(** [checkResultOkAndRowCountIs]: the result of a statement is the number of
    rows it affected. *)
Definition checkResultOkAndRowCountIs (res : result error Z) (count : Z) : result error unit :=
  n ← res;
  if n =? count then Ok ()
  else Err (ENew (("expected " : bytes) ++ FormatInt count ++ " row(s) to be affected but saw: " ++ FormatInt n)).
