(* ===== verification/LogStorage.v ===== *)
(** * Log storage

    [pkg/storage/postgres/log_storage.go] and [queue.go]: queueing, dequeueing
    and sequencing leaves, reading them back, and the signed roots, over the
    database of [Postgres].  Metrics and log lines are left out; timestamps
    are nanoseconds since 1970. *)

From stdpp Require Import sorting.
From S2P Require Import Prelude GoStrings Utf GoFmt Errors Effects Postgres TreeStorage.

Open Scope Z_scope.

(** ** Leaves and roots *)

Record leaf := mkLeaf {
  lf_merkle : option bytes;
  lf_value : option bytes;
  lf_extra : option bytes;
  lf_index : Z;
  lf_identity : bytes;
  lf_queue : option Z;
  lf_integrate : option Z
}.
Definition set_queue_time (t : Z) (l : leaf) : leaf :=
  mkLeaf (lf_merkle l) (lf_value l) (lf_extra l) (lf_index l) (lf_identity l) (Some t) (lf_integrate l).

(** [types.LogRootV1]. *)
Record LogRoot := mkLogRoot {
  r_TreeSize : Z; r_RootHash : bytes; r_TimestampNanos : Z; r_Revision : Z; r_Metadata : bytes
}.
Definition zero_root : LogRoot := mkLogRoot 0 [] 0 0 [].

(** The serializations of a root, in the types package and as JSON; the code
    ignores the errors of two of them. *)
Class RootCodec := {
  root_MarshalBinary : LogRoot → bytes;
  root_UnmarshalBinary : bytes → result error LogRoot;
  root_json : LogRoot → bytes;
  root_of_json : bytes → LogRoot
}.

(** [status.Errorf]: the text names the code. *)
Definition code_text (c : rpc_code) : bytes :=
  match c with
  | OK => "OK" | Canceled => "Canceled" | Unknown => "Unknown" | InvalidArgument => "InvalidArgument"
  | DeadlineExceeded => "DeadlineExceeded" | NotFound => "NotFound" | AlreadyExists => "AlreadyExists"
  | PermissionDenied => "PermissionDenied" | ResourceExhausted => "ResourceExhausted"
  | FailedPrecondition => "FailedPrecondition" | Aborted => "Aborted" | OutOfRange => "OutOfRange"
  | Unimplemented => "Unimplemented" | Internal => "Internal" | Unavailable => "Unavailable"
  | DataLoss => "DataLoss" | Unauthenticated => "Unauthenticated"
  | OtherCode n => ("Code(" : bytes) ++ FormatInt n ++ [")"%char]
  end.
Definition status_Errorf (c : rpc_code) (msg : bytes) : error :=
  EForeign (("rpc error: code = " : bytes) ++ code_text c ++ " desc = " ++ msg) None.

Definition ErrTreeNeedsInit : error := ENew "tree needs initialization".

(** ** Queries *)

Definition orderBySequenceNumberSQL : bytes := " ORDER BY s.sequence_number".
(** A line of a raw string that is indented with spaces. *)
Definition sl (text : bytes) : bytes := chr 10 :: replicate 24 " "%char ++ text.
Definition leaf_columns : bytes :=
  "l.leaf_identity_hash,l.leaf_value,s.sequence_number,l.extra_data,l.queue_timestamp_nanos,s.integrate_timestamp_nanos".
Definition selectLeavesByMerkleHashSQL : bytes :=
  "SELECT s.merkle_leaf_hash," ++ leaf_columns ++
  sl "FROM leaf_data l,sequenced_leaf_data s" ++
  sl "WHERE l.leaf_identity_hash = s.leaf_identity_hash" ++
  sl "AND s.merkle_leaf_hash IN (" ++ placeholderSQL ++ ") AND l.tree_id = <param> AND s.tree_id = l.tree_id".
Definition selectLeavesByMerkleHashOrderedBySequenceSQL : bytes :=
  selectLeavesByMerkleHashSQL ++ orderBySequenceNumberSQL.
Definition dummymerkleLeafHash : bytes := "00000000000000000000000000000000".
Definition selectLeavesByLeafIdentityHashSQL : bytes :=
  "SELECT '" ++ dummymerkleLeafHash ++
  "',l.leaf_identity_hash,l.leaf_value,-1,l.extra_data,l.queue_timestamp_nanos,s.integrate_timestamp_nanos" ++
  sl "FROM leaf_data l LEFT JOIN sequenced_leaf_data s ON (l.leaf_identity_hash = s.leaf_identity_hash AND l.tree_id = s.tree_id)" ++
  sl "WHERE l.leaf_identity_hash IN (" ++ placeholderSQL ++ ") AND l.tree_id = <param>".

(** A leaf from the row of [leaf_data] and the row of [sequenced_leaf_data]. *)
Definition joined_leaf (identity : bytes) (l : leaf_row) (n : Z) (s : seq_row) : leaf :=
  mkLeaf (Some (s_merkle s)) (Some (l_value l)) (l_extra l) n identity (Some (l_queue_nanos l))
    (Some (s_integrate_nanos s)).

(** The sequenced leaves of a tree: the join, by sequence number. *)
Definition seq_numbers (tree : Z) (d : db) : list Z :=
  merge_sort Z.le (omap (λ k, if k.1 =? tree then Some k.2 else None) (map_to_list (sequenced_leaf_data d)).*1).
Definition joined_at (tree : Z) (d : db) (n : Z) : option leaf :=
  s ← sequenced_leaf_data d !! (tree, n);
  l ← leaf_data d !! (tree, s_identity s);
  Some (joined_leaf (s_identity s) l n s).
Definition joined (tree : Z) (d : db) : list leaf := omap (joined_at tree d) (seq_numbers tree d).

(** [selectLeavesByRangeSQL]. *)
Definition select_range (tree lo hi : Z) (d : db) : list leaf :=
  List.filter (λ l, (lo <=? lf_index l) && (lf_index l <? hi)) (joined tree d).

(** [selectLeavesByMerkleHashSQL]; without an order the rows come as the
    model lists them. *)
Definition select_by_merkle (tree : Z) (hashes : list bytes) (d : db) : list leaf :=
  List.filter (λ l, existsb (λ h, bool_decide (lf_merkle l = Some h)) hashes) (joined tree d).

(** [selectLeavesByLeafIdentityHashSQL]: a row per sequenced entry of the
    leaf, or one row without. *)
Definition select_by_identity (tree : Z) (hashes : list bytes) (d : db) : list leaf :=
  remove_dups hashes ≫= λ h,
    match leaf_data d !! (tree, h) with
    | None => []
    | Some l =>
        let row ts := mkLeaf (Some dummymerkleLeafHash) (Some (l_value l)) (l_extra l) (-1) h (Some (l_queue_nanos l)) ts in
        match List.filter (λ j, beq (lf_identity j) h) (joined tree d) with
        | [] => [row None]
        | js => (λ j, row (lf_integrate j)) <$> js
        end
    end.

(** [selectQueuedLeavesSQL]. *)
Definition queue_le (a b : Z * bytes) : Prop := a.1 < b.1 ∨ (a.1 = b.1 ∧ bytes_ltb b.2 a.2 = false).
#[global] Instance queue_le_dec a b : Decision (queue_le a b).
Proof. unfold queue_le. apply _. Defined.
Definition select_queued (tree cutoff limit : Z) (d : db) : list (Z * bytes * bytes) :=
  let due := omap (λ kv : Z * Z * bytes * bytes,
    let '(t, ts, id) := kv.1 in
    if (t =? tree) && (ts <=? cutoff) then Some (ts, id) else None) (map_to_list (unsequenced d)) in
  omap (λ k, (λ m, (k.1, k.2, m)) <$> unsequenced d !! (tree, k.1, k.2))
    (take (Z.to_nat limit) (merge_sort queue_le due)).

(** [deleteUnsequencedSQL]: the number of rows deleted. *)
Definition delete_unsequenced (tree ts : Z) (id : bytes) (d : db) : result error (db * Z) :=
  match unsequenced d !! (tree, ts, id) with
  | Some _ => Ok (set_unsequenced d (delete (tree, ts, id) (unsequenced d)), 1)
  | None => Ok (d, 0)
  end.

Section log_storage.
Context (fault : nat → option error) `{!RootCodec}.
Context {SubtreeCache : Type} (dirty : SubtreeCache → list SubtreeProto) (newCache : SubtreeCache).
Context (proto_Marshal : SubtreeProto → result error bytes).
(** [sort.Sort] by identity hash, with the positions. *)
Context (sort_leaves : list (nat * leaf) → list (nat * leaf)).
(** The error of [CheckValid] on a nil timestamp. *)
Context (nil_timestamp : error).

Abbreviation treeTX := (treeTX (SubtreeCache := SubtreeCache)).

Definition getLeavesByMerkleHashStmt (n : Z) (orderBySequence : bool) : M pg bytes :=
  getStmt fault (list_skeleton
    (if orderBySequence then selectLeavesByMerkleHashOrderedBySequenceSQL else selectLeavesByMerkleHashSQL) n).
Definition getLeavesByLeafIdentityHashStmt (n : Z) : M pg bytes :=
  getStmt fault (list_skeleton selectLeavesByLeafIdentityHashSQL n).

(** ** Transactions on a log *)

Record logTreeTX := mkLogTX { ttx : treeTX; root : LogRoot; slr : option bytes }.
Definition set_ttx (t : logTreeTX) (x : treeTX) : logTreeTX := mkLogTX x (root t) (slr t).

(** Errors of this query are ignored: without a row there is no root. *)
Definition fetchLatestRoot (t : treeTX) : M pg (option bytes) := λ w,
  match query fault (tx t) (λ d, trees d !! treeID t ≫= t_current_data) w with
  | (w', Return (Some json)) => (w', Return (Some (root_MarshalBinary (root_of_json json))))
  | (w', Panic p) => (w', Panic p)
  | (w', _) => (w', Return None)
  end.

(** The size of a SHA-256 hash. *)
Definition rfc6962_size : Z := 32.

(** The transaction, and whether the tree needs initialization. *)
Definition beginInternal (tree : Tree) : M pg (logTreeTX * bool) :=
  t ← beginTreeTx fault tree rfc6962_size newCache;
  s ← fetchLatestRoot t;
  match s with
  | None => mret (mkLogTX t zero_root None, true)
  | Some b =>
      match root_UnmarshalBinary b with
      | Err e => _ ← Rollback fault t; fail e
      | Ok r => mret (mkLogTX (set_writeRevision t (add64 (wrap_s64 (r_Revision r)) 1)) r (Some b), false)
      end
  end.

Definition log_Commit (t : logTreeTX) : M pg (logTreeTX * option error) :=
  '(x, e) ← Commit fault proto_Marshal dirty (ttx t); mret (set_ttx t x, e).
Definition log_Close (t : logTreeTX) : M pg (logTreeTX * option error) :=
  '(x, e) ← Close fault (ttx t); mret (set_ttx t x, e).

(** Runs [f] and, however it ends, closes the transaction. *)
Definition with_close (t : logTreeTX) (f : M pg (logTreeTX * option error)) : M pg unit := λ w,
  match f w with
  | (w1, Return (t', None)) => ((log_Close t' w1).1, Return ())
  | (w1, Return (t', Some e)) => ((log_Close t' w1).1, Fail e)
  | (w1, Fail e) => ((log_Close t w1).1, Fail e)
  | (w1, Panic p) => ((log_Close t w1).1, Panic p)
  end.

(** [f] returns the transaction as it left it, and its error. *)
Definition ReadWriteTransaction (tree : Tree) (f : logTreeTX → M pg (logTreeTX * option error)) : M pg unit :=
  '(t, _) ← beginInternal tree;
  with_close t
    ('(t1, e) ← f t;
     match e with
     | Some e => mret (t1, Some e)
     | None => log_Commit t1
     end).

Definition SnapshotForTree (tree : Tree) : M pg (logTreeTX * bool) := beginInternal tree.

Definition ReadRevision (t : logTreeTX) : Z := wrap_s64 (r_Revision (root t)).
Definition WriteRevision (t : logTreeTX) : result error Z :=
  if writeRevision (ttx t) <? 0 then Err (ENew "logTreeTX write revision not populated")
  else Ok (writeRevision (ttx t)).
Definition LatestSignedLogRoot (t : logTreeTX) : option bytes := slr t.

(** Nodes of the tree at the revision of the root, through the cache, whose
    [GetNodes] is Trillian's. *)
Definition GetMerkleNodes {NodeID Node} (proto_Unmarshal : bytes → result error SubtreeProto)
    (GetNodes : SubtreeCache → list NodeID → (list bytes → M pg (list SubtreeProto)) → M pg (SubtreeCache * list Node))
    (t : logTreeTX) (ids : list NodeID) : M pg (logTreeTX * list Node) :=
  '(c, nodes) ← GetNodes (subtreeCache (ttx t)) ids
     (getSubtreesAtRev fault proto_Unmarshal (ttx t) (wrap_s64 (r_Revision (root t))));
  mret (set_ttx t (set_cache (ttx t) c), nodes).

(** ** Reading leaves *)

(** [make([]T, 0, n)] for elements of [size] bytes, on a 64-bit machine. *)
Definition make_slice (size n : Z) : M pg unit :=
  if (n <? 0) || (2 ^ 48 <? size * n) then panic "runtime error: makeslice: cap out of range" else mret ().

(** [getLeavesByHashInternal] on the rows of its statement. *)
Fixpoint check_rows (t : logTreeTX) (desc : bytes) (rows : list leaf) : result error (list leaf) :=
  match rows with
  | [] => Ok []
  | l :: rest =>
      let got := Z.of_nat (length (default [] (lf_merkle l))) in
      if got =? hashSizeBytes (ttx t) then r ← check_rows t desc rest; Ok (l :: r)
      else Err (ENew (("logID: " : bytes) ++ FormatInt (treeID (ttx t)) ++ " Scanned leaf " ++ desc ++
             " does not have hash length " ++ FormatInt (hashSizeBytes (ttx t)) ++ ", got " ++ FormatInt got))
  end.
Definition getLeavesByHashInternal (t : logTreeTX) (select : db → list leaf) (desc : bytes) : M pg (list leaf) :=
  rows ← query fault (tx (ttx t)) select;
  try id (check_rows t desc rows).

Definition GetLeavesByHash (t : logTreeTX) (leafHashes : list bytes) (orderBySequence : bool) : M pg (list leaf) :=
  _ ← getLeavesByMerkleHashStmt (Z.of_nat (length leafHashes)) orderBySequence;
  getLeavesByHashInternal t (select_by_merkle (treeID (ttx t)) leafHashes) "merkle".

Definition getLeafDataByIdentityHash (t : logTreeTX) (leafHashes : list bytes) : M pg (list leaf) :=
  _ ← getLeavesByLeafIdentityHashStmt (Z.of_nat (length leafHashes));
  getLeavesByHashInternal t (select_by_identity (treeID (ttx t)) leafHashes) "leaf-identity".

(** The loop of [GetLeavesByRange] over the rows. *)
Fixpoint contiguous (treeSize wantIndex : Z) (rows : list leaf) : result error (list leaf) :=
  match rows with
  | [] => Ok []
  | l :: rest =>
      if lf_index l =? wantIndex then r ← contiguous treeSize (wantIndex + 1) rest; Ok (l :: r)
      else if wantIndex <? treeSize
      then Err (ENew (("got unexpected index " : bytes) ++ FormatInt (lf_index l) ++ ", want " ++ FormatInt wantIndex))
      else Ok []
  end.

(** The number of leaves to read, within the tree. *)
Definition clip_count (t : logTreeTX) (start count : Z) : result error Z :=
  if count <=? 0 then Err (status_Errorf InvalidArgument (("invalid count " : bytes) ++ FormatInt count ++ ", want > 0"))
  else if start <? 0
  then Err (status_Errorf InvalidArgument (("invalid start " : bytes) ++ FormatInt start ++ ", want >= 0"))
  else if bool_decide (treeType (ttx t) = LOG) then
    let treeSize := wrap_s64 (r_TreeSize (root t)) in
    if treeSize <=? 0 then Err (status_Errorf OutOfRange "empty tree")
    else if treeSize <=? start then
      Err (status_Errorf OutOfRange (("invalid start " : bytes) ++ FormatInt start ++ ", want < TreeSize(" ++
             FormatInt treeSize ++ ")"))
    else Ok (if treeSize - start <? count then treeSize - start else count)
  else Ok count.

Definition GetLeavesByRange (t : logTreeTX) (start count : Z) : M pg (list leaf) :=
  n ← try id (clip_count t start count);
  rows ← query fault (tx (ttx t)) (select_range (treeID (ttx t)) start (add64 start n));
  _ ← make_slice 8 n;
  try id (contiguous (wrap_s64 (r_TreeSize (root t))) start rows).

(** ** The queue *)

(** [dequeueLeaf] on a row, with the size check of its caller. *)
Definition dequeueLeaf (row : Z * bytes * bytes) : leaf :=
  let '(ts, identity, merkle) := row in
  mkLeaf (Some merkle) None None 0 identity (Some ts) None.

Definition has_size (t : logTreeTX) (identity : bytes) : bool :=
  Z.of_nat (length identity) =? hashSizeBytes (ttx t).

Fixpoint dequeue_rows (t : logTreeTX) (rows : list (Z * bytes * bytes)) : result error (list leaf) :=
  match rows with
  | [] => Ok []
  | row :: rest =>
      if has_size t row.1.2 then r ← dequeue_rows t rest; Ok (dequeueLeaf row :: r)
      else Err (ENew "dequeued a leaf with incorrect hash size")
  end.

(** Preparing a statement in the transaction. *)
Definition tx_prepare (t : logTreeTX) : M pg unit := query fault (tx (ttx t)) (λ _, ()).

Fixpoint remove_all (t : logTreeTX) (rows : list (Z * bytes)) : M pg unit :=
  match rows with
  | [] => mret ()
  | (ts, identity) :: rest =>
      n ← statement fault (tx (ttx t)) (delete_unsequenced (treeID (ttx t)) ts identity);
      _ ← try id (checkResultOkAndRowCountIs (Ok n) 1);
      remove_all t rest
  end.
Definition removeSequencedLeaves (t : logTreeTX) (rows : list (Z * bytes)) : M pg unit :=
  _ ← tx_prepare t; remove_all t rows.

Definition DequeueLeaves (t : logTreeTX) (limit cutoff : Z) : M pg (list leaf) :=
  if bool_decide (treeType (ttx t) = PREORDERED_LOG)
  then GetLeavesByRange t (wrap_s64 (r_TreeSize (root t))) limit
  else
    _ ← tx_prepare t;
    _ ← make_slice 8 limit;
    _ ← make_slice 32 limit;
    rows ← query fault (tx (ttx t)) (select_queued (treeID (ttx t)) cutoff limit);
    leaves ← try id (dequeue_rows t rows);
    _ ← (if bool_decide (rows = []) then mret () else removeSequencedLeaves t rows.*1);
    mret leaves.

Definition sortLeavesForInsert (leaves : list leaf) : list (nat * leaf) := sort_leaves (imap pair leaves).

(** [fmt] of the arguments of the queue statement. *)
Definition fmt_args (tree : Z) (identity : bytes) (merkle : option bytes) (ts : Z) : bytes :=
  "["%char :: FormatInt tree ++ " "%char :: fmt_bytes (Some identity) ++ " "%char :: fmt_bytes merkle ++
  " "%char :: FormatInt ts ++ ["]"%char].

(** One leaf: its data, then its queue entry; a known leaf is remembered. *)
Definition queue_one (t : logTreeTX) (ol : nat * leaf) (existing : list (option leaf)) : M pg (list (option leaf)) :=
  let '(i, l) := ol in
  let ts := default 0 (lf_queue l) in
  let id := treeID (ttx t) in
  isNew ← within (wrapf "dupecheck failed")
    (statement fault (tx (ttx t)) (insert_leaf_data id (lf_identity l) (lf_value l) (lf_extra l) ts));
  if (isNew : bool) then
    _ ← within (λ e, EWrap "unsequenced: " e (" -- " ++ fmt_args id (lf_identity l) (lf_merkle l) ts))
      (statement fault (tx (ttx t)) (insert_unsequenced id (lf_identity l) (lf_merkle l) ts));
    mret existing
  else mret (<[i := Some l]> existing).
Fixpoint queue_all (t : logTreeTX) (ols : list (nat * leaf)) (existing : list (option leaf)) :
    M pg (list (option leaf)) :=
  match ols with
  | [] => mret existing
  | ol :: rest => e ← queue_one t ol existing; queue_all t rest e
  end.

(** Replaces the requested leaves by the stored ones. *)
Fixpoint replace_existing (results : list leaf) (existing : list (option leaf)) : result error (list (option leaf)) :=
  match existing with
  | [] => Ok []
  | None :: rest => r ← replace_existing results rest; Ok (None :: r)
  | Some l :: rest =>
      match List.find (λ x, beq (lf_identity x) (lf_identity l)) results with
      | Some x => r ← replace_existing results rest; Ok (Some x :: r)
      | None => Err (ENew (("failed to find existing leaf for hash " : bytes) ++ (lf_identity l ≫= λ c, hex_byte (bval c))))
      end
  end.

Definition fmt_hashes (hs : list bytes) : bytes :=
  "["%char :: Join ((λ h, fmt_bytes (Some h)) <$> hs) " " ++ ["]"%char].

Definition retrieve_existing (t : logTreeTX) (existing : list (option leaf)) : M pg (list (option leaf)) :=
  let toRetrieve := lf_identity <$> omap id existing in
  results ← within (λ e, EWrap "failed to retrieve existing leaves: " e (" "%char :: fmt_hashes toRetrieve))
    (getLeafDataByIdentityHash t toRetrieve);
  _ ← guard_ (length results =? length toRetrieve)%nat
    (ENew (("failed to retrieve all existing leaves: got " : bytes) ++ FormatInt (Z.of_nat (length results)) ++
       ", want " ++ FormatInt (Z.of_nat (length toRetrieve))));
  try id (replace_existing results existing).

(** [logTreeTX.QueueLeaves]. *)
Definition tx_QueueLeaves (t : logTreeTX) (leaves : list leaf) (now : Z) : M pg (list (option leaf)) :=
  _ ← guard_ (forallb (λ l, has_size t (lf_identity l)) leaves)
    (ENew (("queued leaf must have a leaf ID hash of length " : bytes) ++ FormatInt (hashSizeBytes (ttx t))));
  existing ← queue_all t (sortLeavesForInsert (set_queue_time now <$> leaves)) (replicate (length leaves) None);
  if bool_decide (omap id existing = []) then mret existing else retrieve_existing t existing.

(** ** Sequencing *)

Inductive leaf_status := StatusOK | Conflict.

(** A leaf of [AddSequencedLeaves]: both inserts, or neither. *)
Definition sequence_one (t : logTreeTX) (ol : nat * leaf) (now : Z) (res : list (option leaf_status)) :
    M pg (list (option leaf_status)) :=
  let '(i, l) := ol in
  let h := tx (ttx t) in
  let got := Z.of_nat (length (lf_identity l)) in
  _ ← guard_ (got =? hashSizeBytes (ttx t))
    (status_Errorf FailedPrecondition (("leaves[" : bytes) ++ FormatInt (Z.of_nat i) ++ "] has incorrect hash size " ++
       FormatInt got ++ ", want " ++ FormatInt (hashSizeBytes (ttx t))));
  _ ← savepoint fault h;
  _ ← statement fault h (insert_leaf_data (treeID (ttx t)) (lf_identity l) (lf_value l) (lf_extra l) now);
  isNew ← statement fault h (insert_sequenced (treeID (ttx t)) (lf_index l) (lf_identity l) (lf_merkle l) 0);
  if (isNew : bool) then mret (<[i := Some StatusOK]> res)
  else
    _ ← rollback_to fault h;
    mret (<[i := Some Conflict]> res).
Fixpoint sequence_all (t : logTreeTX) (ols : list (nat * leaf)) (now : Z) (res : list (option leaf_status)) :
    M pg (list (option leaf_status)) :=
  match ols with
  | [] => mret res
  | ol :: rest => r ← sequence_one t ol now res; sequence_all t rest now r
  end.

(** [logTreeTX.AddSequencedLeaves]. *)
Definition tx_AddSequencedLeaves (t : logTreeTX) (leaves : list leaf) (now : Z) : M pg (list (option leaf_status)) :=
  _ ← savepoint fault (tx (ttx t));
  res ← sequence_all t (sortLeavesForInsert leaves) now (replicate (length leaves) None);
  _ ← release fault (tx (ttx t));
  mret res.

Fixpoint UpdateSequencedLeaves (t : logTreeTX) (leaves : list leaf) : M pg unit :=
  match leaves with
  | [] => mret ()
  | l :: rest =>
      _ ← guard_ (has_size t (lf_identity l)) (ENew "sequenced leaf has incorrect hash size");
      match lf_integrate l with
      | None => fail (wrapf "got invalid integrate timestamp" nil_timestamp)
      | Some ts =>
          _ ← statement fault (tx (ttx t)) (insert_sequenced (treeID (ttx t)) (lf_index l) (lf_identity l) (lf_merkle l) ts);
          UpdateSequencedLeaves t rest
      end
  end.

(** ** Roots *)

(** The update of the current root of a tree: the number of rows. *)
Definition set_current_data (json sig : bytes) (r : tree_row) : tree_row :=
  mkTreeRow (t_state r) (t_type r) (t_display_name r) (t_description r) (t_create_millis r) (t_update_millis r)
    (t_max_root_millis r) (t_deleted r) (t_delete_millis r) (Some json) (Some sig).
Definition update_tree_data (tree : Z) (json sig : bytes) (d : db) : result error (db * Z) :=
  match trees d !! tree with
  | Some r => Ok (set_trees d (<[tree := set_current_data json sig r]> (trees d)), 1)
  | None => Ok (d, 0)
  end.

(** [insertTreeHeadSQL]: the number of rows. *)
Definition insert_tree_head (tree : Z) (r : LogRoot) (sig : bytes) (d : db) : result error (db * Z) :=
  match tree_head d !! (tree, r_Revision r), trees d !! tree with
  | Some _, _ => Err (pq_error "duplicate key value violates unique constraint")
  | None, None => Err (pq_error "insert or update on table violates foreign key constraint")
  | None, Some _ =>
      Ok (set_tree_head d (<[(tree, r_Revision r) := mkHeadRow (r_TimestampNanos r) (r_TreeSize r) (r_RootHash r) sig]>
            (tree_head d)), 1)
  end.

(** The driver refuses an unsigned argument beyond the signed range. *)
Definition uint64_args (r : LogRoot) : result error unit :=
  if (r_TimestampNanos r <? 2 ^ 63) && (r_TreeSize r <? 2 ^ 63) && (r_Revision r <? 2 ^ 63) then Ok ()
  else Err (ENew "sql: converting argument type: uint64 values with high bit set are not supported").

(** The result of the update is ignored. *)
Definition ignore_error {A} (m : M pg A) : M pg unit := λ w,
  match m w with
  | (w', Panic p) => (w', Panic p)
  | (w', _) => (w', Return ())
  end.

Definition StoreSignedLogRoot (t : logTreeTX) (signed : bytes) : M pg unit :=
  r ← try id (root_UnmarshalBinary signed);
  _ ← guard_ (bool_decide (r_Metadata r = [])) (ENew "unimplemented: postgres storage does not support log root metadata");
  _ ← ignore_error (statement fault (tx (ttx t)) (update_tree_data (treeID (ttx t)) (root_json r) []));
  _ ← try id (uint64_args r);
  n ← statement fault (tx (ttx t)) (insert_tree_head (treeID (ttx t)) r []);
  try id (checkResultOkAndRowCountIs (Ok n) 1).

(** ** Operations of the storage *)

(** The message of a duplicate. *)
Definition already_exists (l : leaf) : bytes := ("leaf already exists: " : bytes) ++ fmt_bytes (Some (lf_identity l)).
(** [trillian.QueuedLogLeaf]: the leaf and the code and message of its status. *)
Record QueuedLogLeaf := mkQueued { q_Leaf : option leaf; q_Status : option (rpc_code * bytes) }.

Definition committed_or_fail (r : logTreeTX * option error) : M pg unit :=
  match r.2 with Some e => fail e | None => mret () end.

Definition AddSequencedLeaves (tree : Tree) (leaves : list leaf) (now : Z) : M pg (list (option QueuedLogLeaf)) :=
  '(t, needsInit) ← beginInternal tree;
  _ ← guard_ (negb needsInit) ErrTreeNeedsInit;
  res ← tx_AddSequencedLeaves t leaves now;
  c ← log_Commit t;
  _ ← committed_or_fail c;
  mret (fmap (M := option) (λ st, mkQueued None (Some
          match st with
          | StatusOK => (OK, ("OK" : bytes))
          | Conflict => (FailedPrecondition, ("conflicting LeafIndex" : bytes))
          end)) <$> res).

Definition QueueLeaves (tree : Tree) (leaves : list leaf) (now : Z) : M pg (list QueuedLogLeaf) :=
  '(t, needsInit) ← beginInternal tree;
  _ ← guard_ (negb needsInit) ErrTreeNeedsInit;
  existing ← tx_QueueLeaves t leaves now;
  c ← log_Commit t;
  _ ← committed_or_fail c;
  mret (zip_with (λ e l,
          match e with
          | Some x => mkQueued (Some x) (Some (AlreadyExists, already_exists x))
          | None => mkQueued (Some (set_queue_time now l)) None
          end) existing leaves).

(** ** Snapshots of all logs *)

(** [errors.Is(err, sql.ErrTxDone)]. *)
Fixpoint is_ErrTxDone (e : error) : bool :=
  match e with
  | ENew text => beq text (Error ErrTxDone)
  | EWrap _ inner _ => is_ErrTxDone inner
  | EStatusErr inner _ => is_ErrTxDone inner
  | EForeign _ (Some inner) => is_ErrTxDone inner
  | EForeign _ None => false
  end.

Definition Snapshot : M pg nat := BeginTx fault.
Definition snapshot_Commit (h : nat) : M pg unit := sql_Commit fault h.
Definition snapshot_Rollback (h : nat) : M pg unit := sql_Rollback fault h.
Definition snapshot_Close (h : nat) : M pg unit := λ w,
  match snapshot_Rollback h w with
  | (w', Fail e) => if is_ErrTxDone e then (w', Return ()) else (w', Fail e)
  | o => o
  end.
Definition active_log (r : tree_row) : bool :=
  (beq (t_type r) "LOG" || beq (t_type r) "PREORDERED_LOG") &&
  (beq (t_state r) "ACTIVE" || beq (t_state r) "DRAINING") && negb (t_deleted r).
Definition GetActiveLogIDs (h : nat) : M pg (list Z) :=
  query fault h (λ d, omap (λ kv, if active_log kv.2 then Some kv.1 else None) (map_to_list (trees d))).
End log_storage.
