(* ===== verification/StorageSamples.v ===== *)
(** * A concrete storage

    Instances of the parameters of the storage model, and a small database,
    on which the theorems are applied. *)

From stdpp Require Import sorting.
From S2P Require Import Prelude GoStrings Errors Effects Postgres TreeStorage LogStorage.

Open Scope Z_scope.

(** Roots by their size: as many characters as leaves. *)
Definition unary_root (b : bytes) : LogRoot :=
  mkLogRoot (Z.of_nat (length b)) [] 0 (Z.of_nat (length b)) [].
Definition root_unary (r : LogRoot) : bytes := replicate (Z.to_nat (r_TreeSize r)) "x"%char.
#[export] Instance unary_codec : RootCodec := {
  root_MarshalBinary := root_unary;
  root_UnmarshalBinary b := Ok (unary_root b);
  root_json := root_unary;
  root_of_json := unary_root
}.
Lemma unary_root_roundtrip b : unary_root (root_unary (unary_root b)) = unary_root b.
Proof. unfold unary_root, root_unary. cbn. by rewrite Nat2Z.id, length_replicate. Qed.

(** Sorting by hash. *)
Definition hash_le (a b : nat * leaf) : Prop := bytes_ltb (lf_identity b.2) (lf_identity a.2) = false.
#[export] Instance hash_le_dec a b : Decision (hash_le a b).
Proof. unfold hash_le. apply _. Defined.
Definition sample_sort (l : list (nat * leaf)) : list (nat * leaf) := merge_sort hash_le l.
Lemma sample_sort_perm l : sample_sort l ≡ₚ l.
Proof. apply merge_sort_Permutation. Qed.

(** A connection without faults, and an empty cache. *)
Definition no_fault (n : nat) : option error := None.
Lemma no_fault_none n : no_fault n = None.
Proof. done. Qed.
Definition no_dirty (c : unit) : list SubtreeProto := [].
Definition sample_marshal (s : SubtreeProto) : result error bytes := Ok (st_rest s).
Definition sample_nil_timestamp : error := ENew "invalid nil Timestamp".

(** One log with a sequenced leaf and one in the queue. *)
Definition hash_of (c : ascii) : bytes := replicate 32 c.
Definition sample_row : tree_row :=
  mkTreeRow "ACTIVE" "LOG" "log" [] 1 1 3600000 false None (Some ("x" : bytes)) (Some []).
Definition sample_db : db :=
  mkDb {[1 := sample_row]} {[1 := mkControlRow true true 60]} ∅ ∅
    (<[(1, hash_of "a") := mkLeafRow "first" None 10]> {[(1, hash_of "b") := mkLeafRow "second" None 20]})
    {[(1, 0) := mkSeqRow (hash_of "a") (hash_of "A") 15]}
    {[(1, 20, hash_of "b") := hash_of "B"]}.
Definition sample_pg : pg := mkPg sample_db ∅ 0 0 ∅.
Definition sample_tree : Tree := mkTree 1 LOG.
Definition blank_tree : Tree := mkTree 2 LOG.
Definition sample_leaf (c m : ascii) (v : bytes) : leaf := mkLeaf (Some (hash_of m)) (Some v) None 0 (hash_of c) None None.
(** The transaction on the log. *)
Definition sample_tx : logTreeTX := mkLogTX (mkTreeTX false 0 1 LOG 32 tt 2) (unary_root "x") (Some ("x" : bytes)).
