(* ===== verification/AdminStorage.v ===== *)
(** * Administration of trees

    [pkg/storage/postgres/admin_storage.go]: creating, reading, updating and
    deleting trees, over the database of [Postgres].  Reading a row into a
    tree, validating a tree and choosing its number are Trillian's. *)

From S2P Require Import Prelude GoStrings Utf GoFmt Errors Effects Postgres LogStorage.

Open Scope Z_scope.

(** [trillian.Tree]; states and types by their names, times in
    milliseconds, the duration in nanoseconds. *)
Record ATree := mkATree {
  a_TreeId : Z;
  a_TreeState : bytes;
  a_TreeType : bytes;
  a_DisplayName : bytes;
  a_Description : bytes;
  a_CreateTime : option Z;
  a_UpdateTime : option Z;
  a_MaxRootDuration : Z;
  a_Deleted : bool;
  a_DeleteTime : option Z;
  a_StorageSettings : option bytes
}.
Definition created (t : ATree) (id nowMillis : Z) : ATree :=
  mkATree id (a_TreeState t) (a_TreeType t) (a_DisplayName t) (a_Description t) (Some nowMillis) (Some nowMillis)
    (a_MaxRootDuration t) (a_Deleted t) (a_DeleteTime t) (a_StorageSettings t).
Definition updated (t : ATree) (nowMillis : Z) : ATree :=
  mkATree (a_TreeId t) (a_TreeState t) (a_TreeType t) (a_DisplayName t) (a_Description t) (a_CreateTime t)
    (Some nowMillis) (a_MaxRootDuration t) (a_Deleted t) (a_DeleteTime t) (a_StorageSettings t).

Definition validateStorageSettings (t : ATree) : result error unit :=
  match a_StorageSettings t with
  | Some text => Err (ENew (("storage_settings not supported, but got " : bytes) ++ text))
  | None => Ok ()
  end.

Definition defaultSequenceIntervalSeconds : Z := 60.

(** ** Statements *)

(** The enumerations and lengths of the columns. *)
Definition state_value (s : bytes) : bool := beq s "ACTIVE" || beq s "FROZEN" || beq s "DRAINING".
Definition type_value (s : bytes) : bool := beq s "LOG" || beq s "MAP" || beq s "PREORDERED_LOG".
Definition text_value (s : bytes) : bool := valid_utf8 s && forallb (λ c, negb (bval c =? 0)) s.
Definition RuneCount (s : bytes) : nat := length (runes s).
Definition check_columns (state type name description : bytes) : result error unit :=
  if negb (state_value state) then Err (pq_error "invalid input value for enum e_tree_state")
  else if negb (type_value type) then Err (pq_error "invalid input value for enum e_tree_type")
  else if negb (text_value name && text_value description)
  then Err (pq_error "invalid byte sequence for encoding")
  else if (20 <? RuneCount name)%nat then Err (pq_error "value too long for type character varying(20)")
  else if (200 <? RuneCount description)%nat then Err (pq_error "value too long for type character varying(200)")
  else Ok ().

Definition insert_tree (id : Z) (r : tree_row) (d : db) : result error (db * unit) :=
  _ ← check_columns (t_state r) (t_type r) (t_display_name r) (t_description r);
  match trees d !! id with
  | Some _ => Err (pq_error "duplicate key value violates unique constraint")
  | None => Ok (set_trees d (<[id := r]> (trees d)), ())
  end.

Definition insert_tree_control (id : Z) (r : control_row) (d : db) : result error (db * unit) :=
  match tree_control d !! id, trees d !! id with
  | Some _, _ => Err (pq_error "duplicate key value violates unique constraint")
  | None, None => Err (pq_error "insert or update on table violates foreign key constraint")
  | None, Some _ => Ok (set_tree_control d (<[id := r]> (tree_control d)), ())
  end.

(** [updateTreeSQL]. *)
Definition update_tree (id : Z) (state type name description : bytes) (update_millis root_millis : Z) (d : db) :
    result error (db * unit) :=
  match trees d !! id with
  | None => Ok (d, ())
  | Some r =>
      _ ← check_columns state type name description;
      Ok (set_trees d (<[id := mkTreeRow state type name description (t_create_millis r) update_millis root_millis
            (t_deleted r) (t_delete_millis r) (t_current_data r) (t_root_signature r)]> (trees d)), ())
  end.

(** [softDeleteSQL]. *)
Definition soft_delete (id : Z) (deleted : bool) (millis : option Z) (d : db) : result error (db * unit) :=
  match trees d !! id with
  | None => Ok (d, ())
  | Some r =>
      Ok (set_trees d (<[id := mkTreeRow (t_state r) (t_type r) (t_display_name r) (t_description r)
            (t_create_millis r) (t_update_millis r) (t_max_root_millis r) deleted millis
            (t_current_data r) (t_root_signature r)]> (trees d)), ())
  end.

(** [deleteFromTreesSQL] with the cascades of the schema; the queue does not
    refer to the trees. *)
Definition delete_tree (id : Z) (d : db) : result error (db * unit) :=
  Ok (mkDb (delete id (trees d)) (delete id (tree_control d))
        (filter (λ kv, kv.1.1.1 ≠ id) (subtree d))
        (filter (λ kv, kv.1.1 ≠ id) (tree_head d))
        (filter (λ kv, kv.1.1 ≠ id) (leaf_data d))
        (filter (λ kv, kv.1.1 ≠ id) (sequenced_leaf_data d))
        (unsequenced d), ()).

Section admin_storage.
Context (fault : nat → option error).
(** [storage.ReadTree] of a row, [ValidateTreeForCreation] and
    [ValidateTreeForUpdate]. *)
Context (ReadTree : Z → tree_row → result error ATree).
Context (ValidateTreeForCreation : ATree → result error unit).
Context (ValidateTreeForUpdate : ATree → ATree → result error unit).

(** ** Transactions *)

Record adminTX := mkAdminTX { atx : nat; aclosed : bool }.

Definition admin_beginInternal : M pg adminTX := h ← BeginTx fault; mret (mkAdminTX h false).
Definition admin_Snapshot : M pg adminTX := admin_beginInternal.
Definition admin_Commit (t : adminTX) : M pg (adminTX * option error) := λ w,
  match sql_Commit fault (atx t) w with
  | (w', Fail e) => (w', Return (mkAdminTX (atx t) true, Some e))
  | (w', _) => (w', Return (mkAdminTX (atx t) true, None))
  end.
Definition admin_Rollback (t : adminTX) : M pg (adminTX * option error) := λ w,
  match sql_Rollback fault (atx t) w with
  | (w', Fail e) => (w', Return (mkAdminTX (atx t) true, Some e))
  | (w', _) => (w', Return (mkAdminTX (atx t) true, None))
  end.
Definition IsClosed (t : adminTX) : bool := aclosed t.
Definition admin_Close (t : adminTX) : M pg (adminTX * option error) :=
  if aclosed t then mret (t, None) else admin_Rollback t.

Definition admin_with_close (t : adminTX) (f : M pg (adminTX * option error)) : M pg unit := λ w,
  match f w with
  | (w1, Return (t', None)) => ((admin_Close t' w1).1, Return ())
  | (w1, Return (t', Some e)) => ((admin_Close t' w1).1, Fail e)
  | (w1, Fail e) => ((admin_Close t w1).1, Fail e)
  | (w1, Panic p) => ((admin_Close t w1).1, Panic p)
  end.

Definition admin_ReadWriteTransaction (f : adminTX → M pg (adminTX * option error)) : M pg unit :=
  t ← admin_beginInternal;
  admin_with_close t
    ('(t1, e) ← f t;
     match e with
     | Some e => mret (t1, Some e)
     | None => admin_Commit t1
     end).

(** ** Operations *)

(** Preparing a statement in the transaction. *)
Definition admin_prepare (t : adminTX) : M pg unit := query fault (atx t) (λ _, ()).

Definition not_found (treeID : Z) : error :=
  status_Errorf NotFound (("tree " : bytes) ++ FormatInt treeID ++ " not found").

Definition reading (treeID : Z) (e : error) : error :=
  EWrap (("error reading tree " : bytes) ++ FormatInt treeID ++ ": ") e [].
Definition GetTree (t : adminTX) (treeID : Z) : M pg ATree :=
  _ ← admin_prepare t;
  row ← within (reading treeID) (query fault (atx t) (λ d, trees d !! treeID));
  match row with
  | None => fail (not_found treeID)
  | Some r => try (reading treeID) (ReadTree treeID r)
  end.

Fixpoint read_trees (rows : list (Z * tree_row)) : result error (list ATree) :=
  match rows with
  | [] => Ok []
  | (id, r) :: rest => t ← ReadTree id r; ts ← read_trees rest; Ok (t :: ts)
  end.
Definition select_trees (includeDeleted : bool) (d : db) : list (Z * tree_row) :=
  List.filter (λ kv, includeDeleted || negb (t_deleted kv.2)) (map_to_list (trees d)).
Definition ListTrees (t : adminTX) (includeDeleted : bool) : M pg (list ATree) :=
  _ ← admin_prepare t;
  rows ← query fault (atx t) (select_trees includeDeleted);
  try id (read_trees rows).

Definition millisecond : Z := 1000000.
Definition new_row (t : ATree) (nowMillis : Z) : tree_row :=
  mkTreeRow (a_TreeState t) (a_TreeType t) (a_DisplayName t) (a_Description t) nowMillis nowMillis
    (Z.quot (a_MaxRootDuration t) millisecond) false None None None.

(** [NewTreeID] is the random number, [nowMillis] the time. *)
Definition CreateTree (NewTreeID : result error Z) (nowMillis : Z) (t : adminTX) (tree : ATree) : M pg ATree :=
  _ ← try id (ValidateTreeForCreation tree);
  _ ← try id (validateStorageSettings tree);
  id_ ← try id NewTreeID;
  _ ← admin_prepare t;
  _ ← statement fault (atx t) (insert_tree id_ (new_row tree nowMillis));
  _ ← admin_prepare t;
  _ ← statement fault (atx t) (insert_tree_control id_ (mkControlRow true true defaultSequenceIntervalSeconds));
  mret (created tree id_ nowMillis).

Definition UpdateTree (nowMillis : Z) (t : adminTX) (treeID : Z) (updateFunc : ATree → ATree) : M pg ATree :=
  beforeUpdate ← GetTree t treeID;
  let tree := updateFunc beforeUpdate in
  _ ← try id (ValidateTreeForUpdate beforeUpdate tree);
  _ ← try id (validateStorageSettings tree);
  _ ← admin_prepare t;
  _ ← statement fault (atx t) (update_tree (a_TreeId tree) (a_TreeState tree) (a_TreeType tree) (a_DisplayName tree)
        (a_Description tree) nowMillis (Z.quot (a_MaxRootDuration tree) millisecond));
  mret (updated tree nowMillis).

Definition validateDeleted (t : adminTX) (treeID : Z) (wantDeleted : bool) : M pg unit :=
  row ← query fault (atx t) (λ d, trees d !! treeID);
  match row with
  | None => fail (not_found treeID)
  | Some r =>
      if wantDeleted && negb (t_deleted r) then
        fail (status_Errorf FailedPrecondition (("tree " : bytes) ++ FormatInt treeID ++ " is not soft deleted"))
      else if negb wantDeleted && t_deleted r then
        fail (status_Errorf FailedPrecondition (("tree " : bytes) ++ FormatInt treeID ++ " already soft deleted"))
      else mret ()
  end.

Definition updateDeleted (t : adminTX) (treeID : Z) (deleted : bool) (deleteTimeMillis : option Z) : M pg ATree :=
  _ ← validateDeleted t treeID (negb deleted);
  _ ← statement fault (atx t) (soft_delete treeID deleted deleteTimeMillis);
  GetTree t treeID.

Definition SoftDeleteTree (nowMillis : Z) (t : adminTX) (treeID : Z) : M pg ATree :=
  updateDeleted t treeID true (Some nowMillis).
Definition UndeleteTree (t : adminTX) (treeID : Z) : M pg ATree := updateDeleted t treeID false None.

Definition HardDeleteTree (t : adminTX) (treeID : Z) : M pg unit :=
  _ ← validateDeleted t treeID true;
  _ ← statement fault (atx t) (λ d, Ok (set_tree_control d (delete treeID (tree_control d)), ()));
  statement fault (atx t) (delete_tree treeID).
End admin_storage.
