(* ===== verification/StorageFacts.v ===== *)
(** * Reasoning about database transactions

    Two judgements.  [framed h m]: whatever happens, running [m] changes no
    committed data and no transaction but [h], which it does not end.  [runs h m d sp a d' sp']: on
    a connection without faults, [m] run in the open transaction [h] with
    tables [d] and savepoints [sp] returns [a] and leaves [d'] and [sp']. *)

From S2P Require Import Prelude GoStrings Errors Effects Postgres TreeStorage LogStorage.

Open Scope Z_scope.

(** [w'] is [w] except for transaction [h] and the statement cache. *)
Definition same_else (h : nat) (w w' : pg) : Prop :=
  committed w' = committed w ∧ next_txn w' = next_txn w ∧ delete h (txns w') = delete h (txns w).

#[global] Instance same_else_refl h : Reflexive (same_else h).
Proof. done. Qed.
#[global] Instance same_else_trans h : Transitive (same_else h).
Proof. intros w1 w2 w3 (?&?&?) (?&?&?). by repeat split; etrans. Qed.
#[global] Instance same_else_sym h : Symmetric (same_else h).
Proof. intros w1 w2 (?&?&?). done. Qed.

Lemma same_else_tick h w : same_else h w (tick w).
Proof. done. Qed.
Lemma same_else_insert h w w' t :
  same_else h w w' → same_else h w (with_txns w' (<[h := t]> (txns w'))).
Proof. intros (?&?&?). repeat split; [done..|]. cbn. by rewrite delete_insert_eq. Qed.
Lemma same_else_insert' h w t : same_else h w (with_txns (tick w) (<[h := t]> (txns w))).
Proof. apply (same_else_insert h w (tick w)), same_else_tick. Qed.
Lemma same_else_delete h w : same_else h w (with_txns (tick w) (delete h (txns w))).
Proof. repeat split. cbn. by rewrite delete_delete_eq. Qed.

(** Moreover transaction [h] is not ended. *)
Definition stays (h : nat) (w w' : pg) : Prop :=
  same_else h w w' ∧ (is_Some (txns w !! h) → is_Some (txns w' !! h)).

#[global] Instance stays_refl h : Reflexive (stays h).
Proof. done. Qed.
#[global] Instance stays_trans h : Transitive (stays h).
Proof. intros w1 w2 w3 [H1 O1] [H2 O2]. split; [by etrans|auto]. Qed.
Lemma stays_insert h w w' t : stays h w w' → stays h w (with_txns w' (<[h := t]> (txns w'))).
Proof. intros [Hs _]. split; [by apply same_else_insert|]. intros _. cbn. by rewrite lookup_insert_eq. Qed.
Lemma stays_insert' h w t : stays h w (with_txns (tick w) (<[h := t]> (txns w))).
Proof. by apply (stays_insert h w (tick w)). Qed.

Lemma same_else_lookup h w w' h' : same_else h w w' → h' ≠ h → txns w' !! h' = txns w !! h'.
Proof.
  intros (_&_&E) Hn. rewrite <-(lookup_delete_ne (txns w') h h') by done. rewrite E. by rewrite lookup_delete_ne.
Qed.

(** Once [h] is over as well, the worlds have the same transactions. *)
Lemma same_else_closed h w w' :
  same_else h w w' → txns w !! h = None → txns w' !! h = None → txns w' = txns w.
Proof. intros (_&_&E) Hw Hw'. by rewrite !delete_id in E. Qed.

(** ** Framing *)

Section framed.
Context (fault : nat → option error).

Definition framed {A} (h : nat) (m : M pg A) : Prop := ∀ w, stays h w (m w).1.

Lemma framed_ret {A} h (a : A) : framed h (mret a).
Proof. done. Qed.
Lemma framed_fail {A} h e : framed h (fail e : M pg A).
Proof. done. Qed.
Lemma framed_panic {A} h p : framed h (panic p : M pg A).
Proof. done. Qed.
Lemma framed_bind {A B} h (m : M pg A) (k : A → M pg B) :
  framed h m → (∀ a, framed h (k a)) → framed h (m ≫= k).
Proof.
  intros Hm Hk w. unfold mbind, M_bind. specialize (Hm w). destruct (m w) as [w1 [a|e|p]]; [|done..].
  etrans; [exact Hm|apply Hk].
Qed.
Lemma framed_within {A} h f (m : M pg A) : framed h m → framed h (within f m).
Proof. intros Hm w. specialize (Hm w). unfold within. by destruct (m w) as [w1 [a|e|p]]. Qed.
Lemma framed_ignore {A} h (m : M pg A) : framed h m → framed h (ignore_error m).
Proof. intros Hm w. specialize (Hm w). unfold ignore_error. by destruct (m w) as [w1 [a|e|p]]. Qed.
Lemma framed_try {A} h f (r : result error A) : framed h (try f r : M pg A).
Proof. by destruct r. Qed.
Lemma framed_guard h b e : framed h (guard_ b e : M pg unit).
Proof. by destruct b. Qed.
Lemma framed_statement {A} h (f : db → result error (db * A)) : framed h (statement fault h f).
Proof.
  intros w. unfold statement. destruct (txns w !! h) as [t|]; [|done]. destruct (aborted t); [done|].
  destruct (fault _); [apply stays_insert'|]. destruct (f _) as [[d a]|e]; apply stays_insert'.
Qed.
Lemma framed_query {A} h (f : db → A) : framed h (query fault h f).
Proof. apply framed_statement. Qed.
Lemma framed_savepoint h : framed h (savepoint fault h).
Proof.
  intros w. unfold savepoint. pose proof (framed_statement h (λ d, Ok (d, ())) w) as Hs.
  destruct (statement _ _ _ w) as [w1 [a|e|p]]; [|done..]. destruct (txns w1 !! h); [|done]. by apply stays_insert.
Qed.
Lemma framed_release h : framed h (release fault h).
Proof.
  intros w. unfold release. pose proof (framed_statement h (λ d, Ok (d, ())) w) as Hs.
  destruct (statement _ _ _ w) as [w1 [a|e|p]]; [|done..].
  destruct (txns w1 !! h) as [[d [|s ss] b]|]; [| |done]; by apply stays_insert.
Qed.
Lemma framed_rollback_to h : framed h (rollback_to fault h).
Proof.
  intros w. unfold rollback_to. destruct (txns w !! h) as [t|]; [|done].
  destruct (fault _); [apply stays_insert'|]. destruct (savepoints t); apply stays_insert'.
Qed.
Lemma framed_getStmt h sk : framed h (getStmt fault sk).
Proof.
  intros w. unfold getStmt. destruct (prepared w !! _); [done|]. revert w.
  change (framed h (prepare_new fault sk)).
  apply framed_bind; [apply framed_try|]. intros text. apply framed_bind; [|done].
  intros w. unfold Prepare. by destruct (fault _).
Qed.
End framed.

Create HintDb framed.
#[export] Hint Resolve framed_ret framed_fail framed_panic framed_bind framed_within framed_ignore framed_try
  framed_guard framed_statement framed_query framed_savepoint framed_release framed_rollback_to framed_getStmt : framed.
#[export] Hint Extern 1 (framed _ (if ?b then _ else _)) => destruct b : framed.
#[export] Hint Extern 1 (framed _ (match ?x with _ => _ end)) => destruct x : framed.
#[export] Hint Extern 5 (framed _ (_ ≫= _)) => apply framed_bind; [|intros ?] : framed.

(** Every operation of a log transaction is framed. *)
Section tx_framed.
Context (fault : nat → option error) `{!RootCodec}.
Context {SubtreeCache : Type} (dirty : SubtreeCache → list SubtreeProto).
Context (proto_Marshal : SubtreeProto → result error bytes).
Context (sort_leaves : list (nat * leaf) → list (nat * leaf)) (nil_timestamp : error).
Implicit Type t : logTreeTX (SubtreeCache := SubtreeCache).

Lemma framed_make_slice h a b : framed h (make_slice a b).
Proof. unfold make_slice. eauto with framed. Qed.
Hint Resolve framed_make_slice : framed.

Lemma framed_GetLeavesByRange t a b : framed (tx (ttx t)) (GetLeavesByRange fault t a b).
Proof. unfold GetLeavesByRange. eauto 9 with framed. Qed.
Lemma framed_getLeavesByHashInternal t s desc : framed (tx (ttx t)) (getLeavesByHashInternal fault t s desc).
Proof. unfold getLeavesByHashInternal. eauto with framed. Qed.
Hint Resolve framed_GetLeavesByRange framed_getLeavesByHashInternal : framed.
Lemma framed_GetLeavesByHash t hs o : framed (tx (ttx t)) (GetLeavesByHash fault t hs o).
Proof. unfold GetLeavesByHash, getLeavesByMerkleHashStmt. eauto with framed. Qed.
Lemma framed_getLeafDataByIdentityHash t hs : framed (tx (ttx t)) (getLeafDataByIdentityHash fault t hs).
Proof. unfold getLeafDataByIdentityHash, getLeavesByLeafIdentityHashStmt. eauto with framed. Qed.
Hint Resolve framed_GetLeavesByHash framed_getLeafDataByIdentityHash : framed.

Lemma framed_remove_all t rows : framed (tx (ttx t)) (remove_all fault t rows).
Proof. induction rows as [|[ts i] rows IH]; cbn; eauto 9 with framed. Qed.
Hint Resolve framed_remove_all : framed.
Lemma framed_DequeueLeaves t limit cutoff : framed (tx (ttx t)) (DequeueLeaves fault t limit cutoff).
Proof. unfold DequeueLeaves, removeSequencedLeaves, tx_prepare. case_bool_decide; eauto 20 with framed. Qed.

Lemma framed_queue_all t ols e : framed (tx (ttx t)) (queue_all fault t ols e).
Proof.
  revert e. induction ols as [|[i l] ols IH]; intros e; cbn; [eauto with framed|].
  apply framed_bind; [|eauto]. eauto 9 with framed.
Qed.
Lemma framed_retrieve_existing t e : framed (tx (ttx t)) (retrieve_existing fault t e).
Proof. unfold retrieve_existing. eauto 9 with framed. Qed.
Hint Resolve framed_queue_all framed_retrieve_existing : framed.
Lemma framed_tx_QueueLeaves t ls now : framed (tx (ttx t)) (tx_QueueLeaves fault sort_leaves t ls now).
Proof. unfold tx_QueueLeaves. eauto 9 with framed. Qed.

Lemma framed_sequence_all t ols now r : framed (tx (ttx t)) (sequence_all fault t ols now r).
Proof.
  revert r. induction ols as [|[i l] ols IH]; intros r; cbn; [eauto with framed|].
  apply framed_bind; [|eauto]. eauto 20 with framed.
Qed.
Hint Resolve framed_sequence_all : framed.
Lemma framed_tx_AddSequencedLeaves t ls now : framed (tx (ttx t)) (tx_AddSequencedLeaves fault sort_leaves t ls now).
Proof. unfold tx_AddSequencedLeaves. eauto 9 with framed. Qed.

Lemma framed_UpdateSequencedLeaves t ls : framed (tx (ttx t)) (UpdateSequencedLeaves fault nil_timestamp t ls).
Proof.
  induction ls as [|l ls IH]; cbn; [eauto with framed|]. apply framed_bind; [eauto with framed|]. intros _.
  destruct (lf_integrate l); eauto with framed.
Qed.
Lemma framed_StoreSignedLogRoot t b : framed (tx (ttx t)) (StoreSignedLogRoot fault t b).
Proof. unfold StoreSignedLogRoot. eauto 20 with framed. Qed.

Lemma framed_marshal h l : framed h (marshal_subtrees proto_Marshal l).
Proof. induction l as [|s l IH]; cbn; [eauto with framed|]. destruct (Prefix s); eauto 9 with framed. Qed.
Hint Resolve framed_marshal : framed.
Lemma framed_flush (t : treeTX) : framed (tx t) (flush fault proto_Marshal dirty t).
Proof. unfold flush, storeSubtrees, setSubtreeStmt. eauto 20 with framed. Qed.
End tx_framed.
#[export] Hint Resolve framed_GetLeavesByRange framed_GetLeavesByHash framed_DequeueLeaves framed_tx_QueueLeaves
  framed_tx_AddSequencedLeaves framed_UpdateSequencedLeaves framed_StoreSignedLogRoot : framed.

(** ** Runs without faults *)

Section runs.
Context (fault : nat → option error) (Hfault : ∀ n, fault n = None).

Definition runs {A} (h : nat) (m : M pg A) (d : db) (sp : list db) (a : A) (d' : db) (sp' : list db) : Prop :=
  ∀ w, txns w !! h = Some (mkTxn d sp false) →
    ∃ w', m w = (w', Return a) ∧ txns w' !! h = Some (mkTxn d' sp' false) ∧ same_else h w w'.

Lemma runs_ret {A} h d sp (a : A) : runs h (mret a) d sp a d sp.
Proof. intros w Hw. by exists w. Qed.
Lemma runs_bind {A B} h (m : M pg A) (k : A → M pg B) d sp a d1 sp1 b d2 sp2 :
  runs h m d sp a d1 sp1 → runs h (k a) d1 sp1 b d2 sp2 → runs h (m ≫= k) d sp b d2 sp2.
Proof.
  intros Hm Hk w Hw. destruct (Hm w Hw) as (w1 & E1 & Hw1 & Hs1). destruct (Hk w1 Hw1) as (w2 & E2 & Hw2 & Hs2).
  exists w2. split_and!; [by rewrite (bind_ret _ _ _ _ _ E1)|done|by etrans].
Qed.
Lemma runs_within {A} h f (m : M pg A) d sp a d' sp' : runs h m d sp a d' sp' → runs h (within f m) d sp a d' sp'.
Proof. intros Hm w Hw. destruct (Hm w Hw) as (w' & E & ?). exists w'. by rewrite within_Return. Qed.
Lemma runs_ignore {A} h (m : M pg A) d sp a d' sp' : runs h m d sp a d' sp' → runs h (ignore_error m) d sp () d' sp'.
Proof. intros Hm w Hw. destruct (Hm w Hw) as (w' & E & ?). exists w'. unfold ignore_error. by rewrite E. Qed.
Lemma runs_try {A} h f (r : result error A) d sp a : r = Ok a → runs h (try f r) d sp a d sp.
Proof. intros ->. apply runs_ret. Qed.
Lemma runs_guard h b e d sp : b = true → runs h (guard_ b e) d sp () d sp.
Proof. intros ->. apply runs_ret. Qed.
Lemma runs_statement {A} h (f : db → result error (db * A)) d sp d' a :
  f d = Ok (d', a) → runs h (statement fault h f) d sp a d' sp.
Proof.
  intros Hf w Hw. exists (with_txns (tick w) (<[h := mkTxn d' sp false]> (txns w))). unfold statement.
  rewrite Hw. cbn. rewrite Hfault, Hf. split_and!; [done|apply lookup_insert_eq|apply same_else_insert'].
Qed.
Lemma runs_query {A} h (f : db → A) d sp : runs h (query fault h f) d sp (f d) d sp.
Proof. by apply runs_statement. Qed.
Lemma runs_savepoint h d sp : runs h (savepoint fault h) d sp () d (d :: sp).
Proof.
  intros w Hw. destruct (runs_statement h (λ d, Ok (d, ())) d sp d () eq_refl w Hw) as (w1 & E & H1 & Hs).
  unfold savepoint. rewrite E, H1. eexists. split_and!; [done|apply lookup_insert_eq|by apply same_else_insert].
Qed.
Lemma runs_rollback_to h d s sp : runs h (rollback_to fault h) d (s :: sp) () s (s :: sp).
Proof.
  intros w Hw. unfold rollback_to. rewrite Hw, Hfault. eexists.
  split_and!; [done|apply lookup_insert_eq|apply same_else_insert'].
Qed.
Lemma runs_release h d s sp : runs h (release fault h) d (s :: sp) () d sp.
Proof.
  intros w Hw. destruct (runs_statement h (λ d, Ok (d, ())) d (s :: sp) d () eq_refl w Hw) as (w1 & E & H1 & Hs).
  unfold release. rewrite E, H1. eexists. split_and!; [done|apply lookup_insert_eq|by apply same_else_insert].
Qed.

(** The code gives up with an error of its own: the transaction goes on. *)
Definition gives_up {A} (h : nat) (m : M pg A) (d : db) (sp : list db) (e : error) : Prop :=
  ∀ w, txns w !! h = Some (mkTxn d sp false) →
    ∃ w', m w = (w', Fail e) ∧ txns w' !! h = Some (mkTxn d sp false) ∧ same_else h w w'.

Lemma gives_up_fail {A} h d sp e : gives_up h (fail e : M pg A) d sp e.
Proof. intros w Hw. by exists w. Qed.
Lemma gives_up_bind {A B} h (m : M pg A) (k : A → M pg B) d sp e :
  gives_up h m d sp e → gives_up h (m ≫= k) d sp e.
Proof. intros Hm w Hw. destruct (Hm w Hw) as (w1 & E1 & ?). exists w1. by rewrite (bind_fail _ _ _ _ _ E1). Qed.
Lemma runs_gives_up {A B} h (m : M pg A) (k : A → M pg B) d sp a e :
  runs h m d sp a d sp → gives_up h (k a) d sp e → gives_up h (m ≫= k) d sp e.
Proof.
  intros Hm Hk w Hw. destruct (Hm w Hw) as (w1 & E1 & Hw1 & Hs1). destruct (Hk w1 Hw1) as (w2 & E2 & Hw2 & Hs2).
  exists w2. split_and!; [by rewrite (bind_ret _ _ _ _ _ E1)|done|by etrans].
Qed.

(** Statements for a list of at least one value can always be built. *)
Lemma stmt_text_Ok sk : 0 < num sk → ∃ text, stmt_text sk = Ok text.
Proof. intros Hn. unfold stmt_text, expandPlaceholderSQL. rewrite (proj2 (Z.leb_gt _ _) Hn). by eexists. Qed.
Lemma runs_stmt {B} h sk (m : M pg B) d sp b d' sp' :
  0 < num sk → runs h m d sp b d' sp' → runs h (_ ← getStmt fault sk; m) d sp b d' sp'.
Proof.
  intros Hn Hm w Hw. destruct (stmt_text_Ok sk Hn) as [text Ht].
  assert (∃ w1 s, getStmt fault sk w = (w1, Return s) ∧ txns w1 = txns w ∧ same_else h w w1) as (w1 & s & E & Etx & Hs).
  { unfold getStmt. destruct (prepared w !! _); [by eexists _, _|].
    unfold prepare_new. rewrite Ht, try_ok. unfold mbind, M_bind, Prepare. rewrite Hfault. cbn. by eexists _, _. }
  rewrite (bind_ret _ _ _ _ _ E). rewrite <-Etx in Hw. destruct (Hm w1 Hw) as (w2 & E2 & Hw2 & Hs2).
  exists w2. split_and!; [done..|by etrans].
Qed.
End runs.
