(* ===== verification/LogTxFacts.v ===== *)
(** * Transactions of the log storage

    [ReadWriteTransaction] is atomic and leaves no transaction open, whatever
    its body and the connection do; [QueueLeaves] and [AddSequencedLeaves] of
    the storage leave theirs open when they fail. *)

From S2P Require Import Prelude GoStrings Errors Effects Postgres TreeStorage LogStorage StorageSamples StorageFacts.

Open Scope Z_scope.

(** Handles of transactions to come are unused. *)
Definition fresh_handles (w : pg) : Prop := ∀ h, (next_txn w ≤ h)%nat → txns w !! h = None.

(** The world right after a transaction began. *)
Definition begun (w : pg) : pg :=
  mkPg (committed w) (<[next_txn w := mkTxn (committed w) [] false]> (txns w)) (S (next_txn w))
    (S (statements w)) (prepared w).

Section log_tx.
Context (fault : nat → option error) `{!RootCodec}.
Context {SubtreeCache : Type} (dirty : SubtreeCache → list SubtreeProto) (newCache : SubtreeCache).
Context (proto_Marshal : SubtreeProto → result error bytes).
Implicit Type t : logTreeTX (SubtreeCache := SubtreeCache).

Abbreviation beginInternal := (beginInternal fault newCache).
Abbreviation Rollback := (Rollback fault).
Abbreviation log_Close := (log_Close fault).
Abbreviation log_Commit := (log_Commit fault dirty proto_Marshal).

Lemma framed_fetchLatestRoot (x : treeTX (SubtreeCache := SubtreeCache)) : framed (tx x) (fetchLatestRoot fault x).
Proof.
  intros w. unfold fetchLatestRoot.
  pose proof (framed_query fault (tx x) (λ d, trees d !! treeID x ≫= t_current_data) w) as Hq.
  by destruct (query _ _ _ w) as [w1 [[j|]|e|p]].
Qed.

Lemma fetchLatestRoot_Return (x : treeTX (SubtreeCache := SubtreeCache)) w : ∃ w' b, fetchLatestRoot fault x w = (w', Return b).
Proof.
  unfold fetchLatestRoot, query, statement. destruct (txns w !! tx x) as [y|]; [|eauto].
  destruct (aborted y); [eauto|]. destruct (fault _); [eauto|].
  destruct (trees (work y) !! treeID x ≫= t_current_data); eauto.
Qed.

(** Rolling back ends the transaction whether or not the server answers. *)
Lemma Rollback_ends (x : treeTX (SubtreeCache := SubtreeCache)) w :
  same_else (tx x) w (Rollback x w).1 ∧ txns (Rollback x w).1 !! tx x = None ∧
  ∃ e, (Rollback x w).2 = Return (set_closed x, e).
Proof.
  unfold TreeStorage.Rollback, sql_Rollback. destruct (txns w !! tx x) as [y|] eqn:E; [|cbn; split_and!; [done|done|eauto]].
  destruct (fault _); cbn; (split; [|split; [apply lookup_delete_eq|eauto]]); apply same_else_delete.
Qed.

Lemma Close_ends t w :
  closed (ttx t) = false →
  same_else (tx (ttx t)) w (log_Close t w).1 ∧ txns (log_Close t w).1 !! tx (ttx t) = None.
Proof.
  intros Hc. unfold LogStorage.log_Close, Close. rewrite Hc. unfold mbind, M_bind.
  destruct (Rollback_ends (ttx t) w) as (Hs & Hn & e & He). destruct (Rollback (ttx t) w) as [w1 o]. cbn in *. by subst.
Qed.

(** How [beginInternal] ends. *)
Definition opened (w : pg) (w0 : pg) t : Prop :=
  tx (ttx t) = next_txn w ∧ closed (ttx t) = false ∧ stays (next_txn w) (begun w) w0.

Lemma beginInternal_cases tree w w0 o :
  beginInternal tree w = (w0, o) → fresh_handles w →
  match o with
  | Return (t, _) => opened w w0 t
  | Fail _ => committed w0 = committed w ∧ txns w0 = txns w
  | Panic _ => False
  end.
Proof.
  unfold LogStorage.beginInternal, beginTreeTx, mbind, M_bind, mret, M_ret, BeginTx. intros Hb Hf.
  destruct (fault _); [by simplify_eq|]. cbn in Hb.
  set (x := mkTreeTX _ _ _ _ _ _ _) in Hb. fold (begun w) in Hb.
  pose proof (framed_fetchLatestRoot x (begun w)) as Hr. cbn in Hr.
  destruct (fetchLatestRoot_Return x (begun w)) as (w1 & b & E). rewrite E in Hb, Hr. cbn in Hr.
  destruct b as [b|]; [|by simplify_eq/=; split_and!].
  destruct (root_UnmarshalBinary b) as [r|e]; cbn in Hb; [by simplify_eq/=; split_and!|].
  destruct (Rollback_ends x w1) as (Hs & Hn & e' & He). destruct (Rollback x w1) as [w2 o2]. cbn in *.
  unfold fail in Hb. simplify_eq/=.
  assert (same_else (next_txn w) (begun w) w0) as (Hc & _ & Hd) by (etrans; [apply Hr|exact Hs]). split; [done|].
  cbn in Hd. rewrite delete_insert_eq, !delete_id in Hd by (done || by apply Hf). done.
Qed.

(** But for the opened transaction there are those there were. *)
Lemma opened_delete w w0 w' t :
  fresh_handles w → opened w w0 t → same_else (next_txn w) w0 w' →
  delete (next_txn w) (txns w') = txns w ∧ committed w' = committed w.
Proof.
  intros Hf (_ & _ & Hs & _) Hs'. assert (same_else (next_txn w) (begun w) w') as (Hc & _ & ->) by (etrans; eauto).
  split; [|done]. cbn. by rewrite delete_insert_eq, delete_id by (by apply Hf).
Qed.

Lemma opened_ended w w0 w' t :
  fresh_handles w → opened w w0 t → same_else (next_txn w) w0 w' → txns w' !! next_txn w = None →
  txns w' = txns w ∧ committed w' = committed w.
Proof. intros Hf Ho Hs Hn. rewrite <-(delete_id (txns w') (next_txn w)) by done. by eapply opened_delete. Qed.

Lemma Close_closed t w : closed (ttx t) = true → log_Close t w = (w, Return (t, None)).
Proof. unfold LogStorage.log_Close, Close. intros ->. by destruct t. Qed.

(** How committing ends: the tables of the transaction are installed, or
    nothing is. *)
Lemma log_Commit_cases t w w' o :
  log_Commit t w = (w', o) →
  match o with
  | Return (t', None) =>
      ∃ w1 y, flush fault proto_Marshal dirty (ttx t) w = (w1, Return ()) ∧
        txns w1 !! tx (ttx t) = Some y ∧ aborted y = false ∧
        committed w' = work y ∧ txns w' = delete (tx (ttx t)) (txns w1) ∧ ttx t' = set_closed (ttx t)
  | Return (t', Some _) =>
      (ttx t' = set_closed (ttx t) ∧ same_else (tx (ttx t)) w w' ∧ txns w' !! tx (ttx t) = None) ∨
      (t' = t ∧ same_else (tx (ttx t)) w w')
  | Fail _ => False
  | Panic _ => same_else (tx (ttx t)) w w'
  end.
Proof.
  unfold LogStorage.log_Commit, Commit, mbind, M_bind.
  destruct (framed_flush fault dirty proto_Marshal (ttx t) w) as [Hfl _].
  destruct (flush _ _ _ (ttx t) w) as [w1 [[]|e|p]] eqn:Ef; cbn in Hfl; [|by intros [= <- <-]; right; destruct t|by intros [= <- <-]].
  unfold sql_Commit. destruct (txns w1 !! tx (ttx t)) as [y|] eqn:Ey;
    [|intros [= <- <-]; left; split_and!; done].
  assert (same_else (tx (ttx t)) w (with_txns (tick w1) (delete (tx (ttx t)) (txns w1)))) as Hs
    by (etrans; [exact Hfl|apply same_else_delete]).
  destruct (aborted y) eqn:Ea; [intros [= <- <-]; left; split_and!; [done|done|apply lookup_delete_eq]|].
  destruct (fault _); intros [= <- <-]; [left; split_and!; [done|done|apply lookup_delete_eq]|].
  exists w1, y. by split_and!.
Qed.

(** A body of a transaction: it works in the transaction it is given and
    does not end it. *)
Definition body_ok (f : logTreeTX → M pg (logTreeTX * option error)) : Prop :=
  ∀ t, framed (tx (ttx t)) (f t) ∧
    ∀ w w' t' e, f t w = (w', Return (t', e)) → closed (ttx t) = false →
      tx (ttx t') = tx (ttx t) ∧ closed (ttx t') = false.

(** What it means for the body to have taken effect. *)
Definition installed (f : logTreeTX → M pg (logTreeTX * option error)) (tree : Tree) (w w' : pg) : Prop :=
  ∃ t needsInit w0 t1 w1 w2 y,
    beginInternal tree w = (w0, Return (t, needsInit)) ∧ f t w0 = (w1, Return (t1, None)) ∧
    flush fault proto_Marshal dirty (ttx t1) w1 = (w2, Return ()) ∧
    txns w2 !! next_txn w = Some y ∧ aborted y = false ∧ committed w' = work y.

(** C5: [ReadWriteTransaction] is all or nothing.  Whatever the connection
    does, whether its body returns, fails or panics: no transaction is left
    open; unless it returns without an error, the committed data is what it
    was; and if it returns without an error, the committed data is the
    tables of the transaction after the body and the flushed subtrees. *)
Theorem ReadWriteTransaction_atomic tree f w w' o :
  body_ok f → fresh_handles w →
  ReadWriteTransaction fault dirty newCache proto_Marshal tree f w = (w', o) →
  txns w' = txns w ∧
  match o with
  | Return _ => installed f tree w w'
  | _ => committed w' = committed w
  end.
Proof.
  intros Hf Hw. unfold ReadWriteTransaction. unfold mbind at 1, M_bind at 1.
  destruct (beginInternal tree w) as [w0 ob] eqn:Eb. pose proof (beginInternal_cases _ _ _ _ Eb Hw) as Hb.
  destruct ob as [[t needs]|e|p]; [|intros [= <- <-]; split; apply Hb|done].
  destruct Hb as (Hh & Hc & Hs). destruct (Hf t) as [Hfr Hret]. destruct (Hfr w0) as [Hfr' _]. clear Hfr; rename Hfr' into Hfr.
  unfold with_close, mbind, M_bind.
  assert (∀ t' w1, tx (ttx t') = next_txn w → closed (ttx t') = false → same_else (next_txn w) w0 w1 →
    txns (log_Close t' w1).1 = txns w ∧ committed (log_Close t' w1).1 = committed w) as Hclose.
  { intros t' w1 Ht' Hc' Hs1. destruct (Close_ends t' w1 Hc') as [Hs2 Hn]. rewrite Ht' in Hs2, Hn.
    apply (opened_ended w w0 _ t); [done|by split_and!|by etrans|done]. }
  destruct (f t w0) as [w1 [[t1 [e|]]|e|p]] eqn:Ef; cbn in Hfr.
  - destruct (Hret _ _ _ _ Ef Hc) as [Ht1 Hc1]. intros [= <- <-]. rewrite Hh in Hfr. apply Hclose; congruence.
  - destruct (Hret _ _ _ _ Ef Hc) as [Ht1 Hc1]. destruct (log_Commit t1 w1) as [w2 oc] eqn:Ec.
    pose proof (log_Commit_cases _ _ _ _ Ec) as Hcc. rewrite Ht1, Hh in Hcc. rewrite Hh in Hfr.
    assert (∀ w3, same_else (next_txn w) w1 w3 → same_else (next_txn w) w0 w3) as Htr by (by etrans).
    destruct oc as [[t2 [e|]]|e|p]; [| |done|].
    + destruct Hcc as [(Ht2 & Hs2 & Hn2)|[-> Hs2]]; intros [= <- <-]; [|apply Hclose; [congruence|done|eauto]].
      rewrite Close_closed by (by rewrite Ht2). apply (opened_ended w w0 _ t); [done|by split_and!|eauto|done].
    + destruct Hcc as (w3 & y & Hfl & Hy & Ha & Hcm & Htx & Ht2). intros [= <- <-].
      rewrite Close_closed by (by rewrite Ht2). split; [|by exists t, needs, w0, t1, w1, w3, y].
      cbn. rewrite Htx. apply (opened_delete w w0 _ t); [done|by split_and!|]. apply Htr.
      destruct (framed_flush fault dirty proto_Marshal (ttx t1) w1) as [Hff _]. rewrite Hfl, Ht1, Hh in Hff. exact Hff.
    + intros [= <- <-]. apply Hclose; [congruence|done|eauto].
  - intros [= <- <-]. apply Hclose; congruence.
  - intros [= <- <-]. apply Hclose; congruence.
Qed.

Lemma opened_is_Some w w0 t : opened w w0 t → is_Some (txns w0 !! next_txn w).
Proof. intros (_ & _ & _ & Ho). apply Ho. cbn. by rewrite lookup_insert_eq. Qed.

(** ** A healthy connection *)

Section healthy.
Context (Hfault : ∀ n, fault n = None).

(** The transaction that [beginInternal] makes. *)
Definition opened_tx (tree : Tree) (h : nat) (r : LogRoot) (b : bytes) : logTreeTX :=
  mkLogTX (mkTreeTX false h (TreeId tree) (Tree_TreeType tree) rfc6962_size newCache (add64 (wrap_s64 (r_Revision r)) 1))
    r (Some b).

(** The root a tree has in the tables. *)
Definition stored_root (d : db) (tree : Z) : option (LogRoot * bytes) :=
  row ← trees d !! tree;
  json ← t_current_data row;
  let b := root_MarshalBinary (root_of_json json) in
  match root_UnmarshalBinary b with Ok r => Some (r, b) | Err _ => None end.

Lemma beginInternal_ok tree w r b :
  fresh_handles w → stored_root (committed w) (TreeId tree) = Some (r, b) →
  ∃ w0, beginInternal tree w = (w0, Return (opened_tx tree (next_txn w) r b, false)) ∧
    txns w0 !! next_txn w = Some (mkTxn (committed w) [] false) ∧ opened w w0 (opened_tx tree (next_txn w) r b).
Proof.
  intros Hw (row & Hrow & (json & Hj & Hr)%bind_Some)%bind_Some.
  cbv zeta in Hr. destruct (root_UnmarshalBinary _) as [r'|] eqn:Hu; [injection Hr as -> <-|done].
  assert (txns (begun w) !! next_txn w = Some (mkTxn (committed w) [] false)) as Hb by apply lookup_insert_eq.
  destruct (runs_query fault Hfault (next_txn w) (λ d, trees d !! TreeId tree ≫= t_current_data) (committed w) [] _ Hb)
    as (w0 & E & Hw0 & Hs). rewrite Hrow in E. cbn in E. rewrite Hj in E.
  exists w0. split_and!; [|done|].
  - unfold LogStorage.beginInternal, beginTreeTx, mbind, M_bind, mret, M_ret, BeginTx. rewrite Hfault. fold (begun w).
    unfold fetchLatestRoot. cbn [tx treeID]. rewrite E. by rewrite Hu.
  - split_and!; [done..|]. split; [done|]. intros _. by rewrite Hw0.
Qed.

Lemma log_Commit_ok t w d sp :
  txns w !! tx (ttx t) = Some (mkTxn d sp false) → dirty (subtreeCache (ttx t)) = [] →
  ∃ w', log_Commit t w = (w', Return (set_ttx t (set_closed (ttx t)), None)) ∧ committed w' = d ∧
    txns w' = delete (tx (ttx t)) (txns w) ∧ next_txn w' = next_txn w.
Proof.
  intros Hw Hd. unfold LogStorage.log_Commit, Commit, flush, storeSubtrees. rewrite Hd, bool_decide_eq_true_2 by done.
  unfold mbind, M_bind. destruct (_ <? _); cbn; unfold sql_Commit; rewrite Hw; cbn; rewrite Hfault; by eexists.
Qed.

(** The whole of an operation: begin, work, commit. *)
Lemma whole_transaction {A B} tree w r b (work : logTreeTX → M pg A) (out : A → M pg B) a z d' :
  fresh_handles w → stored_root (committed w) (TreeId tree) = Some (r, b) → dirty newCache = [] →
  runs (next_txn w) (work (opened_tx tree (next_txn w) r b)) (committed w) [] a d' [] →
  (∀ w1, out a w1 = (w1, Return z)) →
  ∃ w', ('(t, needsInit) ← beginInternal tree;
         _ ← guard_ (negb needsInit) ErrTreeNeedsInit;
         x ← work t;
         c ← log_Commit t;
         _ ← committed_or_fail c;
         out x) w = (w', Return z) ∧ committed w' = d' ∧ txns w' = txns w ∧ fresh_handles w'.
Proof.
  intros Hw Hr Hd Hrun Hout. destruct (beginInternal_ok tree w r b Hw Hr) as (w0 & Eb & Hw0 & Ho).
  destruct (Hrun w0 Hw0) as (w1 & E1 & Hw1 & Hs1).
  destruct (log_Commit_ok (opened_tx tree (next_txn w) r b) w1 d' [] Hw1 Hd) as (w2 & E2 & Hc2 & Htx2 & Hn2).
  assert (txns w2 = txns w) as Htx by (rewrite Htx2; by apply (opened_delete w w0 w1 (opened_tx tree (next_txn w) r b))).
  exists w2. split_and!; [|done|done|].
  - rewrite (bind_ret _ _ _ _ _ Eb). cbv beta iota. cbn [negb]. rewrite guard_ok, (bind_ret _ _ _ _ _ E1).
    rewrite (bind_ret _ _ _ _ _ E2). unfold committed_or_fail. cbn [snd].
    rewrite (bind_ret (mret ()) _ _ _ () eq_refl). apply Hout.
  - intros h Hle. rewrite Htx. apply Hw. rewrite Hn2 in Hle.
    destruct Hs1 as (_ & En & _), Ho as (_ & _ & (_ & E & _) & _). cbn in E. lia.
Qed.

(** A tree that was never initialized. *)
Definition blank_tx (tree : Tree) (h : nat) : logTreeTX :=
  mkLogTX (mkTreeTX false h (TreeId tree) (Tree_TreeType tree) rfc6962_size newCache (-1)) zero_root None.
Lemma beginInternal_blank tree w :
  fresh_handles w → (trees (committed w) !! TreeId tree ≫= t_current_data) = None →
  ∃ w0, beginInternal tree w = (w0, Return (blank_tx tree (next_txn w), true)) ∧
    txns w0 !! next_txn w = Some (mkTxn (committed w) [] false) ∧ opened w w0 (blank_tx tree (next_txn w)).
Proof.
  intros Hw Hrow.
  assert (txns (begun w) !! next_txn w = Some (mkTxn (committed w) [] false)) as Hb by apply lookup_insert_eq.
  destruct (runs_query fault Hfault (next_txn w) (λ d, trees d !! TreeId tree ≫= t_current_data) (committed w) [] _ Hb)
    as (w0 & E & Hw0 & Hs). rewrite Hrow in E.
  exists w0. split_and!; [|done|].
  - unfold LogStorage.beginInternal, beginTreeTx, mbind, M_bind, mret, M_ret, BeginTx. rewrite Hfault. fold (begun w).
    unfold fetchLatestRoot. cbn [tx treeID]. by rewrite E.
  - split_and!; [done..|]. split; [done|]. intros _. by rewrite Hw0.
Qed.

(** A body that succeeds has its effect. *)
Lemma ReadWriteTransaction_ok tree f w w0 t needsInit d' sp' :
  fresh_handles w → beginInternal tree w = (w0, Return (t, needsInit)) → opened w w0 t →
  txns w0 !! next_txn w = Some (mkTxn (committed w) [] false) → dirty (subtreeCache (ttx t)) = [] →
  runs (next_txn w) (f t) (committed w) [] (t, None) d' sp' →
  ∃ w', ReadWriteTransaction fault dirty newCache proto_Marshal tree f w = (w', Return ()) ∧
    committed w' = d' ∧ txns w' = txns w ∧ fresh_handles w'.
Proof.
  intros Hw Eb Ho Hw0 Hd Hrun. destruct (Hrun w0 Hw0) as (w1 & E1 & Hw1 & Hs1).
  pose proof Ho as (Hh & Hc & Hs). rewrite <-Hh in Hw1.
  destruct (log_Commit_ok t w1 d' sp' Hw1 Hd) as (w2 & E2 & Hc2 & Htx2 & Hn2).
  assert (txns w2 = txns w) as Htx by (rewrite Htx2, Hh; by eapply opened_delete).
  exists w2. split_and!; [|done|done|].
  - unfold ReadWriteTransaction. rewrite (bind_ret _ _ _ _ _ Eb). unfold with_close, mbind, M_bind. rewrite E1, E2.
    by rewrite Close_closed by done.
  - intros h Hle. rewrite Htx. apply Hw. rewrite Hn2 in Hle.
    destruct Hs1 as (_ & En & _), Hs as [(_ & E & _) _]. cbn in E. lia.
Qed.
End healthy.

Context (sort_leaves : list (nat * leaf) → list (nat * leaf)).

(** C30: The storage's [QueueLeaves] and [AddSequencedLeaves] do not close
    their transaction when they give up: on a tree that needs
    initialization, and whenever the work inside the transaction fails, the
    caller gets the error and the transaction is still open, though no data
    changed. *)
Theorem failed_batch_stays_open tree leaves now w w0 t needsInit :
  fresh_handles w → beginInternal tree w = (w0, Return (t, needsInit)) →
  let queue := QueueLeaves fault dirty newCache proto_Marshal sort_leaves tree leaves now w in
  let add := AddSequencedLeaves fault dirty newCache proto_Marshal sort_leaves tree leaves now w in
  let left_open w' := committed w' = committed w ∧ is_Some (txns w' !! next_txn w) in
  (needsInit = true → queue = (w0, Fail ErrTreeNeedsInit) ∧ add = (w0, Fail ErrTreeNeedsInit) ∧ left_open w0) ∧
  (∀ w1 e, needsInit = false →
    (tx_QueueLeaves fault sort_leaves t leaves now w0 = (w1, Fail e) → queue = (w1, Fail e) ∧ left_open w1) ∧
    (tx_AddSequencedLeaves fault sort_leaves t leaves now w0 = (w1, Fail e) → add = (w1, Fail e) ∧ left_open w1)).
Proof.
  intros Hw Eb queue add left_open. pose proof (beginInternal_cases _ _ _ _ Eb Hw) as Ho. cbn in Ho.
  assert (∀ w', stays (tx (ttx t)) w0 w' → left_open w') as Hl.
  { intros w' [Hs Hop]. rewrite (proj1 Ho) in Hs, Hop. split; [|by eapply Hop, opened_is_Some].
    by eapply opened_delete. }
  unfold queue, add, QueueLeaves, AddSequencedLeaves. split; [intros ->|intros w1 e ->].
  - rewrite !(bind_ret _ _ _ _ _ Eb). split_and!; [done|done|by apply Hl].
  - rewrite !(bind_ret _ _ _ _ _ Eb). unfold guard_, negb. rewrite !(bind_ret (mret ()) _ _ _ () eq_refl).
    split; intros Ef; (split; [by apply bind_fail|]); apply Hl.
    + pose proof (framed_tx_QueueLeaves fault sort_leaves t leaves now w0) as Hfr. by rewrite Ef in Hfr.
    + pose proof (framed_tx_AddSequencedLeaves fault sort_leaves t leaves now w0) as Hfr. by rewrite Ef in Hfr.
Qed.
End log_tx.

(** A body that stores a root and one that is refused. *)
Definition sample_body (t : logTreeTX (SubtreeCache := unit)) : M pg (logTreeTX * option error) :=
  _ ← StoreSignedLogRoot no_fault t "xx"; mret (t, None).

Lemma ReadWriteTransaction_atomic_witness :
  let r := ReadWriteTransaction no_fault no_dirty tt sample_marshal sample_tree sample_body sample_pg in
  r.2 = Return () ∧ txns r.1 = ∅ ∧ installed no_fault no_dirty tt sample_marshal sample_body sample_tree sample_pg r.1.
Proof.
  intros r. assert (r.2 = Return ()) as Er by (vm_compute; reflexivity). split; [exact Er|].
  pose proof (ReadWriteTransaction_atomic no_fault no_dirty tt sample_marshal sample_tree sample_body sample_pg r.1 r.2) as H.
  rewrite Er in H. apply H.
  - intros t. split.
    + apply framed_bind; [apply framed_StoreSignedLogRoot|intros; apply framed_ret].
    + intros w w' t' e (x & w1 & _ & E)%bind_Return Hc. by apply ret_Return in E as [[= -> ->] ->].
  - intros h _. apply lookup_empty.
  - unfold r in *. by destruct (ReadWriteTransaction _ _ _ _ _ _ _) as [w o]; cbn in *; subst.
Defined.

Lemma failed_batch_stays_open_witness :
  let r := QueueLeaves no_fault no_dirty tt sample_marshal sample_sort blank_tree [] 30 sample_pg in
  r.2 = Fail ErrTreeNeedsInit ∧ is_Some (txns r.1 !! 0%nat).
Proof.
  intros r.
  assert ((beginInternal no_fault tt blank_tree sample_pg).2 = Return (blank_tx tt blank_tree 0, true)) as Eo
    by (vm_compute; reflexivity).
  destruct (beginInternal no_fault tt blank_tree sample_pg) as [w0 o] eqn:E. cbn [snd] in Eo. rewrite Eo in E.
  destruct (failed_batch_stays_open no_fault no_dirty tt sample_marshal sample_sort blank_tree [] 30 sample_pg w0
    (blank_tx tt blank_tree 0) true) as [H _]; [intros h _; apply lookup_empty|exact E|].
  destruct (H eq_refl) as (Hq & _ & _ & Ho). unfold r. rewrite Hq. split; [reflexivity|exact Ho].
Defined.
