(* ===== verification/QueueFacts.v ===== *)
(** * Queueing leaves

    [QueueLeaves] on a healthy connection: the result of every leaf and the
    data it commits. *)

From stdpp Require Import sorting.
From S2P Require Import Prelude GoStrings GoFmt Errors Effects Postgres TreeStorage LogStorage StorageSamples StorageFacts LogTxFacts.

Open Scope Z_scope.

(** ** The specification *)

(** The leaf has no row yet. *)
Definition is_new (tree : Z) (d : db) (l : leaf) : bool := bool_decide (leaf_data d !! (tree, lf_identity l) = None).

Definition leaf_rows (tree : Z) (ls : list leaf) : gmap (Z * bytes) leaf_row :=
  list_to_map ((λ l, ((tree, lf_identity l),
    mkLeafRow (default [] (lf_value l)) (lf_extra l) (default 0 (lf_queue l)))) <$> ls).
Definition queue_rows (tree : Z) (ls : list leaf) : gmap (Z * Z * bytes) bytes :=
  list_to_map ((λ l, ((tree, default 0 (lf_queue l), lf_identity l), default [] (lf_merkle l))) <$> ls).

(** The data after queueing: rows and queue entries for the new leaves. *)
Definition queued_db (tree : Z) (ls : list leaf) (d : db) : db :=
  let new := List.filter (is_new tree d) ls in
  set_unsequenced (set_leaf_data d (leaf_rows tree new ∪ leaf_data d)) (queue_rows tree new ∪ unsequenced d).

(** The integration times of the sequenced entries of a leaf. *)
Definition sequenced_of (tree : Z) (d : db) (h : bytes) : list leaf :=
  List.filter (λ j, beq (lf_identity j) h) (joined tree d).

(** A known leaf, as it is stored. *)
Definition known_leaf (tree : Z) (d : db) (h : bytes) : option leaf :=
  l ← leaf_data d !! (tree, h);
  Some (mkLeaf (Some dummymerkleLeafHash) (Some (l_value l)) (l_extra l) (-1) h (Some (l_queue_nanos l))
    (j ← head (sequenced_of tree d h); lf_integrate j)).

(** What the caller of [QueueLeaves] is told about a leaf. *)
Definition queued_result (tree : Z) (d : db) (now : Z) (l : leaf) : QueuedLogLeaf :=
  match known_leaf tree d (lf_identity l) with
  | None => mkQueued (Some (set_queue_time now l)) None
  | Some x => mkQueued (Some x) (Some (AlreadyExists, already_exists x))
  end.

(** ** Data invariants *)

Definition queue_ok (d : db) : Prop :=
  ∀ tree ts h, is_Some (unsequenced d !! (tree, ts, h)) → is_Some (leaf_data d !! (tree, h)).
Definition sequenced_once (tree : Z) (d : db) : Prop :=
  ∀ n1 n2 s1 s2, sequenced_leaf_data d !! (tree, n1) = Some s1 → sequenced_leaf_data d !! (tree, n2) = Some s2 →
    s_identity s1 = s_identity s2 → n1 = n2.

(** ** Filtering *)

Lemma filter_elem {A} (f : A → bool) ls x : x ∈ List.filter f ls → x ∈ ls.
Proof. rewrite list_elem_of_In, filter_In, <-list_elem_of_In. by intros [? _]. Qed.
Lemma fmap_filter_not {A B} (k : A → B) (f : A → bool) ls b : b ∉ k <$> ls → b ∉ k <$> List.filter f ls.
Proof. intros Hb. contradict Hb. apply list_elem_of_fmap in Hb as (x & -> & ?%filter_elem). by apply list_elem_of_fmap_2. Qed.
Lemma NoDup_fmap_filter {A B} (k : A → B) f (ls : list A) : NoDup (k <$> ls) → NoDup (k <$> List.filter f ls).
Proof.
  induction ls as [|l ls IH]; cbn; [done|]. intros [Hl Hn]%NoDup_cons. destruct (f l); [|auto].
  cbn. constructor; [by apply fmap_filter_not|auto].
Qed.
Lemma filter_Permutation {A} (f : A → bool) ls ls' : ls ≡ₚ ls' → List.filter f ls ≡ₚ List.filter f ls'.
Proof.
  induction 1 as [|x l l' _ IH|x y l|]; cbn; [done|by destruct (f x); rewrite IH| |by etrans].
  destruct (f x), (f y); done || constructor.
Qed.

(** ** The rows of one batch *)

Section rows.
Context (tree : Z).

Lemma leaf_rows_None ls h : h ∉ lf_identity <$> ls → leaf_rows tree ls !! (tree, h) = None.
Proof.
  intros Hh. apply not_elem_of_list_to_map. contradict Hh. rewrite <-list_fmap_compose in Hh.
  apply list_elem_of_fmap in Hh as (l & [= ->] & Hl). by apply list_elem_of_fmap_2.
Qed.
Lemma queue_rows_None ls ts h : h ∉ lf_identity <$> ls → queue_rows tree ls !! (tree, ts, h) = None.
Proof.
  intros Hh. apply not_elem_of_list_to_map. contradict Hh. rewrite <-list_fmap_compose in Hh.
  apply list_elem_of_fmap in Hh as (l & [= -> ->] & Hl). by apply list_elem_of_fmap_2.
Qed.


(** Queueing the first leaf, then the rest. *)
Lemma queued_db_cons_new l ls d :
  is_new tree d l = true → lf_identity l ∉ lf_identity <$> ls →
  queued_db tree (l :: ls) d =
  queued_db tree ls
    (set_unsequenced (set_leaf_data d (<[(tree, lf_identity l) :=
        mkLeafRow (default [] (lf_value l)) (lf_extra l) (default 0 (lf_queue l))]> (leaf_data d)))
      (<[(tree, default 0 (lf_queue l), lf_identity l) := default [] (lf_merkle l)]> (unsequenced d))).
Proof.
  intros Hn Hl. set (d1 := set_unsequenced _ _). unfold queued_db. cbn [List.filter]. rewrite Hn.
  assert (List.filter (is_new tree d1) ls = List.filter (is_new tree d) ls) as ->.
  { apply filter_ext_in. intros x Hx. apply bool_decide_ext. unfold d1. cbn. rewrite lookup_insert_ne; [done|].
    intros [= E]. apply Hl. rewrite E. by apply list_elem_of_fmap_2, list_elem_of_In. }
  unfold d1, leaf_rows, queue_rows, set_unsequenced, set_leaf_data. cbn. f_equal.
  - rewrite <-insert_union_r by (apply leaf_rows_None; by apply fmap_filter_not). by rewrite insert_union_l.
  - rewrite <-insert_union_r by (apply queue_rows_None; by apply fmap_filter_not). by rewrite insert_union_l.
Qed.
Lemma queued_db_cons_known l ls d :
  is_new tree d l = false → queued_db tree (l :: ls) d = queued_db tree ls d.
Proof. intros Hn. unfold queued_db. cbn [List.filter]. by rewrite Hn. Qed.

(** The order of the leaves does not matter. *)
Lemma queued_db_Permutation ls ls' d :
  NoDup (lf_identity <$> ls) → ls ≡ₚ ls' → queued_db tree ls d = queued_db tree ls' d.
Proof.
  intros Hn Hp. unfold queued_db, leaf_rows, queue_rows.
  pose proof (filter_Permutation (is_new tree d) _ _ Hp) as Hf. apply (NoDup_fmap_filter _ (is_new tree d)) in Hn.
  f_equal; [f_equal|]; f_equal; (apply list_to_map_proper; [|by rewrite Hf]); rewrite <-list_fmap_compose.
  - eapply NoDup_fmap_1 with (f := snd). by rewrite <-list_fmap_compose.
  - eapply NoDup_fmap_1 with (f := snd). by rewrite <-list_fmap_compose.
Qed.
End rows.

(** ** The loop over the leaves *)

(** Results are recorded at the positions of their leaves. *)
Definition mark {B} (g : leaf → option B) (e : list (option B)) (ol : nat * leaf) : list (option B) :=
  match g ol.2 with None => e | Some b => <[ol.1 := Some b]> e end.

Section mark.
Context {B : Type} (g : leaf → option B).

Lemma mark_other ols e i : i ∉ ols.*1 → foldl (mark g) e ols !! i = e !! i.
Proof.
  revert e. induction ols as [|[j l] ols IH]; intros e Hi; cbn in *; [done|]. apply not_elem_of_cons in Hi as [Hj Hi].
  rewrite IH by done. unfold mark. cbn. destruct (g l); [|done]. by rewrite list_lookup_insert_ne.
Qed.
Lemma mark_length ols e : length (foldl (mark g) e ols) = length e.
Proof.
  revert e. induction ols as [|[j l] ols IH]; intros e; cbn; [done|]. rewrite IH. unfold mark. destruct (g _); [|done].
  apply length_insert.
Qed.
Lemma mark_lookup ols e i l :
  NoDup ols.*1 → (i, l) ∈ ols → (i < length e)%nat → e !! i = Some None → foldl (mark g) e ols !! i = Some (g l).
Proof.
  revert e. induction ols as [|[j x] ols IH]; intros e Hn Hi Hlen He; [by apply not_elem_of_nil in Hi|].
  cbn in *. apply NoDup_cons in Hn as [Hj Hn]. apply elem_of_cons in Hi as [[= -> ->]|Hi].
  - rewrite mark_other by done. unfold mark. cbn. destruct (g x); [|done]. by rewrite list_lookup_insert_eq.
  - assert (i ≠ j) by (intros ->; apply Hj, list_elem_of_fmap; by exists (j, l)).
    apply IH; [done|done| |]; unfold mark; cbn; destruct (g x); [|done| |done].
    + by rewrite length_insert.
    + by rewrite list_lookup_insert_ne.
Qed.

(** Over all leaves in any order. *)
Lemma mark_all ls ols :
  ols ≡ₚ imap pair ls → foldl (mark g) (replicate (length ls) None) ols = g <$> ls.
Proof.
  intros Hp. apply list_eq_same_length with (n := length ls);
    [by rewrite length_fmap|by rewrite mark_length, length_replicate|].
  intros i x y Hi Hx Hy. rewrite list_lookup_fmap in Hy. apply fmap_Some in Hy as (l & Hl & ->).
  rewrite (mark_lookup ols _ i l) in Hx; [by simplify_eq| | |by rewrite length_replicate|].
  - rewrite Hp, fmap_imap. apply NoDup_alt. intros j k a. rewrite !list_lookup_imap.
    destruct (ls !! j), (ls !! k); naive_solver.
  - rewrite Hp. apply list_elem_of_lookup. exists i. by rewrite list_lookup_imap, Hl.
  - by rewrite lookup_replicate_2.
Qed.
End mark.

(** ** Reading back the known leaves *)

Lemma NoDup_omap_inj {A B} (f : A → option B) l :
  (∀ x y b, x ∈ l → y ∈ l → f x = Some b → f y = Some b → x = y) → NoDup l → NoDup (omap f l).
Proof.
  intros Hf. induction 1 as [|x l Hx Hn IH]; cbn; [constructor|]. destruct (f x) as [b|] eqn:E; [|apply IH; set_solver].
  constructor; [|apply IH; set_solver]. intros (y & Hy & Ey)%list_elem_of_omap. apply Hx.
  rewrite (Hf x y b); [done|set_solver..|done|done].
Qed.

Lemma seq_numbers_NoDup tree d : NoDup (seq_numbers tree d).
Proof.
  unfold seq_numbers. rewrite merge_sort_Permutation. apply NoDup_omap_inj; [|apply NoDup_fst_map_to_list].
  intros [t1 n1] [t2 n2] n _ _. cbn. repeat case_match; try done.
  rewrite ?Z.eqb_eq in *. intros. by simplify_eq.
Qed.
Lemma elem_of_seq_numbers tree d n : n ∈ seq_numbers tree d ↔ is_Some (sequenced_leaf_data d !! (tree, n)).
Proof.
  unfold seq_numbers. rewrite merge_sort_Permutation, list_elem_of_omap. split.
  - intros ([t1 n1] & Hk & Hc). cbn in Hc. destruct (t1 =? tree) eqn:E; simplify_eq. apply Z.eqb_eq in E as ->.
    apply list_elem_of_fmap in Hk as ([k s] & -> & Hk). apply elem_of_map_to_list in Hk. by eexists.
  - intros [s Hs]. exists (tree, n). split; [|by rewrite Z.eqb_refl].
    apply list_elem_of_fmap. exists ((tree, n), s). by rewrite elem_of_map_to_list.
Qed.

Lemma joined_at_Some tree d n j :
  joined_at tree d n = Some j ↔
  ∃ s l, sequenced_leaf_data d !! (tree, n) = Some s ∧ leaf_data d !! (tree, s_identity s) = Some l ∧
    j = joined_leaf (s_identity s) l n s.
Proof.
  unfold joined_at. split.
  - intros (s & Hs & (l & Hl & [= <-])%bind_Some)%bind_Some. eauto.
  - intros (s & l & -> & Hl & ->). cbn. by rewrite Hl.
Qed.
Lemma elem_of_joined tree d j :
  j ∈ joined tree d ↔ joined_at tree d (lf_index j) = Some j.
Proof.
  unfold joined. rewrite list_elem_of_omap. split.
  - intros (n & _ & Hj). pose proof Hj as (s & l & _ & _ & ->)%joined_at_Some. done.
  - intros Hj. exists (lf_index j). split; [|done]. apply elem_of_seq_numbers.
    apply joined_at_Some in Hj as (s & l & Hs & _). by eexists.
Qed.

(** A leaf that is sequenced at most once has at most one row. *)
Lemma sequenced_of_once tree d h : sequenced_once tree d → (length (sequenced_of tree d h) ≤ 1)%nat.
Proof.
  intros Ho. assert (NoDup (sequenced_of tree d h)) as Hn.
  { apply NoDup_ListNoDup, List.NoDup_filter, NoDup_ListNoDup. apply NoDup_omap_inj; [|apply seq_numbers_NoDup].
    intros x y j _ _ (s & l & _ & _ & ->)%joined_at_Some (s' & l' & _ & _ & [=])%joined_at_Some. done. }
  assert (∀ a b, a ∈ sequenced_of tree d h → b ∈ sequenced_of tree d h → a = b) as Heq.
  { assert (∀ a, a ∈ sequenced_of tree d h → joined_at tree d (lf_index a) = Some a ∧ lf_identity a = h) as Ha.
    { intros a. unfold sequenced_of. rewrite list_elem_of_In, filter_In, <-list_elem_of_In, elem_of_joined.
      intros [? ?%beq_true]. done. }
    intros a b [Ha1 Ea]%Ha [Hb1 Eb]%Ha.
    pose proof Ha1 as (s & l & Hs & _ & E1)%joined_at_Some. pose proof Hb1 as (s' & l' & Hs' & _ & E2)%joined_at_Some.
    assert (lf_index a = lf_index b) as E; [|congruence]. eapply Ho; [exact Hs|exact Hs'|].
    rewrite E1 in Ea. rewrite E2 in Eb. cbn in *. congruence. }
  destruct (sequenced_of tree d h) as [|a [|b r]]; cbn; [lia..|].
  apply NoDup_cons in Hn as [Hn _]. destruct Hn. rewrite (Heq a b); [by left|by left|by right; left].
Qed.

Lemma filter_omap_ext {A B} (p : B → bool) (f g : A → option B) l :
  (∀ x, (b ← f x; if p b then Some b else None) = (b ← g x; if p b then Some b else None)) →
  List.filter p (omap f l) = List.filter p (omap g l).
Proof.
  intros Hx. induction l as [|x l IH]; [done|]. specialize (Hx x). cbn in *.
  destruct (f x) as [b|] eqn:Ef, (g x) as [c|] eqn:Eg; cbn in *;
    repeat case_match; simplify_eq; by rewrite ?IH.
Qed.

(** Queueing does not change what is known about a known leaf. *)
Lemma known_leaf_stable tree d d' h :
  sequenced_leaf_data d' = sequenced_leaf_data d → leaf_data d' !! (tree, h) = leaf_data d !! (tree, h) →
  known_leaf tree d' h = known_leaf tree d h ∧ sequenced_of tree d' h = sequenced_of tree d h.
Proof.
  intros Hs Hl. unfold known_leaf. rewrite Hl.
  assert (sequenced_of tree d' h = sequenced_of tree d h) as ->; [|done].
  unfold sequenced_of, joined, seq_numbers. rewrite Hs. apply filter_omap_ext. intros n.
  unfold joined_at. rewrite Hs. destruct (sequenced_leaf_data d !! (tree, n)) as [s|]; [|done]. cbn.
  destruct (beq (s_identity s) h) eqn:E.
  - apply beq_true in E as ->. by rewrite Hl.
  - unfold joined_leaf. destruct (leaf_data d' !! (tree, s_identity s)), (leaf_data d !! (tree, s_identity s)); cbn; by rewrite ?E.
Qed.

Lemma remove_dups_NoDup {A} `{EqDecision A} (l : list A) : NoDup l → remove_dups l = l.
Proof. induction 1 as [|x l Hx Hn IH]; cbn; [done|]. destruct (decide_rel _ _ _); [done|]. by rewrite IH. Qed.

Lemma select_by_identity_once tree d hs :
  NoDup hs → sequenced_once tree d → select_by_identity tree hs d = omap (known_leaf tree d) hs.
Proof.
  intros Hn Ho. unfold select_by_identity. rewrite remove_dups_NoDup by done. clear Hn.
  induction hs as [|h hs IH]; [done|]. cbn [omap list_omap mbind list_bind]. rewrite IH. unfold known_leaf at 2.
  destruct (leaf_data d !! (tree, h)) as [l|]; cbn; [|done].
  pose proof (sequenced_of_once tree d h Ho) as Hlen. fold (sequenced_of tree d h).
  destruct (sequenced_of tree d h) as [|j [|k r]]; cbn in *; [done|done|lia].
Qed.

Lemma find_known tree d hs h x :
  known_leaf tree d h = Some x → h ∈ hs →
  List.find (λ y, beq (lf_identity y) h) (omap (known_leaf tree d) hs) = Some x.
Proof.
  intros Hx. assert (∀ h' y, known_leaf tree d h' = Some y → lf_identity y = h') as Hid.
  { intros h' y (l & _ & [= <-])%bind_Some. done. }
  induction hs as [|h' hs IH]; [by intros ?%not_elem_of_nil|]. intros Hh. cbn.
  destruct (known_leaf tree d h') as [y|] eqn:Ey.
  - cbn. rewrite (Hid _ _ Ey). destruct (beq h' h) eqn:E; [apply beq_true in E as ->; congruence|].
    apply IH. apply elem_of_cons in Hh as [->|]; [by rewrite beq_refl in E|done].
  - apply IH. apply elem_of_cons in Hh as [->|]; [congruence|done].
Qed.

Lemma replace_known tree d hs ls :
  (∀ l, Some l ∈ ls → lf_identity l ∈ hs ∧ is_Some (leaf_data d !! (tree, lf_identity l))) →
  replace_existing (omap (known_leaf tree d) hs) ls =
  Ok ((λ o, l ← o; known_leaf tree d (lf_identity l)) <$> ls).
Proof.
  induction ls as [|[l|] ls IH]; intros Hl; [done| |]; cbn.
  - destruct (Hl l) as [Hin [r Hr]]; [by left|].
    assert (∃ x, known_leaf tree d (lf_identity l) = Some x) as [x Hx] by (unfold known_leaf; rewrite Hr; by eexists).
    rewrite (find_known tree d hs _ x Hx Hin), IH by (intros; apply Hl; by right). cbn. by rewrite Hx.
  - rewrite IH by (intros; apply Hl; by right). done.
Qed.

Section queue.
Context (fault : nat → option error) (Hfault : ∀ n, fault n = None).
Context {SubtreeCache : Type} (t : logTreeTX (SubtreeCache := SubtreeCache)).
Abbreviation id_ := (treeID (ttx t)).

(** A leaf the tables accept. *)
Definition leaf_ok (l : leaf) : Prop :=
  length (lf_identity l) = 32%nat ∧ is_Some (lf_value l) ∧ is_Some (lf_merkle l).

(** The known leaves of a batch. *)
Definition known_of (new : leaf → bool) (l : leaf) : option leaf := if new l then None else Some l.

Lemma runs_queue_all new ols e d sp :
  is_Some (trees d !! id_) → queue_ok d →
  (∀ l, l ∈ ols.*2 → leaf_ok l ∧ new l = is_new id_ d l) → NoDup (lf_identity <$> ols.*2) →
  runs (tx (ttx t)) (queue_all fault t ols e) d sp (foldl (mark (known_of new)) e ols) (queued_db id_ ols.*2 d) sp.
Proof.
  revert e d. induction ols as [|[i l] ols IH]; intros e d Htree Hq Hls Hn.
  { unfold queued_db. cbn. rewrite !(left_id_L ∅ _). destruct d. apply runs_ret. }
  destruct (Hls l) as [(_ & [v Hv] & [m Hm]) Hnew]; [by left|]. cbn in Hn. apply NoDup_cons in Hn as [Hl Hn].
  cbn [queue_all foldl fmap list_fmap snd]. unfold mark at 2, known_of. cbn [snd fst]. rewrite Hnew.
  unfold is_new. case_bool_decide as Hld.
  - rewrite queued_db_cons_new by (done || by apply bool_decide_eq_true). set (d1 := set_unsequenced _ _).
    eapply runs_bind; [|apply IH; [done| | |done]].
    + unfold queue_one. eapply runs_bind; [apply runs_within, (runs_statement _ Hfault)|].
      { unfold insert_leaf_data. rewrite Hv, Hld. by destruct Htree as [? ->]. }
      cbn [id]. eapply runs_bind; [apply runs_within, (runs_statement _ Hfault)|apply runs_ret].
      unfold insert_unsequenced. rewrite Hm. cbn.
      destruct (unsequenced d !! _) eqn:Eu; [|unfold d1; by rewrite Hv, Hm].
      destruct (Hq id_ (default 0 (lf_queue l)) (lf_identity l)) as [? E]; [by rewrite Eu|by rewrite Hld in E].
    + intros tr ts x. unfold d1. cbn. intros Hx.
      destruct (decide ((tr, x) = (id_, lf_identity l))) as [E|E]; [rewrite E, lookup_insert_eq; by eexists|].
      rewrite lookup_insert_ne by congruence. rewrite lookup_insert_ne in Hx by congruence. by eapply Hq.
    + intros x Hx. destruct (Hls x) as [? ->]; [by right|]. split; [done|]. apply bool_decide_ext. unfold d1. cbn.
      rewrite lookup_insert_ne; [done|]. intros [= E]. apply Hl. rewrite E. by apply list_elem_of_fmap_2.
  - rewrite queued_db_cons_known by (by apply bool_decide_eq_false).
    eapply runs_bind; [|apply IH; [done|done| |done]; intros x Hx; apply Hls; by right].
    unfold queue_one. eapply runs_bind; [apply runs_within, (runs_statement _ Hfault)|].
    + unfold insert_leaf_data. rewrite Hv. destruct Htree as [? ->]. destruct (leaf_data d !! _); done.
    + apply runs_ret.
Qed.

Lemma check_rows_known d hs :
  hashSizeBytes (ttx t) = 32 →
  check_rows t "leaf-identity" (omap (known_leaf id_ d) hs) = Ok (omap (known_leaf id_ d) hs).
Proof.
  intros Hs. induction hs as [|h hs IH]; [done|]. cbn [omap list_omap].
  destruct (known_leaf id_ d h) as [y|] eqn:Ey; [|done]. cbn [check_rows].
  assert (lf_merkle y = Some dummymerkleLeafHash) as -> by (by apply bind_Some in Ey as (l & _ & [= <-])).
  rewrite Hs. cbn [default from_option id]. change (Z.of_nat (length dummymerkleLeafHash)) with 32.
  rewrite Z.eqb_refl, IH. done.
Qed.

(** Reading back the known leaves among [ls]. *)
Lemma runs_retrieve d sp ls :
  hashSizeBytes (ttx t) = 32 → NoDup (lf_identity <$> omap id ls) → sequenced_once id_ d →
  omap id ls ≠ [] → (∀ l, Some l ∈ ls → is_Some (leaf_data d !! (id_, lf_identity l))) →
  runs (tx (ttx t)) (retrieve_existing fault t ls) d sp ((λ o, l ← o; known_leaf id_ d (lf_identity l)) <$> ls) d sp.
Proof.
  intros Hs Hn Ho Hne Hls. unfold retrieve_existing. set (hs := lf_identity <$> omap id ls).
  assert (∀ l, Some l ∈ ls → lf_identity l ∈ hs ∧ is_Some (leaf_data d !! (id_, lf_identity l))) as Hls'.
  { intros l Hl. split; [|auto]. apply list_elem_of_fmap_2, list_elem_of_omap. eauto. }
  assert (length (omap (known_leaf id_ d) hs) = length hs) as Hlen.
  { assert (∀ h, h ∈ hs → is_Some (known_leaf id_ d h)) as Hk.
    { intros h (l & -> & (o & Ho' & Eo)%list_elem_of_omap)%list_elem_of_fmap. cbn in Eo. subst o.
      destruct (Hls' l Ho') as [_ [r Hr]]. unfold known_leaf. rewrite Hr. by eexists. }
    clear -Hk. induction hs as [|h hs IH]; [done|]. cbn. destruct (Hk h) as [x ->]; [by left|]. cbn.
    rewrite IH; [done|]. intros; apply Hk; by right. }
  eapply runs_bind; [apply runs_within|].
  - unfold getLeafDataByIdentityHash, getLeavesByLeafIdentityHashStmt. apply (runs_stmt _ Hfault).
    + cbn. unfold hs. rewrite length_fmap. destruct (omap id ls); [done|cbn; lia].
    + eapply runs_bind; [apply (runs_query _ Hfault)|]. apply runs_try.
      rewrite select_by_identity_once by done. by apply check_rows_known.
  - eapply runs_bind; [apply runs_guard; by rewrite Hlen, Nat.eqb_refl|]. apply runs_try. by apply replace_known.
Qed.

Context (sort_leaves : list (nat * leaf) → list (nat * leaf)) (Hsort : ∀ l, sort_leaves l ≡ₚ l).

Lemma queued_db_known ls d h :
  is_Some (leaf_data d !! (id_, h)) → leaf_data (queued_db id_ ls d) !! (id_, h) = leaf_data d !! (id_, h).
Proof.
  intros [r Hr]. cbn. rewrite lookup_union_r; [done|]. apply leaf_rows_None.
  intros (l & -> & Hl)%list_elem_of_fmap. rewrite list_elem_of_In, filter_In in Hl.
  destruct Hl as [_ Hl%bool_decide_eq_true]. congruence.
Qed.

Lemma stamped_identity now (ls : list leaf) : lf_identity <$> (set_queue_time now <$> ls) = lf_identity <$> ls.
Proof. by rewrite <-list_fmap_compose. Qed.

(** The work of [QueueLeaves] inside its transaction. *)
Lemma runs_tx_QueueLeaves leaves now d sp :
  hashSizeBytes (ttx t) = 32 → is_Some (trees d !! id_) → queue_ok d → sequenced_once id_ d →
  Forall leaf_ok leaves → NoDup (lf_identity <$> leaves) →
  runs (tx (ttx t)) (tx_QueueLeaves fault sort_leaves t leaves now) d sp
    ((λ l, known_leaf id_ d (lf_identity l)) <$> leaves) (queued_db id_ (set_queue_time now <$> leaves) d) sp.
Proof.
  intros Hs Htree Hq Ho Hok Hn. unfold tx_QueueLeaves. set (ls := set_queue_time now <$> leaves).
  eapply runs_bind; [apply runs_guard|].
  { apply forallb_forall. intros l Hl. rewrite <-list_elem_of_In in Hl. rewrite Forall_forall in Hok.
    destruct (Hok l Hl) as [El _]. unfold has_size. by rewrite El, Hs. }
  pose proof (Hsort (imap pair ls)) as Hp. fold (sortLeavesForInsert sort_leaves ls) in Hp.
  assert ((sortLeavesForInsert sort_leaves ls).*2 ≡ₚ ls) as Hp2.
  { rewrite Hp, fmap_imap. rewrite <-(list_fmap_id ls) at 2. by rewrite <-(imap_const id). }
  eapply runs_bind; [apply (runs_queue_all (is_new id_ d)); [done|done| |]|].
  { intros l Hl. rewrite Hp2 in Hl. apply list_elem_of_fmap in Hl as (l0 & -> & Hl).
    rewrite Forall_forall in Hok. split; [exact (Hok l0 Hl)|done]. }
  { rewrite Hp2. unfold ls. by rewrite stamped_identity. }
  rewrite (queued_db_Permutation id_ _ ls) by (rewrite ?Hp2; done || by unfold ls; rewrite stamped_identity).
  replace (length leaves) with (length ls) by (by unfold ls; rewrite length_fmap). rewrite mark_all by done.
  set (existing := _ <$> ls).
  assert ((λ o, l ← o; known_leaf id_ (queued_db id_ ls d) (lf_identity l)) <$> existing =
          (λ l, known_leaf id_ d (lf_identity l)) <$> leaves) as <-.
  { unfold existing, ls. rewrite <-!list_fmap_compose. apply list_fmap_ext. intros i l _. cbn. unfold known_of, is_new. cbn.
    case_bool_decide as Hl; cbn; [unfold known_leaf; by rewrite Hl|].
    apply known_leaf_stable; [done|]. apply queued_db_known. by apply not_eq_None_Some. }
  case_bool_decide as Hex.
  - assert ((λ o, l ← o; known_leaf id_ (queued_db id_ ls d) (lf_identity l)) <$> existing = existing) as ->;
      [|apply runs_ret].
    clear -Hex. induction existing as [|[l|] e IH]; cbn in *; [done|done|]. by rewrite IH.
  - assert (∀ l, Some l ∈ existing → l ∈ ls ∧ is_Some (leaf_data d !! (id_, lf_identity l))) as Hin.
    { intros l (l0 & El & Hl)%list_elem_of_fmap. unfold known_of, is_new in El. case_bool_decide; [done|]. simplify_eq.
      split; [done|]. by apply not_eq_None_Some. }
    apply runs_retrieve; [done| |done|done|].
    + assert (omap id existing = List.filter (λ l, negb (is_new id_ d l)) ls) as ->.
      { unfold existing. clear. induction ls as [|l ls IH]; cbn; [done|].
        unfold known_of at 1. destruct (is_new id_ d l); cbn; [exact IH|by f_equal]. }
      apply NoDup_fmap_filter. unfold ls. by rewrite stamped_identity.
    + intros l [_ Hl]%Hin. rewrite queued_db_known; done.
Qed.
End queue.

(** ** The storage operation *)

Lemma leaf_rows_Some tree ls l :
  l ∈ ls → is_Some (leaf_rows tree ls !! (tree, lf_identity l)).
Proof.
  intros Hl. destruct (leaf_rows tree ls !! _) eqn:E; [by eexists|]. apply not_elem_of_list_to_map in E. destruct E.
  rewrite <-list_fmap_compose. apply list_elem_of_fmap. by exists l.
Qed.

(** Queueing keeps the tables consistent. *)
Lemma queued_db_ok tree ls d : queue_ok d → queue_ok (queued_db tree ls d).
Proof.
  intros Hq tr ts h [m Hm]. cbn in *. apply lookup_union_Some_raw in Hm as [Hm|[_ Hm]].
  - apply elem_of_list_to_map_2, list_elem_of_fmap in Hm as (l & [= -> -> -> _] & Hl).
    apply lookup_union_is_Some. left. by apply leaf_rows_Some.
  - apply lookup_union_is_Some. right. by eapply Hq.
Qed.

Section storage.
Context (fault : nat → option error) (Hfault : ∀ n, fault n = None) `{!RootCodec}.
Context {SubtreeCache : Type} (dirty : SubtreeCache → list SubtreeProto) (newCache : SubtreeCache).
Context (Hclean : dirty newCache = []) (proto_Marshal : SubtreeProto → result error bytes).
Context (sort_leaves : list (nat * leaf) → list (nat * leaf)) (Hsort : ∀ l, sort_leaves l ≡ₚ l).

Lemma QueueLeaves_ok tree leaves now w r b :
  fresh_handles w → stored_root (committed w) (TreeId tree) = Some (r, b) →
  queue_ok (committed w) → sequenced_once (TreeId tree) (committed w) →
  Forall leaf_ok leaves → NoDup (lf_identity <$> leaves) →
  ∃ w', QueueLeaves fault dirty newCache proto_Marshal sort_leaves tree leaves now w =
      (w', Return (queued_result (TreeId tree) (committed w) now <$> leaves)) ∧
    committed w' = queued_db (TreeId tree) (set_queue_time now <$> leaves) (committed w) ∧
    queue_ok (committed w') ∧ txns w' = txns w ∧ fresh_handles w'.
Proof.
  intros Hw Hr Hq Ho Hok Hn. set (T := TreeId tree) in *.
  assert (is_Some (trees (committed w) !! T)) as Htree by (apply bind_Some in Hr as (row & Hrow & _); by eexists).
  destruct (whole_transaction fault dirty newCache proto_Marshal Hfault tree w r b
    (λ t, tx_QueueLeaves fault sort_leaves t leaves now)
    (λ existing, mret (zip_with (λ e l,
       match e with
       | Some x => mkQueued (Some x) (Some (AlreadyExists, already_exists x))
       | None => mkQueued (Some (set_queue_time now l)) None
       end) existing leaves))
    ((λ l, known_leaf T (committed w) (lf_identity l)) <$> leaves)
    (queued_result T (committed w) now <$> leaves)
    (queued_db T (set_queue_time now <$> leaves) (committed w))) as (w' & E & Hc & Htx & Hfr).
  - done.
  - done.
  - done.
  - by apply (runs_tx_QueueLeaves fault Hfault (opened_tx newCache tree (next_txn w) r b)).
  - intros w1. unfold mret, M_ret. do 2 f_equal. rewrite zip_with_fmap_l. clear.
    induction leaves as [|l ls IH]; [done|]. cbn [zip_with fmap list_fmap]. by rewrite <-IH.
  - exists w'. split_and!; [exact E|done| |done|done]. rewrite Hc. by apply queued_db_ok.
Qed.

(** C8: [QueueLeaves] on a healthy connection and an initialized tree
    succeeds for every batch of distinct well-formed leaves.  A leaf that is
    not known is returned with the queue time and without a status; a known
    one is returned as stored, with the status that it exists.  The
    committed data changes by exactly the rows and queue entries of the new
    leaves, the tables stay consistent, and no transaction is left open. *)
Theorem QueueLeaves_functional tree leaves now w r b :
  fresh_handles w → stored_root (committed w) (TreeId tree) = Some (r, b) →
  queue_ok (committed w) → sequenced_once (TreeId tree) (committed w) →
  Forall leaf_ok leaves → NoDup (lf_identity <$> leaves) →
  ∃ w', QueueLeaves fault dirty newCache proto_Marshal sort_leaves tree leaves now w =
      (w', Return (queued_result (TreeId tree) (committed w) now <$> leaves)) ∧
    committed w' = queued_db (TreeId tree) (set_queue_time now <$> leaves) (committed w) ∧
    queue_ok (committed w') ∧ txns w' = txns w.
Proof.
  intros Hw Hr Hq Ho Hok Hn. destruct (QueueLeaves_ok tree leaves now w r b) as (w' & E & Hc & Hq' & Htx & _); [done..|].
  by exists w'.
Qed.
End storage.

(** ** The sample database *)

Lemma sample_fresh : fresh_handles sample_pg.
Proof. intros h _. apply lookup_empty. Qed.
Lemma sample_queue_ok : queue_ok sample_db.
Proof.
  intros tree ts h [m Hm]. cbn in Hm. apply lookup_singleton_Some in Hm as [[= <- <- <-] _].
  exists (mkLeafRow "second" None 20). vm_compute. reflexivity.
Qed.
Lemma sample_sequenced_once : sequenced_once 1 sample_db.
Proof.
  intros n1 n2 s1 s2 H1 H2 _. cbn in H1, H2.
  apply lookup_singleton_Some in H1 as [[= <-] _]. by apply lookup_singleton_Some in H2 as [[= <-] _].
Qed.
Lemma sample_leaf_ok c m v : leaf_ok (sample_leaf c m v).
Proof. split_and!; [done|by eexists|by eexists]. Qed.

(** A known leaf and a new one. *)
Definition sample_batch : list leaf := [sample_leaf "b" "B" "again"; sample_leaf "c" "C" "third"].

Lemma QueueLeaves_functional_witness :
  ∃ w', QueueLeaves no_fault no_dirty tt sample_marshal sample_sort sample_tree sample_batch 30 sample_pg =
      (w', Return (queued_result 1 sample_db 30 <$> sample_batch)) ∧
    committed w' = queued_db 1 (set_queue_time 30 <$> sample_batch) sample_db ∧
    queue_ok (committed w') ∧ txns w' = ∅.
Proof.
  apply (QueueLeaves_functional no_fault no_fault_none no_dirty tt eq_refl sample_marshal sample_sort sample_sort_perm
    sample_tree sample_batch 30 sample_pg (unary_root "x") "x").
  - exact sample_fresh.
  - vm_compute. reflexivity.
  - exact sample_queue_ok.
  - exact sample_sequenced_once.
  - repeat constructor; apply sample_leaf_ok.
  - apply (bool_decide_unpack _). vm_compute. reflexivity.
Defined.
