(* ===== verification/DequeueFacts.v ===== *)
(** * Taking leaves from the queue

    [DequeueLeaves] takes the oldest entries, in order, and removes exactly
    those. *)

From stdpp Require Import sorting.
From Stdlib Require Import Sorted.
From S2P Require Import Prelude GoStrings GoFmt Errors Effects Postgres TreeStorage LogStorage StorageSamples StorageFacts QueueFacts.

Open Scope Z_scope.

(** ** The order of the queue *)

Lemma bytes_ltb_asym a b : bytes_ltb a b = true → bytes_ltb b a = false.
Proof.
  revert b. induction a as [|c a IH]; intros [|e b]; cbn; try done.
  destruct (Z.ltb_spec (bval c) (bval e)), (Z.ltb_spec (bval e) (bval c)); try done || lia. apply IH.
Qed.
Lemma bytes_ltb_trans_neg a b c : bytes_ltb b a = false → bytes_ltb c b = false → bytes_ltb c a = false.
Proof.
  revert b c. induction a as [|x a IH]; intros [|y b] [|z c]; cbn; try done.
  destruct (Z.ltb_spec (bval y) (bval x)), (Z.ltb_spec (bval x) (bval y)),
    (Z.ltb_spec (bval z) (bval y)), (Z.ltb_spec (bval y) (bval z)),
    (Z.ltb_spec (bval z) (bval x)), (Z.ltb_spec (bval x) (bval z)); try done || lia. apply IH.
Qed.
#[global] Instance queue_le_trans : Transitive queue_le.
Proof.
  intros [t1 a] [t2 b] [t3 c] [H1|[H1 L1]] [H2|[H2 L2]]; cbn in *; unfold queue_le; cbn; [left; lia..|].
  right. split; [lia|by eapply bytes_ltb_trans_neg].
Qed.
#[global] Instance queue_le_total : Total queue_le.
Proof.
  intros [t1 a] [t2 b]. unfold queue_le. cbn. destruct (Z.lt_trichotomy t1 t2) as [|[->|]]; [by left; left| |by right; left].
  destruct (bytes_ltb b a) eqn:E; [right; right; split; [done|by apply bytes_ltb_asym]|left; by right].
Qed.

(** ** Selecting *)

(** The entries of a tree that are due, oldest first. *)
Definition due (tree cutoff : Z) (d : db) : list (Z * bytes) :=
  merge_sort queue_le (omap (λ kv : Z * Z * bytes * bytes,
    let '(t, ts, id) := kv.1 in
    if (t =? tree) && (ts <=? cutoff) then Some (ts, id) else None) (map_to_list (unsequenced d))).

Lemma elem_of_due tree cutoff d k :
  k ∈ due tree cutoff d ↔ is_Some (unsequenced d !! (tree, k.1, k.2)) ∧ k.1 ≤ cutoff.
Proof.
  unfold due. rewrite merge_sort_Permutation, list_elem_of_omap. split.
  - intros ([[[t ts] id] m] & Hm & E). cbn in E. apply elem_of_map_to_list in Hm.
    destruct (Z.eqb_spec t tree) as [->|], (Z.leb_spec ts cutoff); simplify_eq/=. split; [by eexists|done].
  - intros [[m Hm] Hc]. destruct k as [ts id]. exists (tree, ts, id, m). cbn in *.
    rewrite elem_of_map_to_list, Z.eqb_refl, (proj2 (Z.leb_le _ _) Hc). done.
Qed.
Lemma due_NoDup tree cutoff d : NoDup (due tree cutoff d).
Proof.
  unfold due. rewrite merge_sort_Permutation. apply NoDup_omap_inj; [|apply NoDup_map_to_list].
  intros [[[t1 ts1] i1] m1] [[[t2 ts2] i2] m2] b Hm1 Hm2. cbn. apply elem_of_map_to_list in Hm1, Hm2.
  destruct (Z.eqb_spec t1 tree) as [->|], (Z.leb_spec ts1 cutoff), (Z.eqb_spec t2 tree) as [->|], (Z.leb_spec ts2 cutoff);
    naive_solver.
Qed.
Lemma due_sorted tree cutoff d : StronglySorted queue_le (due tree cutoff d).
Proof. apply (StronglySorted_merge_sort _). Qed.

Lemma select_queued_keys tree cutoff limit d :
  (select_queued tree cutoff limit d).*1 = take (Z.to_nat limit) (due tree cutoff d).
Proof.
  unfold select_queued. fold (due tree cutoff d).
  assert (∀ k, k ∈ take (Z.to_nat limit) (due tree cutoff d) → is_Some (unsequenced d !! (tree, k.1, k.2))) as Hk.
  { intros k Hk%elem_of_take. destruct Hk as (i & Hi & _). apply list_elem_of_lookup_2, elem_of_due in Hi. apply Hi. }
  induction (take _ _) as [|[ts id] l IH]; [done|]. cbn. destruct (Hk (ts, id)) as [m Hm]; [by left|]. cbn in Hm.
  rewrite Hm. cbn. f_equal. apply IH. intros. apply Hk. by right.
Qed.

Lemma select_queued_row tree cutoff limit d ts id m :
  (ts, id, m) ∈ select_queued tree cutoff limit d →
  unsequenced d !! (tree, ts, id) = Some m ∧ ts ≤ cutoff.
Proof.
  intros Hr. split.
  - unfold select_queued in Hr. apply list_elem_of_omap in Hr as ([ts' id'] & _ & (m' & Hm & [= -> -> ->])%fmap_Some). done.
  - apply (list_elem_of_fmap_2 fst) in Hr. cbn in Hr.
    rewrite select_queued_keys in Hr. apply elem_of_take in Hr as (i & Hi & _).
    by apply list_elem_of_lookup_2, elem_of_due in Hi as [_ Hi].
Qed.

(** ** Removing *)

Definition removed (tree : Z) (keys : list (Z * bytes)) (d : db) : db :=
  set_unsequenced d (foldr (λ k m, delete (tree, k.1, k.2) m) (unsequenced d) keys).

Lemma removed_lookup tree keys d tr ts id :
  unsequenced (removed tree keys d) !! (tr, ts, id) =
  if bool_decide (tr = tree ∧ (ts, id) ∈ keys) then None else unsequenced d !! (tr, ts, id).
Proof.
  cbn. induction keys as [|[ts' id'] keys IH]; cbn.
  { rewrite bool_decide_eq_false_2; [done|]. by intros [_ ?%not_elem_of_nil]. }
  destruct (decide ((tree, ts', id') = (tr, ts, id))) as [[= -> -> ->]|Hne].
  - rewrite lookup_delete_eq, bool_decide_eq_true_2; [done|]. split; [done|by left].
  - rewrite lookup_delete_ne, IH by done.
    rewrite (bool_decide_ext _ (tr = tree ∧ (ts, id) ∈ (ts', id') :: keys)); [done|]. rewrite elem_of_cons. naive_solver.
Qed.

Section dequeue.
Context (fault : nat → option error) (Hfault : ∀ n, fault n = None).
Context {SubtreeCache : Type} (t : logTreeTX (SubtreeCache := SubtreeCache)).
Abbreviation id_ := (treeID (ttx t)).

Lemma removed_cons k keys d :
  removed id_ (k :: keys) d = removed id_ keys (set_unsequenced d (delete (id_, k.1, k.2) (unsequenced d))).
Proof.
  unfold removed. cbn. unfold set_unsequenced. cbn. f_equal. induction keys as [|j keys IH]; [done|]. cbn.
  by rewrite delete_delete, IH.
Qed.

Lemma runs_remove_all keys d sp :
  NoDup keys → (∀ k, k ∈ keys → is_Some (unsequenced d !! (id_, k.1, k.2))) →
  runs (tx (ttx t)) (remove_all fault t keys) d sp () (removed id_ keys d) sp.
Proof.
  revert d. induction keys as [|[ts i] keys IH]; intros d Hn Hk; cbn [remove_all].
  { destruct d. apply runs_ret. }
  apply NoDup_cons in Hn as [Hi Hn]. destruct (Hk (ts, i)) as [m Hm]; [by left|]. cbn in Hm.
  rewrite removed_cons. eapply runs_bind; [apply (runs_statement _ Hfault)|].
  { unfold delete_unsequenced. by rewrite Hm. }
  eapply runs_bind; [by apply runs_try|]. apply IH; [done|]. intros [ts' i'] Hk'. cbn.
  rewrite lookup_delete_ne; [apply (Hk (ts', i')); by right|]. intros [= -> ->]. done.
Qed.

Lemma dequeue_rows_ok rows :
  (∀ row, row ∈ rows → Z.of_nat (length row.1.2) = hashSizeBytes (ttx t)) →
  dequeue_rows t rows = Ok (dequeueLeaf <$> rows).
Proof.
  induction rows as [|row rows IH]; intros Hs; [done|]. cbn [dequeue_rows]. unfold has_size.
  rewrite Hs by (by left). rewrite Z.eqb_refl, IH by (intros; apply Hs; by right). done.
Qed.

Lemma runs_DequeueLeaves limit cutoff d sp :
  treeType (ttx t) ≠ PREORDERED_LOG → 0 ≤ limit ≤ 2 ^ 43 →
  (∀ ts i, is_Some (unsequenced d !! (id_, ts, i)) → Z.of_nat (length i) = hashSizeBytes (ttx t)) →
  let rows := select_queued id_ cutoff limit d in
  runs (tx (ttx t)) (DequeueLeaves fault t limit cutoff) d sp (dequeueLeaf <$> rows) (removed id_ rows.*1 d) sp.
Proof.
  intros Hty Hlim Hsz rows.
  assert (NoDup rows.*1) as Hnd.
  { unfold rows. rewrite select_queued_keys. eapply sublist_NoDup; [apply due_NoDup|apply sublist_take]. }
  unfold DequeueLeaves. rewrite bool_decide_eq_false_2 by done.
  eapply runs_bind; [apply (runs_query _ Hfault)|].
  assert (∀ size, 0 ≤ size ≤ 32 → runs (tx (ttx t)) (make_slice size limit) d sp () d sp) as Hmk.
  { intros size Hsize. unfold make_slice. rewrite (proj2 (Z.ltb_ge _ _)), (proj2 (Z.ltb_ge _ _)) by nia. apply runs_ret. }
  eapply runs_bind; [apply Hmk; lia|]. eapply runs_bind; [apply Hmk; lia|].
  eapply runs_bind; [apply (runs_query _ Hfault)|]. fold rows.
  eapply runs_bind; [apply runs_try, dequeue_rows_ok|].
  { intros [[ts i] m] [Hu _]%select_queued_row. cbn. apply (Hsz ts). by eexists. }
  eapply runs_bind; [|apply runs_ret]. case_bool_decide as Hrows.
  + rewrite Hrows. destruct d. apply runs_ret.
  + eapply runs_bind; [apply (runs_query _ Hfault)|]. apply runs_remove_all; [done|].
    intros k (row & -> & Hrow)%list_elem_of_fmap. destruct row as [[ts i] m]. apply select_queued_row in Hrow as [Hu _].
    by eexists.
Qed.

(** [DequeueLeaves] of an ordered log takes the oldest entries of the
    queue that are due, at most [limit], ordered by time and hash: each comes
    from a queue entry not after the cutoff, every due entry that is left is
    not before any that was taken, and fewer than [limit] are taken only if
    none is left.  Exactly the taken entries are removed, and nothing else
    changes. *)
Theorem DequeueLeaves_functional limit cutoff d sp :
  treeType (ttx t) ≠ PREORDERED_LOG → 0 ≤ limit ≤ 2 ^ 43 →
  (∀ ts i, is_Some (unsequenced d !! (id_, ts, i)) → Z.of_nat (length i) = hashSizeBytes (ttx t)) →
  ∃ rows,
    runs (tx (ttx t)) (DequeueLeaves fault t limit cutoff) d sp (dequeueLeaf <$> rows) (removed id_ rows.*1 d) sp ∧
    StronglySorted queue_le rows.*1 ∧ NoDup rows.*1 ∧
    (∀ ts i m, (ts, i, m) ∈ rows → unsequenced d !! (id_, ts, i) = Some m ∧ ts ≤ cutoff) ∧
    (∀ ts i, is_Some (unsequenced d !! (id_, ts, i)) → ts ≤ cutoff → (ts, i) ∉ rows.*1 →
      Z.of_nat (length rows) = limit ∧ ∀ k, k ∈ rows.*1 → queue_le k (ts, i)) ∧
    Z.of_nat (length rows) ≤ limit ∧
    ∀ tr ts i, unsequenced (removed id_ rows.*1 d) !! (tr, ts, i) =
      if bool_decide (tr = id_ ∧ (ts, i) ∈ rows.*1) then None else unsequenced d !! (tr, ts, i).
Proof.
  intros Hty Hlim Hsz. set (rows := select_queued id_ cutoff limit d). exists rows.
  assert (rows.*1 = take (Z.to_nat limit) (due id_ cutoff d)) as Hkeys by apply select_queued_keys.
  pose proof (due_sorted id_ cutoff d) as Hso. pose proof (due_NoDup id_ cutoff d) as Hnd.
  rewrite <-(take_drop (Z.to_nat limit) (due id_ cutoff d)), <-Hkeys in Hso, Hnd.
  apply StronglySorted_app in Hso as (Hle & Hso & _). apply NoDup_app in Hnd as (Hnd & _ & _).
  assert (length rows = length rows.*1) as Hlen by (by rewrite length_fmap).
  split_and!; [|done|done|by intros ts i m; apply select_queued_row| | |by intros; apply removed_lookup].
  - by apply runs_DequeueLeaves.
  - intros ts i Hu Hc Hni. assert ((ts, i) ∈ due id_ cutoff d) as Hd by (by apply elem_of_due).
    rewrite <-(take_drop (Z.to_nat limit)), <-Hkeys in Hd. apply elem_of_app in Hd as [|Hd]; [done|].
    split; [|intros k Hk; by apply Hle]. rewrite Hlen, Hkeys, length_take.
    assert (Z.to_nat limit < length (due id_ cutoff d))%nat; [|lia].
    destruct (decide (Z.to_nat limit < length (due id_ cutoff d))%nat) as [|Hge]; [done|].
    rewrite drop_ge in Hd by lia. by apply not_elem_of_nil in Hd.
  - rewrite Hlen, Hkeys, length_take. lia.
Qed.
End dequeue.

Lemma sample_sizes ts i : is_Some (unsequenced sample_db !! (1, ts, i)) → Z.of_nat (length i) = 32.
Proof. intros [m Hm]. cbn in Hm. by apply lookup_singleton_Some in Hm as [[= <- <-] _]. Qed.

Lemma DequeueLeaves_functional_witness :
  ∃ rows,
    runs 0 (DequeueLeaves no_fault sample_tx 10 100) sample_db [] (dequeueLeaf <$> rows) (removed 1 rows.*1 sample_db) [] ∧
    StronglySorted queue_le rows.*1 ∧ Z.of_nat (length rows) ≤ 10.
Proof.
  destruct (DequeueLeaves_functional no_fault no_fault_none sample_tx 10 100 sample_db [])
    as (rows & Hr & Hs & _ & _ & _ & Hlen & _).
  - discriminate.
  - lia.
  - exact sample_sizes.
  - exists rows. split; [exact Hr|split; [exact Hs|exact Hlen]].
Defined.
