(* ===== verification/SequenceFacts.v ===== *)
(** * Sequencing leaves and reading them by position

    [GetLeavesByRange] returns consecutive leaves; [UpdateSequencedLeaves] and
    [AddSequencedLeaves] give leaves their positions. *)

From stdpp Require Import sorting.
From Stdlib Require Import Sorted.
From S2P Require Import Prelude GoStrings GoFmt Errors Effects Postgres TreeStorage LogStorage StorageSamples StorageFacts LogTxFacts QueueFacts DequeueFacts.

Open Scope Z_scope.

(** ** Ranges *)

Lemma filter_omap {A B} (p : B → bool) (q : A → bool) (f : A → option B) l :
  (∀ x b, f x = Some b → p b = q x) → List.filter p (omap f l) = omap f (List.filter q l).
Proof.
  intros Hp. induction l as [|x l IH]; [done|]. cbn. destruct (f x) as [b|] eqn:E; cbn.
  - rewrite (Hp _ _ E), IH. destruct (q x); cbn; by rewrite ?E.
  - rewrite IH. destruct (q x); cbn; by rewrite ?E.
Qed.

Definition in_interval (lo hi n : Z) : bool := (lo <=? n) && (n <? hi).

Lemma select_range_omap tree lo hi d :
  select_range tree lo hi d = omap (joined_at tree d) (List.filter (in_interval lo hi) (seq_numbers tree d)).
Proof. apply filter_omap. intros n j (s & l & _ & _ & ->)%joined_at_Some. done. Qed.

Lemma StronglySorted_filter {A} (R : A → A → Prop) p l : StronglySorted R l → StronglySorted R (List.filter p l).
Proof.
  induction 1 as [|x l Hs IH Hx]; cbn; [constructor|]. destruct (p x); [|done]. constructor; [done|].
  rewrite Forall_forall in *. intros y. rewrite list_elem_of_In, filter_In, <-list_elem_of_In. intros [? _]. auto.
Qed.
Lemma seqZ_sorted lo n : StronglySorted Z.le (seqZ lo n).
Proof.
  revert lo. induction (Z_lt_le_dec n 0) as [Hn|Hn] using sumbool_ind; intros lo.
  - rewrite seqZ_nil by lia. constructor.
  - revert lo. apply (natlike_ind (λ n, ∀ lo, StronglySorted Z.le (seqZ lo n))); [|intros m Hm IH|done]; intros lo.
    + rewrite seqZ_nil by lia. constructor.
    + rewrite seqZ_cons by lia. rewrite Z.pred_succ. constructor; [apply IH|].
      rewrite Forall_forall. intros x Hx%elem_of_seqZ. lia.
Qed.

Lemma seq_numbers_interval tree lo hi d :
  (∀ n, lo ≤ n < hi → is_Some (sequenced_leaf_data d !! (tree, n))) →
  List.filter (in_interval lo hi) (seq_numbers tree d) = seqZ lo (hi - lo).
Proof.
  intros Hall. apply (StronglySorted_unique Z.le).
  - apply StronglySorted_filter. apply (StronglySorted_merge_sort _).
  - apply seqZ_sorted.
  - apply NoDup_Permutation; [|apply NoDup_seqZ|].
    + apply NoDup_ListNoDup, List.NoDup_filter, NoDup_ListNoDup, seq_numbers_NoDup.
    + intros n. rewrite list_elem_of_In, filter_In, <-list_elem_of_In, elem_of_seq_numbers, elem_of_seqZ.
      unfold in_interval. rewrite andb_true_iff, Z.leb_le, Z.ltb_lt. split; [lia|]. intros Hn.
      split; [apply Hall; lia|lia].
Qed.

(** The loop over the rows. *)
Lemma contiguous_lookup size want rows ls k l :
  contiguous size want rows = Ok ls → ls !! k = Some l →
  lf_index l = want + Z.of_nat k ∧ l ∈ rows ∧ (length ls ≤ length rows)%nat.
Proof.
  revert want ls k l. induction rows as [|r rows IH]; intros want ls k l; cbn; [by intros [= <-]|].
  destruct (Z.eqb_spec (lf_index r) want) as [Hr|]; [|destruct (want <? size); [done|by intros [= <-]]].
  destruct (contiguous size (want + 1) rows) as [ls'|] eqn:E; cbn; [|done]. intros [= <-].
  destruct k as [|k]; cbn.
  - intros [= <-]. split; [lia|]. split; [by left|]. destruct ls' as [|y ls']; cbn; [lia|].
    destruct (IH _ _ 0%nat y E eq_refl) as (_ & _ & Hlen). cbn in Hlen. lia.
  - intros Hk. destruct (IH _ _ _ _ E Hk) as (Hi & Hin & Hlen). split_and!; [lia|by right|lia].
Qed.
Lemma contiguous_full size want rows :
  (∀ k l, rows !! k = Some l → lf_index l = want + Z.of_nat k) → contiguous size want rows = Ok rows.
Proof.
  revert want. induction rows as [|r rows IH]; intros want Hr; [done|]. cbn.
  rewrite (Hr 0%nat r eq_refl), Z.add_0_r, Z.eqb_refl, (IH (want + 1)); [done|].
  intros k l Hk. rewrite (Hr (S k) l Hk). lia.
Qed.

(** A query returns what the tables of the transaction say. *)
Lemma query_Return fault {A} h (f : db → A) w w' a :
  query fault h f w = (w', Return a) → ∃ y, txns w !! h = Some y ∧ a = f (work y).
Proof.
  unfold query, statement. destruct (txns w !! h) as [y|]; [|done]. destruct (aborted y); [done|].
  destruct (fault _); [done|]. intros [= <- <-]. eauto.
Qed.

Section ranges.
Context (fault : nat → option error).
Context {SubtreeCache : Type} (t : logTreeTX (SubtreeCache := SubtreeCache)).
Abbreviation id_ := (treeID (ttx t)).
Abbreviation size := (wrap_s64 (r_TreeSize (root t))).

Lemma clip_count_Ok start count n :
  clip_count t start count = Ok n →
  0 < count ∧ 0 ≤ start ∧ 0 < n ≤ count ∧ (treeType (ttx t) = LOG → start + n ≤ size).
Proof.
  unfold clip_count. destruct (Z.leb_spec count 0); [done|]. destruct (Z.ltb_spec start 0); [done|].
  case_bool_decide as Hty; [|intros [= <-]; split_and!; [lia..|done]].
  destruct (Z.leb_spec size 0); [done|]. destruct (Z.leb_spec size start); [done|].
  destruct (Z.ltb_spec (size - start) count); intros [= <-]; lia.
Qed.

Lemma select_range_index lo hi d l : l ∈ select_range id_ lo hi d → lo ≤ lf_index l < hi ∧ joined_at id_ d (lf_index l) = Some l.
Proof.
  unfold select_range. rewrite list_elem_of_In, filter_In, <-list_elem_of_In, elem_of_joined, andb_true_iff, Z.leb_le, Z.ltb_lt.
  intros [? ?]. done.
Qed.

(** [GetLeavesByRange], when it returns, returns consecutive leaves: the
    [k]-th is the leaf that the tables of the transaction have at position
    [start + k].  There are at most [count], and of an ordered log none
    beyond the tree. *)
Theorem GetLeavesByRange_consecutive start count w w' ls :
  GetLeavesByRange fault t start count w = (w', Return ls) →
  ∃ y, txns w !! tx (ttx t) = Some y ∧
    (∀ k l, ls !! k = Some l →
      lf_index l = start + Z.of_nat k ∧ joined_at id_ (work y) (start + Z.of_nat k) = Some l) ∧
    (start + count < 2 ^ 63 → Z.of_nat (length ls) ≤ count ∧
      (treeType (ttx t) = LOG → start + Z.of_nat (length ls) ≤ size ∨ ls = [])).
Proof.
  intros Hrun. unfold GetLeavesByRange in Hrun. apply bind_Return in Hrun as (n & w1 & Hn & Hrun).
  apply try_Return in Hn as [Hn ->]. apply clip_count_Ok in Hn as (Hcount & Hstart & Hn & Hlog).
  apply bind_Return in Hrun as (rows & w2 & Hq & Hrun). apply query_Return in Hq as (y & Hy & ->).
  apply bind_Return in Hrun as (u & w3 & _ & Hrun). apply try_Return in Hrun as [Hc _].
  exists y. split; [done|]. split.
  - intros k l Hk. destruct (contiguous_lookup _ _ _ _ _ _ Hc Hk) as (Hi & Hin & _). split; [done|].
    apply select_range_index in Hin as [_ Hj]. by rewrite Hi in Hj.
  - intros Hov. assert (add64 start n = start + n) as Hadd by (apply wrap_s64_id; unfold is_int64, int64_min, int64_max; lia). rewrite Hadd in Hc.
    destruct (decide (ls = [])) as [->|Hne]; [cbn; split; [lia|by right]|].
    destruct (last_is_Some ls) as [_ [l Hl]]; [done|]. rewrite last_lookup in Hl.
    destruct (contiguous_lookup _ _ _ _ _ _ Hc Hl) as (Hi & Hin & _). apply select_range_index in Hin as [Hi' _].
    assert (0 < length ls)%nat by (destruct ls; cbn; [done|lia]). split; [lia|]. intros Hty. left. specialize (Hlog Hty). lia.
Qed.

Context (Hfault : ∀ n, fault n = None).

(** [GetLeavesByRange] of an ordered log returns every leaf of the
    requested positions that lie in the tree, if the tables have them all. *)
Lemma runs_GetLeavesByRange start count d sp (leaf_at : Z → leaf) :
  treeType (ttx t) = LOG → 0 ≤ start < size → 0 < count → size ≤ 2 ^ 45 →
  (∀ n, 0 ≤ n < size → joined_at id_ d n = Some (leaf_at n)) →
  runs (tx (ttx t)) (GetLeavesByRange fault t start count) d sp
    (leaf_at <$> seqZ start (Z.min count (size - start))) d sp.
Proof.
  intros Hty Hstart Hcount Hsize Hall. unfold GetLeavesByRange. set (n := Z.min count (size - start)).
  eapply runs_bind; [apply (runs_try _ _ _ _ _ n)|].
  { unfold clip_count. rewrite (proj2 (Z.leb_gt _ _) Hcount), (proj2 (Z.ltb_ge start 0)) by lia.
    rewrite bool_decide_eq_true_2 by done. rewrite (proj2 (Z.leb_gt size 0)), (proj2 (Z.leb_gt size start)) by lia.
    f_equal. destruct (Z.ltb_spec (size - start) count); unfold n; lia. }
  eapply runs_bind; [apply (runs_query _ Hfault)|].
  eapply runs_bind; [unfold make_slice|apply runs_try].
  { rewrite (proj2 (Z.ltb_ge n 0)), (proj2 (Z.ltb_ge _ _)) by lia. apply runs_ret. }
  assert (add64 start n = start + n) as -> by (apply wrap_s64_id; unfold is_int64, int64_min, int64_max; lia).
  assert (select_range id_ start (start + n) d = leaf_at <$> seqZ start n) as ->.
  { rewrite select_range_omap, seq_numbers_interval.
    - replace (start + n - start) with n by lia.
      assert (∀ x, x ∈ seqZ start n → joined_at id_ d x = Some (leaf_at x)) as Hin
        by (intros x Hx%elem_of_seqZ; apply Hall; lia).
      induction (seqZ start n) as [|x l IH]; [done|]. cbn. rewrite Hin by (by left). f_equal. apply IH.
      intros; apply Hin; by right.
    - intros m Hm. destruct (proj1 (joined_at_Some _ _ _ _) (Hall m ltac:(lia))) as (s & r & -> & _). by eexists. }
  apply contiguous_full. intros k l Hk. rewrite list_lookup_fmap in Hk. apply fmap_Some in Hk as (x & Hx & ->).
  apply lookup_seqZ in Hx as [-> Hx].
  destruct (proj1 (joined_at_Some _ _ _ _) (Hall (start + Z.of_nat k) ltac:(lia))) as (s & r & _ & _ & ->). done.
Qed.
End ranges.

(** ** Giving leaves their positions *)

Definition seq_row_of (l : leaf) (nanos : Z) : seq_row := mkSeqRow (lf_identity l) (default [] (lf_merkle l)) nanos.

(** A position is taken once. *)
Definition seq_insert (tree : Z) (d : db) (l : leaf) : db :=
  match sequenced_leaf_data d !! (tree, lf_index l) with
  | Some _ => d
  | None => set_sequenced d (<[(tree, lf_index l) := seq_row_of l (default 0 (lf_integrate l))]> (sequenced_leaf_data d))
  end.

Lemma seq_insert_leaf_data tree d ls : leaf_data (foldl (seq_insert tree) d ls) = leaf_data d.
Proof.
  revert d. induction ls as [|l ls IH]; intros d; cbn; [done|]. rewrite IH. unfold seq_insert.
  by destruct (sequenced_leaf_data d !! _).
Qed.
Lemma seq_insert_unsequenced tree d ls : unsequenced (foldl (seq_insert tree) d ls) = unsequenced d.
Proof.
  revert d. induction ls as [|l ls IH]; intros d; cbn; [done|]. rewrite IH. unfold seq_insert.
  by destruct (sequenced_leaf_data d !! _).
Qed.

Lemma seq_insert_lookup tree d ls n :
  sequenced_leaf_data (foldl (seq_insert tree) d ls) !! (tree, n) =
  match sequenced_leaf_data d !! (tree, n) with
  | Some s => Some s
  | None => (λ l, seq_row_of l (default 0 (lf_integrate l))) <$> List.find (λ l, lf_index l =? n) ls
  end.
Proof.
  revert d. induction ls as [|l ls IH]; intros d; cbn [foldl List.find].
  { by destruct (_ !! _). }
  rewrite IH. unfold seq_insert. destruct (sequenced_leaf_data d !! (tree, lf_index l)) as [s|] eqn:E.
  - destruct (Z.eqb_spec (lf_index l) n) as [<-|]; [by rewrite E|done].
  - cbn. destruct (Z.eqb_spec (lf_index l) n) as [<-|Hne].
    + by rewrite lookup_insert_eq, E.
    + rewrite lookup_insert_ne by congruence. done.
Qed.

Section sequencing.
Context (fault : nat → option error) (Hfault : ∀ n, fault n = None) (nil_timestamp : error).
Context {SubtreeCache : Type} (t : logTreeTX (SubtreeCache := SubtreeCache)).
Abbreviation id_ := (treeID (ttx t)).

(** A leaf that can be given a position. *)
Definition sequenceable (d : db) (l : leaf) : Prop :=
  Z.of_nat (length (lf_identity l)) = hashSizeBytes (ttx t) ∧ is_Some (lf_integrate l) ∧ is_Some (lf_merkle l) ∧
  is_Some (leaf_data d !! (id_, lf_identity l)).

Lemma runs_UpdateSequencedLeaves ls d sp :
  is_Some (trees d !! id_) → Forall (sequenceable d) ls →
  runs (tx (ttx t)) (UpdateSequencedLeaves fault nil_timestamp t ls) d sp () (foldl (seq_insert id_) d ls) sp.
Proof.
  intros [tr Htr] Hls. revert d Htr Hls. induction ls as [|l ls IH]; intros d Htr Hls; cbn; [apply runs_ret|].
  apply Forall_cons in Hls as [(Hs & [ts Hts] & [m Hm] & [r Hr]) Hls].
  eapply runs_bind; [apply runs_guard; unfold has_size; by rewrite Hs, Z.eqb_refl|]. rewrite Hts.
  assert (∃ b, insert_sequenced id_ (lf_index l) (lf_identity l) (lf_merkle l) ts d = Ok (seq_insert id_ d l, b)) as [b Hb].
  { unfold insert_sequenced, seq_insert, seq_row_of. rewrite Hm, Htr, Hr, Hts.
    destruct (sequenced_leaf_data d !! _); by eexists. }
  eapply runs_bind; [by apply (runs_statement _ Hfault)|]. apply IH.
  - unfold seq_insert. by destruct (sequenced_leaf_data d !! _).
  - eapply Forall_impl; [exact Hls|]. intros x. unfold sequenceable.
    pose proof (seq_insert_leaf_data id_ d [l]) as E. cbn in E. by rewrite E.
Qed.

(** [UpdateSequencedLeaves] gives each free position its leaf and never
    changes a position that is taken; a leaf sent to a taken position is
    dropped, and the caller is told nothing. *)
Theorem UpdateSequencedLeaves_first_wins ls d sp :
  is_Some (trees d !! id_) → Forall (sequenceable d) ls →
  ∃ d', runs (tx (ttx t)) (UpdateSequencedLeaves fault nil_timestamp t ls) d sp () d' sp ∧
    leaf_data d' = leaf_data d ∧ unsequenced d' = unsequenced d ∧
    ∀ n, sequenced_leaf_data d' !! (id_, n) =
      match sequenced_leaf_data d !! (id_, n) with
      | Some s => Some s
      | None => (λ l, seq_row_of l (default 0 (lf_integrate l))) <$> List.find (λ l, lf_index l =? n) ls
      end.
Proof.
  intros Htr Hls. exists (foldl (seq_insert id_) d ls).
  split; [by apply runs_UpdateSequencedLeaves|]. split; [apply seq_insert_leaf_data|]. split; [apply seq_insert_unsequenced|].
  intros n. apply seq_insert_lookup.
Qed.

(** Consecutive positions from [next] on, integrated at [now]. *)
Definition numbered (next now : Z) (ls : list leaf) : list leaf :=
  imap (λ k l, mkLeaf (lf_merkle l) (lf_value l) (lf_extra l) (next + Z.of_nat k) (lf_identity l) (lf_queue l) (Some now)) ls.

Lemma find_numbered next now ls k l :
  ls !! k = Some l →
  List.find (λ x, lf_index x =? next + Z.of_nat k) (numbered next now ls) =
  Some (mkLeaf (lf_merkle l) (lf_value l) (lf_extra l) (next + Z.of_nat k) (lf_identity l) (lf_queue l) (Some now)).
Proof.
  unfold numbered. revert next k. induction ls as [|x ls IH]; intros next k Hk; [done|]. cbn -[Z.of_nat].
  destruct k as [|k]; cbn in Hk.
  - simplify_eq. by rewrite Z.eqb_refl.
  - rewrite (proj2 (Z.eqb_neq _ _)) by lia. replace (next + Z.of_nat (S k)) with (next + 1 + Z.of_nat k) by lia.
    rewrite <-(IH (next + 1) k Hk). f_equal. apply imap_ext. intros i y _. cbn. f_equal. lia.
Qed.
Lemma find_numbered_before next now ls n :
  n < next → List.find (λ x, lf_index x =? n) (numbered next now ls) = None.
Proof.
  intros Hn. destruct (List.find _ _) as [x|] eqn:E; [|done]. apply find_some in E as [Hx Ex%Z.eqb_eq].
  apply list_elem_of_In, elem_of_lookup_imap in Hx as (i & y & -> & _). cbn in Ex. lia.
Qed.

End sequencing.

(** ** On the sample database *)

(** The world with the sample transaction open. *)
Definition sample_open : pg := mkPg sample_db {[0%nat := mkTxn sample_db [] false]} 1 1 ∅.

Lemma GetLeavesByRange_consecutive_witness :
  let r := GetLeavesByRange no_fault sample_tx 0 5 sample_open in
  ∃ ls y, r.2 = Return ls ∧ length ls = 1%nat ∧ txns sample_open !! 0%nat = Some y ∧
    ∀ k l, ls !! k = Some l → lf_index l = 0 + Z.of_nat k ∧ joined_at 1 (work y) (0 + Z.of_nat k) = Some l.
Proof.
  intros r. set (ls := omap (joined_at 1 sample_db) [0]).
  assert (r.2 = Return ls) as Er by (vm_compute; reflexivity).
  destruct (GetLeavesByRange_consecutive no_fault sample_tx 0 5 sample_open r.1 ls) as (y & Hy & Hl & _).
  - rewrite <-Er. apply surjective_pairing.
  - exists ls, y. split; [exact Er|]. split; [vm_compute; reflexivity|]. split; [exact Hy|exact Hl].
Defined.

(** A leaf for the next position and one for a position that is taken. *)
Definition sample_update : list leaf :=
  numbered 0 40 [sample_leaf "b" "B" []; sample_leaf "b" "B" []].
Lemma sample_update_ok : Forall (sequenceable sample_tx sample_db) sample_update.
Proof.
  repeat (apply Forall_cons; split); [..|constructor];
    (split; [reflexivity|split; [eexists; reflexivity|split; [eexists; reflexivity|eexists; vm_compute; reflexivity]]]).
Qed.

Lemma UpdateSequencedLeaves_first_wins_witness :
  ∃ d', runs 0 (UpdateSequencedLeaves no_fault sample_nil_timestamp sample_tx sample_update) sample_db [] () d' [] ∧
    sequenced_leaf_data d' !! (1, 0) = Some (mkSeqRow (hash_of "a") (hash_of "A") 15) ∧
    sequenced_leaf_data d' !! (1, 1) = Some (mkSeqRow (hash_of "b") (hash_of "B") 40).
Proof.
  destruct (UpdateSequencedLeaves_first_wins no_fault no_fault_none sample_nil_timestamp sample_tx sample_update sample_db [])
    as (d' & Hr & _ & _ & Hn).
  - eexists. reflexivity.
  - exact sample_update_ok.
  - exists d'. split; [exact Hr|]. split; [exact (Hn 0)|exact (Hn 1)].
Defined.

