(* ===== verification/AddFacts.v ===== *)
(** * Adding leaves at given positions

    [AddSequencedLeaves]: a leaf whose position is taken leaves no trace, the
    others are stored. *)

From S2P Require Import Prelude GoStrings GoFmt Errors Effects Postgres TreeStorage LogStorage StorageSamples StorageFacts LogTxFacts QueueFacts SequenceFacts.

Open Scope Z_scope.

(** The position of the leaf is not taken. *)
Definition is_free (tree : Z) (d : db) (l : leaf) : bool :=
  bool_decide (sequenced_leaf_data d !! (tree, lf_index l) = None).

Definition seq_rows (tree : Z) (ls : list leaf) : gmap (Z * Z) seq_row :=
  list_to_map ((λ l, ((tree, lf_index l), seq_row_of l 0)) <$> ls).

(** The data after adding: positions for the leaves that find theirs free,
    and rows for those of them that are new. *)
Definition added_db (tree now : Z) (ls : list leaf) (d : db) : db :=
  let free := List.filter (is_free tree d) ls in
  set_sequenced
    (set_leaf_data d (leaf_rows tree (set_queue_time now <$> List.filter (is_new tree d) free) ∪ leaf_data d))
    (seq_rows tree free ∪ sequenced_leaf_data d).

Definition add_status (tree : Z) (d : db) (l : leaf) : leaf_status := if is_free tree d l then StatusOK else Conflict.

(** One leaf. *)
Definition add_leaf (tree now : Z) (d : db) (l : leaf) : db :=
  if is_new tree d l
  then set_leaf_data d (<[(tree, lf_identity l) := mkLeafRow (default [] (lf_value l)) (lf_extra l) now]> (leaf_data d))
  else d.
Definition add_one (tree now : Z) (d : db) (l : leaf) : db :=
  if is_free tree d l
  then set_sequenced (add_leaf tree now d l) (<[(tree, lf_index l) := seq_row_of l 0]> (sequenced_leaf_data d))
  else d.

Section rows.
Context (tree now : Z).

Lemma seq_rows_None ls n : n ∉ lf_index <$> ls → seq_rows tree ls !! (tree, n) = None.
Proof.
  intros Hh. apply not_elem_of_list_to_map. contradict Hh. rewrite <-list_fmap_compose in Hh.
  apply list_elem_of_fmap in Hh as (l & [= ->] & Hl). by apply list_elem_of_fmap_2.
Qed.

Lemma add_one_stable d l (ls : list leaf) :
  lf_identity l ∉ lf_identity <$> ls → lf_index l ∉ lf_index <$> ls →
  ∀ x, x ∈ ls → is_free tree (add_one tree now d l) x = is_free tree d x ∧
    is_new tree (add_one tree now d l) x = is_new tree d x.
Proof.
  intros Hi Hn x Hx.
  assert (lf_identity l ≠ lf_identity x) by (intros E; apply Hi; rewrite E; by apply list_elem_of_fmap_2).
  assert (lf_index l ≠ lf_index x) by (intros E; apply Hn; rewrite E; by apply list_elem_of_fmap_2).
  split; apply bool_decide_ext; unfold add_one, add_leaf; destruct (is_free tree d l), (is_new tree d l); cbn;
    rewrite ?lookup_insert_ne by congruence; done.
Qed.

Lemma added_db_cons l ls d :
  lf_identity l ∉ lf_identity <$> ls → lf_index l ∉ lf_index <$> ls →
  added_db tree now (l :: ls) d = added_db tree now ls (add_one tree now d l).
Proof.
  intros Hi Hn. unfold added_db. cbn [List.filter].
  pose proof (add_one_stable d l ls Hi Hn) as Hst.
  assert (List.filter (is_free tree (add_one tree now d l)) ls = List.filter (is_free tree d) ls) as ->
    by (apply filter_ext_in; intros x Hx; apply Hst; by apply list_elem_of_In).
  set (fr := List.filter (is_free tree d) ls).
  assert (List.filter (is_new tree (add_one tree now d l)) fr = List.filter (is_new tree d) fr) as ->
    by (apply filter_ext_in; intros x Hx; apply Hst; by eapply filter_elem, list_elem_of_In).
  unfold add_one, add_leaf. destruct (is_free tree d l) eqn:Ef; cbn [List.filter]; [|done].
  assert (∀ m : gmap (Z * Z) seq_row,
    seq_rows tree (l :: fr) ∪ m = seq_rows tree fr ∪ <[(tree, lf_index l) := seq_row_of l 0]> m) as Hseq.
  { intros m. rewrite <-insert_union_r by (apply seq_rows_None; by apply fmap_filter_not).
    unfold seq_rows. cbn. by rewrite insert_union_l. }
  destruct (is_new tree d l) eqn:En; cbn [List.filter]; unfold set_sequenced, set_leaf_data; cbn; rewrite Hseq; [|done].
  f_equal. rewrite <-insert_union_r.
  - unfold leaf_rows. cbn. by rewrite insert_union_l.
  - apply leaf_rows_None. rewrite stamped_identity. by do 2 apply fmap_filter_not.
Qed.
End rows.

Section adding.
Context (fault : nat → option error) (Hfault : ∀ n, fault n = None).
Context {SubtreeCache : Type} (t : logTreeTX (SubtreeCache := SubtreeCache)).
Context (sort_leaves : list (nat * leaf) → list (nat * leaf)) (Hsort : ∀ l, sort_leaves l ≡ₚ l).
Abbreviation id_ := (treeID (ttx t)).

Lemma add_leaf_insert now d l :
  is_Some (lf_value l) → is_Some (trees d !! id_) →
  ∃ b, insert_leaf_data id_ (lf_identity l) (lf_value l) (lf_extra l) now d = Ok (add_leaf id_ now d l, b) ∧
    is_Some (leaf_data (add_leaf id_ now d l) !! (id_, lf_identity l)) ∧
    trees (add_leaf id_ now d l) = trees d ∧ sequenced_leaf_data (add_leaf id_ now d l) = sequenced_leaf_data d.
Proof.
  intros [v Hv] [tr Htr]. unfold insert_leaf_data, add_leaf, is_new. rewrite Hv, Htr.
  destruct (leaf_data d !! (id_, lf_identity l)) as [r|] eqn:E; cbn.
  - exists false. rewrite E. split_and!; [done|by eexists|done|done].
  - exists true. rewrite lookup_insert_eq. split_and!; [done|by eexists|done|done].
Qed.

Lemma runs_sequence_one i l now res d sp :
  hashSizeBytes (ttx t) = 32 → leaf_ok l → is_Some (trees d !! id_) →
  runs (tx (ttx t)) (sequence_one fault t (i, l) now res) d sp
    (<[i := Some (add_status id_ d l)]> res) (add_one id_ now d l) (d :: sp).
Proof.
  intros Hs (Hlen & Hv & [m Hm]) Htr. destruct (add_leaf_insert now d l Hv Htr) as (b & Hins & [r Hr] & Htr' & Hseq).
  unfold sequence_one. eapply runs_bind; [apply runs_guard; by rewrite Hlen, Hs|].
  eapply runs_bind; [apply (runs_savepoint _ Hfault)|]. eapply runs_bind; [by apply (runs_statement _ Hfault)|].
  unfold add_status, add_one, is_free. destruct (sequenced_leaf_data d !! (id_, lf_index l)) as [s|] eqn:E; cbn.
  - eapply runs_bind; [apply (runs_statement _ Hfault _ _ _ _ (add_leaf id_ now d l) false)|].
    { unfold insert_sequenced. by rewrite Hm, Hseq, E. }
    eapply runs_bind; [apply (runs_rollback_to _ Hfault)|apply runs_ret].
  - eapply runs_bind; [apply (runs_statement _ Hfault _ _ _ _ _ true)|apply runs_ret].
    unfold insert_sequenced. rewrite Hm, Hseq, E, Htr', Hr. destruct Htr as [? ->].
    unfold seq_row_of. by rewrite Hm.
Qed.

Lemma runs_sequence_all status ols now res d sp :
  hashSizeBytes (ttx t) = 32 → is_Some (trees d !! id_) →
  (∀ l, l ∈ ols.*2 → leaf_ok l ∧ status l = Some (add_status id_ d l)) →
  NoDup (lf_identity <$> ols.*2) → NoDup (lf_index <$> ols.*2) →
  ∃ pre, runs (tx (ttx t)) (sequence_all fault t ols now res) d sp
    (foldl (mark status) res ols) (added_db id_ now ols.*2 d) (pre ++ sp).
Proof.
  intros Hs Htr. revert res d sp Htr. induction ols as [|[i l] ols IH]; intros res d sp Htr Hls Hi Hn; cbn [sequence_all].
  { exists []. unfold added_db. cbn. rewrite !(left_id_L ∅ _). destruct d. apply runs_ret. }
  cbn in Hi, Hn. apply NoDup_cons in Hi as [Hi0 Hi]. apply NoDup_cons in Hn as [Hn0 Hn].
  destruct (Hls l) as [Hok Hst]; [by left|].
  destruct (IH (<[i := Some (add_status id_ d l)]> res) (add_one id_ now d l) (d :: sp)) as [pre Hrun]; [| |done|done|].
  - unfold add_one, add_leaf. by destruct (is_free id_ d l), (is_new id_ d l).
  - intros x Hx. destruct (Hls x) as [? ->]; [by right|]. split; [done|]. unfold add_status.
    by rewrite (proj1 (add_one_stable id_ now d l ols.*2 Hi0 Hn0 x Hx)).
  - exists (pre ++ [d]). rewrite <-app_assoc. cbn [app fmap list_fmap snd foldl]. unfold mark at 2. cbn [fst snd].
    rewrite Hst, added_db_cons by done. eapply runs_bind; [by apply runs_sequence_one|exact Hrun].
Qed.

Lemma added_db_Permutation now ls ls' d :
  NoDup (lf_identity <$> ls) → NoDup (lf_index <$> ls) → ls ≡ₚ ls' → added_db id_ now ls d = added_db id_ now ls' d.
Proof.
  intros Hi Hn Hp. unfold added_db, leaf_rows, seq_rows.
  pose proof (filter_Permutation (is_free id_ d) _ _ Hp) as Hf.
  pose proof (filter_Permutation (is_new id_ d) _ _ Hf) as Hf'.
  f_equal; [f_equal|]; f_equal; (apply list_to_map_proper; [|by rewrite ?Hf', ?Hf]); rewrite <-!list_fmap_compose;
    eapply NoDup_fmap_1 with (f := snd); rewrite <-!list_fmap_compose.
  - by apply (NoDup_fmap_filter lf_identity), (NoDup_fmap_filter lf_identity).
  - by apply (NoDup_fmap_filter lf_index).
Qed.

(** C21: [AddSequencedLeaves] inside a transaction, on a healthy connection
    and for leaves of distinct hashes and positions: the status of a leaf is
    a conflict exactly if its position was taken, such a leaf leaves no
    trace, and every other leaf gets its position, and a row if it had none.
    The order in which the leaves are inserted does not show. *)
Theorem AddSequencedLeaves_functional leaves now d sp :
  hashSizeBytes (ttx t) = 32 → is_Some (trees d !! id_) → Forall leaf_ok leaves →
  NoDup (lf_identity <$> leaves) → NoDup (lf_index <$> leaves) →
  ∃ sp', runs (tx (ttx t)) (tx_AddSequencedLeaves fault sort_leaves t leaves now) d sp
    ((λ l, Some (add_status id_ d l)) <$> leaves) (added_db id_ now leaves d) sp'.
Proof.
  intros Hs Htr Hok Hi Hn. unfold tx_AddSequencedLeaves.
  pose proof (Hsort (imap pair leaves)) as Hp. fold (sortLeavesForInsert sort_leaves leaves) in Hp.
  set (ols := sortLeavesForInsert sort_leaves leaves) in *.
  assert (ols.*2 ≡ₚ leaves) as Hp2.
  { rewrite Hp, fmap_imap. rewrite <-(list_fmap_id leaves) at 2. by rewrite <-(imap_const id). }
  destruct (runs_sequence_all (λ l, Some (add_status id_ d l)) ols now (replicate (length leaves) None) d (d :: sp))
    as [pre Hrun]; [done|done| |by rewrite Hp2..|].
  { intros l Hl. rewrite Hp2 in Hl. rewrite Forall_forall in Hok. by split; [apply Hok|]. }
  rewrite mark_all in Hrun by done. rewrite (added_db_Permutation now _ leaves) in Hrun by (by rewrite ?Hp2).
  assert (∃ s ss, pre ++ d :: sp = s :: ss) as (s & ss & Estack) by (destruct pre; cbn; eauto). rewrite Estack in Hrun.
  exists ss. eapply runs_bind; [apply (runs_savepoint _ Hfault)|]. eapply runs_bind; [exact Hrun|].
  eapply runs_bind; [apply (runs_release _ Hfault)|apply runs_ret].
Qed.
End adding.

(** A leaf for a free position and one for a position that is taken. *)
Definition sample_added : list leaf :=
  [mkLeaf (Some (hash_of "C")) (Some ("third" : bytes)) None 1 (hash_of "c") None None;
   mkLeaf (Some (hash_of "D")) (Some ("fourth" : bytes)) None 0 (hash_of "d") None None].

Lemma AddSequencedLeaves_functional_witness :
  ∃ sp', runs 0 (tx_AddSequencedLeaves no_fault sample_sort sample_tx sample_added 50) sample_db []
    [Some StatusOK; Some Conflict] (added_db 1 50 sample_added sample_db) sp'.
Proof.
  apply (AddSequencedLeaves_functional no_fault no_fault_none sample_tx sample_sort sample_sort_perm sample_added 50 sample_db []).
  - reflexivity.
  - eexists. reflexivity.
  - repeat (apply Forall_cons; split); [..|constructor]; (split; [reflexivity|split; eexists; reflexivity]).
  - apply (bool_decide_unpack _). vm_compute. reflexivity.
  - apply (bool_decide_unpack _). vm_compute. reflexivity.
Defined.
