(* ===== verification/RootFacts.v ===== *)
(** * Roots

    A root that is stored is the root the next transaction starts from. *)

From S2P Require Import Prelude GoStrings GoFmt Errors Effects Postgres TreeStorage LogStorage StorageSamples StorageFacts LogTxFacts.

Open Scope Z_scope.

(** What is used of the serializations: a root that was decoded survives
    both. *)
Class RootLaws `{!RootCodec} : Prop := {
  root_binary_roundtrip b r : root_UnmarshalBinary b = Ok r → root_UnmarshalBinary (root_MarshalBinary r) = Ok r;
  root_json_roundtrip b r : root_UnmarshalBinary b = Ok r → root_of_json (root_json r) = r
}.

Section roots.
Context (fault : nat → option error) (Hfault : ∀ n, fault n = None) `{!RootCodec, !RootLaws}.
Context {SubtreeCache : Type} (dirty : SubtreeCache → list SubtreeProto) (newCache : SubtreeCache).
Context (Hclean : dirty newCache = []) (proto_Marshal : SubtreeProto → result error bytes).
Implicit Type t : logTreeTX (SubtreeCache := SubtreeCache).

(** The body that stores a root. *)
Definition store_root (b : bytes) t : M pg (logTreeTX * option error) :=
  _ ← StoreSignedLogRoot fault t b; mret (t, None).

(** The data after storing. *)
Definition stored_db (tree : Z) (row : tree_row) (r : LogRoot) (d : db) : db :=
  let d1 := set_trees d (<[tree := set_current_data (root_json r) [] row]> (trees d)) in
  set_tree_head d1
    (<[(tree, r_Revision r) := mkHeadRow (r_TimestampNanos r) (r_TreeSize r) (r_RootHash r) []]> (tree_head d)).

Definition fits (r : LogRoot) : Prop := r_TimestampNanos r < 2 ^ 63 ∧ r_TreeSize r < 2 ^ 63 ∧ r_Revision r < 2 ^ 63.

Lemma runs_store_root t b r row d sp :
  root_UnmarshalBinary b = Ok r → r_Metadata r = [] → fits r →
  trees d !! treeID (ttx t) = Some row → tree_head d !! (treeID (ttx t), r_Revision r) = None →
  runs (tx (ttx t)) (store_root b t) d sp (t, None) (stored_db (treeID (ttx t)) row r d) sp.
Proof.
  intros Hr Hm (Hf1 & Hf2 & Hf3) Hrow Hh. unfold store_root. eapply runs_bind; [|apply runs_ret]. unfold StoreSignedLogRoot.
  eapply runs_bind; [by apply runs_try|]. eapply runs_bind; [apply runs_guard; by apply bool_decide_eq_true|].
  eapply runs_bind; [eapply runs_ignore, (runs_statement _ Hfault); unfold update_tree_data; by rewrite Hrow|].
  eapply runs_bind; [apply (runs_try _ _ _ _ _ ())|].
  { unfold uint64_args. by rewrite (proj2 (Z.ltb_lt _ _) Hf1), (proj2 (Z.ltb_lt _ _) Hf2), (proj2 (Z.ltb_lt _ _) Hf3). }
  eapply runs_bind; [apply (runs_statement _ Hfault _ _ _ _ (stored_db (treeID (ttx t)) row r d) 1)|by apply runs_try].
  unfold insert_tree_head. cbn. by rewrite Hh, lookup_insert_eq.
Qed.

(** C20: A root stored in a transaction, on a tree that has a root or has
    none yet, is the root that the next transaction starts from, and is
    recorded as the head of its revision. *)
Theorem StoreSignedLogRoot_roundtrip tree b r row w :
  fresh_handles w → trees (committed w) !! TreeId tree = Some row →
  (t_current_data row = None ∨ is_Some (stored_root (committed w) (TreeId tree))) →
  root_UnmarshalBinary b = Ok r → r_Metadata r = [] → fits r →
  tree_head (committed w) !! (TreeId tree, r_Revision r) = None →
  ∃ w' w2,
    ReadWriteTransaction fault dirty newCache proto_Marshal tree (store_root b) w = (w', Return ()) ∧
    tree_head (committed w') !! (TreeId tree, r_Revision r) =
      Some (mkHeadRow (r_TimestampNanos r) (r_TreeSize r) (r_RootHash r) []) ∧
    SnapshotForTree fault newCache tree w' =
      (w2, Return (opened_tx newCache tree (next_txn w') r (root_MarshalBinary r), false)).
Proof.
  intros Hw Hrow Hinit Hr Hm Hf Hh.
  assert (∃ w0 t n, beginInternal fault newCache tree w = (w0, Return (t, n)) ∧ opened w w0 t ∧
    txns w0 !! next_txn w = Some (mkTxn (committed w) [] false) ∧ subtreeCache (ttx t) = newCache ∧
    treeID (ttx t) = TreeId tree) as (w0 & t & n & Eb & Ho & Hw0 & Hca & Hid).
  { destruct Hinit as [Hnone|[[r0 b0] Hst]].
    - destruct (beginInternal_blank fault newCache Hfault tree w Hw) as (w0 & Eb & Hw0 & Ho); [by rewrite Hrow|].
      by eexists _, _, _.
    - destruct (beginInternal_ok fault newCache Hfault tree w _ _ Hw Hst) as (w0 & Eb & Hw0 & Ho). by eexists _, _, _. }
  destruct (ReadWriteTransaction_ok fault dirty newCache proto_Marshal Hfault tree (store_root b) w w0 t n
    (stored_db (TreeId tree) row r (committed w)) []) as (w' & E & Hc & Htx & Hfr); [done..|by rewrite Hca| |].
  { rewrite <-(proj1 Ho), <-Hid. apply runs_store_root; by rewrite ?Hid. }
  assert (stored_root (committed w') (TreeId tree) = Some (r, root_MarshalBinary r)) as Hst.
  { rewrite Hc. unfold stored_root, stored_db. cbn. rewrite lookup_insert_eq. cbn.
    by rewrite (root_json_roundtrip b r Hr), (root_binary_roundtrip b r Hr). }
  destruct (beginInternal_ok fault newCache Hfault tree w' _ _ Hfr Hst) as (w2 & E2 & _).
  exists w', w2. split_and!; [done| |done]. rewrite Hc. apply lookup_insert_eq.
Qed.
End roots.

#[export] Instance unary_laws : RootLaws.
Proof.
  split; intros b r [= <-]; cbn; [f_equal|]; apply unary_root_roundtrip.
Qed.

Lemma StoreSignedLogRoot_roundtrip_witness :
  ∃ w' w2,
    ReadWriteTransaction no_fault no_dirty tt sample_marshal sample_tree (store_root no_fault "xx") sample_pg = (w', Return ()) ∧
    SnapshotForTree no_fault tt sample_tree w' =
      (w2, Return (opened_tx tt sample_tree (next_txn w') (unary_root "xx") "xx", false)).
Proof.
  destruct (StoreSignedLogRoot_roundtrip no_fault no_fault_none no_dirty tt eq_refl sample_marshal sample_tree "xx"
    (unary_root "xx") sample_row sample_pg) as (w' & w2 & E & _ & E2).
  - intros h _. apply lookup_empty.
  - reflexivity.
  - right. eexists. vm_compute. reflexivity.
  - reflexivity.
  - reflexivity.
  - split; [reflexivity|split; reflexivity].
  - reflexivity.
  - exists w', w2. split; [exact E|exact E2].
Defined.
