(* ===== verification/StatementFacts.v ===== *)
(** * The texts of the statements

    Every statement with a variable number of parameters numbers them from
    one without gaps, and the cache gives each statement its own text. *)

From S2P Require Import Prelude GoStrings GoFmt Errors Effects Postgres TreeStorage LogStorage StorageSamples.

Open Scope Z_scope.

(** ** Segments between markers *)

(** No occurrence of [pat] starts in [a], whatever follows. *)
Definition clear_of (pat a : bytes) : Prop :=
  ∀ b, cut pat (a ++ b) = (λ p, (a ++ p.1, p.2)) <$> cut pat b.

Lemma clear_of_nil pat : clear_of pat [].
Proof. intros b. cbn. by destruct (cut pat b) as [[]|]. Qed.
Lemma clear_of_app pat a1 a2 : clear_of pat a1 → clear_of pat a2 → clear_of pat (a1 ++ a2).
Proof.
  intros H1 H2 b. rewrite <-app_assoc, H1, H2. destruct (cut pat b) as [[]|]; cbn; by rewrite <-?app_assoc.
Qed.
Lemma clear_of_char pat p c : head pat = Some p → c ≠ p → clear_of pat [c].
Proof.
  destruct pat as [|p' pat]; [done|]. intros [= ->] Hc b. cbn [app cut strip_prefix].
  rewrite bool_decide_eq_false_2 by congruence. by destruct (cut (p :: pat) b) as [[]|].
Qed.
Lemma clear_of_chars pat p a : head pat = Some p → p ∉ a → clear_of pat a.
Proof.
  intros Hp. induction a as [|c a IH]; intros Ha; [apply clear_of_nil|]. apply not_elem_of_cons in Ha as [Hc Ha].
  apply (clear_of_app pat [c]); [by apply (clear_of_char pat p)|auto].
Qed.

Lemma cut_at pat a b : pat ≠ [] → clear_of pat a → cut pat (a ++ pat ++ b) = Some (a, b).
Proof.
  intros Hp Ha. rewrite Ha. assert (cut pat (pat ++ b) = Some ([], b)) as ->; [|cbn; by rewrite app_nil_r].
  assert (strip_prefix pat (pat ++ b) = Some b) as E by (by apply strip_prefix_Some).
  destruct pat as [|c pat]; [done|]. cbn [app cut] in *. by rewrite E.
Qed.
Lemma cut_none pat a : pat ≠ [] → clear_of pat a → cut pat a = None.
Proof. intros Hp Ha. rewrite <-(app_nil_r a), Ha. by destruct pat. Qed.

(** ** Numbering *)

Definition open_c : ascii := "<"%char.

Lemma dollar_clear c : open_c ∉ dollar c.
Proof.
  assert (∀ n, 0 ≤ n → open_c ∉ FormatUint n) as Hu.
  { intros n Hn Hc%list_elem_of_In. destruct (FormatUint_spec n Hn) as (_ & Hd & _).
    rewrite forallb_forall in Hd. by specialize (Hd _ Hc). }
  unfold dollar, FormatInt. destruct (Z.ltb_spec c 0); rewrite ?not_elem_of_cons; split_and?; try done; apply Hu; lia.
Qed.

(** Segments with markers between them, and with numbered parameters. *)
Fixpoint params (segs : list bytes) : bytes :=
  match segs with [] => [] | [a] => a | a :: rest => a ++ paramSQL ++ params rest end.
Fixpoint fill (c : Z) (segs : list bytes) : bytes :=
  match segs with [] => [] | [a] => a | a :: rest => a ++ dollar c ++ fill (c + 1) rest end.

Lemma number_params_clear fuel c a : clear_of paramSQL a → number_params fuel c a = a.
Proof. intros Ha. destruct fuel; cbn; [done|]. unfold Contains. by rewrite cut_none. Qed.
Lemma number_params_fill fuel c pre segs :
  clear_of paramSQL pre → Forall (clear_of paramSQL) segs → (length segs ≤ fuel)%nat →
  number_params fuel c (pre ++ params segs) = pre ++ fill c segs.
Proof.
  revert fuel c pre. induction segs as [|a segs IH]; intros fuel c pre Hpre Hs Hf.
  { cbn. rewrite app_nil_r. by apply number_params_clear. }
  apply Forall_cons in Hs as [Ha Hs]. destruct fuel as [|fuel]; [cbn in Hf; lia|]. cbn in Hf.
  assert (clear_of paramSQL (pre ++ a)) as Hpa by (by apply clear_of_app).
  destruct segs as [|b segs].
  - cbn. unfold Contains. by rewrite cut_none.
  - change (params (a :: b :: segs)) with (a ++ paramSQL ++ params (b :: segs)).
    change (fill c (a :: b :: segs)) with (a ++ dollar c ++ fill (c + 1) (b :: segs)).
    cbn [number_params]. unfold Contains, Replace1. rewrite (app_assoc pre), cut_at by done.
    rewrite bool_decide_eq_true_2 by (by eexists).
    replace ((pre ++ a) ++ dollar c ++ params (b :: segs)) with ((pre ++ a ++ dollar c) ++ params (b :: segs))
      by (by rewrite <-!app_assoc).
    rewrite IH; [by rewrite <-!app_assoc| |done|lia].
    rewrite app_assoc. apply clear_of_app; [done|]. apply (clear_of_chars _ open_c); [done|apply dollar_clear].
Qed.

(** ** The values *)

(** [$1,$2,...,$n]. *)
Definition values (n : Z) : bytes := Join (dollar <$> seqZ 1 n) ",".
(** [($1, $2, $3, $4),($5, $6, $7, $8),...], for [n] rows. *)
Definition row4 (i : Z) : bytes :=
  ("(" : bytes) ++ dollar (4 * i + 1) ++ ", " ++ dollar (4 * i + 2) ++ ", " ++ dollar (4 * i + 3) ++ ", " ++
  dollar (4 * i + 4) ++ ")".
Definition rows4 (n : Z) : bytes := Join (row4 <$> seqZ 0 n) ",".

Lemma Sprintf_rest xs :
  Sprintf_s (Repeat (","%char :: "%s") (length xs)) xs = xs ≫= λ x, ","%char :: x.
Proof. induction xs as [|x xs IH]; [done|]. cbn in *. f_equal. f_equal. exact IH. Qed.
Lemma Join_bind x xs : Join (x :: xs) "," = x ++ (xs ≫= λ y, ","%char :: y).
Proof.
  revert x. induction xs as [|y xs IH]; intros x; [cbn; by rewrite app_nil_r|].
  change (Join (x :: y :: xs) ",") with (x ++ ","%char :: Join (y :: xs) ","). by rewrite IH.
Qed.

Lemma expand_list sql pre post n :
  sql = pre ++ placeholderSQL ++ post → clear_of placeholderSQL pre → 0 < n →
  expandPlaceholderSQL (list_skeleton sql n) = Ok (pre ++ values n ++ post).
Proof.
  intros -> Hpre Hn. unfold expandPlaceholderSQL. cbn [num list_skeleton]. rewrite (proj2 (Z.leb_gt _ _) Hn).
  unfold Replace1. cbn [sk_sql list_skeleton firstPlaceholders restPlaceholders firstInsertion restInsertion].
  rewrite cut_at by done. do 3 f_equal. unfold values. replace (1 + 1 * (n - 1)) with n by lia.
  rewrite seqZ_cons by lia. cbn [fmap list_fmap]. rewrite Join_bind. change (Z.to_nat 1) with 1%nat.
  cbn [take drop]. rewrite take_0, drop_0.
  replace (Z.to_nat (n - 1)) with (length (dollar <$> seqZ (Z.succ 1) (Z.pred n))) by (rewrite length_fmap, length_seqZ; lia).
  by rewrite Sprintf_rest.
Qed.

Lemma seqZ_four i k :
  0 ≤ k → seqZ (4 * i + 1) (4 * (k + 1)) =
  [4 * i + 1; 4 * i + 2; 4 * i + 3; 4 * i + 4] ++ seqZ (4 * (i + 1) + 1) (4 * k).
Proof.
  intros Hk. do 4 (rewrite seqZ_cons by lia). cbn [app].
  replace (Z.pred (Z.pred (Z.pred (Z.pred (4 * (k + 1)))))) with (4 * k) by lia.
  replace (Z.succ (Z.succ (Z.succ (Z.succ (4 * i + 1))))) with (4 * (i + 1) + 1) by lia.
  do 4 (apply (f_equal2 cons); [lia|]). done.
Qed.

Lemma Sprintf_char c f args : c ≠ "%"%char → Sprintf_s (c :: f) args = c :: Sprintf_s f args.
Proof. intros Hc. cbn. destruct f; [done|]. by rewrite (bool_decide_eq_false_2 _ Hc). Qed.
Lemma Sprintf_verb f a args : Sprintf_s ("%"%char :: "s"%char :: f) (a :: args) = a ++ Sprintf_s f args.
Proof. done. Qed.

Lemma Sprintf_rows k i :
  Sprintf_s (Repeat (","%char :: "(%s, %s, %s, %s)") k) (dollar <$> seqZ (4 * i + 1) (4 * Z.of_nat k)) =
  (row4 <$> seqZ i (Z.of_nat k)) ≫= λ x, ","%char :: x.
Proof.
  revert i. induction k as [|k IH]; intros i; [done|].
  replace (Z.of_nat (S k)) with (Z.of_nat k + 1) by lia. rewrite seqZ_four by lia. rewrite (seqZ_cons i) by lia.
  replace (Z.pred (Z.of_nat k + 1)) with (Z.of_nat k) by lia. rewrite fmap_app. unfold Repeat in *. cbn [replicate concat]. specialize (IH (i + 1)).
  cbn [fmap list_fmap app mbind list_bind]. unfold Z.succ. rewrite <-IH. unfold row4. cbn [String.list_ascii_of_string app].
  repeat first [rewrite Sprintf_char by done|rewrite Sprintf_verb].
  by repeat (rewrite <-app_assoc; cbn [app]).
Qed.

Lemma expand_rows pre n :
  clear_of placeholderSQL pre → 0 < n →
  expandPlaceholderSQL (mkSkeleton (pre ++ placeholderSQL) "VALUES(%s, %s, %s, %s)" 4 "(%s, %s, %s, %s)" 4 n) =
  Ok (pre ++ "VALUES" ++ rows4 n).
Proof.
  intros Hpre Hn. unfold expandPlaceholderSQL. cbn [num]. rewrite (proj2 (Z.leb_gt _ _) Hn).
  unfold Replace1. cbn [sk_sql firstPlaceholders restPlaceholders firstInsertion restInsertion].
  rewrite <-(app_nil_r placeholderSQL), app_assoc, <-app_assoc, cut_at by done. rewrite app_nil_r. do 2 f_equal.
  replace (4 + 4 * (n - 1)) with (4 * ((n - 1) + 1)) by lia. rewrite (seqZ_four 0) by lia. rewrite fmap_app.
  change (Z.to_nat 4) with 4%nat. rewrite take_app_length', drop_app_length' by done.
  pose proof (Sprintf_rows (Z.to_nat (n - 1)) 1) as Hr. rewrite Z2Nat.id in Hr by lia.
  change (4 * (0 + 1) + 1) with (4 * 1 + 1). rewrite Hr.
  unfold rows4. rewrite (seqZ_cons 0) by lia. cbn [fmap list_fmap]. rewrite Join_bind. change (Z.succ 0) with 1.
  replace (Z.pred n) with (n - 1) by lia. rewrite app_assoc. f_equal.
Qed.

(** ** The statements of the program *)

Inductive stmt_kind := SelectSubtrees | InsertSubtrees | ByMerkleHash | ByMerkleHashOrdered | ByIdentityHash.

Definition skeleton (k : stmt_kind) (n : Z) : statementSkeleton :=
  match k with
  | SelectSubtrees => list_skeleton selectSubtreeSQL n
  | InsertSubtrees => mkSkeleton insertSubtreeMultiSQL "VALUES(%s, %s, %s, %s)" 4 "(%s, %s, %s, %s)" 4 n
  | ByMerkleHash => list_skeleton selectLeavesByMerkleHashSQL n
  | ByMerkleHashOrdered => list_skeleton selectLeavesByMerkleHashOrderedBySequenceSQL n
  | ByIdentityHash => list_skeleton selectLeavesByLeafIdentityHashSQL n
  end.

(** Their texts: the values are [$1] to [$n], the other parameters follow. *)
Definition statement_text (k : stmt_kind) (n : Z) : bytes :=
  match k with
  | SelectSubtrees =>
      nl 2 "SELECT x.subtree_id, x.max_revision, subtree.nodes" ++
      nl 2 "FROM (" ++
      nl 3 "SELECT n.subtree_id, max(n.subtree_revision) AS max_revision" ++
      nl 3 "FROM subtree n" ++
      nl 3 "WHERE n.subtree_id IN (" ++ values n ++ ") AND" ++
      nl 3 "n.tree_id = " ++ dollar (n + 1) ++ " AND n.subtree_revision <= " ++ dollar (n + 2) ++
      nl 3 "GROUP BY n.subtree_id" ++
      nl 2 ") AS x" ++
      nl 2 "INNER JOIN subtree" ++
      nl 2 "ON subtree.subtree_id = x.subtree_id" ++
      nl 2 "AND subtree.subtree_revision = x.max_revision" ++
      nl 2 "AND subtree.tree_id = " ++ dollar (n + 3)
  | InsertSubtrees =>
      "INSERT INTO subtree(tree_id, subtree_id, nodes, subtree_revision) VALUES" ++ rows4 n
  | ByMerkleHash =>
      "SELECT s.merkle_leaf_hash," ++ leaf_columns ++
      sl "FROM leaf_data l,sequenced_leaf_data s" ++
      sl "WHERE l.leaf_identity_hash = s.leaf_identity_hash" ++
      sl "AND s.merkle_leaf_hash IN (" ++ values n ++ ") AND l.tree_id = " ++ dollar (n + 1) ++ " AND s.tree_id = l.tree_id"
  | ByMerkleHashOrdered =>
      "SELECT s.merkle_leaf_hash," ++ leaf_columns ++
      sl "FROM leaf_data l,sequenced_leaf_data s" ++
      sl "WHERE l.leaf_identity_hash = s.leaf_identity_hash" ++
      sl "AND s.merkle_leaf_hash IN (" ++ values n ++ ") AND l.tree_id = " ++ dollar (n + 1) ++
      " AND s.tree_id = l.tree_id ORDER BY s.sequence_number"
  | ByIdentityHash =>
      "SELECT '" ++ dummymerkleLeafHash ++
      "',l.leaf_identity_hash,l.leaf_value,-1,l.extra_data,l.queue_timestamp_nanos,s.integrate_timestamp_nanos" ++
      sl "FROM leaf_data l LEFT JOIN sequenced_leaf_data s ON (l.leaf_identity_hash = s.leaf_identity_hash AND l.tree_id = s.tree_id)" ++
      sl "WHERE l.leaf_identity_hash IN (" ++ values n ++ ") AND l.tree_id = " ++ dollar (n + 1)
  end.

(** A check that a given text is clear of a marker. *)
Fixpoint mismatch (p s : bytes) : bool :=
  match p, s with
  | c :: p', d :: s' => if bool_decide (c = d) then mismatch p' s' else true
  | _, _ => false
  end.
Fixpoint clear_check (pat a : bytes) : bool :=
  match a with [] => true | _ :: a' => mismatch pat a && clear_check pat a' end.

Lemma mismatch_strip p s b : mismatch p s = true → strip_prefix p (s ++ b) = None.
Proof.
  revert s. induction p as [|c p IH]; intros [|d s]; cbn; try done. destruct (bool_decide (c = d)); [apply IH|done].
Qed.
Lemma clear_check_ok pat a : clear_check pat a = true → clear_of pat a.
Proof.
  induction a as [|c a IH]; [intros _; apply clear_of_nil|]. cbn [clear_check]. intros [Hm Ha]%andb_true_iff b.
  apply (mismatch_strip _ _ b) in Hm. cbn [app] in *. cbn [cut]. rewrite Hm, (IH Ha b).
  by destruct (cut pat b) as [[]|].
Qed.

Lemma Join_not_elem c ws sep : c ≠ sep → (∀ w, w ∈ ws → c ∉ w) → c ∉ Join ws sep.
Proof.
  intros Hs. induction ws as [|w ws IH]; intros Hw; [apply not_elem_of_nil|]. destruct ws as [|v ws]; [by apply Hw; left|].
  change (Join (w :: v :: ws) sep) with (w ++ sep :: Join (v :: ws) sep). rewrite not_elem_of_app, not_elem_of_cons.
  split_and!; [by apply Hw; left|done|]. apply IH. intros; apply Hw; by right.
Qed.
Lemma values_clear n : open_c ∉ values n.
Proof. apply Join_not_elem; [done|]. intros w (i & -> & _)%list_elem_of_fmap. apply dollar_clear. Qed.
Lemma rows4_clear n : open_c ∉ rows4 n.
Proof.
  apply Join_not_elem; [done|]. intros w (i & -> & _)%list_elem_of_fmap. unfold row4.
  rewrite !not_elem_of_app. pose proof dollar_clear. split_and!; eauto; by apply (bool_decide_unpack _); vm_compute.
Qed.

(** A list statement, by its segments. *)
Lemma stmt_text_list sql pre segs n :
  sql = pre ++ placeholderSQL ++ params segs → clear_check placeholderSQL pre = true → clear_check paramSQL pre = true →
  forallb (clear_check paramSQL) segs = true → 0 < n → (length segs ≤ length (params segs))%nat →
  stmt_text (list_skeleton sql n) = Ok (pre ++ values n ++ fill (n + 1) segs).
Proof.
  intros Hsql Hp1 Hp2 Hsegs Hn Hlen. unfold stmt_text. rewrite (expand_list sql pre (params segs) n) by (done || by apply clear_check_ok).
  unfold mbind, result_bind. f_equal. cbn [restPlaceholders list_skeleton num]. rewrite Z.mul_1_l.
  rewrite app_assoc, number_params_fill; [by rewrite <-app_assoc| | |].
  - apply clear_of_app; [by apply clear_check_ok|]. by apply (clear_of_chars _ open_c); [|apply values_clear].
  - rewrite forallb_forall in Hsegs. apply Forall_forall. intros a Ha%list_elem_of_In. by apply clear_check_ok, Hsegs.
  - rewrite !length_app. lia.
Qed.

Lemma stmt_text_kind k n : 0 < n → stmt_text (skeleton k n) = Ok (statement_text k n).
Proof.
  intros Hn. destruct k; cbn [skeleton].
  - rewrite (stmt_text_list _
      (nl 2 "SELECT x.subtree_id, x.max_revision, subtree.nodes" ++ nl 2 "FROM (" ++
       nl 3 "SELECT n.subtree_id, max(n.subtree_revision) AS max_revision" ++ nl 3 "FROM subtree n" ++
       nl 3 "WHERE n.subtree_id IN (")
      [(") AND" : bytes) ++ nl 3 "n.tree_id = "; (" AND n.subtree_revision <= " : bytes);
       nl 3 "GROUP BY n.subtree_id" ++ nl 2 ") AS x" ++ nl 2 "INNER JOIN subtree" ++
       nl 2 "ON subtree.subtree_id = x.subtree_id" ++ nl 2 "AND subtree.subtree_revision = x.max_revision" ++
       nl 2 "AND subtree.tree_id = "; []]) by first [exact Hn|vm_compute; reflexivity|apply Nat.leb_le; vm_compute; reflexivity].
    cbn [fill]. replace (n + 1 + 1 + 1) with (n + 3) by lia. replace (n + 1 + 1) with (n + 2) by lia.
    unfold statement_text. rewrite ?app_nil_r, <-?app_assoc. reflexivity.
  - unfold stmt_text, insertSubtreeMultiSQL.
    rewrite (expand_rows "INSERT INTO subtree(tree_id, subtree_id, nodes, subtree_revision) ")
      by (done || by apply clear_check_ok).
    unfold mbind, result_bind. f_equal. apply number_params_clear.
    apply clear_of_app; [by apply clear_check_ok|].
    by apply (clear_of_chars _ open_c); [|apply rows4_clear].
  - rewrite (stmt_text_list _
      ("SELECT s.merkle_leaf_hash," ++ leaf_columns ++ sl "FROM leaf_data l,sequenced_leaf_data s" ++
       sl "WHERE l.leaf_identity_hash = s.leaf_identity_hash" ++ sl "AND s.merkle_leaf_hash IN (")
      [(") AND l.tree_id = " : bytes); (" AND s.tree_id = l.tree_id" : bytes)]) by first [exact Hn|vm_compute; reflexivity|apply Nat.leb_le; vm_compute; reflexivity].
    cbn [fill]. unfold statement_text. rewrite ?app_nil_r, <-?app_assoc. reflexivity.
  - rewrite (stmt_text_list _
      ("SELECT s.merkle_leaf_hash," ++ leaf_columns ++ sl "FROM leaf_data l,sequenced_leaf_data s" ++
       sl "WHERE l.leaf_identity_hash = s.leaf_identity_hash" ++ sl "AND s.merkle_leaf_hash IN (")
      [(") AND l.tree_id = " : bytes); (" AND s.tree_id = l.tree_id ORDER BY s.sequence_number" : bytes)])
      by first [exact Hn|vm_compute; reflexivity|apply Nat.leb_le; vm_compute; reflexivity].
    cbn [fill]. unfold statement_text. rewrite ?app_nil_r, <-?app_assoc. reflexivity.
  - rewrite (stmt_text_list _
      ("SELECT '" ++ dummymerkleLeafHash ++
       "',l.leaf_identity_hash,l.leaf_value,-1,l.extra_data,l.queue_timestamp_nanos,s.integrate_timestamp_nanos" ++
       sl "FROM leaf_data l LEFT JOIN sequenced_leaf_data s ON (l.leaf_identity_hash = s.leaf_identity_hash AND l.tree_id = s.tree_id)" ++
       sl "WHERE l.leaf_identity_hash IN (")
      [(") AND l.tree_id = " : bytes); []]) by first [exact Hn|vm_compute; reflexivity|apply Nat.leb_le; vm_compute; reflexivity].
    cbn [fill]. unfold statement_text. rewrite ?app_nil_r, <-?app_assoc. reflexivity.
Qed.

(** ** The cache *)

(** Every prepared statement is one of the program's, with its text. *)
Definition cache_ok (w : pg) : Prop :=
  ∀ sql n s, prepared w !! (sql, n) = Some s → ∃ k, 0 < n ∧ sql = sk_sql (skeleton k n) ∧ s = statement_text k n.

Lemma skeleton_sql_inj k1 k2 n : sk_sql (skeleton k1 n) = sk_sql (skeleton k2 n) → k1 = k2.
Proof.
  intros E. apply (f_equal (λ s, (length s, drop 440 s, take 30 s))) in E.
  destruct k1, k2; try reflexivity; vm_compute in E; discriminate E.
Qed.
Lemma skeleton_num k n : num (skeleton k n) = n.
Proof. by destruct k. Qed.

(** The statement for [n] values, from the cache or prepared anew, has
    its parameters numbered from one without a gap: the values first, then
    the others in order.  Asking for none is refused without touching the
    cache or the database, and the cache stays correct. *)
Theorem getStmt_text fault k n w :
  cache_ok w →
  if 0 <? n then
    ∃ w', cache_ok w' ∧ committed w' = committed w ∧ txns w' = txns w ∧
      (getStmt fault (skeleton k n) w = (w', Return (statement_text k n)) ∨
       ∃ e, fault (statements w) = Some e ∧ getStmt fault (skeleton k n) w = (w', Fail e))
  else
    getStmt fault (skeleton k n) w =
      (w, Fail (ENew (("trying to expand SQL placeholder with <= 0 parameters: " : bytes) ++ sk_sql (skeleton k n)))).
Proof.
  intros Hw. unfold getStmt. rewrite skeleton_num. destruct (Z.ltb_spec 0 n) as [Hn|Hn].
  - destruct (prepared w !! (sk_sql (skeleton k n), n)) as [s|] eqn:E.
    + exists w. split_and!; [done..|left]. destruct (Hw _ _ _ E) as (k' & _ & Hk%skeleton_sql_inj & ->). by subst.
    + unfold prepare_new. rewrite stmt_text_kind, try_ok by done. unfold mbind, M_bind, Prepare.
      destruct (fault (statements w)) as [e|] eqn:Ef; [exists (tick w); split_and!; [done..|right; eauto]|].
      unfold remember. rewrite skeleton_num.
      exists (set_prepared (tick w) (<[(sk_sql (skeleton k n), n) := statement_text k n]> (prepared w))).
      split_and!; [|done|done|by left].
      intros sql m s. cbn. intros [[[= <- <-] <-]|[_ Hs]]%lookup_insert_Some; [by exists k|by apply Hw].
  - destruct (prepared w !! (sk_sql (skeleton k n), n)) as [s|] eqn:E; [destruct (Hw _ _ _ E); lia|].
    unfold prepare_new, stmt_text, expandPlaceholderSQL. rewrite skeleton_num, (proj2 (Z.leb_le _ _) Hn). done.
Qed.

Lemma getStmt_text_witness :
  ∃ w', cache_ok w' ∧ getStmt no_fault (skeleton ByIdentityHash 2) sample_pg = (w', Return (statement_text ByIdentityHash 2)).
Proof.
  assert (cache_ok sample_pg) as Hok by (intros sql n s; cbn; by rewrite lookup_empty).
  destruct (getStmt_text no_fault ByIdentityHash 2 sample_pg Hok) as (w' & Hw & _ & _ & [E|(e & He & _)]); [|discriminate].
  exists w'. split; [exact Hw|exact E].
Defined.
