(* ===== verification/AdminFacts.v ===== *)
(** * Trees: creation and deletion

    The life of a tree: created, soft deleted, restored, and only after a
    soft deletion removed. *)

From S2P Require Import Prelude GoStrings Utf GoFmt Errors Effects Postgres LogStorage StorageSamples StorageFacts AdminStorage.

Open Scope Z_scope.

(** The tree that a row describes. *)
Definition tree_of_row (id : Z) (r : tree_row) : ATree :=
  mkATree id (t_state r) (t_type r) (t_display_name r) (t_description r) (Some (t_create_millis r))
    (Some (t_update_millis r)) (t_max_root_millis r * millisecond) (t_deleted r) (t_delete_millis r) None.

Definition with_deleted (deleted : bool) (millis : option Z) (r : tree_row) : tree_row :=
  mkTreeRow (t_state r) (t_type r) (t_display_name r) (t_description r) (t_create_millis r) (t_update_millis r)
    (t_max_root_millis r) deleted millis (t_current_data r) (t_root_signature r).

(** No table but the queue has a row of the tree. *)
Definition gone (id : Z) (d : db) : Prop :=
  trees d !! id = None ∧ tree_control d !! id = None ∧
  (∀ s rev, subtree d !! (id, s, rev) = None) ∧ (∀ rev, tree_head d !! (id, rev) = None) ∧
  (∀ h, leaf_data d !! (id, h) = None) ∧ (∀ n, sequenced_leaf_data d !! (id, n) = None).

(** Every other tree is as before. *)
Definition others_kept (id : Z) (d d' : db) : Prop :=
  ∀ i, i ≠ id →
    trees d' !! i = trees d !! i ∧ tree_control d' !! i = tree_control d !! i ∧
    (∀ s rev, subtree d' !! (i, s, rev) = subtree d !! (i, s, rev)) ∧
    (∀ rev, tree_head d' !! (i, rev) = tree_head d !! (i, rev)) ∧
    (∀ h, leaf_data d' !! (i, h) = leaf_data d !! (i, h)) ∧
    (∀ n, sequenced_leaf_data d' !! (i, n) = sequenced_leaf_data d !! (i, n)).

Lemma filter_key_ne {K V} `{Countable K} (f : K → Z) (id : Z) (m : gmap K V) k :
  filter (λ kv, f kv.1 ≠ id) m !! k = if bool_decide (f k = id) then None else m !! k.
Proof.
  case_bool_decide as E.
  - apply map_lookup_filter_None. right. intros v _. cbn. by intros [].
  - destruct (m !! k) as [v|] eqn:Ev; [by apply map_lookup_filter_Some|].
    apply map_lookup_filter_None. by left.
Qed.

Section admin.
Context (fault : nat → option error) (Hfault : ∀ n, fault n = None).
Context (ReadTree : Z → tree_row → result error ATree).
(** Reading a row gives its tree. *)
Context (HRead : ∀ id r, ReadTree id r = Ok (tree_of_row id r)).
Context (t : adminTX).
Abbreviation h_ := (atx t).

Lemma runs_GetTree id d sp r : trees d !! id = Some r → runs h_ (GetTree fault ReadTree t id) d sp (tree_of_row id r) d sp.
Proof.
  intros Hr. eapply runs_bind; [apply (runs_query _ Hfault)|].
  eapply runs_bind; [apply runs_within, (runs_query _ Hfault)|]. cbn. rewrite Hr. by apply runs_try.
Qed.

Definition precondition (text : bytes) (id : Z) : error :=
  status_Errorf FailedPrecondition (("tree " : bytes) ++ FormatInt id ++ text).

(** The check before each change. *)
Lemma runs_validateDeleted id want d sp r :
  trees d !! id = Some r → t_deleted r = want → runs h_ (validateDeleted fault t id want) d sp () d sp.
Proof.
  intros Hr <-. eapply runs_bind; [apply (runs_query _ Hfault)|]. cbn. rewrite Hr.
  destruct (t_deleted r); apply runs_ret.
Qed.
Lemma validateDeleted_missing id want d sp :
  trees d !! id = None → gives_up h_ (validateDeleted fault t id want) d sp (not_found id).
Proof.
  intros Hr. eapply runs_gives_up; [apply (runs_query _ Hfault)|]. cbn. rewrite Hr. apply gives_up_fail.
Qed.
Lemma validateDeleted_wrong id want d sp r :
  trees d !! id = Some r → t_deleted r = negb want →
  gives_up h_ (validateDeleted fault t id want) d sp
    (precondition (if want then " is not soft deleted" else " already soft deleted") id).
Proof.
  intros Hr Hd. eapply runs_gives_up; [apply (runs_query _ Hfault)|]. cbn. rewrite Hr, Hd.
  destruct want; apply gives_up_fail.
Qed.

Lemma runs_updateDeleted id deleted millis d sp r :
  trees d !! id = Some r → t_deleted r = negb deleted →
  runs h_ (updateDeleted fault ReadTree t id deleted millis) d sp (tree_of_row id (with_deleted deleted millis r))
    (set_trees d (<[id := with_deleted deleted millis r]> (trees d))) sp.
Proof.
  intros Hr Hd. eapply runs_bind; [by eapply runs_validateDeleted|].
  eapply runs_bind; [apply (runs_statement _ Hfault)|apply runs_GetTree, lookup_insert_eq].
  unfold soft_delete. by rewrite Hr.
Qed.

(** The data after removing a tree. *)
Definition removed_db (id : Z) (d : db) : db :=
  match delete_tree id (set_tree_control d (delete id (tree_control d))) with Ok (d', _) => d' | Err _ => d end.
Lemma removed_db_gone id d : gone id (removed_db id d).
Proof.
  unfold gone, removed_db. cbn. rewrite !lookup_delete_eq. split_and!; try done; intros.
  - by rewrite (filter_key_ne (λ k : Z * bytes * Z, k.1.1)), bool_decide_eq_true_2.
  - by rewrite (filter_key_ne (λ k : Z * Z, k.1)), bool_decide_eq_true_2.
  - by rewrite (filter_key_ne (λ k : Z * bytes, k.1)), bool_decide_eq_true_2.
  - by rewrite (filter_key_ne (λ k : Z * Z, k.1)), bool_decide_eq_true_2.
Qed.
Lemma removed_db_others id d : others_kept id d (removed_db id d).
Proof.
  intros i Hi. unfold removed_db. cbn. rewrite !lookup_delete_ne by done. split_and!; try done; intros.
  - by rewrite (filter_key_ne (λ k : Z * bytes * Z, k.1.1)), bool_decide_eq_false_2.
  - by rewrite (filter_key_ne (λ k : Z * Z, k.1)), bool_decide_eq_false_2.
  - by rewrite (filter_key_ne (λ k : Z * bytes, k.1)), bool_decide_eq_false_2.
  - by rewrite (filter_key_ne (λ k : Z * Z, k.1)), bool_decide_eq_false_2.
Qed.

(** C28: The life of a tree.  A tree that is not there cannot be soft
    deleted, restored or removed.  A live tree can only be soft deleted,
    which records the time; a soft deleted one can be restored, or removed
    for good with all its rows but those in the queue, which stay; the rows
    of other trees are untouched.  A refused request changes nothing. *)
Theorem tree_lifecycle id now d sp :
  match trees d !! id with
  | None =>
      gives_up h_ (SoftDeleteTree fault ReadTree now t id) d sp (not_found id) ∧
      gives_up h_ (UndeleteTree fault ReadTree t id) d sp (not_found id) ∧
      gives_up h_ (HardDeleteTree fault t id) d sp (not_found id)
  | Some r =>
      if t_deleted r then
        gives_up h_ (SoftDeleteTree fault ReadTree now t id) d sp (precondition " already soft deleted" id) ∧
        runs h_ (UndeleteTree fault ReadTree t id) d sp (tree_of_row id (with_deleted false None r))
          (set_trees d (<[id := with_deleted false None r]> (trees d))) sp ∧
        ∃ d', runs h_ (HardDeleteTree fault t id) d sp () d' sp ∧
          gone id d' ∧ others_kept id d d' ∧ unsequenced d' = unsequenced d
      else
        runs h_ (SoftDeleteTree fault ReadTree now t id) d sp (tree_of_row id (with_deleted true (Some now) r))
          (set_trees d (<[id := with_deleted true (Some now) r]> (trees d))) sp ∧
        gives_up h_ (UndeleteTree fault ReadTree t id) d sp (precondition " is not soft deleted" id) ∧
        gives_up h_ (HardDeleteTree fault t id) d sp (precondition " is not soft deleted" id)
  end.
Proof.
  destruct (trees d !! id) as [r|] eqn:Hr.
  2: { split_and!; apply gives_up_bind; by apply validateDeleted_missing. }
  destruct (t_deleted r) eqn:Hd.
  - split_and!; [apply gives_up_bind; by apply (validateDeleted_wrong id false d sp r)|by apply runs_updateDeleted|].
    exists (removed_db id d). split_and!; [|apply removed_db_gone|apply removed_db_others|done].
    eapply runs_bind; [by eapply runs_validateDeleted|]. eapply runs_bind; [by apply (runs_statement _ Hfault)|].
    by apply (runs_statement _ Hfault).
  - split_and!; [by apply runs_updateDeleted| |];
      apply gives_up_bind; by apply (validateDeleted_wrong id true d sp r).
Qed.

Context (ValidateTreeForCreation : ATree → result error unit).

(** What a request for a new tree asks for. *)
Definition plain_request (tree : ATree) : Prop :=
  a_Deleted tree = false ∧ a_DeleteTime tree = None ∧ a_StorageSettings tree = None.

Lemma new_row_tree id tree now :
  plain_request tree → (millisecond | a_MaxRootDuration tree) → tree_of_row id (new_row tree now) = created tree id now.
Proof.
  intros (Hd & Ht & Hs) [q Hq]. unfold tree_of_row, created. cbn. rewrite Hd, Ht, Hs, Hq. f_equal.
  by rewrite Z.quot_mul.
Qed.

(** [CreateTree] on a healthy connection stores the tree under its new
    number; reading it back gives the tree that was returned, if the
    duration is in whole milliseconds.  The tree is sequenced every minute,
    is not deleted, and has no root yet. *)
Theorem CreateTree_roundtrip id now tree d sp :
  ValidateTreeForCreation tree = Ok () → plain_request tree → (millisecond | a_MaxRootDuration tree) →
  check_columns (a_TreeState tree) (a_TreeType tree) (a_DisplayName tree) (a_Description tree) = Ok () →
  trees d !! id = None → tree_control d !! id = None →
  ∃ d',
    runs h_ (CreateTree fault ValidateTreeForCreation (Ok id) now t tree) d sp (created tree id now) d' sp ∧
    runs h_ (GetTree fault ReadTree t id) d' sp (created tree id now) d' sp ∧
    tree_control d' !! id = Some (mkControlRow true true 60) ∧
    (trees d' !! id ≫= t_current_data) = None ∧ (t_deleted <$> trees d' !! id) = Some false ∧
    others_kept id d d'.
Proof.
  intros Hv Hp Hms Hcol Ht Hc. set (d1 := set_trees d (<[id := new_row tree now]> (trees d))).
  exists (set_tree_control d1 (<[id := mkControlRow true true defaultSequenceIntervalSeconds]> (tree_control d1))).
  split_and!.
  - eapply runs_bind; [by apply runs_try|].
    eapply runs_bind; [apply (runs_try _ _ _ _ _ ()); unfold validateStorageSettings; by rewrite (proj2 (proj2 Hp))|].
    eapply runs_bind; [by apply (runs_try _ _ _ _ _ id)|]. eapply runs_bind; [apply (runs_query _ Hfault)|].
    eapply runs_bind; [apply (runs_statement _ Hfault _ _ _ _ d1 ()); unfold insert_tree; cbn; by rewrite Hcol, Ht|].
    eapply runs_bind; [apply (runs_query _ Hfault)|]. eapply runs_bind; [apply (runs_statement _ Hfault)|apply runs_ret].
    unfold insert_tree_control, d1. cbn. by rewrite Hc, lookup_insert_eq.
  - rewrite <-new_row_tree by done. apply runs_GetTree, lookup_insert_eq.
  - apply lookup_insert_eq.
  - unfold d1. cbn. by rewrite lookup_insert_eq.
  - unfold d1. cbn. by rewrite lookup_insert_eq.
  - intros i Hi. unfold d1. cbn. by rewrite !lookup_insert_ne.
Qed.
End admin.

(** ** On the sample database *)

Definition sample_read (id : Z) (r : tree_row) : result error ATree := Ok (tree_of_row id r).
Definition sample_admin : adminTX := mkAdminTX 0 false.

(** The tree is live: it can be soft deleted and not removed. *)
Lemma tree_lifecycle_witness :
  runs 0 (SoftDeleteTree no_fault sample_read 99 sample_admin 1) sample_db [] (tree_of_row 1 (with_deleted true (Some 99) sample_row))
    (set_trees sample_db (<[1 := with_deleted true (Some 99) sample_row]> (trees sample_db))) [] ∧
  gives_up 0 (HardDeleteTree no_fault sample_admin 1) sample_db [] (precondition " is not soft deleted" 1).
Proof.
  pose proof (tree_lifecycle no_fault no_fault_none sample_read (λ _ _, eq_refl) sample_admin 1 99 sample_db []) as H.
  change (trees sample_db !! 1) with (Some sample_row) in H. cbn [t_deleted sample_row] in H.
  destruct H as (Hs & _ & Hh). split; [exact Hs|exact Hh].
Defined.

Definition sample_request : ATree := mkATree 0 "ACTIVE" "LOG" "new log" [] None None 3600000000000 false None None.
Lemma CreateTree_roundtrip_witness :
  ∃ d', runs 0 (CreateTree no_fault (λ _, Ok ()) (Ok 7) 99 sample_admin sample_request) sample_db [] (created sample_request 7 99) d' [] ∧
    runs 0 (GetTree no_fault sample_read sample_admin 7) d' [] (created sample_request 7 99) d' [].
Proof.
  destruct (CreateTree_roundtrip no_fault no_fault_none sample_read (λ _ _, eq_refl) sample_admin (λ _, Ok ()) 7 99
    sample_request sample_db []) as (d' & Hc & Hg & _).
  - reflexivity.
  - split; [reflexivity|split; reflexivity].
  - exists 3600000. reflexivity.
  - vm_compute. reflexivity.
  - reflexivity.
  - reflexivity.
  - exists d'. split; [exact Hc|exact Hg].
Defined.
