(* ===== verification/Calls.v ===== *)
(** * Calls of the storage

    What a client of the storage can do, as data: operations inside a
    transaction, and whole calls, which begin and end their own transactions.
    [run_calls] runs a sequence of calls from a state of the server. *)

From S2P Require Import Prelude GoStrings Errors Effects Postgres TreeStorage LogStorage AdminStorage.

Open Scope Z_scope.

Section calls.
Context (fault : nat → option error) `{!RootCodec}.
Context {SubtreeCache NodeID : Type} (dirty : SubtreeCache → list SubtreeProto) (newCache : SubtreeCache).
Context (proto_Marshal : SubtreeProto → result error bytes) (proto_Unmarshal : bytes → result error SubtreeProto).
Context (SetNodeHash : SubtreeCache → NodeID → bytes → (bytes → M pg (option SubtreeProto)) → M pg SubtreeCache).
Context (sort_leaves : list (nat * leaf) → list (nat * leaf)) (nil_timestamp : error).
Context (ReadTree : Z → tree_row → result error ATree).
Context (ValidateTreeForCreation : ATree → result error unit).
Context (ValidateTreeForUpdate : ATree → ATree → result error unit).

Abbreviation logTX := (logTreeTX (SubtreeCache := SubtreeCache)).

(** Operations of a transaction on a log. *)
Inductive log_op :=
| op_QueueLeaves (leaves : list leaf) (now : Z)
| op_AddSequencedLeaves (leaves : list leaf) (now : Z)
| op_DequeueLeaves (limit cutoff : Z)
| op_UpdateSequencedLeaves (leaves : list leaf)
| op_StoreSignedLogRoot (signed : bytes)
| op_SetMerkleNodes (nodes : list (NodeID * bytes))
| op_GetLeavesByRange (start count : Z)
| op_GetLeavesByHash (hashes : list bytes) (orderBySequence : bool).

Definition run_log_op (op : log_op) (t : logTX) : M pg logTX :=
  match op with
  | op_QueueLeaves leaves now => _ ← tx_QueueLeaves fault sort_leaves t leaves now; mret t
  | op_AddSequencedLeaves leaves now => _ ← tx_AddSequencedLeaves fault sort_leaves t leaves now; mret t
  | op_DequeueLeaves limit cutoff => _ ← DequeueLeaves fault t limit cutoff; mret t
  | op_UpdateSequencedLeaves leaves => _ ← UpdateSequencedLeaves fault nil_timestamp t leaves; mret t
  | op_StoreSignedLogRoot signed => _ ← StoreSignedLogRoot fault t signed; mret t
  | op_SetMerkleNodes nodes => set_ttx t <$> SetMerkleNodes fault proto_Unmarshal SetNodeHash (ttx t) nodes
  | op_GetLeavesByRange start count => _ ← GetLeavesByRange fault t start count; mret t
  | op_GetLeavesByHash hashes ordered => _ ← GetLeavesByHash fault t hashes ordered; mret t
  end.

Fixpoint run_log_ops (ops : list log_op) (t : logTX) : M pg logTX :=
  match ops with
  | [] => mret t
  | op :: rest => t' ← run_log_op op t; run_log_ops rest t'
  end.

(** Operations of a transaction on the trees. *)
Inductive admin_op :=
| op_CreateTree (NewTreeID : result error Z) (nowMillis : Z) (tree : ATree)
| op_UpdateTree (nowMillis treeID : Z) (updateFunc : ATree → ATree)
| op_SoftDeleteTree (nowMillis treeID : Z)
| op_UndeleteTree (treeID : Z)
| op_HardDeleteTree (treeID : Z)
| op_GetTree (treeID : Z)
| op_ListTrees (includeDeleted : bool).

Definition run_admin_op (op : admin_op) (t : adminTX) : M pg unit :=
  match op with
  | op_CreateTree id_ now tree => _ ← CreateTree fault ValidateTreeForCreation id_ now t tree; mret ()
  | op_UpdateTree now id_ f => _ ← UpdateTree fault ReadTree ValidateTreeForUpdate now t id_ f; mret ()
  | op_SoftDeleteTree now id_ => _ ← SoftDeleteTree fault ReadTree now t id_; mret ()
  | op_UndeleteTree id_ => _ ← UndeleteTree fault ReadTree t id_; mret ()
  | op_HardDeleteTree id_ => HardDeleteTree fault t id_
  | op_GetTree id_ => _ ← GetTree fault ReadTree t id_; mret ()
  | op_ListTrees deleted => _ ← ListTrees fault ReadTree t deleted; mret ()
  end.

Fixpoint run_admin_ops (ops : list admin_op) (t : adminTX) : M pg unit :=
  match ops with
  | [] => mret ()
  | op :: rest => _ ← run_admin_op op t; run_admin_ops rest t
  end.

(** Whole calls. *)
Inductive storage_call :=
| call_ReadWriteTransaction (tree : Tree) (ops : list log_op)
| call_SnapshotForTree (tree : Tree) (ops : list log_op)
| call_QueueLeaves (tree : Tree) (leaves : list leaf) (now : Z)
| call_AddSequencedLeaves (tree : Tree) (leaves : list leaf) (now : Z)
| call_GetActiveLogIDs
| call_admin (ops : list admin_op).

Definition exec (c : storage_call) : M pg unit :=
  match c with
  | call_ReadWriteTransaction tree ops =>
      ReadWriteTransaction fault dirty newCache proto_Marshal tree (λ t, t' ← run_log_ops ops t; mret (t', None))
  | call_SnapshotForTree tree ops =>
      '(t, _) ← SnapshotForTree fault newCache tree;
      with_close fault t (t' ← run_log_ops ops t; mret (t', None))
  | call_QueueLeaves tree leaves now =>
      _ ← QueueLeaves fault dirty newCache proto_Marshal sort_leaves tree leaves now; mret ()
  | call_AddSequencedLeaves tree leaves now =>
      _ ← AddSequencedLeaves fault dirty newCache proto_Marshal sort_leaves tree leaves now; mret ()
  | call_GetActiveLogIDs => h ← Snapshot fault; _ ← GetActiveLogIDs fault h; snapshot_Close fault h
  | call_admin ops => admin_ReadWriteTransaction fault (λ t, _ ← run_admin_ops ops t; mret (t, None))
  end.

(** A sequence of calls, whatever each of them answers. *)
Definition run_calls (calls : list storage_call) (w : pg) : pg := foldl (λ w c, (exec c w).1) w calls.
End calls.

(** The server after its start, with the schema and no rows. *)
Definition empty_db : db := mkDb ∅ ∅ ∅ ∅ ∅ ∅ ∅.
Definition empty_pg : pg := mkPg empty_db ∅ 0 0 ∅.
