(* ===== verification/Integrity.v ===== *)
(** * Integrity of the database

    What holds of the tables in every state the storage can reach, whatever
    the calls, their arguments, the faults of the connection and the answers
    of third-party code: the references between the tables, the ranges of
    their columns, and the size of every identity hash. *)

From S2P Require Import Prelude GoStrings Errors Effects Postgres TreeStorage LogStorage AdminStorage StorageSamples StorageFacts Calls.

Open Scope Z_scope.

(** ** The invariant *)

Definition id_size (identity : bytes) : Prop := Z.of_nat (length identity) = rfc6962_size.
Definition row_ok (r : tree_row) : Prop :=
  check_columns (t_state r) (t_type r) (t_display_name r) (t_description r) = Ok () ∧
  t_deleted r = bool_decide (is_Some (t_delete_millis r)).

Record db_ok (d : db) : Prop := {
  ok_trees : ∀ id r, trees d !! id = Some r → row_ok r;
  ok_control : ∀ id r, tree_control d !! id = Some r → is_Some (trees d !! id);
  ok_subtree : ∀ tree id rev v, subtree d !! (tree, id, rev) = Some v → is_Some (trees d !! tree) ∧ is_int4 rev = true;
  ok_head : ∀ tree rev v, tree_head d !! (tree, rev) = Some v → is_Some (trees d !! tree);
  ok_leaf : ∀ tree id v, leaf_data d !! (tree, id) = Some v → is_Some (trees d !! tree) ∧ id_size id;
  ok_sequenced : ∀ tree n v, sequenced_leaf_data d !! (tree, n) = Some v → is_Some (leaf_data d !! (tree, s_identity v));
  ok_queue : ∀ tree ts id v, unsequenced d !! (tree, ts, id) = Some v → id_size id
}.

Definition txn_ok (t : txn) : Prop := db_ok (work t) ∧ Forall db_ok (savepoints t).
(** The committed tables, and those of every open transaction. *)
Definition pg_ok (w : pg) : Prop := db_ok (committed w) ∧ map_Forall (λ _, txn_ok) (txns w).

Lemma empty_db_ok : db_ok empty_db.
Proof. split; intros; done. Qed.
Lemma empty_pg_ok : pg_ok empty_pg.
Proof. split; [apply empty_db_ok|apply map_Forall_empty]. Qed.

(** ** Statements *)

(** A statement that keeps the invariant. *)
Definition safe {A} (f : db → result error (db * A)) : Prop := ∀ d d' a, db_ok d → f d = Ok (d', a) → db_ok d'.

Lemma safe_read {A} (g : db → A) : safe (λ d, Ok (d, g d)).
Proof. intros d d' a Hd [= <- <-]. done. Qed.

(** Rows of trees can be replaced and added. *)
Lemma set_tree_ok d id r : db_ok d → row_ok r → db_ok (set_trees d (<[id := r]> (trees d))).
Proof.
  intros [] Hr. assert (∀ i, is_Some (trees d !! i) → is_Some (<[id := r]> (trees d) !! i)) as Hmono.
  { intros i Hi. rewrite lookup_insert_is_Some'. by right. }
  split; cbn; [|naive_solver..]. intros i r' [[<- <-]|[_ ?]]%lookup_insert_Some; eauto.
Qed.

Lemma insert_leaf_data_safe tree identity v x nanos : id_size identity → safe (insert_leaf_data tree identity v x nanos).
Proof.
  intros Hsize d d' a Hd. unfold insert_leaf_data. destruct v as [v|]; [|done].
  destruct (trees d !! tree) as [row|] eqn:Ht, (leaf_data d !! (tree, identity)) eqn:Hl; intros [= <- <-]; [done| |done].
  destruct Hd. split; cbn; [done..| | |done].
  - intros tr i w [[[= <- <-] _]|[_ ?]]%lookup_insert_Some; [by rewrite Ht|eauto].
  - intros tr n w Hs. rewrite lookup_insert_is_Some'. right. eauto.
Qed.

Lemma insert_unsequenced_safe tree identity merkle nanos : id_size identity → safe (insert_unsequenced tree identity merkle nanos).
Proof.
  intros Hsize d d' a Hd. unfold insert_unsequenced. destruct merkle as [m|]; [|done].
  destruct (unsequenced d !! _); intros [= <- <-]; [done|]. destruct Hd. split; cbn; [done..|].
  intros tr ts i v [[[= <- <- <-] _]|[_ ?]]%lookup_insert_Some; eauto.
Qed.

Lemma insert_sequenced_safe tree n identity merkle nanos : safe (insert_sequenced tree n identity merkle nanos).
Proof.
  intros d d' a Hd. unfold insert_sequenced. destruct merkle as [m|]; [|done].
  destruct (sequenced_leaf_data d !! _); [by intros [= <- <-]|].
  destruct (trees d !! tree); [|done]. destruct (leaf_data d !! _) eqn:Hl; [|done]. intros [= <- <-].
  destruct Hd. split; cbn; [done..| |done].
  intros tr k v [[[= <- <-] <-]|[_ ?]]%lookup_insert_Some; [by cbn; rewrite Hl|eauto].
Qed.

Lemma delete_unsequenced_safe tree ts id : safe (delete_unsequenced tree ts id).
Proof.
  intros d d' a Hd. unfold delete_unsequenced. destruct (unsequenced d !! _); intros [= <- <-]; [|done].
  destruct Hd. split; cbn; [done..|]. intros tr ts' i v [_ ?]%lookup_delete_Some. eauto.
Qed.

Lemma insert_subtrees_safe tree rev rows : is_int4 rev = true → safe (insert_subtrees tree rev rows).
Proof.
  intros Hrev. induction rows as [|[p nodes] rows IH]; cbn; intros d d' a Hd; [by intros [= <- <-]|].
  destruct (trees d !! tree) eqn:Ht; [|done]. destruct (subtree d !! _); [done|]. apply IH.
  destruct Hd. split; cbn; [done..| |done|done|done|done].
  intros tr i r v [[[= <- <- <-] _]|[_ ?]]%lookup_insert_Some; [by rewrite Ht|eauto].
Qed.

Lemma update_tree_data_safe tree json sig : safe (update_tree_data tree json sig).
Proof.
  intros d d' a Hd. unfold update_tree_data. destruct (trees d !! tree) eqn:Ht; intros [= <- <-]; [|done].
  apply set_tree_ok; [done|]. by apply (ok_trees d Hd _ _ Ht).
Qed.

Lemma insert_tree_head_safe tree r sig : safe (insert_tree_head tree r sig).
Proof.
  intros d d' a Hd. unfold insert_tree_head. destruct (tree_head d !! _); [done|].
  destruct (trees d !! tree) eqn:Ht; [|done]. intros [= <- <-]. destruct Hd. split; cbn; [done..| |done|done|done].
  intros tr n v [[[= <- <-] _]|[_ ?]]%lookup_insert_Some; [by rewrite Ht|eauto].
Qed.

Lemma insert_tree_safe id t now : safe (insert_tree id (new_row t now)).
Proof.
  intros d d' a Hd. unfold insert_tree. destruct (check_columns _ _ _ _) as [[]|] eqn:Hc; [cbn|done].
  destruct (trees d !! id); [done|]. intros [= <- <-]. by apply set_tree_ok.
Qed.

Lemma insert_tree_control_safe id r : safe (insert_tree_control id r).
Proof.
  intros d d' a Hd. unfold insert_tree_control. destruct (tree_control d !! id); [done|].
  destruct (trees d !! id) eqn:Ht; [|done]. intros [= <- <-]. destruct Hd. split; cbn; [done| |done..].
  intros i v [[<- _]|[_ ?]]%lookup_insert_Some; [by rewrite Ht|eauto].
Qed.

Lemma update_tree_safe id state type name descr u m : safe (update_tree id state type name descr u m).
Proof.
  intros d d' a Hd. unfold update_tree. destruct (trees d !! id) as [r|] eqn:Ht; [|by intros [= <- <-]].
  destruct (check_columns _ _ _ _) as [[]|] eqn:Hc; [cbn|done]. intros [= <- <-].
  apply set_tree_ok; [done|]. split; [done|]. by apply (ok_trees d Hd _ _ Ht).
Qed.

Lemma soft_delete_safe id millis : safe (soft_delete id (bool_decide (is_Some millis)) millis).
Proof.
  intros d d' a Hd. unfold soft_delete. destruct (trees d !! id) as [r|] eqn:Ht; intros [= <- <-]; [|done].
  apply set_tree_ok; [done|]. split; [|done]. by apply (ok_trees d Hd _ _ Ht).
Qed.

Lemma delete_control_safe id : safe (λ d, Ok (set_tree_control d (delete id (tree_control d)), ())).
Proof.
  intros d d' a [] [= <- <-]. split; cbn; [done| |done..]. intros i v [_ ?]%lookup_delete_Some. eauto.
Qed.

(** Removing a tree takes its rows along. *)
Lemma delete_tree_safe id : safe (delete_tree id).
Proof.
  intros d d' a [] [= <- <-].
  assert (∀ i, i ≠ id → is_Some (trees d !! i) → is_Some (delete id (trees d) !! i)) as Hkeep.
  { intros i Hi. by rewrite lookup_delete_ne. }
  split; cbn.
  - intros i r [_ ?]%lookup_delete_Some. eauto.
  - intros i r [? ?]%lookup_delete_Some. eauto.
  - intros tr i r v [Hs ?]%map_lookup_filter_Some. destruct (ok_subtree0 _ _ _ _ Hs). eauto.
  - intros tr r v [Hs ?]%map_lookup_filter_Some. eauto.
  - intros tr i v [Hs ?]%map_lookup_filter_Some. destruct (ok_leaf0 _ _ _ Hs). eauto.
  - intros tr n v [Hs Ht]%map_lookup_filter_Some. destruct (ok_sequenced0 _ _ _ Hs) as [l Hl].
    exists l. by apply map_lookup_filter_Some.
  - done.
Qed.

(** ** Computations that keep the invariant *)

Section keeps.
Context (fault : nat → option error).

(** The invariant is kept, and a value that is returned has [Q]. *)
Definition keeps {A} (Q : A → Prop) (m : M pg A) : Prop :=
  ∀ w, pg_ok w → pg_ok (m w).1 ∧ ∀ a, (m w).2 = Return a → Q a.
Definition kept {A} (m : M pg A) : Prop := ∀ w, pg_ok w → pg_ok (m w).1.

Lemma keeps_kept {A} (Q : A → Prop) m : keeps Q m → kept m.
Proof. intros Hm w Hw. by apply Hm. Qed.
Lemma keeps_ret {A} (Q : A → Prop) a : Q a → keeps Q (mret a).
Proof. intros HQ w Hw. split; [done|]. by intros ? [= <-]. Qed.
Lemma keeps_fail {A} (Q : A → Prop) e : keeps Q (fail e).
Proof. intros w Hw. split; [done|]. by intros ? [=]. Qed.
Lemma keeps_bind {A B} (P : A → Prop) (Q : B → Prop) m k :
  keeps P m → (∀ a, P a → keeps Q (k a)) → keeps Q (m ≫= k).
Proof.
  intros Hm Hk w Hw. unfold mbind, M_bind. destruct (Hm w Hw) as [Hw1 HP].
  destruct (m w) as [w1 [a|e|p]]; [|done..]. apply Hk; [by apply HP|done].
Qed.
Lemma bind_kept {A B} (P : A → Prop) (m : M pg A) (k : A → M pg B) :
  keeps P m → (∀ a, P a → kept (k a)) → kept (m ≫= k).
Proof.
  intros Hm Hk w Hw. unfold mbind, M_bind. destruct (Hm w Hw) as [Hw1 HP].
  destruct (m w) as [w1 [a|e|p]]; [|done..]. apply Hk; [by apply HP|done].
Qed.

Lemma kept_ret {A} (a : A) : kept (mret a).
Proof. by intros w Hw. Qed.
Lemma kept_fail {A} e : kept (fail e : M pg A).
Proof. by intros w Hw. Qed.
Lemma kept_panic {A} p : kept (panic p : M pg A).
Proof. by intros w Hw. Qed.
Lemma kept_bind {A B} (m : M pg A) (k : A → M pg B) : kept m → (∀ a, kept (k a)) → kept (m ≫= k).
Proof. intros Hm Hk. by apply (bind_kept (λ _, True)); [intros w Hw; split; [apply Hm|]|]. Qed.
Lemma kept_within {A} f (m : M pg A) : kept m → kept (within f m).
Proof. intros Hm w Hw. specialize (Hm w Hw). unfold within. by destruct (m w) as [w1 [a|e|p]]. Qed.
Lemma kept_ignore {A} (m : M pg A) : kept m → kept (ignore_error m).
Proof. intros Hm w Hw. specialize (Hm w Hw). unfold ignore_error. by destruct (m w) as [w1 [a|e|p]]. Qed.
Lemma kept_fmap {A B} (f : A → B) (m : M pg A) : kept m → kept (f <$> m).
Proof. intros Hm w Hw. specialize (Hm w Hw). unfold fmap, M_fmap. by destruct (m w) as [w1 [a|e|p]]. Qed.
Lemma kept_try {A} f (r : result error A) : kept (try f r : M pg A).
Proof. by destruct r; intros w Hw. Qed.
Lemma kept_guard b e : kept (guard_ b e : M pg unit).
Proof. by destruct b; intros w Hw. Qed.
Lemma kept_guarded {A} b e (k : () → M pg A) : (b = true → kept (k ())) → kept (guard_ b e ≫= k).
Proof. destruct b; [|by intros _ w Hw]. intros Hk. by apply Hk. Qed.

(** Replacing a transaction. *)
Lemma pg_ok_insert w w' h t :
  pg_ok w → committed w' = committed w → txns w' = <[h := t]> (txns w) → txn_ok t → pg_ok w'.
Proof. intros [Hc Ht] Ec Et Hok. split; [by rewrite Ec|]. rewrite Et. by apply map_Forall_insert_2. Qed.

Lemma kept_statement {A} h (f : db → result error (db * A)) : safe f → kept (statement fault h f).
Proof.
  intros Hf w Hw. unfold statement. destruct (txns w !! h) as [t|] eqn:Ht; [|done].
  destruct (map_Forall_lookup_1 _ _ _ _ (proj2 Hw) Ht) as [Hok Hsp].
  destruct (aborted t); [done|]. destruct (fault _); [by eapply pg_ok_insert|].
  destruct (f (work t)) as [[d a]|e] eqn:E; [|by eapply pg_ok_insert].
  eapply pg_ok_insert; [done..|]. split; [by eapply Hf|done].
Qed.
Lemma kept_query {A} h (f : db → A) : kept (query fault h f).
Proof. apply kept_statement, safe_read. Qed.

Lemma kept_savepoint h : kept (savepoint fault h).
Proof.
  intros w Hw. unfold savepoint. pose proof (kept_query h (λ _, ()) w Hw) as Hs. unfold query in Hs.
  destruct (statement _ _ _ w) as [w1 [a|e|p]]; [|done..]. destruct (txns w1 !! h) as [t|] eqn:Ht; [|done].
  destruct (map_Forall_lookup_1 _ _ _ _ (proj2 Hs) Ht) as [Hok Hsp]. eapply pg_ok_insert; [done..|]. split; [done|by constructor].
Qed.
Lemma kept_release h : kept (release fault h).
Proof.
  intros w Hw. unfold release. pose proof (kept_query h (λ _, ()) w Hw) as Hs. unfold query in Hs.
  destruct (statement _ _ _ w) as [w1 [a|e|p]]; [|done..]. destruct (txns w1 !! h) as [[d [|s ss] b]|] eqn:Ht; [| |done];
    destruct (map_Forall_lookup_1 _ _ _ _ (proj2 Hs) Ht) as [Hok Hsp]; (eapply pg_ok_insert; [done..|]); [done|].
  by apply Forall_cons in Hsp as [_ ?].
Qed.
Lemma kept_rollback_to h : kept (rollback_to fault h).
Proof.
  intros w Hw. unfold rollback_to. destruct (txns w !! h) as [t|] eqn:Ht; [|done].
  destruct (map_Forall_lookup_1 _ _ _ _ (proj2 Hw) Ht) as [Hok Hsp].
  destruct (fault _); [by eapply pg_ok_insert|]. destruct (savepoints t) as [|s ss]; (eapply pg_ok_insert; [done..|]); [done|].
  split; [|done]. by apply Forall_cons in Hsp as [? _].
Qed.
Lemma kept_getStmt sk : kept (getStmt fault sk).
Proof.
  intros w. unfold getStmt. destruct (prepared w !! _); [done|]. revert w. change (kept (prepare_new fault sk)).
  apply kept_bind; [apply kept_try|]. intros text. apply kept_bind; [|by intros ? w Hw].
  intros w. unfold Prepare. by destruct (fault _).
Qed.
Lemma kept_BeginTx : kept (BeginTx fault).
Proof.
  intros w Hw. unfold BeginTx. destruct (fault _); [done|]. eapply pg_ok_insert; [done..|]. split; [apply Hw|constructor].
Qed.
Lemma pg_ok_delete w h : pg_ok w → map_Forall (λ _, txn_ok) (delete h (txns w)).
Proof. intros [_ Ht]. by apply map_Forall_delete. Qed.
Lemma kept_sql_Commit h : kept (sql_Commit fault h).
Proof.
  intros w Hw. unfold sql_Commit. destruct (txns w !! h) as [t|] eqn:Ht; [|done].
  destruct (map_Forall_lookup_1 _ _ _ _ (proj2 Hw) Ht) as [Hok _]. pose proof (pg_ok_delete w h Hw).
  destruct (aborted t); [|destruct (fault _)]; (split; [|done]); [apply Hw..|done].
Qed.
Lemma kept_sql_Rollback h : kept (sql_Rollback fault h).
Proof.
  intros w Hw. unfold sql_Rollback. destruct (txns w !! h) as [t|] eqn:Ht; [|done].
  pose proof (pg_ok_delete w h Hw). destruct (fault _); (split; [apply Hw|done]).
Qed.
End keeps.

Create HintDb kept.
#[export] Hint Resolve kept_ret kept_fail kept_panic kept_bind kept_within kept_ignore kept_fmap kept_try kept_guard
  kept_statement kept_query kept_savepoint kept_release kept_rollback_to kept_getStmt kept_BeginTx kept_sql_Commit
  kept_sql_Rollback : kept.
#[export] Hint Resolve insert_sequenced_safe delete_unsequenced_safe update_tree_data_safe insert_tree_head_safe
  insert_tree_safe insert_tree_control_safe update_tree_safe delete_control_safe delete_tree_safe : kept.
#[export] Hint Extern 1 (kept (if ?b then _ else _)) => destruct b : kept.
#[export] Hint Extern 1 (kept (match ?x with _ => _ end)) => destruct x : kept.
#[export] Hint Extern 5 (kept (_ ≫= _)) => apply kept_bind; [|intros ?] : kept.

(** ** Operations *)

Section operations.
Context (fault : nat → option error) `{!RootCodec}.
Context {SubtreeCache NodeID : Type} (dirty : SubtreeCache → list SubtreeProto) (newCache : SubtreeCache).
Context (proto_Marshal : SubtreeProto → result error bytes) (proto_Unmarshal : bytes → result error SubtreeProto).
Context (SetNodeHash : SubtreeCache → NodeID → bytes → (bytes → M pg (option SubtreeProto)) → M pg SubtreeCache).
Context (sort_leaves : list (nat * leaf) → list (nat * leaf)) (nil_timestamp : error).
Context (ReadTree : Z → tree_row → result error ATree).
Context (ValidateTreeForCreation : ATree → result error unit).
Context (ValidateTreeForUpdate : ATree → ATree → result error unit).
(** Sorting permutes, and the cache reaches the database only through the
    function it is given. *)
Hypothesis sort_permutes : ∀ l, sort_leaves l ≡ₚ l.
Hypothesis cache_loads : ∀ c id h load, (∀ p, kept (load p)) → kept (SetNodeHash c id h load).

Abbreviation logTX := (logTreeTX (SubtreeCache := SubtreeCache)).
Implicit Type t : logTX.
(** The transactions of the storage are for hashes of 32 bytes. *)
Definition tx_ok t : Prop := hashSizeBytes (ttx t) = rfc6962_size.

Lemma has_size_ok t id : tx_ok t → has_size t id = true → id_size id.
Proof. unfold tx_ok, has_size, id_size. lia. Qed.

Lemma kept_make_slice a b : kept (make_slice a b).
Proof. unfold make_slice. eauto with kept. Qed.
Hint Resolve kept_make_slice : kept.
Lemma kept_GetLeavesByRange t a b : kept (GetLeavesByRange fault t a b).
Proof. unfold GetLeavesByRange. eauto 9 with kept. Qed.
Lemma kept_getLeavesByHashInternal t s desc : kept (getLeavesByHashInternal fault t s desc).
Proof. unfold getLeavesByHashInternal. eauto with kept. Qed.
Hint Resolve kept_GetLeavesByRange kept_getLeavesByHashInternal : kept.
Lemma kept_GetLeavesByHash t hs o : kept (GetLeavesByHash fault t hs o).
Proof. unfold GetLeavesByHash, getLeavesByMerkleHashStmt. eauto with kept. Qed.
Lemma kept_getLeafDataByIdentityHash t hs : kept (getLeafDataByIdentityHash fault t hs).
Proof. unfold getLeafDataByIdentityHash, getLeavesByLeafIdentityHashStmt. eauto with kept. Qed.
Hint Resolve kept_GetLeavesByHash kept_getLeafDataByIdentityHash : kept.

Lemma kept_remove_all t rows : kept (remove_all fault t rows).
Proof. induction rows as [|[ts i] rows IH]; cbn; eauto 9 with kept. Qed.
Hint Resolve kept_remove_all : kept.
Lemma kept_DequeueLeaves t limit cutoff : kept (DequeueLeaves fault t limit cutoff).
Proof. unfold DequeueLeaves, removeSequencedLeaves, tx_prepare. case_bool_decide; eauto 20 with kept. Qed.

Lemma kept_queue_all t ols e : Forall (λ ol, id_size (lf_identity ol.2)) ols → kept (queue_all fault t ols e).
Proof.
  intros Hs. revert e. induction Hs as [|[i l] ols Hl Hs IH]; intros e; cbn; [eauto with kept|].
  apply kept_bind; [|eauto]. cbn in Hl.
  pose proof (insert_leaf_data_safe (treeID (ttx t)) (lf_identity l) (lf_value l) (lf_extra l) (default 0 (lf_queue l)) Hl).
  pose proof (insert_unsequenced_safe (treeID (ttx t)) (lf_identity l) (lf_merkle l) (default 0 (lf_queue l)) Hl).
  eauto 9 with kept.
Qed.
Lemma kept_retrieve_existing t e : kept (retrieve_existing fault t e).
Proof. unfold retrieve_existing. eauto 9 with kept. Qed.
Hint Resolve kept_retrieve_existing : kept.

Lemma sorted_sizes ls : Forall (λ l, id_size (lf_identity l)) ls →
  Forall (λ ol : nat * leaf, id_size (lf_identity ol.2)) (sortLeavesForInsert sort_leaves ls).
Proof.
  intros Hs. unfold sortLeavesForInsert. rewrite sort_permutes. apply Forall_forall. intros [i l] Hi%elem_of_lookup_imap.
  destruct Hi as (j & x & [= -> ->] & Hx). exact (Forall_lookup_1 _ _ _ _ Hs Hx).
Qed.

Lemma kept_tx_QueueLeaves t ls now : tx_ok t → kept (tx_QueueLeaves fault sort_leaves t ls now).
Proof.
  intros Ht. unfold tx_QueueLeaves. apply kept_guarded. intros Hs. apply kept_bind; [|eauto with kept].
  apply kept_queue_all, sorted_sizes, Forall_fmap, Forall_forall. intros l Hl. cbn.
  rewrite forallb_forall in Hs. apply (has_size_ok t); [done|]. by apply Hs, list_elem_of_In.
Qed.

Lemma kept_sequence_all t ols now r : tx_ok t → kept (sequence_all fault t ols now r).
Proof.
  intros Ht. revert r. induction ols as [|[i l] ols IH]; intros r; cbn; [eauto with kept|].
  apply kept_bind; [|eauto]. apply kept_guarded. intros Hs.
  assert (id_size (lf_identity l)) as Hl by (by apply Z.eqb_eq in Hs; unfold id_size; rewrite Hs).
  pose proof (insert_leaf_data_safe (treeID (ttx t)) (lf_identity l) (lf_value l) (lf_extra l) now Hl).
  eauto 20 with kept.
Qed.
Lemma kept_tx_AddSequencedLeaves t ls now : tx_ok t → kept (tx_AddSequencedLeaves fault sort_leaves t ls now).
Proof. intros Ht. unfold tx_AddSequencedLeaves. eauto 9 using kept_sequence_all with kept. Qed.

Lemma kept_UpdateSequencedLeaves t ls : kept (UpdateSequencedLeaves fault nil_timestamp t ls).
Proof.
  induction ls as [|l ls IH]; cbn; [eauto with kept|]. apply kept_bind; [eauto with kept|]. intros _.
  destruct (lf_integrate l); eauto with kept.
Qed.
Lemma kept_StoreSignedLogRoot t b : kept (StoreSignedLogRoot fault t b).
Proof. unfold StoreSignedLogRoot. eauto 20 with kept. Qed.

Lemma kept_marshal l : kept (marshal_subtrees proto_Marshal l).
Proof. induction l as [|s l IH]; cbn; [eauto with kept|]. destruct (Prefix s); eauto 9 with kept. Qed.
Lemma stored_safe tree rev rows : safe (λ d, if is_int4 rev then insert_subtrees tree rev rows d else Err out_of_range).
Proof. destruct (is_int4 rev) eqn:Hr; [by apply insert_subtrees_safe|]. by intros d d' a _ [=]. Qed.
Hint Resolve kept_marshal stored_safe : kept.
Lemma kept_flush (t : treeTX) : kept (flush fault proto_Marshal dirty t).
Proof. unfold flush, storeSubtrees, setSubtreeStmt. eauto 20 with kept. Qed.
Lemma kept_getSubtree (t : treeTX (SubtreeCache := SubtreeCache)) rev id : kept (getSubtree fault proto_Unmarshal t rev id).
Proof.
  unfold getSubtree, getSubtrees, getSubtreeStmt. apply kept_bind; [|intros [|x [|y l]]; eauto with kept].
  cbn. apply kept_bind; [eauto with kept|intros _]. apply kept_bind; [|eauto with kept].
  apply kept_statement. intros d d' a Hd. by destruct (is_int4 rev); intros [= <- <-].
Qed.
Lemma keeps_SetMerkleNodes (t : treeTX) nodes :
  keeps (λ u, hashSizeBytes u = hashSizeBytes t) (SetMerkleNodes fault proto_Unmarshal SetNodeHash t nodes).
Proof.
  revert t. induction nodes as [|[id h] nodes IH]; intros t; cbn; [by apply keeps_ret|].
  apply (keeps_bind (λ _, True)); [|intros c _; exact (IH (set_cache t c))].
  intros w Hw. split; [|done]. by apply cache_loads; [|done]; intros p; apply kept_getSubtree.
Qed.

(** ** Transactions and calls *)

Lemma kept_Commit (t : treeTX) : kept (Commit fault proto_Marshal dirty t).
Proof.
  intros w Hw. unfold Commit. pose proof (kept_flush t w Hw) as Hf. destruct (flush _ _ _ _ w) as [w1 [a|e|p]]; [|done..].
  pose proof (kept_sql_Commit fault (tx t) w1 Hf) as Hc. by destruct (sql_Commit _ _ w1) as [w2 [b|e|p]].
Qed.
Lemma kept_Rollback (t : treeTX (SubtreeCache := SubtreeCache)) : kept (Rollback fault t).
Proof.
  intros w Hw. unfold Rollback. pose proof (kept_sql_Rollback fault (tx t) w Hw) as Hc.
  by destruct (sql_Rollback _ _ w) as [w2 [b|e|p]].
Qed.
Hint Resolve kept_Commit kept_Rollback : kept.
Lemma kept_Close (t : treeTX (SubtreeCache := SubtreeCache)) : kept (Close fault t).
Proof. unfold Close. eauto with kept. Qed.
Hint Resolve kept_Close : kept.
Lemma kept_log_Commit t : kept (log_Commit fault dirty proto_Marshal t).
Proof. unfold log_Commit. eauto with kept. Qed.
Lemma kept_log_Close t : kept (log_Close fault t).
Proof. unfold log_Close. eauto with kept. Qed.
Hint Resolve kept_log_Commit kept_log_Close : kept.

Lemma kept_with_close t m : kept m → kept (with_close fault t m).
Proof.
  intros Hm w Hw. unfold with_close. specialize (Hm w Hw).
  destruct (m w) as [w1 [[t' [e|]]|e|p]]; cbn in *; by apply kept_log_Close.
Qed.

Lemma kept_fetchLatestRoot (t : treeTX (SubtreeCache := SubtreeCache)) : kept (fetchLatestRoot fault t).
Proof.
  intros w Hw. unfold fetchLatestRoot. pose proof (kept_query fault (tx t) (λ d, trees d !! treeID t ≫= t_current_data) w Hw) as Hq.
  by destruct (query _ _ _ w) as [w1 [[j|]|e|p]].
Qed.
Lemma keeps_beginInternal tree : keeps (λ r, tx_ok r.1) (beginInternal fault newCache tree).
Proof.
  unfold beginInternal. apply (keeps_bind (λ u, hashSizeBytes u = rfc6962_size)).
  { unfold beginTreeTx. apply (keeps_bind (λ _, True)); [|intros h _; by apply keeps_ret].
    intros w Hw. split; [by apply kept_BeginTx|done]. }
  intros t Ht. apply (keeps_bind (λ _, True)); [intros w Hw; split; [by apply kept_fetchLatestRoot|done]|].
  intros [b|] _; [|by apply keeps_ret]. destruct (root_UnmarshalBinary b); [by apply keeps_ret|].
  apply (keeps_bind (λ _, True)); [intros w Hw; split; [by apply kept_Rollback|done]|]. intros ? _. apply keeps_fail.
Qed.

Lemma keeps_run_log_op op t : tx_ok t →
  keeps tx_ok (run_log_op fault proto_Unmarshal SetNodeHash sort_leaves nil_timestamp op t).
Proof.
  intros Ht. assert (∀ A (m : M pg A), kept m → keeps tx_ok (m ≫= λ _, mret t)) as Hunit.
  { intros A m Hm. apply (keeps_bind (λ _, True)); [|intros; by apply keeps_ret]. intros w Hw. by split; [apply Hm|]. }
  destruct op; cbn [run_log_op]; try apply Hunit;
    eauto using kept_tx_QueueLeaves, kept_tx_AddSequencedLeaves, kept_DequeueLeaves, kept_UpdateSequencedLeaves,
      kept_StoreSignedLogRoot, kept_GetLeavesByRange, kept_GetLeavesByHash.
  intros w Hw. unfold fmap, M_fmap. destruct (keeps_SetMerkleNodes (ttx t) nodes w Hw) as [Hw1 HQ].
  destruct (SetMerkleNodes _ _ _ _ _ w) as [w1 [a|e|p]]; (split; [done|]); try by intros ? [=].
  intros ? [= <-]. unfold tx_ok. cbn. by rewrite (HQ a eq_refl).
Qed.
Lemma keeps_run_log_ops ops t : tx_ok t →
  keeps tx_ok (run_log_ops fault proto_Unmarshal SetNodeHash sort_leaves nil_timestamp ops t).
Proof.
  revert t. induction ops as [|op ops IH]; intros t Ht; cbn; [by apply keeps_ret|].
  eapply keeps_bind; [by apply keeps_run_log_op|]. intros t'. apply IH.
Qed.

Lemma kept_GetTree (t : adminTX) id : kept (GetTree fault ReadTree t id).
Proof. unfold GetTree, admin_prepare. eauto 9 with kept. Qed.
Hint Resolve kept_GetTree : kept.
Lemma kept_validateDeleted (t : adminTX) id b : kept (validateDeleted fault t id b).
Proof. unfold validateDeleted. apply kept_bind; [eauto with kept|]. intros [r|]; eauto with kept. Qed.
Hint Resolve kept_validateDeleted : kept.
Lemma kept_run_admin_op op (t : adminTX) :
  kept (run_admin_op fault ReadTree ValidateTreeForCreation ValidateTreeForUpdate op t).
Proof.
  pose proof (soft_delete_safe) as Hsoft.
  destruct op; cbn [run_admin_op]; try (apply kept_bind; [|intros; apply kept_ret]).
  - unfold CreateTree, admin_prepare. eauto 20 with kept.
  - unfold UpdateTree, admin_prepare. eauto 20 with kept.
  - unfold SoftDeleteTree, updateDeleted. specialize (Hsoft treeID (Some nowMillis)). eauto 9 with kept.
  - unfold UndeleteTree, updateDeleted. specialize (Hsoft treeID None). eauto 9 with kept.
  - unfold HardDeleteTree. eauto 9 with kept.
  - eauto with kept.
  - unfold ListTrees, admin_prepare. eauto 9 with kept.
Qed.
Lemma kept_run_admin_ops ops (t : adminTX) :
  kept (run_admin_ops fault ReadTree ValidateTreeForCreation ValidateTreeForUpdate ops t).
Proof. induction ops as [|op ops IH]; cbn; [apply kept_ret|]. apply kept_bind; [apply kept_run_admin_op|done]. Qed.

Lemma kept_admin_end (t : adminTX) : kept (admin_Commit fault t) ∧ kept (admin_Close fault t).
Proof.
  split; [|unfold admin_Close; destruct (aclosed t); [apply kept_ret|]]; intros w Hw.
  - unfold admin_Commit. pose proof (kept_sql_Commit fault (atx t) w Hw) as Hc. by destruct (sql_Commit _ _ w) as [w1 [a|e|p]].
  - unfold admin_Rollback. pose proof (kept_sql_Rollback fault (atx t) w Hw) as Hc. by destruct (sql_Rollback _ _ w) as [w1 [a|e|p]].
Qed.
Lemma kept_admin_with_close (t : adminTX) m : kept m → kept (admin_with_close fault t m).
Proof.
  intros Hm w Hw. unfold admin_with_close. specialize (Hm w Hw).
  destruct (m w) as [w1 [[t' [e|]]|e|p]]; cbn in *; by apply kept_admin_end.
Qed.
Lemma kept_admin_ReadWriteTransaction (f : adminTX → M pg (adminTX * option error)) :
  (∀ x, kept (f x)) → kept (admin_ReadWriteTransaction fault f).
Proof.
  intros Hf. unfold admin_ReadWriteTransaction, admin_beginInternal. apply kept_bind; [eauto with kept|]. intros x.
  apply kept_admin_with_close, kept_bind; [done|]. intros [x1 [e|]]; [apply kept_ret|apply kept_admin_end].
Qed.

Lemma kept_exec c :
  kept (exec fault dirty newCache proto_Marshal proto_Unmarshal SetNodeHash sort_leaves nil_timestamp ReadTree
          ValidateTreeForCreation ValidateTreeForUpdate c).
Proof.
  destruct c as [tree ops|tree ops|tree leaves now|tree leaves now| |ops]; cbn [exec].
  - unfold ReadWriteTransaction. eapply bind_kept; [apply keeps_beginInternal|]. intros [t b] Ht. apply kept_with_close, kept_bind.
    + eapply kept_bind; [by eapply keeps_kept, keeps_run_log_ops|eauto with kept].
    + intros [t1 [e|]]; eauto with kept.
  - eapply bind_kept; [apply keeps_beginInternal|]. intros [t b] Ht. apply kept_with_close.
    eapply kept_bind; [by eapply keeps_kept, keeps_run_log_ops|eauto with kept].
  - unfold QueueLeaves, committed_or_fail. apply kept_bind; [|eauto with kept].
    eapply bind_kept; [apply keeps_beginInternal|]. intros [t b] Ht. pose proof (kept_tx_QueueLeaves t leaves now Ht).
    eauto 20 with kept.
  - unfold AddSequencedLeaves, committed_or_fail. apply kept_bind; [|eauto with kept].
    eapply bind_kept; [apply keeps_beginInternal|]. intros [t b] Ht. pose proof (kept_tx_AddSequencedLeaves t leaves now Ht).
    eauto 20 with kept.
  - unfold Snapshot, GetActiveLogIDs. apply kept_bind; [eauto with kept|]. intros h. apply kept_bind; [eauto with kept|].
    intros _ w Hw. unfold snapshot_Close, snapshot_Rollback. pose proof (kept_sql_Rollback fault h w Hw) as Hc.
    destruct (sql_Rollback _ _ w) as [w1 [a|e|p]]; [done| |done]. by destruct (is_ErrTxDone e).
  - apply kept_admin_ReadWriteTransaction. intros x. apply kept_bind; [apply kept_run_admin_ops|eauto with kept].
Qed.

End operations.

(** ** A run *)

Definition direct_cache (c : ()) (id : ()) (h : bytes) (load : bytes → M pg (option SubtreeProto)) : M pg () :=
  _ ← load h; mret ().
Definition run_samples : list (storage_call (NodeID := ())) → pg → pg :=
  run_calls no_fault no_dirty () sample_marshal (λ b, Ok (mkSubtree None b)) direct_cache sample_sort sample_nil_timestamp
    (λ _ _, Err (ENew "unread")) (λ _, Ok ()) (λ _ _, Ok ()).
Definition new_tree : ATree := mkATree 0 "ACTIVE" "LOG" "new log" [] None None 3600000000000 false None None.
(** A tree is created, gets its first root, and takes a leaf. *)
Definition sample_calls : list (storage_call (NodeID := ())) :=
  [call_admin [op_CreateTree (Ok 7) 99 new_tree];
   call_ReadWriteTransaction (mkTree 7 LOG) [op_StoreSignedLogRoot []];
   call_QueueLeaves (mkTree 7 LOG) [sample_leaf "a" "A" "first"] 100;
   call_QueueLeaves (mkTree 8 LOG) [sample_leaf "a" "A" "first"] 100].

