(* ===== verification/LogSpec.v ===== *)
(** * What a log promises

    The abstract log of one tree: the leaves it knows, the ones that wait for
    integration, the sequence of entries and the number of its root.  Leaves
    are submitted, batches of them are integrated, and ranges of the entries
    are read.  The storage of [pkg/storage/postgres] implements it
    ([LogRefinement.v]). *)

From stdpp Require Import sorting.
From Stdlib Require Import Sorted.
From S2P Require Import Prelude GoStrings GoFmt Errors Effects Postgres TreeStorage LogStorage StorageFacts QueueFacts DequeueFacts.

Open Scope Z_scope.

(** ** State *)

Record alog := mkALog {
  a_known : gmap bytes leaf_row;
  a_pending : gmap (Z * bytes) bytes;
  a_entries : list seq_row;
  a_revision : Z
}.

Definition a_size (a : alog) : Z := Z.of_nat (length (a_entries a)).

(** The entry at a position, as readers get it. *)
Definition a_leaf (a : alog) (n : Z) : option leaf :=
  s ← (if 0 <=? n then a_entries a !! Z.to_nat n else None);
  l ← a_known a !! s_identity s;
  Some (joined_leaf (s_identity s) l n s).

(** A known leaf, with the time of its integration if it is an entry. *)
Definition a_stored (a : alog) (h : bytes) : option leaf :=
  l ← a_known a !! h;
  Some (mkLeaf (Some dummymerkleLeafHash) (Some (l_value l)) (l_extra l) (-1) h (Some (l_queue_nanos l))
    (s_integrate_nanos <$> List.find (λ s, beq (s_identity s) h) (a_entries a))).

(** ** Operations *)

Inductive request :=
  | Submit (leaves : list leaf) (now : Z)
  | Integrate (limit cutoff now : Z)
  | Read (start count : Z).
Inductive answer :=
  | Queued (results : list QueuedLogLeaf)
  | Integrated
  | Leaves (leaves : list leaf).

Definition a_new (a : alog) (l : leaf) : bool := bool_decide (a_known a !! lf_identity l = None).

(** The leaves that are not known are remembered and wait. *)
Definition a_submit (leaves : list leaf) (now : Z) (a : alog) : alog :=
  let new := List.filter (a_new a) (set_queue_time now <$> leaves) in
  mkALog
    (list_to_map ((λ l, (lf_identity l, mkLeafRow (default [] (lf_value l)) (lf_extra l) (default 0 (lf_queue l)))) <$> new)
      ∪ a_known a)
    (list_to_map ((λ l, ((default 0 (lf_queue l), lf_identity l), default [] (lf_merkle l))) <$> new) ∪ a_pending a)
    (a_entries a) (a_revision a).
Definition a_result (a : alog) (now : Z) (l : leaf) : QueuedLogLeaf :=
  match a_stored a (lf_identity l) with
  | None => mkQueued (Some (set_queue_time now l)) None
  | Some x => mkQueued (Some x) (Some (AlreadyExists, already_exists x))
  end.

(** The waiting leaves that are due, oldest first; at most [limit] of them. *)
Definition a_due (cutoff : Z) (a : alog) : list (Z * bytes) :=
  merge_sort queue_le (List.filter (λ k, k.1 <=? cutoff) (map_to_list (a_pending a)).*1).
Definition a_batch (limit cutoff : Z) (a : alog) : list (Z * bytes * bytes) :=
  omap (λ k, (λ m, (k.1, k.2, m)) <$> a_pending a !! k) (take (Z.to_nat limit) (a_due cutoff a)).

Definition entry_of (now : Z) (row : Z * bytes * bytes) : seq_row := mkSeqRow row.1.2 row.2 now.
Definition a_integrate (limit cutoff now : Z) (a : alog) : alog :=
  let batch := a_batch limit cutoff a in
  mkALog (a_known a) (foldr delete (a_pending a) batch.*1) (a_entries a ++ (entry_of now <$> batch)) (a_revision a + 1).

Definition a_read (start count : Z) (a : alog) : list leaf :=
  omap (a_leaf a) (seqZ start (Z.min count (a_size a - start))).

Definition a_step (r : request) (a : alog) : alog * answer :=
  match r with
  | Submit leaves now => (a_submit leaves now a, Queued (a_result a now <$> leaves))
  | Integrate limit cutoff now => (a_integrate limit cutoff now a, Integrated)
  | Read start count => (a, Leaves (a_read start count a))
  end.
Fixpoint a_run (rs : list request) (a : alog) : alog * list answer :=
  match rs with
  | [] => (a, [])
  | r :: rest => let '(a1, x) := a_step r a in let '(a2, xs) := a_run rest a1 in (a2, x :: xs)
  end.

(** The requests that a log takes: batches of distinct leaves with a hash, a
    value and a Merkle hash; integration while positions and revisions last;
    ranges that start in the log. *)
Definition allowed (r : request) (a : alog) : Prop :=
  match r with
  | Submit leaves _ => Forall leaf_ok leaves ∧ NoDup (lf_identity <$> leaves)
  | Integrate limit _ _ => 0 ≤ limit ≤ 2 ^ 43 ∧ a_size a + limit ≤ 2 ^ 45 ∧ a_revision a + 1 < 2 ^ 63
  | Read start count => 0 ≤ start < a_size a ∧ 0 < count
  end.
Fixpoint all_allowed (rs : list request) (a : alog) : Prop :=
  match rs with
  | [] => True
  | r :: rest => allowed r a ∧ all_allowed rest (a_step r a).1
  end.

(** ** Well-formedness *)

Record alog_ok (a : alog) : Prop := {
  ok_pending_known ts h : is_Some (a_pending a !! (ts, h)) → is_Some (a_known a !! h);
  ok_pending_size ts h : is_Some (a_pending a !! (ts, h)) → length h = 32%nat;
  ok_pending_once ts ts' h : is_Some (a_pending a !! (ts, h)) → is_Some (a_pending a !! (ts', h)) → ts = ts';
  ok_pending_fresh ts h : is_Some (a_pending a !! (ts, h)) → h ∉ s_identity <$> a_entries a;
  ok_entries_known h : h ∈ s_identity <$> a_entries a → is_Some (a_known a !! h);
  ok_entries_once : NoDup (s_identity <$> a_entries a);
  ok_size : a_size a ≤ 2 ^ 45;
  ok_revision : 0 ≤ a_revision a < 2 ^ 63
}.

(** ** The batch *)

Lemma elem_of_a_due cutoff a k : k ∈ a_due cutoff a ↔ is_Some (a_pending a !! k) ∧ k.1 ≤ cutoff.
Proof.
  unfold a_due. rewrite merge_sort_Permutation, list_elem_of_In, filter_In, <-list_elem_of_In, Z.leb_le.
  rewrite list_elem_of_fmap. split; (intros [Hk Hc]; split; [|done]).
  - destruct Hk as ([k' m] & -> & Hm%elem_of_map_to_list). by eexists.
  - destruct Hk as [m Hm]. exists (k, m). by rewrite elem_of_map_to_list.
Qed.
Lemma a_due_NoDup cutoff a : NoDup (a_due cutoff a).
Proof.
  unfold a_due. rewrite merge_sort_Permutation. apply NoDup_ListNoDup, List.NoDup_filter, NoDup_ListNoDup, NoDup_fst_map_to_list.
Qed.
Lemma a_due_sorted cutoff a : StronglySorted queue_le (a_due cutoff a).
Proof. apply (StronglySorted_merge_sort _). Qed.

Lemma a_batch_keys limit cutoff a : (a_batch limit cutoff a).*1 = take (Z.to_nat limit) (a_due cutoff a).
Proof.
  unfold a_batch. assert (∀ k, k ∈ take (Z.to_nat limit) (a_due cutoff a) → is_Some (a_pending a !! k)) as Hk.
  { intros k (i & Hi & _)%elem_of_take. by apply list_elem_of_lookup_2, elem_of_a_due in Hi as [? _]. }
  induction (take _ _) as [|[ts h] l IH]; [done|]. cbn. destruct (Hk (ts, h)) as [m Hm]; [by left|]. rewrite Hm. cbn.
  f_equal. apply IH. intros. apply Hk. by right.
Qed.
Lemma a_batch_row limit cutoff a k m : (k, m) ∈ a_batch limit cutoff a → a_pending a !! k = Some m.
Proof. intros ([ts h] & _ & (m' & Hm & [= -> ->])%fmap_Some)%list_elem_of_omap. done. Qed.
Lemma a_batch_NoDup limit cutoff a : NoDup (a_batch limit cutoff a).*1.
Proof. rewrite a_batch_keys. eapply sublist_NoDup; [apply a_due_NoDup|apply sublist_take]. Qed.
Lemma a_batch_length limit cutoff a : 0 ≤ limit → Z.of_nat (length (a_batch limit cutoff a)) ≤ limit.
Proof. intros ?. rewrite <-(length_fmap fst), a_batch_keys, length_take. lia. Qed.

Lemma lookup_foldr_delete (m : gmap (Z * bytes) bytes) ks k :
  foldr delete m ks !! k = if bool_decide (k ∈ ks) then None else m !! k.
Proof.
  induction ks as [|j ks IH]; cbn; [by rewrite bool_decide_eq_false_2 by apply not_elem_of_nil|].
  destruct (decide (j = k)) as [->|Hne].
  - rewrite lookup_delete_eq, bool_decide_eq_true_2; [done|by left].
  - rewrite lookup_delete_ne, IH by done. rewrite (bool_decide_ext (k ∈ ks) (k ∈ j :: ks)); [done|].
    rewrite elem_of_cons. naive_solver.
Qed.

(** ** Steps keep the log well formed *)

(** A leaf that enters the queue is new. *)
Lemma submitted leaves now a ts h m :
  a_pending (a_submit leaves now a) !! (ts, h) = Some m →
  a_pending a !! (ts, h) = Some m ∨ (ts = now ∧ a_known a !! h = None ∧ h ∈ lf_identity <$> leaves).
Proof.
  cbn. intros [Hm|[_ Hm]]%lookup_union_Some_raw; [right|by left].
  apply elem_of_list_to_map_2, list_elem_of_fmap in Hm as (l & [= -> -> _] & Hl).
  rewrite list_elem_of_In, filter_In, <-list_elem_of_In in Hl.
  destruct Hl as [(l0 & -> & Hl0)%list_elem_of_fmap Hn%bool_decide_eq_true]. cbn in *.
  split_and!; [done..|]. by apply list_elem_of_fmap_2.
Qed.
Lemma submitted_known leaves now a h : is_Some (a_known a !! h) → is_Some (a_known (a_submit leaves now a) !! h).
Proof. intros. cbn. rewrite lookup_union_is_Some. by right. Qed.
Lemma submitted_is_known leaves now a h :
  h ∈ lf_identity <$> leaves → is_Some (a_known (a_submit leaves now a) !! h).
Proof.
  intros (l & -> & Hl)%list_elem_of_fmap. destruct (a_known a !! lf_identity l) as [r|] eqn:E.
  { apply submitted_known. rewrite E. by eexists. }
  cbn. apply lookup_union_is_Some. left. destruct (list_to_map _ !! _) eqn:En; [by eexists|].
  apply not_elem_of_list_to_map in En. destruct En. rewrite <-list_fmap_compose. apply list_elem_of_fmap.
  exists (set_queue_time now l). split; [done|]. rewrite list_elem_of_In, filter_In, <-list_elem_of_In. split.
  - by apply list_elem_of_fmap_2.
  - by apply bool_decide_eq_true.
Qed.

Lemma a_submit_ok leaves now a : Forall leaf_ok leaves → alog_ok a → alog_ok (a_submit leaves now a).
Proof.
  intros Hl Ha. rewrite Forall_forall in Hl. split; cbn [a_entries a_revision].
  - intros ts h [m Hm]. apply submitted in Hm as [Hm|(_ & _ & Hin)]; [|by apply submitted_is_known].
    apply submitted_known. eapply (ok_pending_known a Ha); by eexists.
  - intros ts h [m Hm]. apply submitted in Hm as [Hm|(_ & _ & Hin)]; [eapply (ok_pending_size a Ha); by eexists|].
    apply list_elem_of_fmap in Hin as (l & -> & Hin). by apply Hl.
  - intros ts ts' h [m Hm] [m' Hm']. apply submitted in Hm as [Hm|(-> & Hn & _)], Hm' as [Hm'|(-> & Hn' & _)].
    + eapply (ok_pending_once a Ha); by eexists.
    + destruct (ok_pending_known a Ha ts h) as [r Hr]; [by eexists|congruence].
    + destruct (ok_pending_known a Ha ts' h) as [r Hr]; [by eexists|congruence].
    + done.
  - intros ts h [m Hm]. apply submitted in Hm as [Hm|(_ & Hn & _)]; [eapply (ok_pending_fresh a Ha); by eexists|].
    intros Hin. destruct (ok_entries_known a Ha h Hin). congruence.
  - intros h Hh. by apply submitted_known, ok_entries_known.
  - apply (ok_entries_once a Ha).
  - apply (ok_size a Ha).
  - apply (ok_revision a Ha).
Qed.

Lemma integrated_pending limit cutoff now a k :
  is_Some (a_pending (a_integrate limit cutoff now a) !! k) →
  is_Some (a_pending a !! k) ∧ k ∉ (a_batch limit cutoff a).*1.
Proof. cbn. rewrite lookup_foldr_delete. case_bool_decide; [by intros [? ?]|done]. Qed.

Lemma batch_identities limit cutoff now a :
  s_identity <$> (entry_of now <$> a_batch limit cutoff a) = (a_batch limit cutoff a).*1.*2.
Proof. by rewrite <-!list_fmap_compose. Qed.
Lemma elem_of_batch limit cutoff a h :
  h ∈ (a_batch limit cutoff a).*1.*2 → ∃ ts, (ts, h) ∈ (a_batch limit cutoff a).*1 ∧ is_Some (a_pending a !! (ts, h)).
Proof.
  intros ([ts h'] & -> & Hk)%list_elem_of_fmap. exists ts. split; [done|].
  apply list_elem_of_fmap in Hk as ([[? ?] m] & [= <- <-] & Hk). apply a_batch_row in Hk. by exists m.
Qed.

Lemma a_integrate_ok limit cutoff now a :
  allowed (Integrate limit cutoff now) a → alog_ok a → alog_ok (a_integrate limit cutoff now a).
Proof.
  intros (Hlim & Hsize & Hrev) Ha.
  split; unfold a_size; cbn [a_integrate a_entries a_revision a_known].
  - intros ts h [Hp _]%integrated_pending. exact (ok_pending_known a Ha ts h Hp).
  - intros ts h [Hp _]%integrated_pending. exact (ok_pending_size a Ha ts h Hp).
  - intros ts ts' h [Hp _]%integrated_pending [Hp' _]%integrated_pending. by eapply (ok_pending_once a Ha).
  - intros ts h [Hp Hk]%integrated_pending. rewrite fmap_app, batch_identities, elem_of_app. intros [Hh|Hh].
    + by eapply (ok_pending_fresh a Ha).
    + apply elem_of_batch in Hh as (ts' & Hk' & Hp'). by rewrite (ok_pending_once a Ha ts ts' h) in Hk.
  - intros h. rewrite fmap_app, batch_identities, elem_of_app. intros [Hh|(ts & _ & Hp)%elem_of_batch].
    + by apply ok_entries_known.
    + by eapply (ok_pending_known a Ha).
  - rewrite fmap_app, batch_identities. apply NoDup_app. split_and!; [by apply ok_entries_once| |].
    + intros h Hh (ts & _ & Hp)%elem_of_batch. by eapply (ok_pending_fresh a Ha).
    + apply NoDup_fmap_2_strong; [|apply a_batch_NoDup]. intros [t1 h1] [t2 h2] H1 H2 Eh. cbn in Eh. subst h2.
      apply list_elem_of_fmap in H1 as ([[? ?] m1] & [= <- <-] & H1%a_batch_row), H2 as ([[? ?] m2] & [= <- <-] & H2%a_batch_row).
      f_equal. apply (ok_pending_once a Ha t1 t2 h1); [by exists m1|by exists m2].
  - unfold a_size in Hsize. rewrite length_app, length_fmap. pose proof (a_batch_length limit cutoff a). lia.
  - pose proof (ok_revision a Ha). lia.
Qed.

Lemma a_step_ok r a : allowed r a → alog_ok a → alog_ok (a_step r a).1.
Proof.
  destruct r as [leaves now|limit cutoff now|start count]; cbn [a_step fst]; intros Hr Ha.
  - apply a_submit_ok; [apply Hr|done].
  - by apply a_integrate_ok.
  - done.
Qed.

(** ** The log only grows *)

Record extends (a a' : alog) : Prop := {
  ext_entries : a_entries a `prefix_of` a_entries a';
  ext_known h l : a_known a !! h = Some l → a_known a' !! h = Some l
}.
#[export] Instance extends_preorder : PreOrder extends.
Proof.
  split; [intros a; by split|]. intros a b c [E1 K1] [E2 K2]. split; [by etrans|]. auto.
Qed.

Lemma a_step_extends r a : extends a (a_step r a).1.
Proof.
  destruct r as [leaves now|limit cutoff now|start count]; cbn [a_step fst]; split; cbn [a_submit a_integrate a_entries a_known];
    try done.
  - intros h l Hl. rewrite lookup_union_r; [done|]. apply not_elem_of_list_to_map. rewrite <-list_fmap_compose.
    intros (x & -> & Hx)%list_elem_of_fmap. rewrite list_elem_of_In, filter_In in Hx.
    destruct Hx as [_ Hn%bool_decide_eq_true]. cbn in Hl. congruence.
  - by eexists.
Qed.
Lemma a_run_extends rs a : extends a (a_run rs a).1.
Proof.
  revert a. induction rs as [|r rs IH]; intros a; [done|]. cbn. pose proof (a_step_extends r a) as H1.
  destruct (a_step r a) as [a1 x]. specialize (IH a1). destruct (a_run rs a1) as [a2 xs]. cbn in *. by etrans.
Qed.

(** An entry is never changed, moved or lost. *)
Lemma extends_leaf a a' n l : extends a a' → a_leaf a n = Some l → a_leaf a' n = Some l.
Proof.
  intros [[k Hk] Hkn] (s & Hs & (r & Hr & [= <-])%bind_Some)%bind_Some. unfold a_leaf. rewrite Hk.
  destruct (0 <=? n); [|done]. rewrite (lookup_app_l_Some _ _ _ _ Hs). cbn. by rewrite (Hkn _ _ Hr).
Qed.

(** ** Every waiting leaf is integrated *)

Lemma integrate_progress limit cutoff now a ts h m :
  0 < limit → a_pending a !! (ts, h) = Some m → ts ≤ cutoff →
  let a' := a_integrate limit cutoff now a in
  h ∈ s_identity <$> a_entries a' ∨
  (a_pending a' !! (ts, h) = Some m ∧ (size (a_pending a') < size (a_pending a))%nat).
Proof.
  intros Hlim Hm Hts. cbn. set (keys := (a_batch limit cutoff a).*1).
  destruct (decide ((ts, h) ∈ keys)) as [Hin|Hout].
  { left. rewrite fmap_app, batch_identities. apply elem_of_app. right. by apply (list_elem_of_fmap_2 snd) in Hin. }
  right. rewrite lookup_foldr_delete, bool_decide_eq_false_2 by done. split; [done|].
  assert (∃ k, k ∈ keys ∧ is_Some (a_pending a !! k)) as (k & Hk & [x Hx]).
  { assert ((ts, h) ∈ a_due cutoff a) as Hd by (apply elem_of_a_due; split; [by exists m|done]).
    assert (keys = take (Z.to_nat limit) (a_due cutoff a)) as E by apply a_batch_keys.
    destruct (a_due cutoff a) as [|k ks] eqn:Ed; [by apply not_elem_of_nil in Hd|].
    exists k. rewrite E. destruct (Z.to_nat limit) eqn:El; [lia|]. split; [by left|].
    apply (elem_of_a_due cutoff). rewrite Ed. by left. }
  apply map_subset_size. split.
  - apply map_subseteq_spec. intros k' y. rewrite lookup_foldr_delete. by case_bool_decide.
  - intros Hsub. rewrite map_subseteq_spec in Hsub. specialize (Hsub k x Hx).
    by rewrite lookup_foldr_delete, bool_decide_eq_true_2 in Hsub.
Qed.

(** As many passes as leaves wait are enough. *)
Lemma passes_integrate n limit cutoff now a ts h m :
  0 < limit → a_pending a !! (ts, h) = Some m → ts ≤ cutoff → (size (a_pending a) ≤ n)%nat →
  h ∈ s_identity <$> a_entries (a_run (replicate n (Integrate limit cutoff now)) a).1.
Proof.
  intros Hlim Hm Hts. revert a Hm. induction n as [|n IH]; intros a Hm Hn.
  { assert (a_pending a = ∅) as E by (apply map_size_empty_inv; lia). rewrite E in Hm. done. }
  cbn [replicate a_run a_step]. set (a1 := a_integrate limit cutoff now a).
  destruct (a_run (replicate n (Integrate limit cutoff now)) a1) as [a2 xs] eqn:E. cbn.
  replace a2 with (a_run (replicate n (Integrate limit cutoff now)) a1).1 by (by rewrite E).
  destruct (integrate_progress limit cutoff now a ts h m) as [Hin|[Hp Hs]]; [done..| |].
  - destruct (a_run_extends (replicate n (Integrate limit cutoff now)) a1) as [[k ->] _].
    rewrite fmap_app. apply elem_of_app. by left.
  - apply IH; [done|]. unfold a1. lia.
Qed.

Lemma a_run_ok rs a : all_allowed rs a → alog_ok a → alog_ok (a_run rs a).1.
Proof.
  revert a. induction rs as [|r rs IH]; intros a; [done|]. cbn. intros [Hr Hrs] Ha. pose proof (a_step_ok r a Hr Ha) as H1.
  destruct (a_step r a) as [a1 x]. specialize (IH a1 Hrs H1). by destruct (a_run rs a1).
Qed.

(** An entry is readable at its position. *)
Lemma entry_readable a h :
  alog_ok a → h ∈ s_identity <$> a_entries a →
  ∃ n l, 0 ≤ n < a_size a ∧ a_leaf a n = Some l ∧ lf_identity l = h ∧
    lf_value l = l_value <$> a_known a !! h ∧ (lf_extra l = a_known a !! h ≫= l_extra).
Proof.
  intros Ha Hh. destruct (ok_entries_known a Ha h Hh) as [r Hr].
  apply list_elem_of_fmap in Hh as (s & -> & (i & Hi)%list_elem_of_lookup_1).
  exists (Z.of_nat i), (joined_leaf (s_identity s) r (Z.of_nat i) s).
  apply lookup_lt_Some in Hi as Hlt. unfold a_size, a_leaf.
  rewrite (proj2 (Z.leb_le 0 (Z.of_nat i))), Nat2Z.id, Hi by lia. cbn. rewrite Hr. cbn. split_and!; done || lia.
Qed.
