(* ===== verification/LogRefinement.v ===== *)
(** * The storage implements the log

    On a healthy connection the storage operations answer like the abstract
    log of [LogSpec.v], whatever the sequence of requests: submissions go
    through [QueueLeaves], integration through a transaction of the sequencer
    and reads through a snapshot. *)

From stdpp Require Import sorting.
From Stdlib Require Import Sorted.
From S2P Require Import Prelude GoStrings GoFmt Errors Effects Postgres TreeStorage LogStorage StorageSamples StorageFacts LogTxFacts QueueFacts DequeueFacts SequenceFacts RootFacts LogSpec.

Open Scope Z_scope.

(** ** Lists and maps *)

Lemma omap_total {A B} (f : A → option B) (g : A → B) (l : list A) : (∀ x, x ∈ l → f x = Some (g x)) → omap f l = g <$> l.
Proof.
  induction l as [|x l IH]; intros Hl; [done|]. cbn. rewrite Hl by (by left). f_equal. apply IH. intros. apply Hl. by right.
Qed.

Lemma bytes_ltb_antisym a b : bytes_ltb a b = false → bytes_ltb b a = false → a = b.
Proof.
  revert b. induction a as [|c a IH]; intros [|e b]; cbn; try done.
  destruct (Z.ltb_spec (bval c) (bval e)), (Z.ltb_spec (bval e) (bval c)); try done.
  intros H1 H2. f_equal; [apply bval_inj; lia|by apply IH].
Qed.
#[export] Instance queue_le_antisym : AntiSymm (=) queue_le.
Proof.
  intros [t1 a] [t2 b] [H1|[H1 L1]] [H2|[H2 L2]]; cbn in *; try lia. subst t2. f_equal. by apply bytes_ltb_antisym.
Qed.

(** A map of rows whose keys carry the tree. *)
Lemma lookup_rows {K V} `{Countable K} (key : leaf → K) (val : leaf → V) (tree : Z) ls k :
  (list_to_map ((λ l, ((tree, key l), val l)) <$> ls) : gmap (Z * K) V) !! (tree, k) =
  (list_to_map ((λ l, (key l, val l)) <$> ls) : gmap K V) !! k.
Proof.
  induction ls as [|l ls IH]; cbn; [done|]. destruct (decide (key l = k)) as [->|Hne].
  - by rewrite !lookup_insert_eq.
  - rewrite !lookup_insert_ne by congruence. done.
Qed.
Lemma lookup_queue_rows tree ls ts h :
  queue_rows tree ls !! (tree, ts, h) =
  (list_to_map ((λ l, ((default 0 (lf_queue l), lf_identity l), default [] (lf_merkle l))) <$> ls) : gmap (Z * bytes) bytes) !! (ts, h).
Proof.
  unfold queue_rows. induction ls as [|l ls IH]; cbn; [done|].
  destruct (decide ((default 0 (lf_queue l), lf_identity l) = (ts, h))) as [[= -> ->]|Hne].
  - by rewrite !lookup_insert_eq.
  - rewrite !lookup_insert_ne by congruence. done.
Qed.

(** What positions a pass fills. *)
Lemma find_numbered_at next now ls n :
  List.find (λ x, lf_index x =? n) (numbered next now ls) =
  if next <=? n then
    (λ l, mkLeaf (lf_merkle l) (lf_value l) (lf_extra l) n (lf_identity l) (lf_queue l) (Some now)) <$>
      ls !! Z.to_nat (n - next)
  else None.
Proof.
  destruct (Z.leb_spec next n) as [Hn|Hn]; [|by apply find_numbered_before].
  destruct (ls !! Z.to_nat (n - next)) as [l|] eqn:E; cbn.
  - apply (find_numbered next now) in E. replace (next + Z.of_nat (Z.to_nat (n - next))) with n in E by lia. done.
  - destruct (List.find _ _) as [x|] eqn:Ef; [|done]. apply find_some in Ef as [Hx Ex%Z.eqb_eq].
    apply list_elem_of_In, elem_of_lookup_imap in Hx as (i & y & -> & Hy). cbn in Ex. apply lookup_lt_Some in Hy.
    apply lookup_ge_None in E. lia.
Qed.

Lemma seq_insert_rest tree d ls :
  trees (foldl (seq_insert tree) d ls) = trees d ∧ tree_head (foldl (seq_insert tree) d ls) = tree_head d.
Proof.
  revert d. induction ls as [|l ls IH]; intros d; cbn; [done|]. destruct (IH (seq_insert tree d l)) as [-> ->].
  unfold seq_insert. by destruct (sequenced_leaf_data d !! _).
Qed.

(** ** Representation *)

Section refinement.
Context (fault : nat → option error) (Hfault : ∀ n, fault n = None) `{!RootCodec, !RootLaws} (nil_timestamp : error).
Context {SubtreeCache : Type} (dirty : SubtreeCache → list SubtreeProto) (newCache : SubtreeCache).
Context (Hclean : dirty newCache = []) (proto_Marshal : SubtreeProto → result error bytes).
Context (sort_leaves : list (nat * leaf) → list (nat * leaf)) (Hsort : ∀ l, sort_leaves l ≡ₚ l).
Implicit Type t : logTreeTX (SubtreeCache := SubtreeCache).

Context (tree : Tree) (Hlog : Tree_TreeType tree = LOG).
Abbreviation T := (TreeId tree).

(** The tables hold the log. *)
Record holds (a : alog) (d : db) : Prop := {
  holds_root : ∃ r b, stored_root d T = Some (r, b) ∧ r_TreeSize r = a_size a ∧ r_Revision r = a_revision a;
  holds_heads n : a_revision a < n → tree_head d !! (T, n) = None;
  holds_known h : leaf_data d !! (T, h) = a_known a !! h;
  holds_pending ts h : unsequenced d !! (T, ts, h) = a_pending a !! (ts, h);
  holds_entries n : sequenced_leaf_data d !! (T, n) = if 0 <=? n then a_entries a !! Z.to_nat n else None;
  holds_queue : queue_ok d
}.
Record represents (a : alog) (w : pg) : Prop := {
  rep_ok : alog_ok a;
  rep_fresh : fresh_handles w;
  rep_holds : holds a (committed w)
}.

Lemma holds_sequenced_once a d : alog_ok a → holds a d → sequenced_once T d.
Proof.
  intros Ha Hd n1 n2 s1 s2. rewrite !(holds_entries a d Hd). intros H1 H2 E.
  destruct (Z.leb_spec 0 n1), (Z.leb_spec 0 n2); try done. pose proof (ok_entries_once a Ha) as Hn.
  assert (Z.to_nat n1 = Z.to_nat n2); [|lia]. eapply (NoDup_lookup _ _ _ (s_identity s1) Hn).
  - by rewrite list_lookup_fmap, H1.
  - by rewrite list_lookup_fmap, H2, E.
Qed.

Lemma holds_joined a d n : holds a d → joined_at T d n = a_leaf a n.
Proof.
  intros Hd. unfold joined_at, a_leaf. rewrite (holds_entries a d Hd). destruct (0 <=? n); [|done].
  destruct (a_entries a !! _) as [s|]; [|done]. cbn. by rewrite (holds_known a d Hd).
Qed.

(** The queries see the log. *)
Lemma holds_due a d cutoff : holds a d → due T cutoff d = a_due cutoff a.
Proof.
  intros Hd. apply (StronglySorted_unique queue_le); [apply due_sorted|apply a_due_sorted|].
  apply NoDup_Permutation; [apply due_NoDup|apply a_due_NoDup|]. intros [ts h].
  rewrite elem_of_due, elem_of_a_due. cbn. by rewrite (holds_pending a d Hd).
Qed.
Lemma holds_batch a d limit cutoff : holds a d → select_queued T cutoff limit d = a_batch limit cutoff a.
Proof.
  intros Hd. unfold select_queued, a_batch. fold (due T cutoff d). rewrite (holds_due a d cutoff Hd).
  induction (take _ _) as [|[ts h] ks IH]; [done|]. cbn. by rewrite (holds_pending a d Hd), IH.
Qed.

Lemma holds_numbers a d : holds a d → seq_numbers T d = seqZ 0 (a_size a).
Proof.
  intros Hd. apply (StronglySorted_unique Z.le); [apply (StronglySorted_merge_sort _)|apply seqZ_sorted|].
  apply NoDup_Permutation; [apply seq_numbers_NoDup|apply NoDup_seqZ|]. intros n.
  rewrite elem_of_seq_numbers, elem_of_seqZ, (holds_entries a d Hd). unfold a_size.
  destruct (Z.leb_spec 0 n); [rewrite lookup_lt_is_Some; lia|]. split; [by intros [? ?]|lia].
Qed.

(** The entry of a leaf. *)
Lemma first_entry (f : Z → option leaf) es k h :
  (∀ i s, es !! i = Some s → ∃ l, f (k + Z.of_nat i) = Some (joined_leaf (s_identity s) l (k + Z.of_nat i) s)) →
  (head (List.filter (λ j, beq (lf_identity j) h) (omap f (seqZ k (Z.of_nat (length es))))) ≫= lf_integrate) =
  s_integrate_nanos <$> List.find (λ s, beq (s_identity s) h) es.
Proof.
  revert k. induction es as [|s es IH]; intros k Hf; [done|]. cbn [length]. rewrite seqZ_cons by lia. cbn [omap list_omap].
  destruct (Hf 0%nat s eq_refl) as [l Hl]. rewrite Z.add_0_r in Hl. rewrite Hl. cbn -[Z.of_nat seqZ].
  destruct (beq (s_identity s) h); [done|]. replace (Z.pred (Z.of_nat (S (length es)))) with (Z.of_nat (length es)) by lia.
  apply IH. intros i s' Hi. destruct (Hf (S i) s' Hi) as [l' Hl']. exists l'.
  by replace (Z.succ k + Z.of_nat i) with (k + Z.of_nat (S i)) by lia.
Qed.
Lemma holds_stored a d h : alog_ok a → holds a d → known_leaf T d h = a_stored a h.
Proof.
  intros Ha Hd. unfold known_leaf, a_stored. rewrite (holds_known a d Hd). destruct (a_known a !! h) as [l|]; [|done]. cbn.
  do 2 f_equal. unfold sequenced_of, joined. rewrite (holds_numbers a d Hd). unfold a_size. apply first_entry.
  intros i s Hi. rewrite (holds_joined a d _ Hd). unfold a_leaf. rewrite (proj2 (Z.leb_le 0 _)) by lia.
  replace (Z.to_nat (0 + Z.of_nat i)) with i by lia. rewrite Hi. cbn.
  destruct (ok_entries_known a Ha (s_identity s)) as [r Hr].
  { apply list_elem_of_fmap_2, (list_elem_of_lookup_2 _ _ _ Hi). }
  rewrite Hr. by exists r.
Qed.

(** ** Submitting *)

Lemma holds_new a d l : holds a d → is_new T d l = a_new a l.
Proof. intros Hd. unfold is_new, a_new. by rewrite (holds_known a d Hd). Qed.
Lemma holds_filter_new a d ls : holds a d → List.filter (is_new T d) ls = List.filter (a_new a) ls.
Proof. intros Hd. apply List.filter_ext. intros l. by apply holds_new. Qed.

Lemma holds_submit a d leaves now :
  holds a d → holds (a_submit leaves now a) (queued_db T (set_queue_time now <$> leaves) d).
Proof.
  intros Hd. unfold queued_db. rewrite (holds_filter_new a d _ Hd). set (new := List.filter _ _).
  split; cbn [a_revision a_submit a_known a_pending a_entries].
  - exact (holds_root a d Hd).
  - exact (holds_heads a d Hd).
  - intros h. cbn. fold new. rewrite !lookup_union. unfold leaf_rows. rewrite lookup_rows. by rewrite (holds_known a d Hd).
  - intros ts h. cbn. fold new. by rewrite !lookup_union, lookup_queue_rows, (holds_pending a d Hd).
  - exact (holds_entries a d Hd).
  - pose proof (queued_db_ok T (set_queue_time now <$> leaves) d (holds_queue a d Hd)) as Hq.
    unfold queued_db in Hq. by rewrite (holds_filter_new a d _ Hd) in Hq.
Qed.

Lemma submit_refines a w leaves now :
  represents a w → Forall leaf_ok leaves → NoDup (lf_identity <$> leaves) →
  ∃ w', QueueLeaves fault dirty newCache proto_Marshal sort_leaves tree leaves now w =
      (w', Return (a_result a now <$> leaves)) ∧
    represents (a_submit leaves now a) w'.
Proof.
  intros [Ha Hf Hd] Hok Hn. destruct (holds_root a _ Hd) as (r & b & Hr & _).
  destruct (QueueLeaves_ok fault Hfault dirty newCache Hclean proto_Marshal sort_leaves Hsort tree leaves now w r b)
    as (w' & E & Hc & _ & _ & Hf'); [done|done|by apply (holds_queue a)|by eapply holds_sequenced_once|done|done|].
  exists w'. split; [|split; [by apply a_submit_ok|done|rewrite Hc; by apply holds_submit]].
  rewrite E. do 2 f_equal. apply list_fmap_ext. intros i l _. unfold queued_result, a_result.
  by rewrite (holds_stored a _ _ Ha Hd).
Qed.

(** ** Integrating *)

(** The root after a batch; the sequencer computes it. *)
Context (next_root : Z → Z → bytes).
Definition makes_roots : Prop := ∀ size revision, 0 ≤ size < 2 ^ 63 → 0 ≤ revision < 2 ^ 63 →
  ∃ r, root_UnmarshalBinary (next_root size revision) = Ok r ∧
    r_TreeSize r = size ∧ r_Revision r = revision ∧ r_Metadata r = [] ∧ r_TimestampNanos r < 2 ^ 63.
Context (Hroots : makes_roots).

(** The transaction of the sequencer: it takes a batch from the queue, gives
    the leaves the positions after the tree, and stores the root of the
    larger tree. *)
Definition integrate_batch (limit cutoff now : Z) t : M pg (logTreeTX * option error) :=
  ls ← DequeueLeaves fault t limit cutoff;
  _ ← UpdateSequencedLeaves fault nil_timestamp t (numbered (r_TreeSize (root t)) now ls);
  store_root fault (next_root (r_TreeSize (root t) + Z.of_nat (length ls)) (r_Revision (root t) + 1)) t.

(** The tables after it. *)
Definition integrated_db (row : tree_row) (r : LogRoot) (size now : Z) (rows : list (Z * bytes * bytes)) (d : db) : db :=
  stored_db T row r (foldl (seq_insert T) (removed T rows.*1 d) (numbered size now (dequeueLeaf <$> rows))).

Lemma runs_integrate_batch a d sp h r b limit cutoff now :
  alog_ok a → holds a d → stored_root d T = Some (r, b) → r_TreeSize r = a_size a → r_Revision r = a_revision a →
  allowed (Integrate limit cutoff now) a →
  let t := opened_tx newCache tree h r b in
  ∃ row r' b', trees d !! T = Some row ∧ root_UnmarshalBinary b' = Ok r' ∧
    r_TreeSize r' = a_size (a_integrate limit cutoff now a) ∧ r_Revision r' = a_revision a + 1 ∧
    runs h (integrate_batch limit cutoff now t) d sp (t, None)
      (integrated_db row r' (a_size a) now (a_batch limit cutoff a) d) sp.
Proof.
  intros Ha Hd Hr Hs Hv (Hlim & Hsz & Hrev) t.
  pose proof (a_batch_length limit cutoff a (proj1 Hlim)) as Hlen. pose proof (ok_revision a Ha) as Hrev0.
  destruct (proj1 (bind_Some _ _ _) Hr) as (row & Hrow & _).
  destruct (Hroots (a_size a + Z.of_nat (length (a_batch limit cutoff a))) (a_revision a + 1))
    as (r' & Hr' & Hs' & Hv' & Hm' & Ht'); [unfold a_size in *; lia|lia|].
  eexists row, r', _. split_and!; [done|exact Hr'| |done|].
  { rewrite Hs'. unfold a_size. cbn. rewrite length_app, length_fmap. lia. }
  unfold integrate_batch. cbn [root opened_tx t]. rewrite Hs, Hv.
  eapply runs_bind; [apply (runs_DequeueLeaves fault Hfault t)|].
  { cbn. by rewrite Hlog. }
  { done. }
  { intros ts i Hi. cbn in Hi. rewrite (holds_pending a d Hd) in Hi. cbn. by rewrite (ok_pending_size a Ha ts i Hi). }
  change (treeID (ttx t)) with T. rewrite (holds_batch a d limit cutoff Hd), length_fmap.
  assert (∀ l, l ∈ numbered (a_size a) now (dequeueLeaf <$> a_batch limit cutoff a) →
    sequenceable t (removed T (a_batch limit cutoff a).*1 d) l) as Hseq.
  { intros l (k & y & -> & Hy)%elem_of_lookup_imap. rewrite list_lookup_fmap in Hy.
    apply fmap_Some in Hy as ([[ts i] m] & Hk%list_elem_of_lookup_2%a_batch_row & ->).
    split_and!; cbn; [|by eexists..|].
    - by rewrite (ok_pending_size a Ha ts i) by (by exists m).
    - rewrite (holds_known a d Hd). apply (ok_pending_known a Ha ts i). by exists m. }
  eapply runs_bind; [apply (runs_UpdateSequencedLeaves fault Hfault nil_timestamp t)|].
  { by exists row. }
  { by apply Forall_forall. }
  destruct (seq_insert_rest T (removed T (a_batch limit cutoff a).*1 d)
    (numbered (a_size a) now (dequeueLeaf <$> a_batch limit cutoff a))) as [Et Eh].
  apply (runs_store_root fault Hfault t _ r' row); [exact Hr'|done| | |].
  - split_and!; [done|rewrite Hs'; lia|rewrite Hv'; lia].
  - cbn. by rewrite Et.
  - cbn. rewrite Eh, Hv'. cbn. apply (holds_heads a d Hd). lia.
Qed.

Lemma holds_integrate a d row r b limit cutoff now :
  holds a d → root_UnmarshalBinary b = Ok r → r_TreeSize r = a_size (a_integrate limit cutoff now a) →
  r_Revision r = a_revision a + 1 →
  holds (a_integrate limit cutoff now a) (integrated_db row r (a_size a) now (a_batch limit cutoff a) d).
Proof.
  intros Hd Hr Hs Hv. unfold integrated_db. set (d1 := removed T _ d). set (ls := numbered _ _ _).
  destruct (seq_insert_rest T d1 ls) as [Et Eh]. split; cbn [a_revision a_integrate a_known a_pending a_entries].
  - exists r, (root_MarshalBinary r). split_and!; [|done|done]. unfold stored_root, stored_db. cbn.
    rewrite lookup_insert_eq. cbn. by rewrite (root_json_roundtrip b r Hr), (root_binary_roundtrip b r Hr).
  - intros n Hn. cbn. rewrite Eh, lookup_insert_ne by (intros [=]; lia). cbn. apply (holds_heads a d Hd). lia.
  - intros h. cbn. rewrite seq_insert_leaf_data. apply (holds_known a d Hd).
  - intros ts h. cbn. rewrite seq_insert_unsequenced. unfold d1. rewrite removed_lookup, lookup_foldr_delete.
    rewrite (holds_pending a d Hd), (bool_decide_ext (T = T ∧ (ts, h) ∈ (a_batch limit cutoff a).*1)
      ((ts, h) ∈ (a_batch limit cutoff a).*1)); [done|naive_solver].
  - intros n. cbn. rewrite seq_insert_lookup. unfold d1. cbn. rewrite (holds_entries a d Hd). unfold ls.
    rewrite find_numbered_at, list_lookup_fmap. unfold a_size. destruct (Z.leb_spec 0 n) as [Hn|Hn].
    + rewrite lookup_app. destruct (a_entries a !! Z.to_nat n) as [s|] eqn:E; [done|]. apply lookup_ge_None in E.
      rewrite (proj2 (Z.leb_le _ _)) by lia. rewrite list_lookup_fmap.
      replace (Z.to_nat (n - Z.of_nat (length (a_entries a)))) with (Z.to_nat n - length (a_entries a))%nat by lia.
      by destruct (a_batch limit cutoff a !! _) as [[[ts i] m]|].
    + by rewrite (proj2 (Z.leb_gt _ _)) by lia.
  - intros tr ts h. cbn. rewrite seq_insert_unsequenced, seq_insert_leaf_data. unfold d1. rewrite removed_lookup.
    case_bool_decide; [by intros [? ?]|]. apply (holds_queue a d Hd).
Qed.

Lemma integrate_refines a w limit cutoff now :
  represents a w → allowed (Integrate limit cutoff now) a →
  ∃ w', ReadWriteTransaction fault dirty newCache proto_Marshal tree (integrate_batch limit cutoff now) w = (w', Return ()) ∧
    represents (a_integrate limit cutoff now a) w'.
Proof.
  intros [Ha Hf Hd] Hal. destruct (holds_root a _ Hd) as (r & b & Hr & Hs & Hv).
  destruct (beginInternal_ok fault newCache Hfault tree w r b Hf Hr) as (w0 & Eb & Hw0 & Ho).
  destruct (runs_integrate_batch a (committed w) [] (next_txn w) r b limit cutoff now)
    as (row & r' & b' & Hrow & Hr' & Hs' & Hv' & Hrun); [done..|].
  destruct (ReadWriteTransaction_ok fault dirty newCache proto_Marshal Hfault tree (integrate_batch limit cutoff now) w w0 _ _ _ _
    Hf Eb Ho Hw0 Hclean Hrun) as (w' & E & Hc & _ & Hf').
  exists w'. split; [done|]. split; [by apply a_integrate_ok|done|]. rewrite Hc. by apply (holds_integrate _ _ _ _ b').
Qed.

(** ** Reading *)

(** A reader's snapshot. *)
Definition read_range (start count : Z) : M pg (list leaf) :=
  '(t, needsInit) ← SnapshotForTree fault newCache tree;
  _ ← guard_ (negb needsInit) ErrTreeNeedsInit;
  ls ← GetLeavesByRange fault t start count;
  _ ← log_Close fault t;
  mret ls.

Lemma a_leaf_total a n : alog_ok a → 0 ≤ n < a_size a → is_Some (a_leaf a n).
Proof.
  unfold a_size. intros Ha Hn. destruct (lookup_lt_is_Some_2 (a_entries a) (Z.to_nat n)) as [s Hs]; [lia|].
  unfold a_leaf. rewrite (proj2 (Z.leb_le 0 n)), Hs by lia. cbn.
  destruct (ok_entries_known a Ha (s_identity s)) as [r Hr].
  { apply list_elem_of_fmap_2, (list_elem_of_lookup_2 _ _ _ Hs). }
  rewrite Hr. by eexists.
Qed.

(** Closing a snapshot ends it. *)
Lemma log_Close_open t w x : closed (ttx t) = false → txns w !! tx (ttx t) = Some x →
  log_Close fault t w = (with_txns (tick w) (delete (tx (ttx t)) (txns w)), Return (set_ttx t (set_closed (ttx t)), None)).
Proof.
  intros Hc Hx. unfold log_Close, Close. rewrite Hc. unfold mbind, M_bind, Rollback, sql_Rollback. rewrite Hx, Hfault. done.
Qed.

Lemma read_refines a w start count :
  represents a w → allowed (Read start count) a →
  ∃ w', read_range start count w = (w', Return (a_read start count a)) ∧ represents a w'.
Proof.
  intros [Ha Hf Hd] [Hst Hco]. destruct (holds_root a _ Hd) as (r & b & Hr & Hs & Hv).
  destruct (beginInternal_ok fault newCache Hfault tree w r b Hf Hr) as (w0 & Eb & Hw0 & Ho).
  set (t := opened_tx newCache tree (next_txn w) r b) in *. pose proof (ok_size a Ha) as Hsz.
  assert (wrap_s64 (r_TreeSize (root t)) = a_size a) as Hsize.
  { cbn. rewrite Hs. apply wrap_s64_id. unfold is_int64, int64_min, int64_max. lia. }
  assert (∀ n, 0 ≤ n < a_size a → a_leaf a n = Some (default (mkLeaf None None None 0 [] None None) (a_leaf a n))) as Hat.
  { intros n Hn. by destruct (a_leaf_total a n Ha Hn) as [l ->]. }
  destruct (runs_GetLeavesByRange fault t Hfault start count (committed w) []
    (λ n, default (mkLeaf None None None 0 [] None None) (a_leaf a n)) Hlog) with (w := w0) as (w1 & E1 & Hw1 & Hs1);
    rewrite ?Hsize; [done|done|done| |done|].
  { intros n Hn. cbn. rewrite (holds_joined a _ n Hd). by apply Hat. }
  exists (with_txns (tick w1) (delete (next_txn w) (txns w1))). split.
  - unfold read_range, SnapshotForTree. rewrite (bind_ret _ _ _ _ _ Eb). cbv beta iota. cbn [negb]. rewrite guard_ok.
    rewrite (bind_ret _ _ _ _ _ E1). rewrite (bind_ret _ _ _ _ _ (log_Close_open t w1 _ eq_refl Hw1)). unfold mret, M_ret.
    do 2 f_equal. rewrite Hsize. symmetry. apply omap_total. intros n Hn%elem_of_seqZ. apply Hat. lia.
  - destruct (opened_delete w w0 w1 t Hf Ho Hs1) as [Htx Hcm]. split; [done| |by cbn; rewrite Hcm].
    intros k Hk. cbn in *. rewrite Htx. apply Hf. destruct Hs1 as (_ & En & _), Ho as (_ & _ & (_ & E & _) & _). cbn in E. lia.
Qed.

(** ** The simulation *)

Definition serve_one (q : request) : M pg answer :=
  match q with
  | Submit leaves now => rs ← QueueLeaves fault dirty newCache proto_Marshal sort_leaves tree leaves now; mret (Queued rs)
  | Integrate limit cutoff now =>
      _ ← ReadWriteTransaction fault dirty newCache proto_Marshal tree (integrate_batch limit cutoff now); mret Integrated
  | Read start count => ls ← read_range start count; mret (Leaves ls)
  end.
Fixpoint serve_all (qs : list request) : M pg (list answer) :=
  match qs with
  | [] => mret []
  | q :: rest => x ← serve_one q; xs ← serve_all rest; mret (x :: xs)
  end.

Lemma serve_step q a w :
  represents a w → allowed q a → ∃ w', serve_one q w = (w', Return (a_step q a).2) ∧ represents (a_step q a).1 w'.
Proof.
  intros Hw Hq. destruct q as [leaves now|limit cutoff now|start count]; cbn [a_step fst snd serve_one].
  - destruct (submit_refines a w leaves now Hw (proj1 Hq) (proj2 Hq)) as (w' & E & Hw'). exists w'.
    by rewrite (bind_ret _ _ _ _ _ E).
  - destruct (integrate_refines a w limit cutoff now Hw Hq) as (w' & E & Hw'). exists w'. by rewrite (bind_ret _ _ _ _ _ E).
  - destruct (read_refines a w start count Hw Hq) as (w' & E & Hw'). exists w'. by rewrite (bind_ret _ _ _ _ _ E).
Qed.

Lemma serve_run qs a w :
  represents a w → all_allowed qs a →
  ∃ w', serve_all qs w = (w', Return (a_run qs a).2) ∧ represents (a_run qs a).1 w'.
Proof.
  revert a w. induction qs as [|q qs IH]; intros a w Hw Hqs; [by exists w|]. destruct Hqs as [Hq Hqs].
  destruct (serve_step q a w Hw Hq) as (w1 & E1 & Hw1). cbn [a_run serve_all]. destruct (a_step q a) as [a1 x]. cbn in *.
  destruct (IH a1 w1 Hw1 Hqs) as (w2 & E2 & Hw2). exists w2. destruct (a_run qs a1) as [a2 xs]. cbn in *. split; [|done].
  by rewrite (bind_ret _ _ _ _ _ E1), (bind_ret _ _ _ _ _ E2).
Qed.

(** C2: The storage refines the abstract log.  From tables that represent a
    log, every sequence of submissions, integrations and reads that the log
    allows succeeds on a healthy connection with the answers of the log, and
    leaves tables that represent the log after the sequence. *)
Theorem storage_refines_log qs a w :
  represents a w → all_allowed qs a →
  ∃ w', serve_all qs w = (w', Return (a_run qs a).2) ∧ represents (a_run qs a).1 w'.
Proof. apply serve_run. Qed.

(** C6: The log is append-only.  What a reader gets for positions inside the
    log is what every later reader gets for them, whatever was submitted and
    integrated in between. *)
Theorem log_append_only qs a w start count :
  represents a w → all_allowed qs a → 0 ≤ start → 0 < count → start + count ≤ a_size a →
  ∃ w0 w1 w2 answers ls, read_range start count w = (w0, Return ls) ∧ Z.of_nat (length ls) = count ∧
    serve_all qs w0 = (w1, Return answers) ∧ read_range start count w1 = (w2, Return ls).
Proof.
  intros Hw Hqs Hst Hco Hin. pose proof (rep_ok a w Hw) as Ha.
  destruct (read_refines a w start count Hw) as (w0 & E0 & Hw0); [split; [lia|done]|].
  destruct (serve_run qs a w0 Hw0 Hqs) as (w1 & E1 & Hw1). set (a' := (a_run qs a).1) in *.
  pose proof (a_run_extends qs a) as Hext. fold a' in Hext.
  assert (a_size a ≤ a_size a') as Hle by (unfold a_size; destruct (ext_entries a a' Hext) as [k ->]; rewrite length_app; lia).
  destruct (read_refines a' w1 start count Hw1) as (w2 & E2 & _); [split; [lia|done]|].
  assert (∀ n, n ∈ seqZ start count → ∃ l, a_leaf a n = Some l ∧ a_leaf a' n = Some l) as Hls.
  { intros n Hn%elem_of_seqZ. destruct (a_leaf_total a n Ha) as [l Hl]; [lia|]. exists l. split; [done|].
    by eapply extends_leaf. }
  exists w0, w1, w2, (a_run qs a).2, (a_read start count a).
  assert (a_read start count a = omap (a_leaf a) (seqZ start count) ∧ a_read start count a' = omap (a_leaf a') (seqZ start count))
    as [R R'] by (unfold a_read; by rewrite !Z.min_l by lia).
  assert (omap (a_leaf a') (seqZ start count) = omap (a_leaf a) (seqZ start count) ∧
    length (omap (a_leaf a) (seqZ start count)) = length (seqZ start count)) as [Eq Len].
  { clear -Hls. induction (seqZ start count) as [|n l IH]; [done|]. destruct (Hls n) as (x & Hx & Hx'); [by left|].
    destruct IH as [IH1 IH2]; [intros; apply Hls; by right|]. cbn. rewrite Hx, Hx'. cbn. by rewrite IH1, IH2. }
  split_and!; [done| |done|by rewrite E2, R', Eq, R]. rewrite R, Len, length_seqZ. lia.
Qed.

(** Passes are allowed while positions and revisions last. *)
Lemma passes_allowed n limit cutoff now a :
  0 ≤ limit ≤ 2 ^ 43 → a_size a + Z.of_nat n * limit ≤ 2 ^ 45 → a_revision a + Z.of_nat n < 2 ^ 63 →
  all_allowed (replicate n (Integrate limit cutoff now)) a.
Proof.
  intros Hlim. revert a. induction n as [|n IH]; intros a Hs Hr; [done|]. cbn [replicate all_allowed allowed].
  split; [split_and!; nia|]. apply IH.
  - cbn [a_step fst]. unfold a_size in *. cbn [a_integrate a_entries]. rewrite length_app, length_fmap.
    pose proof (a_batch_length limit cutoff a (proj1 Hlim)). nia.
  - cbn. lia.
Qed.

(** A new leaf waits. *)
Lemma submit_new l now a :
  a_known a !! lf_identity l = None →
  let a' := a_submit [l] now a in
  a_known a' !! lf_identity l = Some (mkLeafRow (default [] (lf_value l)) (lf_extra l) now) ∧
  a_pending a' !! (now, lf_identity l) = Some (default [] (lf_merkle l)) ∧
  (size (a_pending a') ≤ S (size (a_pending a)))%nat.
Proof.
  intros Hn. unfold a_submit. cbn. unfold a_new. cbn. rewrite bool_decide_eq_true_2 by done. cbn.
  rewrite !insert_empty, <-!insert_union_singleton_l, !lookup_insert_eq. split_and!; [done..|].
  destruct (a_pending a !! (now, lf_identity l)) eqn:E.
  - rewrite map_size_insert_Some by done. lia.
  - by rewrite map_size_insert_None.
Qed.

(** C11: A leaf that is submitted becomes readable.  After the submission of
    a new leaf and as many passes of the sequencer as leaves wait, whatever
    the size of the batches, a reader finds the leaf in the log with its
    value and extra data. *)
Theorem submitted_leaf_readable l now n limit cutoff later a w :
  represents a w → leaf_ok l → a_known a !! lf_identity l = None → now ≤ cutoff →
  0 < limit ≤ 2 ^ 43 → (size (a_pending a) < n)%nat →
  a_size a + Z.of_nat n * limit ≤ 2 ^ 45 → a_revision a + Z.of_nat n < 2 ^ 63 →
  ∃ w1 w2 answers position x,
    serve_all (Submit [l] now :: replicate n (Integrate limit cutoff later)) w = (w1, Return answers) ∧
    read_range position 1 w1 = (w2, Return [x]) ∧
    lf_index x = position ∧ lf_identity x = lf_identity l ∧ lf_value x = lf_value l ∧ lf_extra x = lf_extra l.
Proof.
  intros Hw Hl Hnew Hcut Hlim Hn Hs Hr. destruct (submit_new l now a Hnew) as (Hk & Hp & Hsz).
  set (a1 := a_submit [l] now a) in *.
  set (passes := replicate n (Integrate limit cutoff later)). set (qs := Submit [l] now :: passes).
  assert (all_allowed qs a) as Hqs.
  { split; [split; [by apply Forall_singleton|apply NoDup_singleton]|]. by apply passes_allowed; [lia|..]. }
  destruct (serve_run qs a w Hw Hqs) as (w1 & E1 & Hw1).
  assert ((a_run qs a).1 = (a_run passes a1).1) as Ea by (cbn; fold a1; by destruct (a_run passes a1)).
  rewrite Ea in Hw1. set (a2 := (a_run passes a1).1) in *. pose proof (rep_ok a2 w1 Hw1) as Ha2.
  assert (lf_identity l ∈ s_identity <$> a_entries a2) as Hin
    by (apply (passes_integrate n limit cutoff later a1 now (lf_identity l) _ (proj1 Hlim) Hp Hcut); lia).
  destruct (entry_readable a2 _ Ha2 Hin) as (pos & x & Hpos & Hx & Hid & Hv & He).
  rewrite (ext_known a1 a2 (a_run_extends passes a1) _ _ Hk) in Hv, He. cbn in Hv, He.
  destruct (read_refines a2 w1 pos 1 Hw1) as (w2 & E2 & _); [split; [done|lia]|].
  exists w1, w2, (a_run qs a).2, pos, x. split_and!; [done| | |done| |done].
  - rewrite E2. unfold a_read. rewrite Z.min_l by lia. change (seqZ pos 1) with [0 + pos]. cbn. by rewrite Z.add_0_l, Hx.
  - apply bind_Some in Hx as (s & _ & (r & _ & [= <-])%bind_Some). done.
  - rewrite Hv. destruct Hl as (_ & [v ->] & _). done.
Qed.
End refinement.

(** ** A small log *)

(** Roots as a character for each leaf and another for each revision. *)
Definition is_x (c : ascii) : bool := bool_decide (c = "x"%char).
Definition pair_root (b : bytes) : LogRoot :=
  mkLogRoot (Z.of_nat (length (List.filter is_x b))) [] 0
    (Z.of_nat (length (List.filter (λ c, negb (is_x c)) b))) [].
Definition pair_text (size revision : Z) : bytes :=
  replicate (Z.to_nat size) "x"%char ++ replicate (Z.to_nat revision) "y"%char.
Definition root_pair (r : LogRoot) : bytes := pair_text (r_TreeSize r) (r_Revision r).
Definition pair_codec : RootCodec := {|
  root_MarshalBinary := root_pair;
  root_UnmarshalBinary b := Ok (pair_root b);
  root_json := root_pair;
  root_of_json := pair_root
|}.

Lemma filter_replicate {A} (f : A → bool) n x : List.filter f (replicate n x) = if f x then replicate n x else [].
Proof. induction n as [|n IH]; cbn; [by destruct (f x)|]. rewrite IH. by destruct (f x). Qed.
Lemma pair_root_text size revision :
  0 ≤ size → 0 ≤ revision → pair_root (pair_text size revision) = mkLogRoot size [] 0 revision [].
Proof.
  intros. unfold pair_root, pair_text. rewrite !List.filter_app, !filter_replicate.
  change (is_x "x") with true. change (is_x "y") with false. cbn [negb].
  by rewrite app_nil_r, app_nil_l, !length_replicate, !Z2Nat.id by done.
Qed.
Lemma pair_laws : @RootLaws pair_codec.
Proof.
  split; intros b r [= <-]; cbn; [f_equal|]; unfold root_pair; by rewrite pair_root_text by (cbn; lia).
Qed.
Lemma pair_makes_roots : @makes_roots pair_codec pair_text.
Proof.
  intros size revision Hs Hr. exists (mkLogRoot size [] 0 revision []). split_and!; try done.
  cbn. by rewrite pair_root_text by lia.
Qed.

Definition sample_log : alog :=
  mkALog (<[hash_of "a" := mkLeafRow "first" None 10]> {[hash_of "b" := mkLeafRow "second" None 20]})
    {[(20, hash_of "b") := hash_of "B"]} [mkSeqRow (hash_of "a") (hash_of "A") 15] 0.

Lemma sample_log_ok : alog_ok sample_log.
Proof.
  assert (∀ ts h, is_Some (a_pending sample_log !! (ts, h)) → ts = 20 ∧ h = hash_of "b") as Hp.
  { intros ts h [m Hm]. cbn in Hm. by apply lookup_singleton_Some in Hm as [[= <- <-] _]. }
  split.
  - intros ts h [_ ->]%Hp. eexists. vm_compute. reflexivity.
  - by intros ts h [_ ->]%Hp.
  - by intros ts ts' h [-> _]%Hp [-> _]%Hp.
  - intros ts h [_ ->]%Hp. cbn. by intros [=]%list_elem_of_singleton.
  - intros h ->%list_elem_of_singleton. eexists. vm_compute. reflexivity.
  - apply NoDup_singleton.
  - by vm_compute.
  - by vm_compute.
Qed.
Lemma sample_represents : @represents pair_codec sample_tree sample_log sample_pg.
Proof.
  split; [apply sample_log_ok|apply sample_fresh|]. split.
  - exists (pair_root "x"), "x". vm_compute. done.
  - done.
  - intros h. cbn [leaf_data committed sample_pg sample_db a_known sample_log TreeId sample_tree].
    destruct (decide (hash_of "a" = h)) as [<-|Ha]; [by rewrite !lookup_insert_eq|].
    rewrite !lookup_insert_ne by congruence. destruct (decide (hash_of "b" = h)) as [<-|Hb]; [by rewrite !lookup_singleton_eq|].
    by rewrite !lookup_singleton_ne by congruence.
  - intros ts h. cbn [unsequenced committed sample_pg sample_db a_pending sample_log TreeId sample_tree].
    destruct (decide ((20, hash_of "b") = (ts, h))) as [[= <- <-]|Hb]; [by rewrite !lookup_singleton_eq|].
    by rewrite !lookup_singleton_ne by congruence.
  - intros n. cbn [sequenced_leaf_data committed sample_pg sample_db a_entries sample_log TreeId sample_tree].
    destruct (decide (n = 0)) as [->|Hn]; [by rewrite lookup_singleton_eq|]. rewrite lookup_singleton_ne by congruence.
    destruct (Z.leb_spec 0 n); [|done]. destruct (Z.to_nat n) eqn:E; [lia|done].
  - apply sample_queue_ok.
Qed.

(** A request of each kind: the leaf "b" is known, the leaf "c" is new. *)
Definition sample_requests : list request :=
  [Submit sample_batch 30; Read 0 5; Integrate 10 100 40; Read 1 2; Submit sample_batch 50; Integrate 1 100 60].
Lemma sample_requests_allowed : all_allowed sample_requests sample_log.
Proof.
  assert (Forall leaf_ok sample_batch ∧ NoDup (lf_identity <$> sample_batch)) as Hb.
  { split; [repeat (apply Forall_cons; split); [..|constructor]; by split_and!; [|eexists|eexists]|].
    apply NoDup_cons. split; [by intros [=]%list_elem_of_singleton|apply NoDup_singleton]. }
  repeat split; try exact (proj1 Hb); try exact (proj2 Hb); vm_compute; congruence.
Qed.

(** The storage on that log. *)
Definition sample_serve : list request → M pg (list answer) :=
  serve_all no_fault (H := pair_codec) sample_nil_timestamp no_dirty tt sample_marshal sample_sort sample_tree pair_text.
Definition sample_read : Z → Z → M pg (list leaf) := read_range no_fault (H := pair_codec) tt sample_tree.

Lemma storage_refines_log_witness :
  ∃ w', sample_serve sample_requests sample_pg = (w', Return (a_run sample_requests sample_log).2) ∧
    length (a_entries (a_run sample_requests sample_log).1) = 3%nat.
Proof.
  destruct (storage_refines_log no_fault no_fault_none (H0 := pair_laws) sample_nil_timestamp no_dirty tt eq_refl sample_marshal
    sample_sort sample_sort_perm sample_tree eq_refl pair_text pair_makes_roots sample_requests sample_log sample_pg
    sample_represents sample_requests_allowed) as (w' & E & _).
  exists w'. split; [exact E|vm_compute; reflexivity].
Defined.

Lemma log_append_only_witness :
  ∃ w0 w1 w2 answers ls, sample_read 0 1 sample_pg = (w0, Return ls) ∧ Z.of_nat (length ls) = 1 ∧
    sample_serve sample_requests w0 = (w1, Return answers) ∧ sample_read 0 1 w1 = (w2, Return ls).
Proof.
  apply (log_append_only no_fault no_fault_none (H0 := pair_laws) sample_nil_timestamp no_dirty tt eq_refl sample_marshal
    sample_sort sample_sort_perm sample_tree eq_refl pair_text pair_makes_roots sample_requests sample_log sample_pg 0 1
    sample_represents sample_requests_allowed); vm_compute; congruence.
Defined.

Lemma submitted_leaf_readable_witness :
  ∃ w1 w2 answers position x,
    sample_serve (Submit [sample_leaf "c" "C" "third"] 30 :: replicate 2 (Integrate 1 100 40)) sample_pg = (w1, Return answers) ∧
    sample_read position 1 w1 = (w2, Return [x]) ∧ lf_value x = Some ("third" : bytes).
Proof.
  destruct (submitted_leaf_readable no_fault no_fault_none (H0 := pair_laws) sample_nil_timestamp no_dirty tt eq_refl sample_marshal
    sample_sort sample_sort_perm sample_tree eq_refl pair_text pair_makes_roots (sample_leaf "c" "C" "third") 30 2 1 100 40
    sample_log sample_pg) as (w1 & w2 & answers & position & x & E1 & E2 & _ & _ & Hv & _).
  - exact sample_represents.
  - split; [reflexivity|split; eexists; reflexivity].
  - vm_compute. reflexivity.
  - lia.
  - lia.
  - vm_compute. lia.
  - vm_compute. discriminate.
  - vm_compute. reflexivity.
  - exists w1, w2, answers, position, x. split; [exact E1|split; [exact E2|exact Hv]].
Defined.
