(* ===== verification/Logger.v ===== *)
(** * Log levels

    [internal/pkg/log/logger.go]: levels, the level of each module, and the
    specification text that sets and shows them.  Writing log lines is left
    to zap. *)

From S2P Require Import Prelude GoStrings GoFmt Errors.

Open Scope Z_scope.

(** ** Levels *)

Definition Level := Z.
Definition DEBUG : Level := -1.
Definition INFO : Level := 0.
Definition WARNING : Level := 1.
Definition ERROR : Level := 2.
Definition PANIC : Level := 4.
Definition FATAL : Level := 5.
Definition minLogLevel : Level := DEBUG.
Definition defaultLevel : Level := INFO.

Definition Level_String (l : Level) : bytes :=
  if l =? DEBUG then "DEBUG"
  else if l =? INFO then "INFO"
  else if l =? WARNING then "WARN"
  else if l =? ERROR then "ERROR"
  else if l =? PANIC then "PANIC"
  else if l =? FATAL then "FATAL"
  else ("Level(" : bytes) ++ FormatInt l ++ ")".

Definition one_of (s : bytes) (names : list bytes) : bool := existsb (beq s) names.
Definition ParseLevel (level : bytes) : result error Level :=
  if one_of level ["DEBUG" : bytes; "debug" : bytes] then Ok DEBUG
  else if one_of level ["INFO" : bytes; "info" : bytes] then Ok INFO
  else if one_of level ["WARN" : bytes; "warn" : bytes; "WARNING" : bytes; "warning" : bytes] then Ok WARNING
  else if one_of level ["ERROR" : bytes; "error" : bytes] then Ok ERROR
  else if one_of level ["PANIC" : bytes; "panic" : bytes] then Ok PANIC
  else if one_of level ["FATAL" : bytes; "fatal" : bytes] then Ok FATAL
  else Err (ENew "logger: invalid log level").

(** ** Modules *)

Abbreviation moduleLevels := (gmap bytes Level).
Definition defaultModuleName : bytes := [].

Definition levels_Get (l : moduleLevels) (module : bytes) : Level :=
  match l !! module with
  | Some level => level
  | None => default defaultLevel (l !! defaultModuleName)
  end.
Definition levels_Set (l : moduleLevels) (module : bytes) (level : Level) : moduleLevels := <[module := level]> l.
Definition SetDefault (l : moduleLevels) (level : Level) : moduleLevels := levels_Set l defaultModuleName level.
Definition isEnabled (l : moduleLevels) (module : bytes) (level : Level) : bool := levels_Get l module <=? level.

(** The two outputs of a logger. *)
Definition to_stdErr (l : moduleLevels) (module : bytes) (level : Level) : bool :=
  (ERROR <=? level) && isEnabled l module level.
Definition to_stdOut (l : moduleLevels) (module : bytes) (level : Level) : bool :=
  (level <? ERROR) && isEnabled l module level.

(** ** Specifications *)

(** The loop over the parts: the default found so far, and the modules. *)
Fixpoint read_spec (parts : list bytes) (dflt : option Level) : result error (option Level * list (bytes * Level)) :=
  match parts with
  | [] => Ok (dflt, [])
  | part :: rest =>
      if Contains part "=" then
        match Split part "=" with
        | module :: name :: _ =>
            level ← ParseLevel name;
            '(d, pairs) ← read_spec rest dflt;
            Ok (d, (module, level) :: pairs)
        | _ => Err (ENew "index out of range")
        end
      else
        match dflt with
        | Some _ => Err (ENew "multiple default values found")
        | None => level ← ParseLevel part; read_spec rest (Some level)
        end
  end.

Definition SetSpec (spec : bytes) (l : moduleLevels) : result error moduleLevels :=
  '(d, pairs) ← read_spec (Split spec ":") None;
  Ok (foldl (λ m p, levels_Set m p.1 p.2) (levels_Set l [] (default INFO d)) pairs).

(** [range_levels] is the order in which Go ranges over the map. *)
Definition GetSpec (range_levels : moduleLevels → list (bytes * Level)) (l : moduleLevels) : bytes :=
  let all := range_levels l in
  (all ≫= λ p, if beq p.1 [] then [] else p.1 ++ "=" ++ Level_String p.2 ++ ":") ++
  foldl (λ acc p, if beq p.1 [] then Level_String p.2 else acc) [] all.

(** ** Theorems *)

Definition valid_level (l : Level) : Prop := l ∈ [DEBUG; INFO; WARNING; ERROR; PANIC; FATAL].

Lemma ParseLevel_String l : valid_level l → ParseLevel (Level_String l) = Ok l.
Proof. unfold valid_level. rewrite !elem_of_cons, elem_of_nil. naive_solver. Qed.

Lemma Level_String_plain l : valid_level l → ":"%char ∉ Level_String l ∧ Contains (Level_String l) "=" = false.
Proof.
  unfold valid_level. rewrite !elem_of_cons, elem_of_nil.
  intros [->|[->|[->|[->|[->|[->|[]]]]]]]; (split; [by apply (bool_decide_unpack _); vm_compute|done]).
Qed.

Definition plain_module (m : bytes) : Prop := ":"%char ∉ m ∧ "="%char ∉ m.

(** One part of a specification. *)
Definition spec_part (p : bytes * Level) : bytes := p.1 ++ "=" ++ Level_String p.2.

Lemma read_spec_part p rest d :
  plain_module p.1 → valid_level p.2 →
  read_spec (spec_part p :: rest) d = '(d', pairs) ← read_spec rest d; Ok (d', p :: pairs).
Proof.
  intros [_ He] Hv. cbn [read_spec]. unfold spec_part.
  rewrite (proj2 (Contains_spec _ _)) by (eexists p.1, (Level_String p.2); done).
  change ((String.list_ascii_of_string "=" ++ Level_String p.2)) with ("="%char :: Level_String p.2).
  rewrite Split_app by done. rewrite Split_no_sep.
  - rewrite ParseLevel_String by done. destruct p. cbn. by destruct (read_spec rest d) as [[]|].
  - intros (a & b & E)%list_elem_of_split. apply Level_String_plain in Hv as [_ Hc]. rewrite Contains_false in Hc.
    by apply (Hc a b).
Qed.

Lemma read_spec_parts pairs dflt d :
  Forall (λ p, plain_module p.1 ∧ valid_level p.2) pairs → valid_level dflt → d = None →
  read_spec ((spec_part <$> pairs) ++ [Level_String dflt]) d = Ok (Some dflt, pairs).
Proof.
  intros Hp Hd ->. induction Hp as [|p pairs [Hm Hv] _ IH].
  - cbn [fmap list_fmap app read_spec]. rewrite (proj2 (Level_String_plain _ Hd)). cbn. by rewrite ParseLevel_String.
  - cbn [fmap list_fmap app]. rewrite read_spec_part by done. by rewrite IH.
Qed.

(** The text, as parts. *)
Definition modules_of (all : list (bytes * Level)) : list (bytes * Level) := List.filter (λ p, negb (beq p.1 [])) all.

Lemma spec_text all :
  (all ≫= λ p, if beq p.1 [] then [] else p.1 ++ "=" ++ Level_String p.2 ++ ":") =
  modules_of all ≫= λ p, spec_part p ++ ":".
Proof.
  induction all as [|p all IH]; [done|]. cbn [mbind list_bind modules_of List.filter].
  destruct (beq p.1 []); cbn [negb]; [exact IH|]. cbn [mbind list_bind]. unfold modules_of in IH. rewrite IH.
  unfold spec_part. by rewrite <-!app_assoc.
Qed.
Lemma Split_parts pairs last :
  Forall (λ p, plain_module p.1 ∧ valid_level p.2) pairs → ":"%char ∉ last →
  Split ((pairs ≫= λ p, spec_part p ++ ":") ++ last) ":" = (spec_part <$> pairs) ++ [last].
Proof.
  intros Hp Hl. induction Hp as [|p pairs [[Hm _] Hv] _ IH]; [by apply Split_no_sep|].
  cbn [mbind list_bind fmap list_fmap app]. rewrite <-!app_assoc. cbn [String.list_ascii_of_string app] in *.
  rewrite Split_app; [by rewrite IH|]. unfold spec_part. rewrite !not_elem_of_app.
  split_and!; [done|by apply (bool_decide_unpack _); vm_compute|by apply Level_String_plain].
Qed.

Lemma default_text all l acc :
  NoDup all.*1 → ([], l) ∈ all → foldl (λ acc p, if beq p.1 [] then Level_String p.2 else acc) acc all = Level_String l.
Proof.
  revert acc. induction all as [|p all IH]; intros acc Hn Hl; [by apply not_elem_of_nil in Hl|].
  cbn in *. apply NoDup_cons in Hn as [Hp Hn]. apply elem_of_cons in Hl as [<-|Hl].
  - cbn. clear IH. assert (∀ a, foldl (λ acc p, if beq p.1 [] then Level_String p.2 else acc) a all = a) as ->; [|done].
    induction all as [|q all IH]; intros a; [done|]. cbn in *. apply not_elem_of_cons in Hp as [Hq Hp].
    rewrite (proj2 (beq_false _ _)) by done. apply IH; [done|]. by apply NoDup_cons in Hn as [_ ?].
  - by apply IH.
Qed.

Lemma set_levels (pairs : list (bytes * Level)) (m : moduleLevels) :
  NoDup pairs.*1 → foldl (λ m p, levels_Set m p.1 p.2) m pairs = (list_to_map pairs : moduleLevels) ∪ m.
Proof.
  revert m. induction pairs as [|[k v] pairs IH]; intros m Hn; cbn.
  { by rewrite (left_id_L ∅ _). }
  cbn in Hn. apply NoDup_cons in Hn as [Hk Hn]. rewrite IH by done. unfold levels_Set.
  rewrite <-insert_union_r by (by apply not_elem_of_list_to_map). by rewrite insert_union_l.
Qed.

Lemma modules_map (l : moduleLevels) (range : list (bytes * Level)) :
  range ≡ₚ map_to_list l → (list_to_map (modules_of range) : moduleLevels) = delete [] l ∧ NoDup (modules_of range).*1.
Proof.
  intros Hp. assert (NoDup (modules_of range).*1) as Hn.
  { assert (NoDup range.*1) as Hr by (rewrite Hp; apply NoDup_fst_map_to_list). clear Hp. unfold modules_of.
    induction range as [|p range IH]; [constructor|]. cbn in *. apply NoDup_cons in Hr as [Hi Hr].
    destruct (negb _); [|auto]. cbn. constructor; [|auto]. contradict Hi.
    apply list_elem_of_fmap in Hi as (q & -> & Hq). rewrite list_elem_of_In, filter_In, <-list_elem_of_In in Hq.
    apply list_elem_of_fmap_2, Hq. }
  split; [|done]. apply map_eq. intros k. apply option_eq. intros v.
  rewrite <-elem_of_list_to_map by done. unfold modules_of.
  rewrite list_elem_of_In, filter_In, <-list_elem_of_In, Hp, elem_of_map_to_list, lookup_delete_Some. cbn.
  rewrite negb_true_iff, beq_false. naive_solver.
Qed.


(** What [GetSpec] shows while no default level is set is refused by
    [SetSpec]. *)
Lemma SetSpec_GetSpec_no_default (range_levels : moduleLevels → list (bytes * Level)) (l old : moduleLevels) :
  range_levels l ≡ₚ map_to_list l → l !! [] = None →
  (∀ module level, l !! module = Some level → plain_module module ∧ valid_level level) →
  SetSpec (GetSpec range_levels l) old = Err (ENew "logger: invalid log level").
Proof.
  intros Hp Hd Hl. unfold SetSpec, GetSpec. rewrite spec_text.
  assert (Forall (λ p, plain_module p.1 ∧ valid_level p.2) (modules_of (range_levels l))) as Hall.
  { apply Forall_forall. intros [m v] Hm. unfold modules_of in Hm. rewrite list_elem_of_In, filter_In, <-list_elem_of_In, Hp in Hm.
    destruct Hm as [Hm _]. apply Hl. by apply elem_of_map_to_list. }
  assert (∀ all acc, ([] : bytes) ∉ all.*1 → foldl (λ acc (p : bytes * Level), if beq p.1 [] then Level_String p.2 else acc) acc all = acc) as ->.
  { induction all as [|q all IH]; intros acc Hi; [done|]. cbn in *. apply not_elem_of_cons in Hi as [Hq Hi].
    rewrite (proj2 (beq_false _ _)) by done. by apply IH. }
  - rewrite Split_parts by (done || apply not_elem_of_nil). clear -Hall.
    induction Hall as [|p pairs [Hm Hv] _ IH]; [done|]. cbn [fmap list_fmap app]. rewrite read_spec_part by done.
    destruct (read_spec _ None) as [[]|e] eqn:E; [done|]. cbn in *. by simplify_eq.
  - rewrite Hp. intros ([k v] & E & Hk)%list_elem_of_fmap. apply elem_of_map_to_list in Hk. cbn in E. congruence.
Qed.

(** An enabled message goes to exactly one output, by its level. *)
Lemma isEnabled_outputs l module level :
  isEnabled l module level = to_stdErr l module level || to_stdOut l module level ∧
  to_stdErr l module level && to_stdOut l module level = false.
Proof.
  unfold to_stdErr, to_stdOut. rewrite Z.ltb_antisym. by destruct (ERROR <=? level), (isEnabled l module level).
Qed.

Definition sample_levels : moduleLevels := <[("vct" : bytes) := DEBUG]> {[([] : bytes) := WARNING]}.
Lemma sample_levels_ok module level : sample_levels !! module = Some level → plain_module module ∧ valid_level level.
Proof.
  unfold sample_levels. intros [[<- <-]|[_ [<- <-]%lookup_singleton_Some]]%lookup_insert_Some;
    (split; [split|]; apply (bool_decide_unpack _); vm_compute; reflexivity).
Qed.
