(* ===== verification/LoggerOutput.v ===== *)
(** * Log lines

    [internal/pkg/log]: the options of a logger, its encoder, the fields of a
    line ([fields.go]) and which output a line goes to.  The text of a line is
    zap's. *)

From S2P Require Import Prelude GoStrings GoUrl GoFmt Errors Logger.

Open Scope Z_scope.

(** ** Fields *)

(** The value of a field, by the constructor of zap; a reflected value is
    whatever its encoder makes of it. *)
Inductive FieldValue :=
  | VError (e : option error)
  | VString (s : bytes)
  | VByteString (s : bytes)
  | VInt (n : Z)
  | VInt64 (n : Z)
  | VUint64 (n : Z)
  | VDuration (nanos : Z)
  | VReflected (obj : bytes).
Record Field := mkField { fd_key : bytes; fd_value : FieldValue }.

Definition FieldServiceName : bytes := "service".
Definition FieldSize : bytes := "size".
Definition FieldAddress : bytes := "address".
Definition FieldBackoff : bytes := "backoff".
Definition FieldServiceEndpoint : bytes := "serviceEndpoint".
Definition FieldTreeID : bytes := "treeID".
Definition FieldLeaf : bytes := "leaf".
Definition FieldStore : bytes := "store".
Definition FieldCommand : bytes := "command".
Definition FieldVerifiableCredential : bytes := "vc".
Definition FieldSignature : bytes := "signature".
Definition FieldTimestamp : bytes := "timestamp".
Definition FieldPublicKey : bytes := "publicKey".

(** [zap.Error(nil)] is a field that is skipped. *)
Definition WithError (err : option error) : Field := mkField "error" (VError err).
Definition WithServiceName (value : bytes) : Field := mkField FieldServiceName (VString value).
Definition WithSize (value : Z) : Field := mkField FieldSize (VInt value).
Definition WithAddress (value : bytes) : Field := mkField FieldAddress (VString value).
Definition WithBackoff (value : Z) : Field := mkField FieldBackoff (VDuration value).
Definition WithServiceEndpoint (value : bytes) : Field := mkField FieldServiceEndpoint (VString value).
Definition WithTreeID (value : Z) : Field := mkField FieldTreeID (VInt64 value).
Definition WithStore (value : bytes) : Field := mkField FieldStore (VString value).
Definition WithCommand (value : bytes) : Field := mkField FieldCommand (VString value).
Definition WithVerifiableCredential (value : bytes) : Field := mkField FieldVerifiableCredential (VString value).
Definition WithSignature (value : bytes) : Field := mkField FieldSignature (VByteString value).
Definition WithTimestamp (value : Z) : Field := mkField FieldTimestamp (VUint64 value).

(** Objects are inlined: the marshaller adds one field. *)
Record ObjectMarshaller := NewObjectMarshaller { om_key : bytes; om_obj : bytes }.
Definition MarshalLogObject (m : ObjectMarshaller) : Field := mkField (om_key m) (VReflected (om_obj m)).
Definition WithLeaf (value : bytes) : Field := MarshalLogObject (NewObjectMarshaller FieldLeaf value).
Definition WithPublicKey (value : bytes) : Field := MarshalLogObject (NewObjectMarshaller FieldPublicKey value).

(** ** Options *)

(** Where lines are written. *)
Inductive WriteSyncer := os_Stdout | os_Stderr | OtherSyncer (id : nat).
#[export] Instance WriteSyncer_eq_dec : EqDecision WriteSyncer.
Proof. solve_decision. Defined.

Record options := mkOptions {
  opt_encoding : bytes; opt_stdOut : WriteSyncer; opt_stdErr : WriteSyncer; opt_fields : list Field
}.
Definition Option : Type := options → options.
Definition WithStdOut (stdOut : WriteSyncer) : Option := λ o, mkOptions (opt_encoding o) stdOut (opt_stdErr o) (opt_fields o).
Definition WithStdErr (stdErr : WriteSyncer) : Option := λ o, mkOptions (opt_encoding o) (opt_stdOut o) stdErr (opt_fields o).
Definition WithFields (fields : list Field) : Option := λ o, mkOptions (opt_encoding o) (opt_stdOut o) (opt_stdErr o) fields.
Definition WithEncoding (encoding : bytes) : Option := λ o, mkOptions encoding (opt_stdOut o) (opt_stdErr o) (opt_fields o).

Definition getOptions (DefaultEncoding : bytes) (opts : list Option) : options :=
  foldl (λ o opt, opt o) (mkOptions DefaultEncoding os_Stdout os_Stderr []) opts.

(** ** Encoders *)

Inductive LevelEncoder := CapitalLevel | LowercaseLevel.
Inductive NameEncoder := PlainName | BracketedName.
(** The keys are those of both encoders. *)
Record EncoderConfig := mkEncoderConfig {
  TimeKey : bytes; LevelKey : bytes; NameKey : bytes; CallerKey : bytes; MessageKey : bytes; StacktraceKey : bytes;
  EncodeLevel : LevelEncoder; EncodeName : NameEncoder
}.
Inductive Encoder := JSONEncoder (cfg : EncoderConfig) | ConsoleEncoder (cfg : EncoderConfig).

Definition Console : bytes := "console".
Definition JSON : bytes := "json".

Definition encoder_config (level : LevelEncoder) (name : NameEncoder) : EncoderConfig :=
  mkEncoderConfig "time" "level" "logger" "caller" "msg" "stacktrace" level name.
(** [None] is the panic for another encoding.  [ToLower] is that of ASCII: no
    other character becomes a letter of the two names. *)
Definition newZapEncoder (encoding : bytes) : option Encoder :=
  let e := ToLower encoding in
  if beq e JSON then Some (JSONEncoder (encoder_config LowercaseLevel PlainName))
  else if beq e Console then Some (ConsoleEncoder (encoder_config CapitalLevel BracketedName))
  else None.

(** ** Loggers *)

Record Log := mkLog { lg_module : bytes; lg_encoder : Encoder; lg_stdOut : WriteSyncer; lg_stdErr : WriteSyncer; lg_fields : list Field }.

Definition New (DefaultEncoding module : bytes) (opts : list Option) : option Log :=
  let o := getOptions DefaultEncoding opts in
  encoder ← newZapEncoder (opt_encoding o);
  Some (mkLog module encoder (opt_stdOut o) (opt_stdErr o) (opt_fields o)).

Definition IsEnabled (levels : moduleLevels) (l : Log) (level : Level) : bool := isEnabled levels (lg_module l) level.

(** The names at the top of the packages, [pkg/log] included. *)
Definition SetLevel (module : bytes) (level : Level) (levels : moduleLevels) : moduleLevels := levels_Set levels module level.
Definition SetDefaultLevel (level : Level) (levels : moduleLevels) : moduleLevels := SetDefault levels level.
Definition GetLevel (module : bytes) (levels : moduleLevels) : Level := levels_Get levels module.

(** A line. *)
Record Entry := mkEntry { en_encoder : Encoder; en_level : Level; en_module : bytes; en_msg : bytes; en_fields : list Field }.

(** A message through the tee of [newZap]: each core writes it if it is
    enabled for the level. *)
Definition write (levels : moduleLevels) (l : Log) (level : Level) (msg : bytes) (fields : list Field) : list (WriteSyncer * Entry) :=
  let entry := mkEntry (lg_encoder l) level (lg_module l) msg (lg_fields l ++ fields) in
  (if to_stdErr levels (lg_module l) level then [(lg_stdErr l, entry)] else []) ++
  (if to_stdOut levels (lg_module l) level then [(lg_stdOut l, entry)] else []).

(** ** Theorems *)

(** A message is written exactly when its level is enabled for the
    module, once, with the fields of the logger before its own, and to the
    error output exactly for errors and worse; the level that was set last
    for the module decides. *)
Theorem message_written_once DefaultEncoding module opts l levels level set msg fields :
  New DefaultEncoding module opts = Some l →
  let o := getOptions DefaultEncoding opts in
  let levels' := SetLevel module set levels in
  write levels' l level msg fields =
  if set <=? level then
    [(if ERROR <=? level then opt_stdErr o else opt_stdOut o,
      mkEntry (lg_encoder l) level module msg (opt_fields o ++ fields))]
  else [].
Proof.
  intros Hl o levels'. unfold New in Hl. fold o in Hl. apply bind_Some in Hl as (enc & _ & [= <-]).
  unfold write, to_stdErr, to_stdOut, isEnabled, levels_Get. cbn. unfold levels', SetLevel, levels_Set.
  rewrite lookup_insert_eq. destruct (set <=? level); cbn; [|by rewrite !andb_false_r]. rewrite !andb_true_r.
  rewrite Z.ltb_antisym. by destruct (ERROR <=? level).
Qed.

(** The last option of a kind decides. *)
Lemma getOptions_last DefaultEncoding opts f :
  opt_fields (getOptions DefaultEncoding (opts ++ [WithFields f])) = f.
Proof. unfold getOptions. by rewrite foldl_app. Qed.

(** Every spelling of the two encodings is accepted, and nothing else. *)
Lemma newZapEncoder_total encoding :
  is_Some (newZapEncoder encoding) ↔ ToLower encoding = JSON ∨ ToLower encoding = Console.
Proof.
  unfold newZapEncoder, beq, is_Some. repeat case_bool_decide; naive_solver.
Qed.

(** The keys of the fields are distinct, and none is a key of the encoder. *)
Definition field_keys : list bytes :=
  [FieldServiceName; FieldSize; FieldAddress; FieldBackoff; FieldServiceEndpoint; FieldTreeID; FieldLeaf; FieldStore; FieldCommand;
   FieldVerifiableCredential; FieldSignature; FieldTimestamp; FieldPublicKey; fd_key (WithError None);
   TimeKey (encoder_config CapitalLevel PlainName); LevelKey (encoder_config CapitalLevel PlainName);
   NameKey (encoder_config CapitalLevel PlainName); CallerKey (encoder_config CapitalLevel PlainName);
   MessageKey (encoder_config CapitalLevel PlainName); StacktraceKey (encoder_config CapitalLevel PlainName)].
Lemma field_keys_distinct : NoDup field_keys.
Proof. apply (bool_decide_unpack _). vm_compute. exact I. Qed.

Lemma message_written_once_witness :
  ∃ l, New Console "vct" [WithFields [WithServiceName "vct"]] = Some l ∧
    write (SetLevel "vct" WARNING ∅) l ERROR "failed" [WithSize 3] =
    [(os_Stderr, mkEntry (lg_encoder l) ERROR "vct" "failed" [WithServiceName "vct"; WithSize 3])].
Proof.
  eexists. split; [reflexivity|].
  apply (message_written_once Console "vct" [WithFields [WithServiceName "vct"]] _ ∅ ERROR WARNING "failed" [WithSize 3]).
  reflexivity.
Defined.
