(* ===== verification/LoggerThreads.v ===== *)
(** * Log levels shared by goroutines

    The methods of [moduleLevels] in [internal/pkg/log/logger.go] as the
    accesses to the map of levels and the operations on its lock, run by
    several goroutines in any order. *)

From S2P Require Import Prelude.

(** ** Steps of a goroutine *)

(** An access to the map lasts from its beginning to its end. *)
Inductive micro := RLock | RUnlock | Lock | Unlock | BeginRead | EndRead | BeginWrite | EndWrite.
#[export] Instance micro_eq_dec : EqDecision micro.
Proof. solve_decision. Defined.

(** What the methods do, in order: [Get], [Set] (also for [SetDefault]) and
    [All], which gives up the lock before it ranges over the map. *)
Inductive method := MGet | MSet | MAll.
Definition steps_of (m : method) : list micro :=
  match m with
  | MGet => [RLock; BeginRead; EndRead; RUnlock]
  | MSet => [Lock; BeginWrite; EndWrite; Unlock]
  | MAll => [RLock; RUnlock; BeginRead; EndRead]
  end.

(** A goroutine: what it holds and does, and what is left to do. *)
Record thread := mkThread {
  holds_read : bool; holds_write : bool; reading : bool; writing : bool; code : list micro
}.
Definition starting (methods : list method) : thread := mkThread false false false false (methods ≫= steps_of).

(** One step; a lock waits for the others. *)
Definition after (m : micro) (t : thread) (rest : list micro) : thread :=
  match m with
  | RLock => mkThread true (holds_write t) (reading t) (writing t) rest
  | RUnlock => mkThread false (holds_write t) (reading t) (writing t) rest
  | Lock => mkThread (holds_read t) true (reading t) (writing t) rest
  | Unlock => mkThread (holds_read t) false (reading t) (writing t) rest
  | BeginRead => mkThread (holds_read t) (holds_write t) true (writing t) rest
  | EndRead => mkThread (holds_read t) (holds_write t) false (writing t) rest
  | BeginWrite => mkThread (holds_read t) (holds_write t) (reading t) true rest
  | EndWrite => mkThread (holds_read t) (holds_write t) (reading t) false rest
  end.
Definition enabled (m : micro) (others : list thread) : Prop :=
  match m with
  | RLock => Forall (λ t, holds_write t = false) others
  | Lock => Forall (λ t, holds_write t = false ∧ holds_read t = false) others
  | _ => True
  end.
Inductive step : list thread → list thread → Prop :=
| step_thread before t m rest later :
    code t = m :: rest → enabled m (before ++ t :: later) →
    step (before ++ t :: later) (before ++ after m t rest :: later).

(** A data race: a write during an access of another goroutine. *)
Definition race (ts : list thread) : Prop :=
  ∃ i j t u, i ≠ j ∧ ts !! i = Some t ∧ ts !! j = Some u ∧ writing t = true ∧ (reading u || writing u) = true.

(** ** Lock discipline *)

(** The code accesses the map only under the lock that allows it. *)
Fixpoint disciplined (r w rd wr : bool) (ms : list micro) : bool :=
  match ms with
  | [] => true
  | RLock :: rest => negb r && negb w && disciplined true w rd wr rest
  | RUnlock :: rest => negb rd && disciplined false w rd wr rest
  | Lock :: rest => negb r && negb w && disciplined r true rd wr rest
  | Unlock :: rest => negb rd && negb wr && disciplined r false rd wr rest
  | BeginRead :: rest => (r || w) && disciplined r w true wr rest
  | EndRead :: rest => disciplined r w false wr rest
  | BeginWrite :: rest => w && disciplined r w rd true rest
  | EndWrite :: rest => disciplined r w rd false rest
  end.
Record thread_ok (t : thread) : Prop := {
  ok_code : disciplined (holds_read t) (holds_write t) (reading t) (writing t) (code t) = true;
  ok_reading : reading t = true → (holds_read t || holds_write t) = true;
  ok_writing : writing t = true → holds_write t = true
}.
(** Whoever holds the lock for writing holds it alone. *)
Definition exclusive (ts : list thread) : Prop :=
  ∀ i j t u, i ≠ j → ts !! i = Some t → ts !! j = Some u → holds_write t = true →
    holds_read u = false ∧ holds_write u = false.
Definition all_ok (ts : list thread) : Prop := Forall thread_ok ts ∧ exclusive ts.

Lemma all_ok_no_race ts : all_ok ts → ¬ race ts.
Proof.
  intros [Ht Hx] (i & j & t & u & Hij & Hi & Hj & Hw & Hu). rewrite Forall_lookup in Ht.
  destruct (Hx i j t u Hij Hi Hj (ok_writing t (Ht _ _ Hi) Hw)) as [Hr Hwu].
  destruct (reading u) eqn:Er; [pose proof (ok_reading u (Ht _ _ Hj) Er) as E; by rewrite Hr, Hwu in E|].
  cbn in Hu. pose proof (ok_writing u (Ht _ _ Hj) Hu). congruence.
Qed.

Lemma after_ok t m rest : code t = m :: rest → thread_ok t → thread_ok (after m t rest).
Proof.
  intros Hc [Hd Hr Hw]. rewrite Hc in Hd. destruct t as [r w rd wr c]. cbn in *.
  destruct m; cbn in Hd; split; cbn; destruct r, w, rd, wr; cbn in *; done || auto.
Qed.
Lemma after_locks t m rest :
  (holds_write (after m t rest) = true → holds_write t = true ∨ m = Lock) ∧
  (holds_read (after m t rest) = true → holds_read t = true ∨ m = RLock).
Proof. destruct m; cbn; naive_solver. Qed.

Lemma step_ok ts ts' : step ts ts' → all_ok ts → all_ok ts'.
Proof.
  intros [before t m rest later Hc He] [Ht Hx]. split.
  - rewrite Forall_app, Forall_cons in *. destruct Ht as (? & ? & ?). split_and!; [done|by apply after_ok|done].
  - set (n := length before).
    assert (∀ i u, (before ++ after m t rest :: later) !! i = Some u →
      (i = n ∧ u = after m t rest) ∨ (i ≠ n ∧ (before ++ t :: later) !! i = Some u)) as Hlook.
    { intros i u Hi. destruct (decide (i = n)) as [->|Hne].
      - left. split; [done|]. rewrite list_lookup_middle in Hi by done. by injection Hi.
      - right. split; [done|]. rewrite lookup_app in *. destruct (before !! i) eqn:E; [done|]. apply lookup_ge_None in E.
        destruct (i - length before)%nat eqn:Ei; [unfold n in *; lia|done]. }
    assert ((before ++ t :: later) !! n = Some t) as Hn by (by apply list_lookup_middle).
    destruct (after_locks t m rest) as [Hlw Hlr].
    intros i j x u Hij Hi Hj Hwx. apply Hlook in Hi as [[-> ->]|[Hi Hix]], Hj as [[-> ->]|[Hj Hju]]; [done|..].
    + destruct (Hlw Hwx) as [Hw| ->]; [by apply (Hx n j t u)|]. cbn in He. rewrite Forall_lookup in He.
      destruct (He _ _ Hju). done.
    + destruct (Hx i n x t Hij Hix Hn Hwx) as [Hrt Hwt]. split.
      * destruct (holds_read (after m t rest)) eqn:E; [|done]. destruct (Hlr eq_refl) as [| ->]; [congruence|].
        cbn in He. rewrite Forall_lookup in He. specialize (He _ _ Hix). congruence.
      * destruct (holds_write (after m t rest)) eqn:E; [|done]. destruct (Hlw eq_refl) as [| ->]; [congruence|].
        cbn in He. rewrite Forall_lookup in He. destruct (He _ _ Hix). congruence.
    + by apply (Hx i j x u).
Qed.

Lemma disciplined_methods ms : MAll ∉ ms → disciplined false false false false (ms ≫= steps_of) = true.
Proof.
  induction ms as [|[] ms IH]; intros Hin; [done|..]; cbn.
  - apply IH. intros H. apply Hin. by right.
  - apply IH. intros H. apply Hin. by right.
  - destruct Hin. by left.
Qed.

(** C34: The levels of modules are shared safely by [Get] and [Set]: however
    the steps of any number of goroutines interleave, no goroutine writes the
    map while another accesses it.  [All] is not safe: it ranges over the map
    after giving up the lock, and a [Set] of another goroutine can write
    meanwhile. *)
Theorem levels_race_free :
  (∀ methods ts, Forall (λ ms, MAll ∉ ms) methods → rtc step (starting <$> methods) ts → ¬ race ts) ∧
  (∃ ts, rtc step (starting <$> [[MAll]; [MSet]]) ts ∧ race ts).
Proof.
  split.
  - intros methods ts Hm Hsteps. apply all_ok_no_race. assert (all_ok (starting <$> methods)) as Hok.
    { split.
      - apply Forall_fmap. eapply Forall_impl; [exact Hm|]. intros ms Hms. split; cbn; [by apply disciplined_methods|done..].
      - intros i j t u _ Hi _ Hw. rewrite list_lookup_fmap in Hi. apply fmap_Some in Hi as (ms & _ & ->). done. }
    clear Hm. induction Hsteps as [|x y z Hxy _ IH]; [done|]. apply IH. by eapply step_ok.
  - exists [mkThread false false true false [EndRead]; mkThread false true false true [EndWrite; Unlock]].
    split; [|by eexists 1%nat, 0%nat, _, _].
    set (set0 := starting [MSet]). set (all2 := mkThread false false true false [EndRead]).
    eapply rtc_l; [apply (step_thread [] (starting [MAll]) RLock [RUnlock; BeginRead; EndRead] [set0]);
      [done|by repeat constructor]|].
    eapply rtc_l; [apply (step_thread [] (mkThread true false false false [RUnlock; BeginRead; EndRead]) RUnlock
      [BeginRead; EndRead] [set0]); done|].
    eapply rtc_l; [apply (step_thread [] (mkThread false false false false [BeginRead; EndRead]) BeginRead [EndRead] [set0]); done|].
    eapply rtc_l; [apply (step_thread [all2] set0 Lock [BeginWrite; EndWrite; Unlock] []); [done|by repeat constructor]|].
    eapply rtc_l; [apply (step_thread [all2] (mkThread false true false false [BeginWrite; EndWrite; Unlock]) BeginWrite
      [EndWrite; Unlock] []); done|]. apply rtc_refl.
Qed.
