(* ===== verification/CertPool.v ===== *)
(** * Certificate pools

    [internal/pkg/tlsutil]: a pool of certificates over [x509.CertPool],
    filled through a queue, and [GetCertPool], which fills one from files.
    The calls run one after the other; locks are outside the model. *)

From S2P Require Import Prelude GoStrings Errors.

Open Scope nat_scope.

(** A certificate behind a pointer; two are [Equal] if their bytes are. *)
Record Certificate := mkCert { cert_ptr : nat; RawSubject : bytes; Raw : bytes }.

(** [x509.CertPool]: the certificates by their bytes, each once. *)
Definition x509Pool := list bytes.
Definition AddCert (pool : x509Pool) (c : Certificate) : x509Pool :=
  if bool_decide (Raw c ∈ pool) then pool else pool ++ [Raw c].

Record CertPool := mkCertPool {
  certPool : x509Pool;
  certs : list Certificate;
  certsByName : gmap bytes (list nat);
  dirty : bool;
  systemCertPool : bool
}.

(** [x509.SystemCertPool] at the time of the call. *)
Definition loadSystemCertPool (system : result error x509Pool) (useSystemCertPool : bool) : result error x509Pool :=
  if useSystemCertPool then system else Ok [].

Definition NewCertPool (system : result error x509Pool) (useSystemCertPool : bool) : result error CertPool :=
  c ← loadSystemCertPool system useSystemCertPool;
  Ok (mkCertPool c [] ∅ false useSystemCertPool).

(** The certificate is in the queue already; [None] is a panic. *)
Fixpoint any_equal (cs : list Certificate) (possibilities : list nat) (c : Certificate) : option bool :=
  match possibilities with
  | [] => Some false
  | p :: rest =>
      q ← cs !! p;
      if bool_decide (Raw q = Raw c) then Some true else any_equal cs rest c
  end.

(** Keeps the first of each pointer. *)
Fixpoint removeDuplicates (encountered : list nat) (cs : list Certificate) : list Certificate :=
  match cs with
  | [] => []
  | c :: rest =>
      if bool_decide (cert_ptr c ∈ encountered) then removeDuplicates encountered rest
      else c :: removeDuplicates (cert_ptr c :: encountered) rest
  end.

(** A nil pointer is [None]. *)
Fixpoint select_new (p : CertPool) (cs : list (option Certificate)) : option (list Certificate) :=
  match cs with
  | [] => Some []
  | None :: rest => select_new p rest
  | Some c :: rest =>
      known ← any_equal (certs p) (default [] (certsByName p !! RawSubject c)) c;
      l ← select_new p rest;
      Some (if known : bool then l else c :: l)
  end.
Definition filterCerts (p : CertPool) (cs : list (option Certificate)) : option (list Certificate) :=
  removeDuplicates [] <$> select_new p cs.

Definition store (p : CertPool) (c : Certificate) : CertPool :=
  mkCertPool (certPool p) (certs p ++ [c])
    (<[RawSubject c := default [] (certsByName p !! RawSubject c) ++ [length (certs p)]]> (certsByName p))
    (dirty p) (systemCertPool p).

Definition set_dirty (b : bool) (p : CertPool) : CertPool :=
  mkCertPool (certPool p) (certs p) (certsByName p) b (systemCertPool p).

Definition Add (p : CertPool) (cs : list (option Certificate)) : option CertPool :=
  if bool_decide (cs = []) then Some p
  else
    new ← filterCerts p cs;
    Some (if bool_decide (new = []) then p else set_dirty true (foldl store p new)).

Definition swapCertPool (system : result error x509Pool) (p : CertPool) : result error CertPool :=
  pool ← loadSystemCertPool system (systemCertPool p);
  Ok (mkCertPool (foldl AddCert pool (certs p)) (certs p) (certsByName p) (dirty p) (systemCertPool p)).

(** [Get] clears the flag before it swaps. *)
Definition Get (system : result error x509Pool) (p : CertPool) : CertPool * result error x509Pool :=
  if dirty p then
    match swapCertPool system (set_dirty false p) with
    | Ok p' => (p', Ok (certPool p'))
    | Err e => (set_dirty false p, Err e)
    end
  else (p, Ok (certPool p)).

(** ** Certificates from files *)

Section files.
(** [ioutil.ReadFile(path.Clean(name))], [pem.Decode] and
    [x509.ParseCertificate]; every parsed certificate is a new pointer. *)
Context (read_file : bytes → result error bytes) (pem_Decode : bytes → option bytes).
Context (ParseCertificate : bytes → result error (bytes * bytes)).

Definition load_cert (name : bytes) : result error (bytes * bytes) :=
  match read_file name with
  | Err e => Err (EWrap "failed to read cert: " e [])
  | Ok text =>
      match pem_Decode text with
      | None => Err (ENew "failed to decode pem")
      | Some block =>
          match ParseCertificate block with
          | Err e => Err (EWrap "failed to parse cert: " e [])
          | Ok c => Ok c
          end
      end
  end.

(** [None] is a panic. *)
Fixpoint add_files (p : CertPool) (next : nat) (names : list bytes) : option (result error CertPool) :=
  match names with
  | [] => Some (Ok p)
  | name :: rest =>
      match load_cert name with
      | Err e => Some (Err e)
      | Ok (subject, raw) =>
          p' ← Add p [Some (mkCert next subject raw)];
          add_files p' (S next) rest
      end
  end.

Definition GetCertPool (system1 system2 : result error x509Pool) (useSystemCertPool : bool) (tlsCACerts : list bytes) :
    option (result error x509Pool) :=
  match NewCertPool system1 useSystemCertPool with
  | Err e => Some (Err (EWrap "failed to create new cert pool: " e []))
  | Ok p =>
      r ← add_files p 0 tlsCACerts;
      match r with
      | Err e => Some (Err e)
      | Ok p' => Some (Get system2 p').2
      end
  end.
End files.

(** ** The index *)

(** The index by name has exactly the positions of the certificates. *)
Definition index_ok (p : CertPool) : Prop :=
  ∀ name i, i ∈ default [] (certsByName p !! name) ↔ RawSubject <$> certs p !! i = Some name.

(** A clean pool has every queued certificate. *)
Definition pool_ok (p : CertPool) : Prop := dirty p = false → ∀ c, c ∈ certs p → Raw c ∈ certPool p.

Lemma any_equal_total cs ps c :
  (∀ i, i ∈ ps → is_Some (cs !! i)) →
  ∃ b, any_equal cs ps c = Some b ∧ (b = true ↔ ∃ i q, i ∈ ps ∧ cs !! i = Some q ∧ Raw q = Raw c).
Proof.
  induction ps as [|p ps IH]; intros Hi; cbn.
  { exists false. split; [done|]. split; [done|]. by intros (i & q & ?%not_elem_of_nil & _). }
  destruct (Hi p) as [q Hq]; [by left|]. rewrite Hq. cbn. case_bool_decide as Er.
  - exists true. split; [done|]. split; [|done]. intros _. exists p, q. split_and!; [by left|done..].
  - destruct IH as (b & -> & Hb); [intros; apply Hi; by right|]. exists b. split; [done|]. rewrite Hb. split.
    + intros (i & q' & ? & ?). exists i, q'. split; [by right|done].
    + intros (i & q' & [->|Hin]%elem_of_cons & Hq' & E); [congruence|]. eauto.
Qed.

(** A certificate is recognised exactly if it is queued under its subject. *)
Lemma known_spec p c :
  index_ok p →
  ∃ b, any_equal (certs p) (default [] (certsByName p !! RawSubject c)) c = Some b ∧
    (b = true ↔ ∃ q, q ∈ certs p ∧ RawSubject q = RawSubject c ∧ Raw q = Raw c).
Proof.
  intros Hi. destruct (any_equal_total (certs p) (default [] (certsByName p !! RawSubject c)) c) as (b & Hb & Eb).
  { intros i [q [Hq _]]%Hi%fmap_Some. by eexists. }
  exists b. split; [done|]. rewrite Eb. split.
  - intros (i & q & Hin%Hi & Hq & E). rewrite Hq in Hin. cbn in Hin. exists q. split; [by eapply list_elem_of_lookup_2|].
    split; [congruence|done].
  - intros (q & [i Hq]%list_elem_of_lookup & Es & E). exists i, q. split; [|done]. apply Hi. rewrite Hq. cbn. by rewrite Es.
Qed.

Lemma store_index p c : index_ok p → index_ok (store p c).
Proof.
  unfold index_ok. intros Hi name i. unfold store. cbn. rewrite lookup_app. destruct (decide (RawSubject c = name)) as [<-|Hne].
  - rewrite lookup_insert_eq. cbn. rewrite elem_of_app, list_elem_of_singleton, Hi.
    destruct (certs p !! i) as [q|] eqn:E; cbn.
    + apply lookup_lt_Some in E. split; [intros [?|?]; [done|lia]|by left].
    + apply lookup_ge_None in E. destruct (decide (i = length (certs p))) as [->|].
      * rewrite Nat.sub_diag. cbn. split; [done|by right].
      * split; [by intros [?|?]|]. destruct (i - length (certs p)) as [|k] eqn:Ek; [lia|]. by destruct k.
  - rewrite lookup_insert_ne by done. rewrite Hi. destruct (certs p !! i) as [q|] eqn:E; [done|]. cbn.
    destruct (i - length (certs p)) as [|[|k]]; cbn; split; congruence.
Qed.

Lemma fold_store_fields new p :
  certPool (foldl store p new) = certPool p ∧ certs (foldl store p new) = certs p ++ new ∧
  systemCertPool (foldl store p new) = systemCertPool p.
Proof.
  revert p. induction new as [|c new IH]; intros p; cbn; [by rewrite app_nil_r|].
  destruct (IH (store p c)) as (-> & -> & ->). cbn. by rewrite <-app_assoc.
Qed.
Lemma fold_store_index new p : index_ok p → index_ok (foldl store p new).
Proof. revert p. induction new as [|c new IH]; intros p Hi; cbn; [done|]. by apply IH, store_index. Qed.

(** The new certificates among those given: those not queued yet. *)
Lemma select_new_spec p cs :
  index_ok p →
  ∃ l, select_new p cs = Some l ∧ ∀ c, c ∈ l ↔ Some c ∈ cs ∧ ¬ ∃ q, q ∈ certs p ∧ RawSubject q = RawSubject c ∧ Raw q = Raw c.
Proof.
  intros Hi. induction cs as [|[c|] cs (l & Hl & IH)]; cbn.
  - exists []. split; [done|]. intros c. rewrite !elem_of_nil. naive_solver.
  - destruct (known_spec p c Hi) as (b & -> & Hb). cbn. rewrite Hl. cbn. eexists. split; [done|]. intros x.
    destruct b; [|rewrite elem_of_cons]; rewrite IH, elem_of_cons; naive_solver.
  - exists l. split; [done|]. intros x. rewrite IH, elem_of_cons. naive_solver.
Qed.

(** Dropping repeated pointers loses no certificate. *)
Lemma removeDuplicates_Raw enc cs c :
  (∀ a b, a ∈ cs → b ∈ cs → cert_ptr a = cert_ptr b → a = b) →
  c ∈ removeDuplicates enc cs ↔ c ∈ cs ∧ cert_ptr c ∉ enc.
Proof.
  revert enc. induction cs as [|x cs IH]; intros enc Hp; cbn; [rewrite elem_of_nil; naive_solver|].
  assert (∀ a b, a ∈ cs → b ∈ cs → cert_ptr a = cert_ptr b → a = b) as Hp' by (intros; apply Hp; [by right..|done]).
  case_bool_decide as Hx; rewrite ?elem_of_cons, IH, ?elem_of_cons by done; [naive_solver|].
  destruct (decide (cert_ptr c = cert_ptr x)) as [E|]; [|naive_solver].
  split; [naive_solver|]. intros [[->|Hc] ?]; [by left|]. left. apply Hp; [by right|by left|done].
Qed.

Lemma fold_AddCert pool cs r : r ∈ foldl AddCert pool cs ↔ r ∈ pool ∨ ∃ c, c ∈ cs ∧ Raw c = r.
Proof.
  revert pool. induction cs as [|c cs IH]; intros pool; cbn.
  { split; [by left|]. intros [?|(c & ?%not_elem_of_nil & _)]; done. }
  rewrite IH. unfold AddCert. case_bool_decide.
  - split; [intros [?|(x & ? & <-)]; [by left|right; exists x; split; [by right|done]]|].
    intros [?|(x & [->|?]%elem_of_cons & <-)]; [by left|by left|]. right. eauto.
  - rewrite elem_of_app, list_elem_of_singleton. split.
    + intros [[?| ->]|(x & ? & <-)]; [by left|right; exists c; split; [by left|done]|]. right. exists x. split; [by right|done].
    + intros [?|(x & [->|?]%elem_of_cons & <-)]; [by left; left|by left; right|]. right. eauto.
Qed.

(** ** Theorems *)

(** Certificates are told apart by their bytes; a pointer has one target. *)
Definition coherent (cs : list Certificate) : Prop :=
  ∀ a b, a ∈ cs → b ∈ cs → (cert_ptr a = cert_ptr b → a = b) ∧ (Raw a = Raw b → RawSubject a = RawSubject b).

(** [Add] does not panic, keeps the index of names exact, and queues
    every certificate given to it that is not queued yet, and no other. *)
Lemma Add_correct p cs :
  index_ok p → pool_ok p → coherent (certs p ++ omap id cs) →
  ∃ p', Add p cs = Some p' ∧ index_ok p' ∧ pool_ok p' ∧ (∀ c, c ∈ certs p' → c ∈ certs p ++ omap id cs) ∧
    ∀ r, r ∈ Raw <$> certs p' ↔ r ∈ Raw <$> certs p ∨ r ∈ Raw <$> omap id cs.
Proof.
  intros Hi Hp Hc. unfold Add. case_bool_decide as Hne.
  { subst. exists p. split_and!; [done..|cbn; by rewrite app_nil_r|]. intros r. cbn. rewrite elem_of_nil. naive_solver. }
  destruct (select_new_spec p cs Hi) as (l & Hl & Hin). unfold filterCerts. rewrite Hl. cbn.
  set (new := removeDuplicates [] l).
  assert (∀ c, c ∈ new ↔ Some c ∈ cs ∧ ¬ ∃ q, q ∈ certs p ∧ RawSubject q = RawSubject c ∧ Raw q = Raw c) as Hnew.
  { intros c. unfold new. rewrite removeDuplicates_Raw, Hin; [split; [by intros [? _]|split; [done|apply not_elem_of_nil]]|].
    intros a b [Ha _]%Hin [Hb _]%Hin. apply Hc; apply elem_of_app; right; apply list_elem_of_omap; eauto. }
  assert (∀ r, r ∈ Raw <$> certs p ++ new ↔ r ∈ Raw <$> certs p ∨ r ∈ Raw <$> omap id cs) as Hraw.
  { intros r. rewrite fmap_app, elem_of_app. split; (intros [?|(c & -> & H)%list_elem_of_fmap]; [by left|]).
    - right. apply list_elem_of_fmap_2, list_elem_of_omap. apply Hnew in H as [? _]. eauto.
    - apply list_elem_of_omap in H as (o & Ho & E). cbn in E. subst o.
      destruct (decide (Raw c ∈ Raw <$> certs p)) as [|Hn]; [by left|]. right. apply list_elem_of_fmap_2, Hnew. split; [done|].
      intros (q & Hq & _ & E). apply Hn. rewrite <-E. by apply list_elem_of_fmap_2. }
  destruct (fold_store_fields new p) as (Hf1 & Hf2 & Hf3).
  case_bool_decide as Hnn.
  - exists p. split_and!; [done..|by intros; apply elem_of_app; left|]. intros r. rewrite <-Hraw, Hnn. by rewrite app_nil_r.
  - exists (set_dirty true (foldl store p new)). split_and!; [done|by apply (fold_store_index new)|done| |].
    + intros c. cbn. rewrite Hf2, !elem_of_app. intros [?|[? _]%Hnew]; [by left|]. right. apply list_elem_of_omap. eauto.
    + intros r. cbn. by rewrite Hf2.
Qed.

(** [Get] returns a pool that trusts the system's certificates, if they
    are wanted, and every certificate queued, and nothing else, when the
    queue was just filled and the system's certificates load. *)
Lemma Get_complete p system pool :
  dirty p = true → loadSystemCertPool system (systemCertPool p) = Ok pool →
  ∃ p' result, Get system p = (p', Ok result) ∧ certPool p' = result ∧ dirty p' = false ∧ certs p' = certs p ∧
    ∀ r, r ∈ result ↔ r ∈ pool ∨ r ∈ Raw <$> certs p.
Proof.
  intros Hd Hl. unfold Get, swapCertPool. rewrite Hd. cbn. rewrite Hl. cbn. eexists _, _. split_and!; [done..|].
  intros r. rewrite fold_AddCert. f_equiv. rewrite list_elem_of_fmap. naive_solver.
Qed.

(** When the system's certificates fail to load, [Get] reports the
    error once; the next [Get] returns the old pool without the queued
    certificates and without an error. *)
Lemma Get_after_failure p system e system2 :
  dirty p = true → loadSystemCertPool system (systemCertPool p) = Err e →
  let p1 := (Get system p).1 in
  (Get system p).2 = Err e ∧ certs p1 = certs p ∧ Get system2 p1 = (p1, Ok (certPool p)).
Proof. intros Hd Hl. unfold Get, swapCertPool. rewrite Hd. cbn. by rewrite Hl. Qed.

(** [Add] marks the pool or changes nothing. *)
Lemma Add_dirty p cs p' : Add p cs = Some p' → (dirty p' = true ∨ p' = p) ∧ systemCertPool p' = systemCertPool p.
Proof.
  unfold Add. case_bool_decide; [intros [= <-]; eauto|]. destruct (filterCerts p cs) as [new|]; [|done]. cbn.
  intros [= <-]. case_bool_decide; [eauto|]. split; [by left|]. cbn. apply fold_store_fields.
Qed.

Section loading.
Context (read_file : bytes → result error bytes) (pem_Decode : bytes → option bytes).
Context (ParseCertificate : bytes → result error (bytes * bytes)).
Abbreviation load_cert := (load_cert read_file pem_Decode ParseCertificate).
Abbreviation add_files := (add_files read_file pem_Decode ParseCertificate).

(** The subject is part of the certificate. *)
Definition faithful : Prop :=
  ∀ name1 name2 s1 s2 raw, load_cert name1 = Ok (s1, raw) → load_cert name2 = Ok (s2, raw) → s1 = s2.

(** The queue holds certificates from files, with pointers below [next]. *)
Definition from_files (next : nat) (cs : list Certificate) : Prop :=
  ∀ a, a ∈ cs → cert_ptr a < next ∧ ∃ name, load_cert name = Ok (RawSubject a, Raw a).
Definition one_target (cs : list Certificate) : Prop := ∀ a b, a ∈ cs → b ∈ cs → cert_ptr a = cert_ptr b → a = b.

Lemma Add_one p c next :
  faithful → index_ok p → pool_ok p → from_files next (certs p) → one_target (certs p) →
  cert_ptr c = next → (∃ name, load_cert name = Ok (RawSubject c, Raw c)) →
  ∃ p', Add p [Some c] = Some p' ∧ index_ok p' ∧ pool_ok p' ∧ from_files (S next) (certs p') ∧ one_target (certs p') ∧
    (∀ r, r ∈ Raw <$> certs p' ↔ r ∈ Raw <$> certs p ∨ r = Raw c).
Proof.
  intros Hfa Hi Hp Hfr Hone Hc Hname.
  assert (from_files (S next) (certs p ++ [c])) as Hfr'.
  { intros a [Ha| ->%list_elem_of_singleton]%elem_of_app; [|split; [lia|done]].
    destruct (Hfr a Ha) as [Hlt ?]. split; [lia|done]. }
  assert (one_target (certs p ++ [c])) as Hone'.
  { intros a b [Ha| ->%list_elem_of_singleton]%elem_of_app [Hb| ->%list_elem_of_singleton]%elem_of_app E; [by apply Hone|..|done];
      [destruct (Hfr a Ha)|destruct (Hfr b Hb)]; lia. }
  destruct (Add_correct p [Some c]) as (p' & HA & Hi' & Hp' & Hsub & Hraw); [done|done| |].
  { intros a b Ha Hb. split; [by apply Hone'|]. intros E. destruct (Hfr' a Ha) as [_ [n1 H1]], (Hfr' b Hb) as [_ [n2 H2]].
    rewrite E in H1. by eapply Hfa. }
  exists p'. split_and!; [done..| | |].
  - intros a Ha%Hsub. by apply Hfr'.
  - intros a b Ha%Hsub Hb%Hsub. by apply Hone'.
  - intros r. rewrite Hraw. cbn. by rewrite list_elem_of_singleton.
Qed.

Lemma add_files_ok names cs p next :
  faithful → index_ok p → pool_ok p → from_files next (certs p) → one_target (certs p) →
  Forall2 (λ name c, load_cert name = Ok c) names cs →
  ∃ p', add_files p next names = Some (Ok p') ∧ pool_ok p' ∧ systemCertPool p' = systemCertPool p ∧
    (dirty p' = true ∨ p' = p) ∧ ∀ r, r ∈ Raw <$> certs p' ↔ r ∈ Raw <$> certs p ∨ r ∈ cs.*2.
Proof.
  intros Hfa Hi Hp Hfr Hone Hl. revert p next Hi Hp Hfr Hone.
  induction Hl as [|name [subject raw] names cs Hn Hl IH]; intros p next Hi Hp Hfr Hone; cbn -[Add].
  { exists p. split_and!; [done..|by right|]. intros r. rewrite elem_of_nil. naive_solver. }
  rewrite Hn. destruct (Add_one p (mkCert next subject raw) next) as (p1 & HA & Hi1 & Hp1 & Hfr1 & Hone1 & Hr1); [done..|eauto|].
  rewrite HA. cbn. destruct (IH p1 (S next) Hi1 Hp1 Hfr1 Hone1) as (p2 & HF & Hp2 & Hs2 & Hd2 & Hr2).
  destruct (Add_dirty _ _ _ HA) as [Hd1 Hs1]. exists p2. split_and!; [done|done|congruence| |].
  - destruct Hd2 as [?| ->]; [by left|]. destruct Hd1 as [?| ->]; [by left|by right].
  - intros r. rewrite Hr2, Hr1, elem_of_cons. naive_solver.
Qed.

(** C36: [GetCertPool], when the files hold certificates and the system's
    certificates load, returns a pool that trusts exactly the system's
    certificates, if they are wanted, and those of the files. *)
Theorem GetCertPool_functional system1 system2 useSystem names cs pool1 pool2 :
  faithful → Forall2 (λ name c, load_cert name = Ok c) names cs →
  loadSystemCertPool system1 useSystem = Ok pool1 → loadSystemCertPool system2 useSystem = Ok pool2 →
  ∃ pool, GetCertPool read_file pem_Decode ParseCertificate system1 system2 useSystem names = Some (Ok pool) ∧
    ∀ r, r ∈ pool ↔ r ∈ (if decide (names = []) then pool1 else pool2) ∨ r ∈ cs.*2.
Proof.
  intros Hfa Hl H1 H2. unfold GetCertPool, NewCertPool. rewrite H1. cbn.
  set (p0 := mkCertPool pool1 [] ∅ false useSystem). destruct (decide (names = [])) as [->|Hne].
  { inversion Hl. exists pool1. split; [done|]. intros r. cbn. rewrite elem_of_nil. naive_solver. }
  destruct (add_files_ok names cs p0 0) as (p' & -> & Hp' & Hs & Hd & Hr); [done|..|done|].
  { intros name i. cbn. rewrite lookup_empty. cbn. split; [by intros ?%not_elem_of_nil|done]. }
  { intros _ c. cbn. by intros ?%not_elem_of_nil. }
  { intros a. cbn. by intros ?%not_elem_of_nil. }
  { intros a b. cbn. by intros ?%not_elem_of_nil. }
  destruct Hd as [Hd| ->].
  - cbn. destruct (Get_complete p' system2 pool2 Hd) as (p2 & pool & -> & _ & _ & _ & Hpool); [by rewrite Hs|].
    exists pool. split; [done|]. intros r. rewrite Hpool, Hr. cbn. rewrite elem_of_nil. naive_solver.
  - destruct Hl as [|name c names cs Hn Hl]; [done|].
    specialize (Hr c.2). cbn in Hr. rewrite elem_of_nil, elem_of_cons in Hr. naive_solver.
Qed.
End loading.

(** Files that hold their certificate as it is, with one subject. *)
Definition sample_load : bytes → result error bytes := Ok.
Definition sample_parse (b : bytes) : result error (bytes * bytes) := Ok ("CN=root" : bytes, b).
Lemma sample_faithful : faithful sample_load Some sample_parse.
Proof. intros n1 n2 s1 s2 raw [= <- _] [= <- _]. done. Qed.

Lemma GetCertPool_functional_witness :
  ∃ pool, GetCertPool sample_load Some sample_parse (Ok ["system" : bytes]) (Ok ["system" : bytes]) true ["a.pem" : bytes; "b.pem" : bytes]
      = Some (Ok pool) ∧
    ∀ r, r ∈ pool ↔ r ∈ ["system" : bytes] ∨ r ∈ ["a.pem" : bytes; "b.pem" : bytes].
Proof.
  apply (GetCertPool_functional sample_load Some sample_parse (Ok ["system" : bytes]) (Ok ["system" : bytes]) true
    ["a.pem" : bytes; "b.pem" : bytes] [("CN=root" : bytes, "a.pem" : bytes); ("CN=root" : bytes, "b.pem" : bytes)]
    ["system" : bytes] ["system" : bytes]).
  - exact sample_faithful.
  - repeat constructor.
  - reflexivity.
  - reflexivity.
Defined.
