(* ===== verification/Options.v ===== *)
(** * Options of the service

    [internal/pkg/cmdutil] and the options of [cmd/vct/startcmd/start.go]:
    flags and environment variables, the logs to serve, key management, TLS
    and data source. *)

From S2P Require Import Prelude GoStrings Utf GoFmt Errors Canonicalizer.

Open Scope Z_scope.

(** ** Flags and environment variables *)

(** The flags that were set, with their values, and the environment. *)
Record Cmdline := mkCmdline {
  string_flag : bytes → option bytes;
  array_flag : bytes → option (list bytes);
  LookupEnv : bytes → option bytes
}.

Definition neither (flagName envKey : bytes) : error :=
  ENew (("Neither " : bytes) ++ flagName ++ " (command line flag) nor " ++ envKey ++
        " (environment variable) have been set.").
Definition is_empty (name : bytes) : error := ENew (name ++ " value is empty").

Definition GetUserSetVarFromString (cmd : Cmdline) (flagName envKey : bytes) (isOptional : bool) : result error bytes :=
  match string_flag cmd flagName with
  | Some value => if bool_decide (value = []) then Err (is_empty flagName) else Ok value
  | None =>
      let value := default [] (LookupEnv cmd envKey) in
      if isOptional || bool_decide (is_Some (LookupEnv cmd envKey)) then
        if negb isOptional && bool_decide (value = []) then Err (is_empty envKey) else Ok value
      else Err (neither flagName envKey)
  end.

(** The error is dropped with the value empty. *)
Definition GetUserSetOptionalVarFromString (cmd : Cmdline) (flagName envKey : bytes) : bytes :=
  match GetUserSetVarFromString cmd flagName envKey true with Ok v => v | Err _ => [] end.

Definition GetUserSetVarFromArrayString (cmd : Cmdline) (flagName envKey : bytes) (isOptional : bool) :
    result error (list bytes) :=
  match array_flag cmd flagName with
  | Some value => if bool_decide (value = []) then Err (is_empty flagName) else Ok value
  | None =>
      let value := default [] (LookupEnv cmd envKey) in
      if isOptional || bool_decide (is_Some (LookupEnv cmd envKey)) then
        if negb isOptional && bool_decide (value = []) then Err (is_empty envKey)
        else Ok (if bool_decide (value = []) then [] else Split value ",")
      else Err (neither flagName envKey)
  end.
Definition GetUserSetOptionalVarFromArrayString (cmd : Cmdline) (flagName envKey : bytes) : list bytes :=
  match GetUserSetVarFromArrayString cmd flagName envKey true with Ok v => v | Err _ => [] end.

(** [strconv.ParseBool]. *)
Definition ParseBool (s : bytes) : option bool :=
  if existsb (beq s) ["1" : bytes; "t" : bytes; "T" : bytes; "TRUE" : bytes; "true" : bytes; "True" : bytes] then Some true
  else if existsb (beq s) ["0" : bytes; "f" : bytes; "F" : bytes; "FALSE" : bytes; "false" : bytes; "False" : bytes]
  then Some false
  else None.

(** ** Key management *)

Inductive kmsMode := kmsLocal | kmsWeb | kmsAWS.
Definition supportedKmsType (kmsType : bytes) : option kmsMode :=
  if beq kmsType "local" then Some kmsLocal
  else if beq kmsType "web" then Some kmsWeb
  else if beq kmsType "aws" then Some kmsAWS
  else None.

Record kmsParameters := mkKmsParameters {
  kmsType : kmsMode; kmsEndpoint : bytes; kmsRegion : bytes; logSignActiveKeyID : bytes
}.

Definition envPrefix : bytes := "VCT_".
Definition env_name (s : bytes) : bytes := envPrefix ++ s.

Definition optional_option (cmd : Cmdline) (flagName key : bytes) : bytes :=
  GetUserSetOptionalVarFromString cmd flagName (env_name key).

Definition getKmsParameters (cmd : Cmdline) : result error kmsParameters :=
  kmsTypeStr ← GetUserSetVarFromString cmd "kms-type" (env_name "KMS_TYPE") false;
  match supportedKmsType kmsTypeStr with
  | None => Err (ENew (("unsupported kms type: " : bytes) ++ kmsTypeStr))
  | Some t =>
      Ok (mkKmsParameters t (optional_option cmd "kms-endpoint" "KMS_ENDPOINT")
            (optional_option cmd "kms-region" "KMS_REGION")
            (optional_option cmd "log-active-key-id" "LOG_SIGN_ACTIVE_KEY_ID"))
  end.

Definition BuildKMSURL (base uri : bytes) : bytes := if HasPrefix uri "/" then base ++ uri else uri.

(** ** Data source *)

Definition getDBParams (dbURL : bytes) : result error (bytes * bytes) :=
  match SplitN2 dbURL ":" with
  | [driver; rest] => Ok (driver, TrimPrefix rest "//")
  | _ => Err (ENew (("invalid dbURL " : bytes) ++ dbURL))
  end.

(** ** TLS *)

Record tlsParameters := mkTls {
  tls_systemCertPool : bool; tls_caCerts : list bytes; serveCertPath : bytes; serveKeyPath : bytes
}.

(** A comma-separated list, absent if empty. *)
Definition comma_list (s : bytes) : list bytes := if bool_decide (s = []) then [] else Split s ",".

Section tls.
Context `{UnicodeTable}.
Definition bool_error (s : bytes) : error := EForeign (num_error_text "ParseBool" s ErrSyntax) None.

(** A boolean option, false if empty. *)
Definition bool_option (wrap : bytes) (s : bytes) : result error bool :=
  if bool_decide (s = []) then Ok false
  else match ParseBool s with
       | Some b => Ok b
       | None => Err (EWrap (wrap ++ ": ") (bool_error s) [])
       end.

Definition getTLS (cmd : Cmdline) : result error tlsParameters :=
  pool ← bool_option "parse cert pool" (optional_option cmd "tls-systemcertpool" "TLS_SYSTEMCERTPOOL");
  Ok (mkTls pool (comma_list (optional_option cmd "tls-cacerts" "TLS_CACERTS"))
        (optional_option cmd "tls-serve-cert" "TLS_SERVE_CERT") (optional_option cmd "tls-serve-key" "TLS_SERVE_KEY")).
End tls.

(** ** Logs *)

(** [command.Log] as configured; the issuers as a set. *)
Record LogConfig := mkLogConfig {
  lc_Alias : bytes; lc_Permission : bytes; lc_Endpoint : bytes; lc_Issuers : gset bytes
}.

Definition embeddedLogServerHost : bytes := "0.0.0.0:8090".

(** Issuers by alias; [None] is a panic for an index out of range. *)
Fixpoint parse_issuers (raw : list bytes) (acc : gmap bytes (gset bytes)) : option (gmap bytes (gset bytes)) :=
  match raw with
  | [] => Some acc
  | r :: rest =>
      match Split r "@" with
      | a :: i :: _ =>
          let alias := TrimSpace a in
          let issuer := TrimSpace i in
          parse_issuers rest (<[alias := {[issuer]} ∪ default ∅ (acc !! alias)]> acc)
      | _ => None
      end
  end.

(** One entry: alias, permission, endpoint, and whether the log server runs
    inside the service. *)
Definition parse_log (rawLog : bytes) : option (bytes * bytes * bytes * bool) :=
  if Contains rawLog "@" then
    match Split rawLog "@" with
    | ap :: endpoint :: _ =>
        match Split ap ":" with
        | alias :: permission :: _ => Some (alias, permission, endpoint, false)
        | _ => None
        end
    | _ => None
    end
  else
    match Split rawLog ":" with
    | alias :: permission :: _ => Some (alias, permission, embeddedLogServerHost, true)
    | _ => None
    end.

Fixpoint parse_entries (issuers : gmap bytes (gset bytes)) (raw : list bytes) (acc : gmap bytes LogConfig) (star : bool) :
    option (gmap bytes LogConfig * bool) :=
  match raw with
  | [] => Some (acc, star)
  | r :: rest =>
      match parse_log r with
      | None => None
      | Some (a, p, e, embedded) =>
          let alias := TrimSpace a in
          parse_entries issuers rest
            (<[alias := mkLogConfig alias (TrimSpace p) (TrimSpace e) (default ∅ (issuers !! alias))]> acc)
            (star || embedded)
      end
  end.

(** The logs by alias: a later entry replaces an earlier one. *)
Definition parseLogs (logsRaw : bytes) (issuersRaw : list bytes) : option (gmap bytes LogConfig * bool) :=
  issuers ← parse_issuers issuersRaw ∅;
  parse_entries issuers (Split logsRaw ",") ∅ false.

(** ** All options *)

Record Options := mkOptions {
  o_host : bytes; o_metricsHost : bytes; o_logs : gmap bytes LogConfig; o_embedded : bool;
  o_timeout : Z; o_syncTimeout : Z; o_datasource : bytes; o_prefix : bytes; o_tls : tlsParameters;
  o_baseURL : bytes; o_devMode : bool; o_contextProviders : list bytes; o_kms : kmsParameters;
  o_readToken : bytes; o_writeToken : bytes; o_trillianDB : bytes
}.

Section options.
Context `{UnicodeTable}.

Definition uint_option (what dflt s : bytes) : result error Z :=
  let s := if bool_decide (s = []) then dflt else s in
  match ParseUint64 s with
  | Ok n => Ok n
  | Err e => Err (EWrap (what ++ " is not a number(positive): ") (EForeign (num_error_text "ParseUint" s e) None) [])
  end.

(** The options of [start], in the order they are checked. *)
Definition read_options (cmd : Cmdline) : option (result error Options) :=
  let opt := optional_option cmd in
  match GetUserSetVarFromString cmd "base-url" (env_name "BASE_URL") false with
  | Err e => Some (Err e)
  | Ok baseURL =>
  match getKmsParameters cmd with
  | Err e => Some (Err e)
  | Ok kms =>
  match uint_option "timeout" "0" (opt "timeout" "TIMEOUT") with
  | Err e => Some (Err e)
  | Ok timeout =>
  match uint_option "sync timeout" "3" (opt "sync-timeout" "SYNC_TIMEOUT") with
  | Err e => Some (Err e)
  | Ok syncTimeout =>
  match getTLS cmd with
  | Err e => Some (Err (EWrap "get TLS: " e []))
  | Ok tls =>
  match GetUserSetVarFromString cmd "logs" (env_name "LOGS") false with
  | Err e => Some (Err (EWrap "get variable (logs or VCT_LOGS): " e []))
  | Ok logsVal =>
  match bool_option "dev mode is not a bool" (opt "dev-mode" "DEV_MODE") with
  | Err e => Some (Err e)
  | Ok devMode =>
      '(logs, star) ← parseLogs logsVal (comma_list (opt "issuers" "ISSUERS"));
      let dsn := opt "dsn" "DSN" in
      Some (Ok (mkOptions (opt "api-host" "API_HOST") (opt "metrics-host" "METRICS_HOST") logs star timeout syncTimeout
        (if bool_decide (dsn = []) then "mem://test" else dsn) (opt "database-prefix" "DATABASE_PREFIX") tls baseURL devMode
        (comma_list (opt "context-provider-url" "CONTEXT_PROVIDER_URL")) kms
        (opt "api-read-token" "API_READ_TOKEN") (opt "api-write-token" "API_WRITE_TOKEN")
        (opt "trillian-db-conn" "TRILLIAN_DB_CONN")))
  end end end end end end end.
End options.
