(* ===== verification/OptionsFacts.v ===== *)
(** * The logs of a configuration

    Logs and issuers written in the documented format are read back. *)

From S2P Require Import Prelude GoStrings GoFmt Errors Options.

Open Scope Z_scope.

#[local] Opaque TrimSpace Split.

(** A log to serve; without an endpoint it runs inside the service. *)
Record LogSpec := mkLogSpec { ls_alias : bytes; ls_permission : bytes; ls_endpoint : option bytes }.

(** [<alias>:<permission>@<endpoint>]. *)
Definition show_log (l : LogSpec) : bytes :=
  ls_alias l ++ ":"%char :: ls_permission l ++
  match ls_endpoint l with Some e => "@"%char :: e | None => [] end.
(** [<alias>@<issuer>]. *)
Definition show_issuer (p : bytes * bytes) : bytes := p.1 ++ "@"%char :: p.2.

(** The word has none of the characters and no space around it. *)
Definition word (forbidden : list ascii) (s : bytes) : Prop := Forall (λ c, c ∉ s) forbidden ∧ TrimSpace s = s.

Definition log_ok (l : LogSpec) : Prop :=
  word [","%char; "@"%char; ":"%char] (ls_alias l) ∧ word [","%char; "@"%char; ":"%char] (ls_permission l) ∧
  match ls_endpoint l with Some e => word [","%char; "@"%char] e | None => True end.
Definition issuer_ok (p : bytes * bytes) : Prop := word ["@"%char] p.1 ∧ word ["@"%char] p.2.

(** The issuers of an alias. *)
Definition issuers_of (alias : bytes) (issuers : list (bytes * bytes)) : gset bytes :=
  list_to_set (omap (λ p, if beq p.1 alias then Some p.2 else None) issuers).

Definition config_of (issuers : list (bytes * bytes)) (l : LogSpec) : LogConfig :=
  mkLogConfig (ls_alias l) (ls_permission l) (default embeddedLogServerHost (ls_endpoint l))
    (issuers_of (ls_alias l) issuers).

Lemma parse_issuers_ok issuers acc :
  Forall issuer_ok issuers →
  ∃ m, parse_issuers (show_issuer <$> issuers) acc = Some m ∧
    ∀ alias, default ∅ (m !! alias) = default ∅ (acc !! alias) ∪ issuers_of alias issuers.
Proof.
  intros Hok. revert acc. induction Hok as [|[a i] issuers [[Ha Hta] [Hi Hti]] _ IH]; intros acc; cbn.
  { exists acc. split; [done|]. intros alias. unfold issuers_of. cbn. set_solver. }
  rewrite Forall_singleton in Ha, Hi. cbn in *. rewrite Split_app, Split_no_sep by done. cbn. rewrite Hta, Hti.
  destruct (IH (<[a := {[i]} ∪ default ∅ (acc !! a)]> acc)) as (m & -> & Hm). exists m. split; [done|]. intros alias.
  rewrite Hm. unfold issuers_of. cbn. destruct (beq a alias) eqn:E.
  - apply beq_true in E as ->. rewrite lookup_insert_eq. cbn. set_solver.
  - apply beq_false in E. by rewrite lookup_insert_ne.
Qed.

Lemma parse_log_ok l :
  log_ok l →
  parse_log (show_log l) =
    Some (ls_alias l, ls_permission l, default embeddedLogServerHost (ls_endpoint l), negb (bool_decide (is_Some (ls_endpoint l)))).
Proof.
  intros ([Ha _] & [Hp _] & He). rewrite !Forall_cons in Ha, Hp. destruct Ha as (_ & Ha1 & Ha2 & _), Hp as (_ & Hp1 & Hp2 & _).
  assert ("@"%char ∉ ls_alias l ++ ":"%char :: ls_permission l) as Hap.
  { rewrite not_elem_of_app, not_elem_of_cons. by split_and!. }
  unfold parse_log, show_log. destruct (ls_endpoint l) as [e|].
  - destruct He as [He _]. rewrite !Forall_cons in He. destruct He as (_ & He & _).
    rewrite (proj2 (Contains_spec _ _)) by (exists (ls_alias l ++ ":"%char :: ls_permission l), e; by rewrite <-app_assoc).
    change (":"%char :: ls_permission l ++ "@"%char :: e) with ((":"%char :: ls_permission l) ++ "@"%char :: e).
    rewrite app_assoc, Split_app, (Split_no_sep e) by done. rewrite Split_app, Split_no_sep by done. done.
  - rewrite app_nil_r. rewrite (proj2 (Contains_false _ _)).
    + rewrite Split_app, Split_no_sep by done. done.
    + intros a b E. apply Hap. rewrite E, !elem_of_app. right. left. by left.
Qed.

Lemma parse_entries_ok issuers m ls acc star :
  (∀ alias, default ∅ (m !! alias) = issuers_of alias issuers) → Forall log_ok ls → NoDup (ls_alias <$> ls) →
  parse_entries m (show_log <$> ls) acc star =
    Some (list_to_map ((λ l, (ls_alias l, config_of issuers l)) <$> ls) ∪ acc,
          star || existsb (λ l, negb (bool_decide (is_Some (ls_endpoint l)))) ls).
Proof.
  intros Hm Hok. revert acc star. induction Hok as [|l ls Hl _ IH]; intros acc star Hn; cbn.
  { by rewrite (left_id_L ∅ _), orb_false_r. }
  cbn in Hn. apply NoDup_cons in Hn as [Hi Hn]. rewrite parse_log_ok by done.
  destruct Hl as ([_ Ha] & [_ Hp] & He). rewrite Ha, Hp.
  assert (TrimSpace (default embeddedLogServerHost (ls_endpoint l)) = default embeddedLogServerHost (ls_endpoint l)) as ->.
  { destruct (ls_endpoint l); [apply He|done]. }
  rewrite IH by done. rewrite Hm, orb_assoc. fold (config_of issuers l).
  rewrite <-insert_union_r; [by rewrite insert_union_l|]. apply not_elem_of_list_to_map.
  rewrite <-list_fmap_compose. exact Hi.
Qed.

Lemma show_log_no_comma l : log_ok l → ","%char ∉ show_log l.
Proof.
  intros ([Ha _] & [Hp _] & He). rewrite !Forall_cons in Ha, Hp. unfold show_log.
  rewrite not_elem_of_app, not_elem_of_cons, not_elem_of_app. split_and!; [apply Ha|done|apply Hp|].
  destruct (ls_endpoint l) as [e|]; [|apply not_elem_of_nil]. destruct He as [He _]. rewrite !Forall_cons in He.
  rewrite not_elem_of_cons. split; [done|apply He].
Qed.

(** The logs are keyed by their aliases. *)
Lemma parse_entries_keys issuers raw acc star m star' :
  parse_entries issuers raw acc star = Some (m, star') → (∀ k l, acc !! k = Some l → lc_Alias l = k) →
  ∀ k l, m !! k = Some l → lc_Alias l = k.
Proof.
  revert acc star. induction raw as [|r raw IH]; intros acc star; cbn; [by intros [= -> ->]|].
  destruct (parse_log r) as [[[[a p] e] embedded]|]; [|done]. intros E Hacc. eapply IH; [exact E|].
  intros k l [[<- <-]|[_ Hl]]%lookup_insert_Some; [done|by apply Hacc].
Qed.
Lemma parseLogs_keys raw issuers m star k l : parseLogs raw issuers = Some (m, star) → m !! k = Some l → lc_Alias l = k.
Proof.
  unfold parseLogs. destruct (parse_issuers issuers ∅) as [im|]; [|done]. cbn. intros E. eapply parse_entries_keys; [exact E|].
  intros ? ? Hk. by rewrite lookup_empty in Hk.
Qed.
Lemma read_options_logs `{UnicodeTable} cmd o :
  read_options cmd = Some (Ok o) → ∃ raw issuers, parseLogs raw issuers = Some (o_logs o, o_embedded o).
Proof.
  unfold read_options. intros E. repeat case_match; try done; apply bind_Some in E as ([ls star] & Hp & [= <-]); cbn; eauto.
Qed.
(** The logs of a configuration, in whatever order the map is ranged over. *)
Lemma configured_aliases `{UnicodeTable} cmd o ls :
  read_options cmd = Some (Ok o) → ls ≡ₚ (map_to_list (o_logs o)).*2 → NoDup (lc_Alias <$> ls).
Proof.
  intros (raw & issuers & Hp)%read_options_logs ->.
  assert (lc_Alias <$> (map_to_list (o_logs o)).*2 = (map_to_list (o_logs o)).*1) as ->; [|apply NoDup_fst_map_to_list].
  rewrite <-list_fmap_compose. apply list_fmap_ext. intros i [k l] Hi. cbn. eapply parseLogs_keys; [exact Hp|].
  by apply elem_of_map_to_list, (list_elem_of_lookup_2 _ i).
Qed.

(** C35: Logs and issuers written in the format of the options are read back
    exactly: each alias with its permission, its endpoint or the log server
    inside the service, and its issuers; and that server is started exactly
    if some log has no endpoint. *)
Theorem parseLogs_roundtrip ls issuers :
  ls ≠ [] → Forall log_ok ls → NoDup (ls_alias <$> ls) → Forall issuer_ok issuers →
  parseLogs (Join (show_log <$> ls) ",") (show_issuer <$> issuers) =
    Some (list_to_map ((λ l, (ls_alias l, config_of issuers l)) <$> ls),
          existsb (λ l, negb (bool_decide (is_Some (ls_endpoint l)))) ls).
Proof.
  intros Hne Hok Hn Hi. unfold parseLogs. destruct (parse_issuers_ok issuers ∅ Hi) as (m & -> & Hm). cbn.
  rewrite Split_Join.
  - rewrite (parse_entries_ok issuers m) by (done || intros; rewrite Hm, lookup_empty; cbn; set_solver).
    by rewrite (right_id_L ∅ _).
  - by destruct ls.
  - apply Forall_fmap. eapply Forall_impl; [exact Hok|]. apply show_log_no_comma.
Qed.

(** An entry without a permission stops the service with a panic. *)
Lemma parseLogs_panics ls1 alias ls2 issuers :
  Forall log_ok ls1 → Forall (λ c, c ∉ alias) [","%char; "@"%char; ":"%char] → Forall (λ w, ","%char ∉ w) ls2 →
  parseLogs (Join ((show_log <$> ls1) ++ alias :: ls2) ",") issuers = None.
Proof.
  intros Hok Ha Hls2. unfold parseLogs. destruct (parse_issuers issuers ∅) as [m|]; [|done]. cbn.
  rewrite !Forall_cons in Ha. destruct Ha as (Hc & Hat & Hcol & _). rewrite Split_Join.
  - generalize (∅ : gmap bytes LogConfig), false. induction Hok as [|l ls1 Hl _ IH]; intros acc star; cbn.
    + unfold parse_log. rewrite (proj2 (Contains_false _ _)) by (intros a b E; apply Hat; rewrite E, !elem_of_app; by right; left; left).
      by rewrite Split_no_sep.
    + by rewrite parse_log_ok.
  - by destruct ls1.
  - apply Forall_app. split; [|by constructor]. apply Forall_fmap. eapply Forall_impl; [exact Hok|]. apply show_log_no_comma.
Qed.

Definition sample_specs : list LogSpec :=
  [mkLogSpec "maple2021" "rw" (Some ("server.com:9890" : bytes)); mkLogSpec "maple2020" "r" None].
Definition sample_issuers : list (bytes * bytes) := [("maple2021" : bytes, "did:example:issuer" : bytes)].

Lemma parseLogs_roundtrip_witness :
  parseLogs "maple2021:rw@server.com:9890,maple2020:r" ["maple2021@did:example:issuer" : bytes] =
    Some (list_to_map ((λ l, (ls_alias l, config_of sample_issuers l)) <$> sample_specs), true).
Proof.
  apply (parseLogs_roundtrip sample_specs sample_issuers).
  - discriminate.
  - repeat (apply Forall_cons; split); [..|constructor];
      (split_and!; try exact I; (split; [apply (bool_decide_unpack _); vm_compute; reflexivity|vm_compute; reflexivity])).
  - apply (bool_decide_unpack _). vm_compute. reflexivity.
  - apply Forall_singleton. split; (split; [apply (bool_decide_unpack _); vm_compute; reflexivity|vm_compute; reflexivity]).
Defined.
