(* ===== verification/Providers.v ===== *)
(** * Storage providers

    [pkg/storage/postgres/provider.go] and [pkg/storage/memory/provider.go]:
    the providers that a process makes once and shares.  The variables of the
    packages are the state; opening a database is [sql.Open]. *)

From S2P Require Import Prelude Errors.

Section postgres.
(** [sql.Open("postgres", connStr)], the [n]-th call. *)
Context (sql_Open : bytes → nat → result error unit) {MetricFactory : Type}.

(** The provider: the database, by the number of its opening, and the
    factory. *)
Record pgProvider := mkPgProvider { pp_db : nat; pp_mf : option MetricFactory }.

(** The variables of the package, with how often a database was opened and
    which databases were closed. *)
Record pgVars := mkPgVars {
  PGConnStr : bytes;
  pgOnce : bool;
  pgOnceErr : option error;
  pgStorageInstance : option pgProvider;
  opens : nat;
  closed_dbs : list nat
}.
Definition pgVars0 : pgVars := mkPgVars [] false None None 0 [].
Definition set_PGConnStr (c : bytes) (v : pgVars) : pgVars :=
  mkPgVars c (pgOnce v) (pgOnceErr v) (pgStorageInstance v) (opens v) (closed_dbs v).

(** The function given to [pgOnce.Do]. *)
Definition open_once (mf : option MetricFactory) (v : pgVars) : pgVars :=
  match sql_Open (PGConnStr v) (opens v) with
  | Err e => mkPgVars (PGConnStr v) true (Some e) (pgStorageInstance v) (S (opens v)) (closed_dbs v)
  | Ok _ => mkPgVars (PGConnStr v) true None (Some (mkPgProvider (opens v) mf)) (S (opens v)) (closed_dbs v)
  end.
Definition NewPGProvider (mf : option MetricFactory) (v : pgVars) : pgVars * result error (option pgProvider) :=
  let v' := if pgOnce v then v else open_once mf v in
  (v', match pgOnceErr v' with Some e => Err e | None => Ok (pgStorageInstance v') end).

(** What the provider hands out: storages on its database. *)
Record storages := mkStorages { st_db : nat; st_mf : option MetricFactory }.
Definition pg_LogStorage (p : pgProvider) : storages := mkStorages (pp_db p) (pp_mf p).
Definition pg_AdminStorage (p : pgProvider) : nat := pp_db p.
Definition pg_Close (p : pgProvider) (v : pgVars) : pgVars :=
  mkPgVars (PGConnStr v) (pgOnce v) (pgOnceErr v) (pgStorageInstance v) (opens v) (pp_db p :: closed_dbs v).

(** What a process does with the package. *)
Inductive provider_step :=
  | SetConnStr (c : bytes)
  | NewProvider (mf : option MetricFactory)
  | CloseProvider (p : pgProvider).
Fixpoint run_steps (steps : list provider_step) (v : pgVars) : pgVars * list (result error (option pgProvider)) :=
  match steps with
  | [] => (v, [])
  | SetConnStr c :: rest => run_steps rest (set_PGConnStr c v)
  | NewProvider mf :: rest =>
      let '(v1, r) := NewPGProvider mf v in
      let '(v2, rs) := run_steps rest v1 in
      (v2, r :: rs)
  | CloseProvider p :: rest => run_steps rest (pg_Close p v)
  end.

(** Once the function has run, the answer is fixed. *)
Lemma run_steps_after steps v :
  pgOnce v = true →
  let answer := match pgOnceErr v with Some e => Err e | None => Ok (pgStorageInstance v) end in
  Forall (eq answer) (run_steps steps v).2 ∧ opens (run_steps steps v).1 = opens v ∧ pgOnce (run_steps steps v).1 = true.
Proof.
  revert v. induction steps as [|[c|mf|p] steps IH]; intros v Hv; cbn [run_steps].
  - by split; [constructor|].
  - exact (IH (set_PGConnStr c v) Hv).
  - unfold NewPGProvider. rewrite Hv. specialize (IH v Hv). destruct (run_steps steps v) as [v2 rs]. cbn in *.
    destruct IH as (Ha & Ho & Hd). split_and!; [by constructor|done|done].
  - exact (IH (pg_Close p v) Hv).
Qed.

(** A process has one Postgres provider.  Whatever it sets, closes and
    asks for, in whatever order, every call of [NewPGProvider] gives the
    answer of the first one, an error included, and the database is opened at
    most once; a provider that is given is never the null pointer. *)
Theorem provider_once steps :
  let '(v, answers) := run_steps steps pgVars0 in
  (∀ a b, a ∈ answers → b ∈ answers → a = b) ∧ (opens v ≤ 1)%nat ∧ Ok None ∉ answers.
Proof.
  assert (∀ v, pgOnce v = false → opens v = 0%nat → pgOnceErr v = None →
    let r := run_steps steps v in
    (∀ a b, a ∈ r.2 → b ∈ r.2 → a = b) ∧ (opens r.1 ≤ 1)%nat ∧ Ok None ∉ r.2) as H.
  { induction steps as [|[c|mf|p] steps IH]; intros v Hv Ho He; cbn [run_steps].
    - cbn. split_and!; [by intros a b ?%not_elem_of_nil|lia|apply not_elem_of_nil].
    - by apply (IH (set_PGConnStr c v)).
    - unfold NewPGProvider. rewrite Hv. assert (pgOnce (open_once mf v) = true ∧ opens (open_once mf v) = 1%nat ∧
        (pgOnceErr (open_once mf v) = None → is_Some (pgStorageInstance (open_once mf v)))) as (Hd & Hn & Hs).
      { unfold open_once. rewrite Ho. destruct (sql_Open _ _) as [u|e]; cbn; (split_and!; [done|done|]); [intros _; by exists (mkPgProvider 0 mf)|done]. }
      destruct (run_steps_after steps (open_once mf v) Hd) as (Ha & Hop & _).
      destruct (run_steps steps (open_once mf v)) as [v2 rs]. cbn in *. rewrite Forall_forall in Ha.
      assert (∀ a, a ∈ (match pgOnceErr (open_once mf v) with Some e => Err e | None => Ok (pgStorageInstance (open_once mf v)) end) :: rs →
        a = match pgOnceErr (open_once mf v) with Some e => Err e | None => Ok (pgStorageInstance (open_once mf v)) end) as Hall.
      { intros a [->|Hin]%elem_of_cons; [done|]. symmetry. by apply Ha. }
      split_and!; [intros a b Ha' Hb'; by rewrite (Hall a Ha'), (Hall b Hb')|lia|]. intros Hin. specialize (Hall _ Hin).
      destruct (pgOnceErr (open_once mf v)); [done|]. destruct (Hs eq_refl) as [x Hx]. congruence.
    - by apply (IH (pg_Close p v)). }
  specialize (H pgVars0 eq_refl eq_refl eq_refl). by destruct (run_steps steps pgVars0).
Qed.
End postgres.

(** ** The memory provider *)

Section memory.
Context {MetricFactory : Type}.

(** The provider has its own tree storage, by the number of its making. *)
Record memProvider := mkMemProvider { mp_mf : option MetricFactory; mp_ts : nat }.
Record memVars := mkMemVars { newInstance : option memProvider; made : nat }.

Definition NewMemoryStorageProvider (mf : option MetricFactory) (v : memVars) : memVars * memProvider :=
  match newInstance v with
  | Some p => (v, p)
  | None => let p := mkMemProvider mf (made v) in (mkMemVars (Some p) (S (made v)), p)
  end.
Definition mem_LogStorage (p : memProvider) : nat * option MetricFactory := (mp_ts p, mp_mf p).
Definition mem_AdminStorage (p : memProvider) : nat := mp_ts p.
Definition mem_Close (p : memProvider) : result error unit := Ok ().

(** The log server and the signer of one process work on the same trees. *)
Lemma memory_shared mf1 mf2 v :
  let '(v1, p1) := NewMemoryStorageProvider mf1 v in
  let '(v2, p2) := NewMemoryStorageProvider mf2 v1 in p1 = p2 ∧ v2 = v1.
Proof. unfold NewMemoryStorageProvider. destruct v as [[p|] n]; done. Qed.
End memory.
