(* ===== verification/ServerUtil.v ===== *)
(** * Running a Trillian server

    [cmd/internal/serverutil/serverutil.go]: importing the schema, announcing
    the process to etcd, and the gRPC server with its HTTP endpoints.  A
    process is its trace: what it opened, closed and did, in order.  The
    answers of Trillian, gRPC, etcd and the database are functions of the
    trace, fields of [Foreign]. *)

From S2P Require Import Prelude GoStrings GoFmt GoFloat Errors Effects TreeStorage.

Open Scope Z_scope.

(** ** Traces *)

(** What has to be given back. *)
Inductive resource :=
  | ImportConn
  | StorageProvider
  | EtcdClient
  | Announcement (fullEndpoint : bytes)
  | CancelContext
  | GrpcServer
  | Listener.
#[global] Instance resource_eq_dec : EqDecision resource.
Proof. solve_decision. Defined.

Inductive Interceptor := StatsInterceptor (prefix : bytes) | ErrorWrapper | TrillianInterceptor (quotaDryRun : bool).
Inductive ServerOption :=
  | UnaryInterceptor (chain : list Interceptor)
  | ExtraOption (name : bytes)
  | Creds (certFile keyFile : bytes).

Inductive ElectionFactory := NoopFactory | EtcdFactory (instanceID lockDir : bytes).

(** [log.OperationInfo], with the guard window of the sequencer and the quota
    factor. *)
Record OperationInfo := mkOperationInfo {
  oi_election : ElectionFactory;
  oi_BatchSize : Z;
  oi_NumWorkers : Z;
  oi_RunInterval : Z;
  oi_PreElectionPause : Z;
  oi_MasterHoldInterval : Z;
  oi_MasterHoldJitter : Z;
  oi_guardWindow : Z;
  oi_quotaIncreaseFactor : f64
}.

Inductive action :=
  | RegisteredProvider (name : bytes)
  | SetPGConnStr (connStr : bytes)
  | ParsedFlags (file : bytes)
  | SetStartSpan
  | Executed (query : bytes)
  | KeepAlive (lease : Z)
  | Revoked (lease : Z)
  | NewServer (opts : list ServerOption)
  | RegisteredAdminServer (allowed : option (list TreeType))
  | RegisteredLogServer
  | RegisteredQuotaServer
  | RegisteredReflection
  | HandleHTTP (path : bytes)
  | GoHTTP (endpoint : bytes) (tls : option (bytes * bytes))
  | GoAwaitSignal
  | GoTreeGC (threshold minInterval : Z)
  | GoOperationLoop (info : OperationInfo)
  | Served
  | Slept (nanos : Z).
Inductive event := Opened (r : resource) | Closed (r : resource) | Did (a : action).

(** ** Processes *)

(** A function returns or fails; [logger.Fatal] ends the process. *)
Inductive ending (A : Type) := Done (a : A) | Failed (e : error) | Exited.
Arguments Done {A} a.
Arguments Failed {A} e.
Arguments Exited {A}.

Definition proc (A : Type) : Type := list event → list event * ending A.
#[global] Instance proc_ret : MRet proc := λ _ a tr, (tr, Done a).
#[global] Instance proc_bind : MBind proc := λ _ _ k m tr,
  match m tr with
  | (tr', Done a) => k a tr'
  | (tr', Failed e) => (tr', Failed e)
  | (tr', Exited) => (tr', Exited)
  end.

Definition emit (e : event) : proc unit := λ tr, (tr ++ [e], Done ()).
Definition failed {A} (e : error) : proc A := λ tr, (tr, Failed e).
(** An answer, whose error is returned wrapped. *)
Definition ask {A} (wrap : error → error) (f : list event → result error A) : proc A := λ tr,
  match f tr with Ok a => (tr, Done a) | Err e => (tr, Failed (wrap e)) end.
Definition checked (wrap : error → error) (f : list event → option error) : proc unit := λ tr,
  match f tr with None => (tr, Done ()) | Some e => (tr, Failed (wrap e)) end.
(** The error of a call, wrapped. *)
Definition wrapping {A} (wrap : error → error) (m : proc A) : proc A := λ tr,
  match m tr with (tr', Failed e) => (tr', Failed (wrap e)) | o => o end.
(** An error ends the process. *)
Definition or_exit {A} (m : proc A) : proc A := λ tr,
  match m tr with (tr', Failed _) => (tr', Exited) | o => o end.
(** [defer cleanup()]: however the function returns, but not when the
    process ends.  Its errors are ignored. *)
Definition defer_ {A} (cleanup : proc unit) (m : proc A) : proc A := λ tr,
  match m tr with
  | (tr', Exited) => (tr', Exited)
  | (tr', o) =>
      match cleanup tr' with
      | (tr'', Exited) => (tr'', Exited)
      | (tr'', _) => (tr'', o)
      end
  end.
Definition when_ (b : bool) (m : proc unit) : proc unit := if b then m else mret ().

(** ** The services *)

Class Foreign := {
  storage_RegisterProvider : bytes → list event → option error;
  ParseFlagFile : bytes → list event → option error;
  EnableRPCServerTracing : bytes → Z → list event → result error (list ServerOption);
  sql_Open : bytes → bytes → list event → option error;
  db_Exec : bytes → list event → option error;
  storage_NewProvider : bytes → list event → option error;
  (** The flag of the etcd servers, which the file of flags can set, and
      etcd. *)
  etcd_Servers : bytes → bytes;
  clientv3_New : list bytes → list event → option error;
  etcd_Grant : Z → list event → result error Z;
  etcd_NewManager : bytes → list event → option error;
  etcd_QuotaManagerName : bytes;
  quota_NewManager : bytes → list event → option error;
  log_IsHealthy : list event → option error;
  NewServerTLSFromFile : bytes → bytes → list event → option error;
  net_Listen : bytes → list event → option error;
  (** The error of the HTTP server, if its goroutine has stored it in the
      variable it shares with [Run] between the assignment of [net.Listen] to
      the variable and its test. *)
  http_stored : list event → option error;
  os_Hostname : bytes;
  os_Getpid : Z;
  schema_SQL : bytes
}.

Definition Second : Z := 1000000000.
Definition Hour : Z := 3600 * Second.
Definition DefaultTreeDeleteThreshold : Z := 7 * 24 * Hour.
Definition DefaultTreeDeleteMinInterval : Z := 4 * Hour.

Section serverutil.
Context `{!Foreign}.

(** ** The schema *)

(** Another instance may have won the race to create the tables. *)
Definition benign (e : error) : bool :=
  Contains (Error e) "already exists" || Contains (Error e) "duplicate key value violates unique constraint".

Definition exec_schema (query : bytes) : proc unit := λ tr,
  match db_Exec query tr with
  | Some e => if benign e then (tr, Done ()) else (tr, Failed e)
  | None => (tr, Done ())
  end.
Definition ImportPostgres (query connStr storageSystem : bytes) : proc unit :=
  _ ← checked (λ e, EWrap ("error opening " ++ storageSystem ++ ": ") e []) (sql_Open storageSystem connStr);
  _ ← emit (Opened ImportConn);
  defer_ (emit (Closed ImportConn))
    (_ ← emit (Did (Executed query)); exec_schema query).

(** ** Announcing *)

(** What [AnnounceSelf] returns is called on exit. *)
Definition AnnounceSelf (client : bool) (etcdService endpoint : bytes) : proc (proc unit) :=
  if negb client then mret (mret ())
  else
    lease ← or_exit (ask id (etcd_Grant 30));
    _ ← emit (Did (KeepAlive lease));
    _ ← or_exit (checked id (etcd_NewManager etcdService));
    let fullEndpoint := etcdService ++ "/"%char :: endpoint in
    _ ← emit (Opened (Announcement fullEndpoint));
    mret (_ ← emit (Closed (Announcement fullEndpoint)); emit (Did (Revoked lease))).

(** ** The server *)

Record Main := mkMain {
  RPCEndpoint : bytes;
  HTTPEndpoint : bytes;
  TLSCertFile : bytes;
  TLSKeyFile : bytes;
  DBClose : proc unit;
  StatsPrefix : bytes;
  QuotaDryRun : bool;
  RegisterServerFn : proc unit;
  IsHealthy : option (Z → option error);
  HealthyDeadline : Z;
  AllowedTreeTypes : option (list TreeType);
  TreeGCEnabled : bool;
  TreeDeleteThreshold : Z;
  TreeDeleteMinInterval : Z;
  ExtraOptions : list ServerOption
}.

(** The answer at "/healthz": status and body. *)
Definition healthz (m : Main) : Z * bytes :=
  match IsHealthy m with
  | Some check =>
      match check (HealthyDeadline m) with
      | Some e => (503, Error e)
      | None => (200, "ok" : bytes)
      end
  | None => (200, "ok" : bytes)
  end.

(** Files for TLS, when one of the two is given. *)
Definition tls_files (m : Main) : option (bytes * bytes) :=
  if negb (beq (TLSCertFile m) []) || negb (beq (TLSKeyFile m) []) then Some (TLSCertFile m, TLSKeyFile m) else None.

Definition newGRPCServer (m : Main) : proc unit :=
  let serverOpts := UnaryInterceptor [StatsInterceptor (StatsPrefix m); ErrorWrapper; TrillianInterceptor (QuotaDryRun m)]
    :: ExtraOptions m in
  opts ← match tls_files m with
         | Some (cert, key) =>
             _ ← checked id (NewServerTLSFromFile cert key);
             mret (serverOpts ++ [Creds cert key])
         | None => mret serverOpts
         end;
  emit (Did (NewServer opts)).

Definition defaultHealthyDeadline : Z := 5 * Second.
Definition with_deadline (m : Main) : Main :=
  if HealthyDeadline m =? 0 then
    mkMain (RPCEndpoint m) (HTTPEndpoint m) (TLSCertFile m) (TLSKeyFile m) (DBClose m) (StatsPrefix m) (QuotaDryRun m)
      (RegisterServerFn m) (IsHealthy m) defaultHealthyDeadline (AllowedTreeTypes m) (TreeGCEnabled m)
      (TreeDeleteThreshold m) (TreeDeleteMinInterval m) (ExtraOptions m)
  else m.

(** The error that is tested after [net.Listen] is in a variable that the
    goroutine of the HTTP server also assigns. *)
Definition listen (m : Main) : proc unit := λ tr,
  let err := net_Listen (RPCEndpoint m) tr in
  let tr1 := match err with None => tr ++ [Opened Listener] | Some _ => tr end in
  let seen := if beq (HTTPEndpoint m) [] then err
              else match http_stored tr1 with Some e => Some e | None => err end in
  match seen with Some e => (tr1, Failed e) | None => (tr1, Done ()) end.

(** [srv.Serve] closes the listener; its error is logged. *)
Definition Run (m0 : Main) : proc unit :=
  let m := with_deadline m0 in
  _ ← or_exit (newGRPCServer m);
  _ ← emit (Opened GrpcServer);
  defer_ (emit (Closed GrpcServer))
    (defer_ (DBClose m)
      (_ ← RegisterServerFn m;
       _ ← emit (Did (RegisteredAdminServer (AllowedTreeTypes m)));
       _ ← emit (Did RegisteredReflection);
       _ ← when_ (negb (beq (HTTPEndpoint m) []))
             (_ ← emit (Did (HandleHTTP "/metrics"));
              _ ← emit (Did (HandleHTTP "/healthz"));
              emit (Did (GoHTTP (HTTPEndpoint m) (tls_files m))));
       _ ← listen m;
       _ ← emit (Did GoAwaitSignal);
       _ ← when_ (TreeGCEnabled m) (emit (Did (GoTreeGC (TreeDeleteThreshold m) (TreeDeleteMinInterval m))));
       _ ← emit (Did Served);
       _ ← emit (Closed Listener);
       emit (Did (Slept (5 * Second))))).
End serverutil.
