(* ===== verification/LogServer.v ===== *)
(** * The log server and the log signer

    [cmd/log_server] and [cmd/log_signer]: the commands that run Trillian's
    log server and its sequencer on the storage of this repository, on their
    own or inside the service ([cmd/vct/startcmd/start.go]). *)

From S2P Require Import Prelude GoStrings Utf GoFmt GoFloat Errors Effects TreeStorage Options ServerUtil.

Open Scope Z_scope.

Section commands.
Context `{!Foreign, !UnicodeTable}.

(** ** What both commands do first *)

Definition load_flags (configFile : bytes) : proc unit :=
  when_ (negb (beq configFile []))
    (_ ← checked (λ e, EWrap ("failed to load flags from config file " ++ Quote configFile ++ ": ") e [])
           (ParseFlagFile configFile);
     emit (Did (ParsedFlags configFile))).

Definition import_schema (storageSystem connStr : bytes) : proc unit :=
  when_ (beq storageSystem "postgres")
    (wrapping (λ e, EWrap ("failed to load " ++ storageSystem ++ " schema: ") e [])
       (ImportPostgres schema_SQL connStr storageSystem)).

Definition open_provider (storageSystem : bytes) : proc unit :=
  _ ← checked (wrapf "failed to get storage provider") (storage_NewProvider storageSystem);
  emit (Opened StorageProvider).
Definition close_provider : proc unit := emit (Closed StorageProvider).

(** Whether there is a client. *)
Definition open_etcd (configFile : bytes) : proc bool :=
  let servers := etcd_Servers configFile in
  if beq servers [] then mret false
  else
    _ ← checked (λ e, EWrap (("failed to connect to etcd at " : bytes) ++ servers ++ ": ") e [])
          (clientv3_New (Split servers ","));
    _ ← emit (Opened EtcdClient);
    mret true.
Definition close_etcd (client : bool) : proc unit := when_ client (emit (Closed EtcdClient)).

Definition new_quota (quotaSystem : bytes) : proc unit :=
  checked (wrapf "error creating quota manager") (quota_NewManager quotaSystem).

(** ** The log server *)

Record LogServerCMD := mkLogServerCMD {
  ls_RPCEndpoint : bytes;
  ls_HTTPEndpoint : bytes;
  ls_HealthzTimeout : Z;
  ls_TLSCertFile : bytes;
  ls_TLSKeyFile : bytes;
  ls_ETCDService : bytes;
  ls_ETCDHTTPService : bytes;
  ls_QuotaSystem : bytes;
  ls_QuotaDryRun : bool;
  ls_StorageSystem : bytes;
  ls_TreeGCEnabled : bool;
  ls_TreeDeleteThreshold : Z;
  ls_TreeDeleteMinRunInterval : Z;
  ls_Tracing : bool;
  ls_TracingProjectID : bytes;
  ls_TracingPercent : Z;
  ls_ConfigFile : bytes;
  ls_PGConnStr : bytes
}.

(** [RegisterServerFn]. *)
Definition register_log_server (s : LogServerCMD) : proc unit :=
  _ ← checked id log_IsHealthy;
  _ ← emit (Did RegisteredLogServer);
  when_ (beq (ls_QuotaSystem s) etcd_QuotaManagerName) (emit (Did RegisteredQuotaServer)).

(** [check] is [CheckDatabaseAccessible] of the admin storage. *)
Definition log_server_main (check : Z → option error) (s : LogServerCMD) (options : list ServerOption) : Main :=
  mkMain (ls_RPCEndpoint s) (ls_HTTPEndpoint s) (ls_TLSCertFile s) (ls_TLSKeyFile s) close_provider "log"
    (ls_QuotaDryRun s) (register_log_server s) (Some check) (ls_HealthzTimeout s) (Some [LOG; PREORDERED_LOG])
    (ls_TreeGCEnabled s) (ls_TreeDeleteThreshold s) (ls_TreeDeleteMinRunInterval s) options.

Definition tracing_options (s : LogServerCMD) : proc (list ServerOption) :=
  if ls_Tracing s then
    ask (wrapf "failed to initialize stackdriver / opencensus tracing")
      (EnableRPCServerTracing (ls_TracingProjectID s) (ls_TracingPercent s))
  else mret [].

Definition run_main (m : Main) : proc unit := wrapping (wrapf "server exited with error") (Run m).

Definition announce_http (client : bool) (service endpoint : bytes) : proc (proc unit) :=
  if beq endpoint [] then mret (mret ()) else AnnounceSelf client service endpoint.

Definition log_server_Start (check : Z → option error) (s : LogServerCMD) : proc unit :=
  _ ← load_flags (ls_ConfigFile s);
  _ ← emit (Did SetStartSpan);
  options ← tracing_options s;
  _ ← import_schema (ls_StorageSystem s) (ls_PGConnStr s);
  _ ← open_provider (ls_StorageSystem s);
  defer_ close_provider
    (client ← open_etcd (ls_ConfigFile s);
     defer_ (close_etcd client)
       (unannounce ← AnnounceSelf client (ls_ETCDService s) (ls_RPCEndpoint s);
        defer_ unannounce
          (unannounceHTTP ← announce_http client (ls_ETCDHTTPService s) (ls_HTTPEndpoint s);
           defer_ unannounceHTTP
             (_ ← new_quota (ls_QuotaSystem s);
              run_main (log_server_main check s options))))).

(** ** The log signer *)

Record LogSignerCMD := mkLogSignerCMD {
  sg_RPCEndpoint : bytes;
  sg_HTTPEndpoint : bytes;
  sg_HealthzTimeout : Z;
  sg_TLSCertFile : bytes;
  sg_TLSKeyFile : bytes;
  sg_SequencerIntervalFlag : Z;
  sg_ETCDHTTPService : bytes;
  sg_QuotaSystem : bytes;
  sg_BatchSizeFlag : Z;
  sg_StorageSystem : bytes;
  sg_NumSeqFlag : Z;
  sg_SequencerGuardWindowFlag : Z;
  sg_LockDir : bytes;
  sg_ForceMaster : bool;
  sg_PREElectionPause : Z;
  sg_QuotaIncreaseFactor : f64;
  sg_ConfigFile : bytes;
  sg_PGConnStr : bytes;
  sg_MasterHoldInterval : Z;
  sg_MasterHoldJitter : Z
}.

Definition instanceID : bytes := os_Hostname ++ "."%char :: FormatInt os_Getpid.
Definition electionFactory (s : LogSignerCMD) (client : bool) : result error ElectionFactory :=
  if sg_ForceMaster s then Ok NoopFactory
  else if client then Ok (EtcdFactory instanceID (sg_LockDir s))
  else Err (ENew "either --force_master or --etcd_servers must be supplied").

Definition operation_info (s : LogSignerCMD) (factory : ElectionFactory) : OperationInfo :=
  mkOperationInfo factory (sg_BatchSizeFlag s) (sg_NumSeqFlag s) (sg_SequencerIntervalFlag s) (sg_PREElectionPause s)
    (sg_MasterHoldInterval s) (sg_MasterHoldJitter s) (sg_SequencerGuardWindowFlag s) (sg_QuotaIncreaseFactor s).

Definition log_signer_main (check : Z → option error) (s : LogSignerCMD) : Main :=
  mkMain (sg_RPCEndpoint s) (sg_HTTPEndpoint s) (sg_TLSCertFile s) (sg_TLSKeyFile s) close_provider "logsigner"
    false (mret ()) (Some check) (sg_HealthzTimeout s) None false 0 0 [].

Definition log_signer_Start (check : Z → option error) (s : LogSignerCMD) : proc unit :=
  _ ← load_flags (sg_ConfigFile s);
  _ ← import_schema (sg_StorageSystem s) (sg_PGConnStr s);
  _ ← open_provider (sg_StorageSystem s);
  defer_ close_provider
    (client ← open_etcd (sg_ConfigFile s);
     defer_ (close_etcd client)
       (_ ← emit (Opened CancelContext);
        defer_ (emit (Closed CancelContext))
          (_ ← emit (Did GoAwaitSignal);
           factory ← ask id (λ _, electionFactory s client);
           _ ← new_quota (sg_QuotaSystem s);
           unannounceHTTP ← announce_http client (sg_ETCDHTTPService s) (sg_HTTPEndpoint s);
           defer_ unannounceHTTP
             (_ ← emit (Did (GoOperationLoop (operation_info s factory)));
              run_main (log_signer_main check s))))).

(** ** The programs *)

(** An error of the registration is only logged. *)
Definition register_provider (name : bytes) : proc unit := λ tr,
  match storage_RegisterProvider name tr with
  | Some _ => (tr, Done ())
  | None => (tr ++ [Did (RegisteredProvider name)], Done ())
  end.
Definition register_providers (connStr : bytes) : proc unit :=
  _ ← register_provider "mem";
  _ ← emit (Did (SetPGConnStr connStr));
  register_provider "postgres".

(** [main] with the values of the flags: an error ends the program. *)
Definition log_server_program (check : Z → option error) (flags : LogServerCMD) : proc unit :=
  _ ← register_providers (ls_PGConnStr flags);
  or_exit (log_server_Start check flags).
Definition log_signer_program (check : Z → option error) (flags : LogSignerCMD) : proc unit :=
  _ ← register_providers (sg_PGConnStr flags);
  or_exit (log_signer_Start check flags).

(** The values when no flag is given; [factor] is that of Trillian. *)
Definition log_server_defaults : LogServerCMD :=
  mkLogServerCMD "localhost:8090" "localhost:8091" (5 * Second) [] [] "trillian-logserver" "trillian-logserver-http" "mysql"
    false "mysql" true DefaultTreeDeleteThreshold DefaultTreeDeleteMinInterval false [] 0 []
    "user=postgres dbname=test sslmode=disable".
Definition log_signer_defaults (factor : f64) : LogSignerCMD :=
  mkLogSignerCMD "localhost:8090" "localhost:8091" (5 * Second) [] [] (Second / 10) "trillian-logsigner-http" "mysql" 1000
    "mysql" 10 0 "/test/multimaster" false Second factor [] "user=postgres dbname=test sslmode=disable" (60 * Second)
    (120 * Second).

(** ** Inside the service *)

Definition embeddedLogSignerHost : bytes := "0.0.0.0:8099".
Definition embedded_storage (trillianDBConnStr : bytes) : bytes * bytes :=
  if beq trillianDBConnStr [] then ("mem" : bytes, []) else ("postgres" : bytes, trillianDBConnStr).

Definition embedded_log_server (trillianDBConnStr : bytes) : LogServerCMD :=
  let '(system, conn) := embedded_storage trillianDBConnStr in
  mkLogServerCMD embeddedLogServerHost [] 0 [] [] "trillian-logserver" [] "noop" false system false
    DefaultTreeDeleteThreshold DefaultTreeDeleteMinInterval false [] 0 [] conn.
Definition embedded_log_signer (trillianDBConnStr : bytes) : LogSignerCMD :=
  let '(system, conn) := embedded_storage trillianDBConnStr in
  mkLogSignerCMD embeddedLogSignerHost [] (5 * Second) [] [] (Second / 10) [] "noop" 1000 system 10 0 [] true Second
    (FFin false 0 (-1074)) [] conn 0 0.

(** The goroutines of the service, if a log without an endpoint is
    configured; an error in one of them ends the process. *)
Definition embedded_trillian (check : Z → option error) (startTrillian : bool) (trillianDBConnStr : bytes) :
    proc (list (proc unit)) :=
  if startTrillian then
    _ ← register_providers trillianDBConnStr;
    mret [or_exit (log_server_Start check (embedded_log_server trillianDBConnStr));
          or_exit (log_signer_Start check (embedded_log_signer trillianDBConnStr))]
  else mret [].
End commands.
