(* ===== verification/LogServerFacts.v ===== *)
(** * The log server and the log signer give back what they take

    Every resource that a command opens is closed when it returns, sequencing
    runs only under an election or by force, and the commands inside the
    service start as intended. *)

From S2P Require Import Prelude GoStrings Utf GoFmt GoFloat Errors Effects TreeStorage Options ServerUtil LogServer.

Open Scope Z_scope.

(** ** Traces *)

(** What is opened is closed later. *)
Definition released (k : list event) : Prop :=
  ∀ i r, k !! i = Some (Opened r) → ∃ j, (i < j)%nat ∧ k !! j = Some (Closed r).

Lemma released_nil : released [].
Proof. intros i r [=]. Qed.
Lemma released_app k1 k2 : released k1 → released k2 → released (k1 ++ k2).
Proof.
  intros H1 H2 i r. rewrite lookup_app_Some. intros [Hi|[Hle Hi]].
  - destruct (H1 i r Hi) as (j & Hj & Hc). exists j. split; [done|]. by apply lookup_app_l_Some.
  - destruct (H2 _ r Hi) as (j & Hj & Hc). exists (length k1 + j)%nat. split; [lia|]. rewrite lookup_app_r by lia.
    by replace (length k1 + j - length k1)%nat with j by lia.
Qed.
Lemma released_quiet e : (∀ r, e ≠ Opened r) → released [e].
Proof. intros He [|i] r; cbn; [intros [= ->]; by destruct (He r)|done]. Qed.
Lemma released_around r k c : released k → c = [Closed r] ∨ (∃ c', c = Closed r :: c' ∧ released c') → released (Opened r :: k ++ c).
Proof.
  intros Hk Hc i r'. destruct i as [|i]; cbn.
  - intros [= <-]. exists (S (length k)). split; [lia|]. change ((k ++ c) !! length k = Some (Closed r)).
    rewrite lookup_app_r by lia. rewrite Nat.sub_diag. destruct Hc as [->|(c' & -> & _)]; done.
  - intros Hi. assert (released (k ++ c)) as Hkc.
    { apply released_app; [done|]. destruct Hc as [->|(c' & -> & Hc')]; [by apply released_quiet|].
      apply (released_app [Closed r]); [by apply released_quiet|done]. }
    destruct (Hkc i r' Hi) as (j & Hj & Hcl). exists (S j). split; [lia|done].
Qed.

(** ** Processes that give back *)

Definition tidy {A} (m : proc A) : Prop :=
  ∀ tr tr' o, m tr = (tr', o) → o ≠ Exited → ∃ k, tr' = tr ++ k ∧ released k.

Create HintDb tidy.

Lemma tidy_ret {A} (a : A) : tidy (mret a).
Proof. intros tr tr' o [= <- <-] _. exists []. split; [by rewrite app_nil_r|apply released_nil]. Qed.
Lemma tidy_bind {A B} (m : proc A) (k : A → proc B) : tidy m → (∀ a, tidy (k a)) → tidy (m ≫= k).
Proof.
  intros Hm Hk tr tr' o. unfold mbind, proc_bind. destruct (m tr) as [tr1 [a|e|]] eqn:E; intros E2 Ho; [| |by simplify_eq].
  - destruct (Hm _ _ _ E ltac:(done)) as (k1 & -> & H1). destruct (Hk a _ _ _ E2 Ho) as (k2 & -> & H2).
    exists (k1 ++ k2). by rewrite (assoc_L (++)); split; [|apply released_app].
  - simplify_eq. by apply (Hm _ _ _ E).
Qed.
Lemma tidy_emit e : (∀ r, e ≠ Opened r) → tidy (emit e).
Proof. intros He tr tr' o [= <- <-] _. exists [e]. split; [done|by apply released_quiet]. Qed.
Lemma tidy_checked wrap f : tidy (checked wrap f).
Proof.
  intros tr tr' o. unfold checked. destruct (f tr); intros [= <- <-] _; exists []; (split; [by rewrite app_nil_r|apply released_nil]).
Qed.
Lemma tidy_ask {A} wrap (f : list event → result error A) : tidy (ask wrap f).
Proof.
  intros tr tr' o. unfold ask. destruct (f tr); intros [= <- <-] _; exists []; (split; [by rewrite app_nil_r|apply released_nil]).
Qed.
Lemma tidy_wrapping {A} wrap (m : proc A) : tidy m → tidy (wrapping wrap m).
Proof.
  intros Hm tr tr' o. unfold wrapping. destruct (m tr) as [tr1 [a|e|]] eqn:E; intros [= <- <-] Ho; by apply (Hm _ _ _ E).
Qed.
Lemma tidy_or_exit {A} (m : proc A) : tidy m → tidy (or_exit m).
Proof.
  intros Hm tr tr' o. unfold or_exit. destruct (m tr) as [tr1 [a|e|]] eqn:E; intros [= <- <-] Ho; try done. by apply (Hm _ _ _ E).
Qed.
Lemma tidy_when b m : tidy m → tidy (when_ b m).
Proof. intros Hm. destruct b; [done|apply tidy_ret]. Qed.
Lemma tidy_defer {A} (c : proc unit) (m : proc A) : tidy c → tidy m → tidy (defer_ c m).
Proof.
  intros Hc Hm tr tr' o. unfold defer_. destruct (m tr) as [tr1 o1] eqn:E. intros E2 Ho.
  assert (o1 ≠ Exited) as Ho1 by (intros ->; by simplify_eq).
  destruct (Hm _ _ _ E Ho1) as (k1 & -> & H1).
  assert (∃ o2, c (tr ++ k1) = (tr', o2) ∧ o2 ≠ Exited) as (o2 & Ec & Ho2).
  { destruct o1; [..|done]; destruct (c (tr ++ k1)) as [tr2 []]; simplify_eq; eauto. }
  destruct (Hc _ _ _ Ec Ho2) as (k2 & -> & H2). exists (k1 ++ k2). by rewrite (assoc_L (++)); split; [|apply released_app].
Qed.

(** Cleaning up: it closes the resource, and is tidy for the rest. *)
Definition gives_back (r : resource) (c : proc unit) : Prop :=
  ∀ tr, ∃ c', c tr = (tr ++ Closed r :: c', Done ()) ∧ released c'.
Lemma gives_back_emit r : gives_back r (emit (Closed r)).
Proof. intros tr. exists []. split; [done|apply released_nil]. Qed.

Lemma tidy_open_defer {A} r (c : proc unit) (m : proc A) :
  gives_back r c → tidy m → tidy (_ ← emit (Opened r); defer_ c m).
Proof.
  intros Hc Hm tr tr' o. unfold mbind, proc_bind, emit, defer_. destruct (m (tr ++ [Opened r])) as [tr1 o1] eqn:E. intros E2 Ho.
  assert (o1 ≠ Exited) as Ho1 by (intros ->; by simplify_eq).
  destruct (Hm _ _ _ E Ho1) as (k1 & -> & H1). destruct (Hc ((tr ++ [Opened r]) ++ k1)) as (c' & Ec & Hc').
  assert (tr' = ((tr ++ [Opened r]) ++ k1) ++ Closed r :: c') as -> by (rewrite Ec in E2; destruct o1; by simplify_eq).
  exists (Opened r :: k1 ++ Closed r :: c'). split; [by rewrite <-!(assoc_L (++))|].
  apply released_around; [done|]. right. eauto.
Qed.
#[export] Hint Resolve tidy_ret tidy_bind tidy_emit tidy_checked tidy_ask tidy_wrapping tidy_or_exit tidy_when tidy_defer
  tidy_open_defer gives_back_emit : tidy.
#[export] Hint Extern 1 (∀ _, _ ≠ Opened _) => discriminate : tidy.

Lemma proc_assoc {A B C} (m : proc A) (k : A → proc B) (h : B → proc C) tr :
  ((m ≫= k) ≫= h) tr = (m ≫= λ a, k a ≫= h) tr.
Proof. unfold mbind, proc_bind. by destruct (m tr) as [tr1 [a|e|]]. Qed.
Lemma tidy_assoc {A B C} (m : proc A) (k : A → proc B) (h : B → proc C) :
  tidy (m ≫= λ a, k a ≫= h) → tidy ((m ≫= k) ≫= h).
Proof. intros Hm tr tr' o. rewrite proc_assoc. apply Hm. Qed.
Lemma tidy_ret_bind {A B} (a : A) (k : A → proc B) : tidy (k a) → tidy (mret a ≫= k).
Proof. done. Qed.

Section commands.
Context `{!Foreign, !UnicodeTable}.

Lemma tidy_exec query : tidy (exec_schema query).
Proof.
  intros tr tr' o. unfold exec_schema. destruct (db_Exec query tr) as [e|]; [destruct (benign e)|];
    intros [= <- <-] _; exists []; (split; [by rewrite app_nil_r|apply released_nil]).
Qed.
#[local] Hint Resolve tidy_exec : tidy.

Lemma tidy_import_schema system conn : tidy (import_schema system conn).
Proof.
  apply tidy_when, tidy_wrapping. unfold ImportPostgres. apply tidy_bind; [apply tidy_checked|intros _].
  apply tidy_open_defer; auto with tidy.
Qed.
Lemma tidy_load_flags file : tidy (load_flags file).
Proof. unfold load_flags. auto with tidy. Qed.

Lemma tidy_with_provider {A} system (body : proc A) :
  tidy body → tidy (_ ← open_provider system; defer_ close_provider body).
Proof.
  intros Hb. apply tidy_assoc, tidy_bind; [apply tidy_checked|intros _]. apply tidy_open_defer; [apply gives_back_emit|done].
Qed.
Lemma tidy_with_etcd {A} file (body : bool → proc A) :
  (∀ c, tidy (body c)) → tidy (client ← open_etcd file; defer_ (close_etcd client) (body client)).
Proof.
  intros Hb. unfold open_etcd. destruct (beq (etcd_Servers file) []).
  - apply tidy_ret_bind, tidy_defer; [apply tidy_ret|done].
  - apply tidy_assoc, tidy_bind; [apply tidy_checked|intros _]. apply tidy_assoc.
    apply (tidy_open_defer EtcdClient (close_etcd true)); [apply gives_back_emit|done].
Qed.
Lemma tidy_with_announcement {A} client service endpoint (body : proc A) :
  tidy body → tidy (unannounce ← AnnounceSelf client service endpoint; defer_ unannounce body).
Proof.
  intros Hb. unfold AnnounceSelf. destruct client; [cbn [negb]|apply tidy_ret_bind, tidy_defer; [apply tidy_ret|done]].
  apply tidy_assoc, tidy_bind; [auto with tidy|intros lease].
  apply tidy_assoc, tidy_bind; [auto with tidy|intros _].
  apply tidy_assoc, tidy_bind; [auto with tidy|intros _]. apply tidy_assoc.
  apply (tidy_open_defer _ (_ ← emit (Closed (Announcement (service ++ "/"%char :: endpoint))); emit (Did (Revoked lease)))); [|done].
  intros tr. exists [Did (Revoked lease)]. split; [unfold mbind, proc_bind, emit; by rewrite <-(assoc_L (++))|].
  by apply released_quiet.
Qed.
Lemma tidy_with_http {A} client service endpoint (body : proc A) :
  tidy body → tidy (unannounce ← announce_http client service endpoint; defer_ unannounce body).
Proof.
  intros Hb. unfold announce_http. destruct (beq endpoint []); [|by apply tidy_with_announcement].
  apply tidy_ret_bind, tidy_defer; [apply tidy_ret|done].
Qed.

(** The HTTP server does not interfere with the listener. *)
Definition undisturbed (m : Main) : Prop := HTTPEndpoint m = [] ∨ ∀ tr, http_stored tr = None.

(** What is done once the process listens. *)
Definition serving (m : Main) : list event :=
  Did GoAwaitSignal ::
  (if TreeGCEnabled m then [Did (GoTreeGC (TreeDeleteThreshold m) (TreeDeleteMinInterval m))] else []) ++ [Did Served].

Lemma tidy_serve m :
  undisturbed m →
  tidy (_ ← listen m;
        _ ← emit (Did GoAwaitSignal);
        _ ← when_ (TreeGCEnabled m) (emit (Did (GoTreeGC (TreeDeleteThreshold m) (TreeDeleteMinInterval m))));
        _ ← emit (Did Served);
        _ ← emit (Closed Listener);
        emit (Did (Slept (5 * Second)))).
Proof.
  intros Hu tr tr' o. unfold mbind, proc_bind. unfold listen.
  assert (∀ tr1 err, (if beq (HTTPEndpoint m) [] then err
    else match http_stored tr1 with Some e => Some e | None => err end) = err) as Hseen.
  { intros tr1 err. destruct Hu as [->|Hu]; [done|]. rewrite Hu. by destruct (beq _ _). }
  rewrite Hseen. destruct (net_Listen (RPCEndpoint m) tr) as [e|].
  { intros [= <- <-] _. exists []. split; [by rewrite app_nil_r|apply released_nil]. }
  intros E _. exists (Opened Listener :: serving m ++ [Closed Listener; Did (Slept (5 * Second))]). split.
  - unfold serving. destruct (TreeGCEnabled m); cbn in E; injection E as <- _; by rewrite <-!(assoc_L (++)).
  - apply released_around; [|right; exists [Did (Slept (5 * Second))]; split; [done|by apply released_quiet]].
    unfold serving. apply (released_app [_]); [by apply released_quiet|].
    apply released_app; [|by apply released_quiet]. destruct (TreeGCEnabled m); [by apply released_quiet|apply released_nil].
Qed.

Lemma tidy_Run m : undisturbed m → tidy (DBClose m) → tidy (RegisterServerFn m) → tidy (Run m).
Proof.
  intros Hu Hc Hr. unfold Run. assert (HTTPEndpoint (with_deadline m) = HTTPEndpoint m ∧ DBClose (with_deadline m) = DBClose m ∧
    RegisterServerFn (with_deadline m) = RegisterServerFn m) as (Eh & Ec & Er)
    by (unfold with_deadline; by destruct (HealthyDeadline m =? 0)).
  set (m' := with_deadline m) in *. assert (undisturbed m') as Hu' by (unfold undisturbed; by rewrite Eh).
  apply tidy_bind; [|intros _].
  { unfold newGRPCServer. destruct (tls_files m') as [[cert key]|]; auto 10 with tidy. }
  apply tidy_open_defer; [apply gives_back_emit|]. apply tidy_defer; [by rewrite Ec|]. rewrite Er.
  apply tidy_bind; [done|intros _]. apply tidy_bind; [auto with tidy|intros _]. apply tidy_bind; [auto with tidy|intros _].
  apply tidy_bind; [auto 10 with tidy|intros _]. by apply tidy_serve.
Qed.


(** ** Who sequences *)

(** The new events of a process satisfy [P]. *)
Definition emits {A} (P : event → Prop) (m : proc A) : Prop :=
  ∀ tr tr' o, m tr = (tr', o) → ∃ k, tr' = tr ++ k ∧ Forall P k.
Lemma emits_ret {A} P (a : A) : emits P (mret a).
Proof. intros tr tr' o [= <- <-]. exists []. split; [by rewrite app_nil_r|constructor]. Qed.
Lemma emits_bind {A B} P (m : proc A) (k : A → proc B) : emits P m → (∀ a, emits P (k a)) → emits P (m ≫= k).
Proof.
  intros Hm Hk tr tr' o. unfold mbind, proc_bind. destruct (m tr) as [tr1 o1] eqn:E. destruct (Hm _ _ _ E) as (k1 & -> & H1).
  destruct o1 as [a|e|]; intros E2; [|simplify_eq; by exists k1..].
  destruct (Hk a _ _ _ E2) as (k2 & -> & H2). exists (k1 ++ k2). rewrite (assoc_L (++)), Forall_app. done.
Qed.
Lemma emits_emit (P : event → Prop) e : P e → emits P (emit e).
Proof. intros He tr tr' o [= <- <-]. exists [e]. split; [done|by constructor]. Qed.
Lemma emits_pure {A} P (f : list event → ending A) : emits P (λ tr, (tr, f tr)).
Proof. intros tr tr' o [= <- <-]. exists []. split; [by rewrite app_nil_r|constructor]. Qed.
Lemma emits_checked P wrap f : emits P (checked wrap f).
Proof. intros tr tr' o. unfold checked. destruct (f tr); intros [= <- <-]; exists []; (split; [by rewrite app_nil_r|constructor]). Qed.
Lemma emits_ask {A} P wrap (f : list event → result error A) : emits P (ask wrap f).
Proof. intros tr tr' o. unfold ask. destruct (f tr); intros [= <- <-]; exists []; (split; [by rewrite app_nil_r|constructor]). Qed.
Lemma emits_wrapping {A} P wrap (m : proc A) : emits P m → emits P (wrapping wrap m).
Proof.
  intros Hm tr tr' o. unfold wrapping. destruct (m tr) as [tr1 [a|e|]] eqn:E; intros [= <- <-]; by apply (Hm _ _ _ E).
Qed.
Lemma emits_or_exit {A} P (m : proc A) : emits P m → emits P (or_exit m).
Proof.
  intros Hm tr tr' o. unfold or_exit. destruct (m tr) as [tr1 [a|e|]] eqn:E; intros [= <- <-]; by apply (Hm _ _ _ E).
Qed.
Lemma emits_when P b m : emits P m → emits P (when_ b m).
Proof. intros Hm. destruct b; [done|apply emits_ret]. Qed.
Lemma emits_defer {A} P (c : proc unit) (m : proc A) : emits P c → emits P m → emits P (defer_ c m).
Proof.
  intros Hc Hm tr tr' o. unfold defer_. destruct (m tr) as [tr1 o1] eqn:E. destruct (Hm _ _ _ E) as (k1 & -> & H1).
  destruct (c (tr ++ k1)) as [tr2 o2] eqn:Ec. destruct (Hc _ _ _ Ec) as (k2 & -> & H2).
  assert (∃ k, (tr ++ k1) ++ k2 = tr ++ k ∧ Forall P k) as Hboth.
  { exists (k1 ++ k2). rewrite (assoc_L (++)), Forall_app. done. }
  destruct o1; [..|intros [= <- <-]; by exists k1]; destruct o2; intros [= <- <-]; exact Hboth.
Qed.

(** An event that starts no sequencing. *)
Definition quiet (e : event) : Prop := match e with Did (GoOperationLoop _) => False | _ => True end.
Lemma emits_exec query : emits quiet (exec_schema query).
Proof.
  intros tr tr' o. unfold exec_schema. destruct (db_Exec query tr) as [e|]; [destruct (benign e)|];
    intros [= <- <-]; exists []; (split; [by rewrite app_nil_r|constructor]).
Qed.
Lemma emits_listen m : emits quiet (listen m).
Proof.
  intros tr tr' o. unfold listen. destruct (net_Listen _ _) as [e|]; repeat case_match; intros; simplify_eq;
    first [exists []; split; [by rewrite app_nil_r|constructor]|exists [Opened Listener]; by repeat constructor].
Qed.

Create HintDb emits.
#[local] Hint Resolve emits_ret emits_bind emits_emit emits_checked emits_ask emits_wrapping emits_or_exit emits_when emits_defer
  emits_exec emits_listen I : emits.
#[local] Hint Extern 1 (quiet _) => exact I : emits.

Lemma emits_weaken {A} (P Q : event → Prop) (m : proc A) : (∀ e, P e → Q e) → emits P m → emits Q m.
Proof. intros HPQ Hm tr tr' o E. destruct (Hm _ _ _ E) as (k & -> & Hk). exists k. split; [done|]. by eapply Forall_impl. Qed.
Lemma quiet_Run m : emits quiet (DBClose m) → emits quiet (RegisterServerFn m) → emits quiet (Run m).
Proof.
  intros Hc Hr. unfold Run. assert (DBClose (with_deadline m) = DBClose m ∧ RegisterServerFn (with_deadline m) = RegisterServerFn m)
    as [Ec Er] by (unfold with_deadline; by destruct (HealthyDeadline m =? 0)).
  set (m' := with_deadline m) in *. apply emits_bind; [|intros _].
  { unfold newGRPCServer. destruct (tls_files m') as [[cert key]|]; auto 10 with emits. }
  apply emits_bind; [auto with emits|intros _]. apply emits_defer; [auto with emits|]. apply emits_defer; [by rewrite Ec|].
  rewrite Er. apply emits_bind; [done|intros _]. auto 30 with emits.
Qed.
Lemma quiet_announce client service endpoint :
  ∀ tr tr' o, announce_http client service endpoint tr = (tr', o) →
    (∃ k, tr' = tr ++ k ∧ Forall quiet k) ∧ ∀ c, o = Done c → emits quiet c.
Proof.
  intros tr tr' o. unfold announce_http. destruct (beq endpoint []).
  { intros [= <- <-]. split; [exists []; split; [by rewrite app_nil_r|constructor]|]. intros c [= <-]. apply emits_ret. }
  unfold AnnounceSelf. destruct client; cbn [negb].
  2:{ intros [= <- <-]. split; [exists []; split; [by rewrite app_nil_r|constructor]|]. intros c [= <-]. apply emits_ret. }
  unfold mbind, proc_bind, or_exit, ask, checked, emit. destruct (etcd_Grant 30 tr) as [lease|e].
  - destruct (etcd_NewManager _ _); intros [= <- <-]; cbn.
    + split; [exists [Did (KeepAlive lease)]; by repeat constructor|done].
    + rewrite <-(assoc_L (++)). split; [eexists; split; [done|by repeat constructor]|]. intros c [= <-].
      apply (emits_bind quiet (emit _) (λ _, emit _)); auto with emits.
  - intros [= <- <-]. split; [exists []; split; [by rewrite app_nil_r|constructor]|done].
Qed.

(** The sequencing that a signer may start. *)
Definition elected (g : LogSignerCMD) (e : event) : Prop :=
  match e with
  | Did (GoOperationLoop info) =>
      ∃ factory, electionFactory g (negb (beq (etcd_Servers (sg_ConfigFile g)) [])) = Ok factory ∧ info = operation_info g factory
  | _ => True
  end.
Lemma quiet_elected g e : quiet e → elected g e.
Proof. by destruct e as [| |[]]. Qed.

Lemma emits_with_http {A} P client service endpoint (body : proc A) :
  (∀ e, quiet e → P e) → emits P body → emits P (un ← announce_http client service endpoint; defer_ un body).
Proof.
  intros HP Hb tr tr' o. unfold mbind, proc_bind. destruct (announce_http client service endpoint tr) as [tr1 o1] eqn:E.
  destruct (quiet_announce _ _ _ _ _ _ E) as [(k1 & -> & H1) Hc].
  apply (Forall_impl _ P) in H1; [|exact HP]. destruct o1 as [c|e|]; intros E2; [|simplify_eq; by exists k1..].
  destruct (emits_defer P c body) with (1 := emits_weaken _ _ _ HP (Hc c eq_refl)) (2 := Hb) (3 := E2) as (k2 & -> & H2).
  exists (k1 ++ k2). rewrite (assoc_L (++)), Forall_app. done.
Qed.

Lemma signer_elected check g : emits (elected g) (log_signer_Start check g).
Proof.
  assert (∀ A (m : proc A), emits quiet m → emits (elected g) m) as Hq by (intros A m; apply emits_weaken, quiet_elected).
  unfold log_signer_Start. apply emits_bind; [apply Hq; unfold load_flags; auto with emits|intros _].
  apply emits_bind; [apply Hq; unfold import_schema, ImportPostgres; auto 10 with emits|intros _].
  apply emits_bind; [apply Hq; unfold open_provider; auto with emits|intros _].
  apply emits_defer; [apply Hq; unfold close_provider; auto with emits|].
  assert (∀ client, client = negb (beq (etcd_Servers (sg_ConfigFile g)) []) → emits (elected g)
    (defer_ (close_etcd client)
       (_ ← emit (Opened CancelContext);
        defer_ (emit (Closed CancelContext))
          (_ ← emit (Did GoAwaitSignal);
           factory ← ask id (λ _, electionFactory g client);
           _ ← new_quota (sg_QuotaSystem g);
           unannounceHTTP ← announce_http client (sg_ETCDHTTPService g) (sg_HTTPEndpoint g);
           defer_ unannounceHTTP
             (_ ← emit (Did (GoOperationLoop (operation_info g factory)));
              run_main (log_signer_main check g)))))) as Hrest.
  { intros client Hcl. apply emits_defer; [apply Hq; unfold close_etcd; auto with emits|].
    apply emits_bind; [auto with emits|intros _]. apply emits_defer; [auto with emits|].
    apply emits_bind; [auto with emits|intros _]. unfold ask. intros tr tr' o. unfold mbind at 1, proc_bind at 1.
    destruct (electionFactory g client) as [factory|e] eqn:Ef.
    - apply emits_bind; [apply emits_checked|intros _]. apply emits_with_http; [apply quiet_elected|].
      apply emits_bind; [|intros _].
      + apply emits_emit. exists factory. by rewrite <-Hcl.
      + apply Hq, emits_wrapping, quiet_Run; [by apply emits_emit|apply emits_ret].
    - intros [= <- <-]. exists []. split; [by rewrite app_nil_r|constructor]. }
  unfold open_etcd. destruct (beq (etcd_Servers (sg_ConfigFile g)) []) eqn:Ee; [by apply Hrest|].
  intros tr tr' o. rewrite proc_assoc. apply emits_bind; [apply emits_checked|intros _]. clear tr tr' o.
  intros tr tr' o. rewrite proc_assoc. apply emits_bind; [auto with emits|intros _]. by apply Hrest.
Qed.

(** A signer sequences only as the master.  The loop that integrates
    leaves is started with the configured batch size, workers and interval,
    and only if mastership is forced, or there are etcd servers with which
    the instance takes part in the election. *)
Theorem signer_needs_election check g tr o info :
  log_signer_Start check g [] = (tr, o) → Did (GoOperationLoop info) ∈ tr →
  (sg_ForceMaster g = true ∧ info = operation_info g NoopFactory) ∨
  (sg_ForceMaster g = false ∧ etcd_Servers (sg_ConfigFile g) ≠ [] ∧ info = operation_info g (EtcdFactory instanceID (sg_LockDir g))).
Proof.
  intros E Hin. destruct (signer_elected check g _ _ _ E) as (k & -> & Hk). rewrite Forall_forall in Hk.
  destruct (Hk _ Hin) as (factory & Hf & ->). unfold electionFactory in Hf. destruct (sg_ForceMaster g); [left; by simplify_eq|].
  right. destruct (beq (etcd_Servers (sg_ConfigFile g)) []) eqn:Eb; cbn in Hf; [done|]. simplify_eq. split_and!; [done| |done].
  intros He. by rewrite He in Eb.
Qed.

(** ** The HTTP server and the listener *)

(** When the HTTP server fails while the process starts to listen, [Run] may
    take its error for that of the listener, which then stays open. *)
Lemma http_failure_leaks_listener m tr e :
  HTTPEndpoint m ≠ [] → net_Listen (RPCEndpoint m) tr = None → http_stored (tr ++ [Opened Listener]) = Some e →
  listen m tr = (tr ++ [Opened Listener], Failed e).
Proof.
  intros Hh Hl Hs. unfold listen. rewrite Hl, Hs. destruct (beq (HTTPEndpoint m) []) eqn:E; [|done].
  unfold beq in E. apply bool_decide_eq_true in E. done.
Qed.

(** ** Inside the service *)

(** Nothing fails, no etcd is configured, and the quota system of etcd is
    another than the one inside the service. *)
Record all_well : Prop := {
  well_open system conn tr : sql_Open system conn tr = None;
  well_exec query tr : db_Exec query tr = None;
  well_provider system tr : storage_NewProvider system tr = None;
  well_etcd : etcd_Servers [] = [];
  well_name : etcd_QuotaManagerName ≠ "noop";
  well_quota system tr : quota_NewManager system tr = None;
  well_health tr : log_IsHealthy tr = None;
  well_listen endpoint tr : net_Listen endpoint tr = None
}.

Definition imported (conn : bytes) : list event :=
  if beq conn [] then [] else [Opened ImportConn; Did (Executed schema_SQL); Closed ImportConn].
Definition new_server (prefix : bytes) : event :=
  Did (NewServer [UnaryInterceptor [StatsInterceptor prefix; ErrorWrapper; TrillianInterceptor false]]).
(** From listening to the end. *)
Definition rpc_events : list event :=
  [Did RegisteredReflection; Opened Listener; Did GoAwaitSignal; Did Served; Closed Listener; Did (Slept (5 * Second));
   Closed StorageProvider; Closed GrpcServer].

Definition server_trace (conn : bytes) : list event :=
  (Did SetStartSpan :: imported conn) ++
  [Opened StorageProvider; new_server "log"; Opened GrpcServer; Did RegisteredLogServer;
   Did (RegisteredAdminServer (Some [LOG; PREORDERED_LOG]))] ++ rpc_events ++ [Closed StorageProvider].
Definition signer_trace (conn : bytes) : list event :=
  imported conn ++
  [Opened StorageProvider; Opened CancelContext; Did GoAwaitSignal;
   Did (GoOperationLoop (mkOperationInfo NoopFactory 1000 10 (Second / 10) Second 0 0 0 (FFin false 0 (-1074))));
   new_server "logsigner"; Opened GrpcServer; Did (RegisteredAdminServer None)] ++
  rpc_events ++ [Closed CancelContext; Closed StorageProvider].

Lemma import_embedded conn tr :
  all_well → let '(system, c) := embedded_storage conn in
  import_schema system c tr = (tr ++ imported conn, Done ()).
Proof.
  intros Hw. unfold embedded_storage, imported. destruct (beq conn []) eqn:E; [by rewrite app_nil_r|].
  unfold import_schema. replace (beq _ _) with true by (by vm_compute). unfold when_, wrapping, ImportPostgres, mbind, proc_bind, checked.
  rewrite (well_open Hw). unfold emit, defer_, mbind, proc_bind, exec_schema. rewrite (well_exec Hw). by rewrite <-!(assoc_L (++)).
Qed.

Lemma bind_done {A B} (m : proc A) (k : A → proc B) tr tr' a : m tr = (tr', Done a) → (m ≫= k) tr = k a tr'.
Proof. intros E. unfold mbind, proc_bind. by rewrite E. Qed.
Lemma defer_done {A} (c : proc unit) (m : proc A) tr tr1 tr2 a :
  m tr = (tr1, Done a) → c tr1 = (tr2, Done ()) → defer_ c m tr = (tr2, Done a).
Proof. intros E Ec. unfold defer_. by rewrite E, Ec. Qed.
Lemma emit_done e tr : emit e tr = (tr ++ [e], Done ()).
Proof. done. Qed.
Lemma when_false m tr : when_ false m tr = (tr, Done ()).
Proof. done. Qed.
Lemma flags_unset tr : load_flags [] tr = (tr, Done ()).
Proof. done. Qed.
Lemma provider_done system tr : all_well → open_provider system tr = (tr ++ [Opened StorageProvider], Done ()).
Proof. intros Hw. unfold open_provider, mbind, proc_bind, checked. by rewrite (well_provider Hw). Qed.
Lemma etcd_unset tr : all_well → open_etcd [] tr = (tr, Done false).
Proof. intros Hw. unfold open_etcd. by rewrite (well_etcd Hw). Qed.
Lemma quota_done system tr : all_well → new_quota system tr = (tr, Done ()).
Proof. intros Hw. unfold new_quota, checked. by rewrite (well_quota Hw). Qed.

Lemma listen_done m tr : all_well → HTTPEndpoint m = [] → listen m tr = (tr ++ [Opened Listener], Done ()).
Proof. intros Hw Hh. unfold listen. by rewrite (well_listen Hw), Hh. Qed.
Lemma wrapping_done {A} wrap (m : proc A) tr tr' a : m tr = (tr', Done a) → wrapping wrap m tr = (tr', Done a).
Proof. intros E. unfold wrapping. by rewrite E. Qed.

(** A server without TLS, HTTP and garbage collection. *)
Lemma run_done m tr k :
  all_well → HTTPEndpoint m = [] → tls_files m = None → TreeGCEnabled m = false → ExtraOptions m = [] → QuotaDryRun m = false →
  DBClose m = close_provider → (∀ tr, RegisterServerFn m tr = (tr ++ k, Done ())) →
  run_main m tr = (tr ++ [new_server (StatsPrefix m); Opened GrpcServer] ++ k ++
    Did (RegisteredAdminServer (AllowedTreeTypes m)) :: rpc_events, Done ()).
Proof.
  intros Hw Hh Ht Hg Hx Hq Hc Hr.
  assert (∀ m', m' = with_deadline m → HTTPEndpoint m' = [] ∧ tls_files m' = None ∧ TreeGCEnabled m' = false ∧
    ExtraOptions m' = [] ∧ QuotaDryRun m' = false ∧ DBClose m' = close_provider ∧ RegisterServerFn m' = RegisterServerFn m ∧
    StatsPrefix m' = StatsPrefix m ∧ AllowedTreeTypes m' = AllowedTreeTypes m) as Hm
    by (intros m' ->; unfold with_deadline; by destruct (HealthyDeadline m =? 0)).
  apply wrapping_done. unfold Run. set (m' := with_deadline m).
  destruct (Hm m' eq_refl) as (Eh & Et & Eg & Ex & Eq & Ec & Er & Es & Ea). clear Hm.
  rewrite (bind_done _ _ _ (tr ++ [new_server (StatsPrefix m)]) ());
    [|unfold newGRPCServer; by rewrite Et, Ex, Eq, Es].
  rewrite (bind_done _ _ _ _ _ (emit_done _ _)), Ec, Er, Eh, Eg, Ea. eapply eq_trans.
  - eapply defer_done; [eapply defer_done; [|apply emit_done]|apply emit_done].
    rewrite (bind_done _ _ _ _ _ (Hr _)), (bind_done _ _ _ _ _ (emit_done _ _)), (bind_done _ _ _ _ _ (emit_done _ _)).
    change (negb (beq [] [])) with false. rewrite (bind_done _ _ _ _ _ (when_false _ _)). erewrite bind_done; [|by apply listen_done].
    rewrite (bind_done _ _ _ _ _ (emit_done _ _)), (bind_done _ _ _ _ _ (when_false _ _)).
    rewrite (bind_done _ _ _ _ _ (emit_done _ _)), (bind_done _ _ _ _ _ (emit_done _ _)). apply emit_done.
  - unfold rpc_events. by rewrite <-!(assoc_L (++)).
Qed.

(** C29: Inside the service, when nothing fails, the log server imports the
    schema exactly when it runs on Postgres, opens the storage, registers its
    services and serves until it is stopped; the signer in addition starts
    the sequencing loop as a forced master.  Neither registers an HTTP
    handler, and both end with everything closed, the storage twice. *)
Theorem embedded_commands check conn :
  all_well →
  log_server_Start check (embedded_log_server conn) [] = (server_trace conn, Done ()) ∧
  log_signer_Start check (embedded_log_signer conn) [] = (signer_trace conn, Done ()).
Proof.
  intros Hw. pose proof (λ tr, import_embedded conn tr Hw) as Hi. unfold embedded_log_server, embedded_log_signer.
  destruct (embedded_storage conn) as [system c]. split.
  - unfold log_server_Start. rewrite (bind_done _ _ _ _ _ (flags_unset _)), (bind_done _ _ _ _ _ (emit_done _ _)).
    rewrite (bind_done _ _ _ _ [] eq_refl), (bind_done _ _ _ _ _ (Hi _)), (bind_done _ _ _ _ _ (provider_done _ _ Hw)).
    eapply eq_trans.
    + eapply defer_done; [|apply emit_done]. rewrite (bind_done _ _ _ _ _ (etcd_unset _ Hw)).
      eapply defer_done; [|done]. rewrite (bind_done _ _ _ _ (mret ()) eq_refl).
      eapply defer_done; [|done]. rewrite (bind_done _ _ _ _ (mret ()) eq_refl).
      eapply defer_done; [|done]. rewrite (bind_done _ _ _ _ _ (quota_done _ _ Hw)).
      apply (run_done _ _ [Did RegisteredLogServer]); try done. intros tr. cbn.
      unfold register_log_server, mbind, proc_bind, checked. rewrite (well_health Hw). cbn. unfold beq.
      rewrite bool_decide_eq_false_2; [done|]. intros E. by apply (well_name Hw).
    + unfold server_trace. by rewrite <-!(assoc_L (++)).
  - unfold log_signer_Start. rewrite (bind_done _ _ _ _ _ (flags_unset _)).
    rewrite (bind_done _ _ _ _ _ (Hi _)), (bind_done _ _ _ _ _ (provider_done _ _ Hw)). eapply eq_trans.
    + eapply defer_done; [|apply emit_done]. rewrite (bind_done _ _ _ _ _ (etcd_unset _ Hw)).
      eapply defer_done; [|done]. rewrite (bind_done _ _ _ _ _ (emit_done _ _)).
      eapply defer_done; [|apply emit_done]. rewrite (bind_done _ _ _ _ _ (emit_done _ _)).
      rewrite (bind_done _ _ _ _ NoopFactory eq_refl), (bind_done _ _ _ _ _ (quota_done _ _ Hw)).
      rewrite (bind_done _ _ _ _ (mret ()) eq_refl). eapply defer_done; [|done].
      rewrite (bind_done _ _ _ _ _ (emit_done _ _)). apply (run_done _ _ []); try done. intros tr. by rewrite app_nil_r.
    + unfold signer_trace. by rewrite <-!(assoc_L (++)).
Qed.
End commands.

(** ** A sample environment *)

(** Everything answers but, if [bad] is given, the quota system. *)
Definition sample_foreign (servers : bytes) (bad : option error) : Foreign := {|
  storage_RegisterProvider _ _ := None;
  ParseFlagFile _ _ := None;
  EnableRPCServerTracing _ _ _ := Ok [];
  sql_Open _ _ _ := None;
  db_Exec _ _ := None;
  storage_NewProvider _ _ := None;
  etcd_Servers _ := servers;
  clientv3_New _ _ := None;
  etcd_Grant _ tr := Ok (Z.of_nat (length tr));
  etcd_NewManager _ _ := None;
  etcd_QuotaManagerName := "etcd";
  quota_NewManager _ _ := bad;
  log_IsHealthy _ := None;
  NewServerTLSFromFile _ _ _ := None;
  net_Listen _ _ := None;
  http_stored _ := None;
  os_Hostname := "host";
  os_Getpid := 7;
  schema_SQL := "CREATE TABLE"
|}.
Lemma sample_well : @all_well (sample_foreign [] None).
Proof. by split. Qed.

Definition sample_server : LogServerCMD :=
  mkLogServerCMD "localhost:8090" "localhost:8091" 0 [] [] "trillian-logserver" "trillian-logserver-http" "etcd" false
    "postgres" true 1 1 false [] 0 [] "user=postgres".
Definition sample_signer (force : bool) : LogSignerCMD :=
  mkLogSignerCMD "localhost:8090" "localhost:8091" 0 [] [] 1 "trillian-logsigner-http" "etcd" 1000 "postgres" 10 0
    "/test/multimaster" force 1 (FFin false 1 0) [] "user=postgres" 0 0.

(** With etcd, when the quota manager cannot be made. *)
Definition no_quota : Foreign := sample_foreign "etcd1,etcd2" (Some (ENew "no quota")).
Definition failing_server : list event * ending unit :=
  @log_server_Start no_quota ascii_only (λ _, None) sample_server [].

Definition forced_signer : list event * ending unit :=
  @log_signer_Start (sample_foreign [] None) ascii_only (λ _, None) (sample_signer true) [].
Lemma signer_needs_election_witness :
  ∃ info, Did (GoOperationLoop info) ∈ forced_signer.1 ∧ info = operation_info (sample_signer true) NoopFactory.
Proof.
  set (info := operation_info (sample_signer true) NoopFactory).
  assert (forced_signer.1 !! 6%nat = Some (Did (GoOperationLoop info))) as Hi by (vm_compute; reflexivity).
  apply list_elem_of_lookup_2 in Hi as Hin. exists info. split; [exact Hin|].
  destruct (@signer_needs_election (sample_foreign [] None) ascii_only (λ _, None) (sample_signer true) forced_signer.1
    forced_signer.2 info) as [[_ H]|[H _]].
  - apply surjective_pairing.
  - exact Hin.
  - exact H.
  - discriminate H.
Defined.

Lemma embedded_commands_witness :
  @log_server_Start (sample_foreign [] None) ascii_only (λ _, None) (embedded_log_server []) [] =
    (@server_trace (sample_foreign [] None) [], Done ()) ∧
  @log_signer_Start (sample_foreign [] None) ascii_only (λ _, None) (embedded_log_signer "user=postgres") [] =
    (@signer_trace (sample_foreign [] None) "user=postgres", Done ()).
Proof.
  split.
  - apply (@embedded_commands (sample_foreign [] None) ascii_only (λ _, None) []). exact sample_well.
  - apply (@embedded_commands (sample_foreign [] None) ascii_only (λ _, None) "user=postgres"). exact sample_well.
Defined.
