(* ===== verification/Start.v ===== *)
(** * Starting the service

    [cmd/vct/startcmd/start.go]: bearer tokens, configuration values that are
    created once and shared, the trees behind the logs, and the composition
    of the service.  Storage, key management, gRPC and the HTTP server are
    third-party code, fields of [Services]. *)

From S2P Require Import Prelude GoStrings GoUrl Utf GoFmt Errors Effects Command Rest CertPool Options.

Open Scope Z_scope.

(** ** Authorization *)

Definition healthCheckEndpoint : bytes := "/healthcheck".
Definition addVCEndpoint : bytes := "/add-vc".
Definition webFingerEndpoint : bytes := "/.well-known/webfinger".

(** What is looked at of a request: its URI as received, query included, and
    its Authorization header. *)
Record AuthRequest := mkAuthRequest { RequestURI : bytes; Authorization : bytes }.

(** [ConstantTimeCompare] is equality. *)
Definition ValidateAuthorizationBearerToken (r : AuthRequest) (readToken writeToken : bytes) : bool :=
  if beq (RequestURI r) healthCheckEndpoint || Contains (RequestURI r) webFingerEndpoint then true
  else if Contains (RequestURI r) addVCEndpoint && beq writeToken [] then true
  else
    let token := if Contains (RequestURI r) addVCEndpoint then writeToken else readToken in
    beq token [] || beq (Authorization r) (("Bearer " : bytes) ++ token).

Definition unauthorised : Response := mkResponse 401 false ("Unauthorised." ++ [chr 10]).

Definition authorizationMiddleware {W} (readToken writeToken : bytes) (r : AuthRequest) (next : M W Response) :
    M W Response :=
  if ValidateAuthorizationBearerToken r readToken writeToken then next else mret unauthorised.

(** ** Configuration values *)

Inductive get_result := Found (src : bytes) | DataNotFound | GetFailed (e : error).

(** The configuration store, and time passing. *)
Class ConfigStore (W : Type) := {
  cfg_Get : bytes → W → W * get_result;
  cfg_Put : bytes → bytes → W → W * result error unit;
  Sleep : Z → W → W
}.

Section config.
Context {W : Type} `{!ConfigStore W, !UnicodeTable} {A : Type}.
(** [json.Marshal] and [json.Unmarshal] of the value. *)
Context (enc : A → result error bytes) (dec : bytes → result error A).

Definition about_key (what key : bytes) (e : error) : error := EWrap (what ++ " config value for " ++ Quote key ++ ": ") e [].

Definition store_value (key : bytes) (src : bytes) : M W unit := call (about_key "marshal" key) (cfg_Put key src).

(** The recursion of the code is unbounded: [fuel] bounds the number of
    rounds, and running out of it is told apart by a panic of its own. *)
Definition out_of_rounds : bytes := "out of rounds".
Fixpoint getOrInit (fuel : nat) (key : bytes) (initFn : M W A) (timeout : Z) : M W A := λ w,
  match fuel with
  | O => (w, Panic out_of_rounds)
  | S f =>
      match cfg_Get key w with
      | (w1, GetFailed e) => (w1, Fail (about_key "get" key e))
      | (w1, Found src) =>
          match cfg_Get key (Sleep timeout w1) with
          | (w2, DataNotFound) => getOrInit f key initFn timeout w2
          | (w2, GetFailed e) => (w2, Fail (about_key "get" key e))
          | (w2, Found src2) =>
              if beq src src2 then try id (dec src) w2
              else getOrInit f key initFn timeout w2
          end
      | (w1, DataNotFound) =>
          (v ← within (about_key "init" key) initFn;
           src ← try (about_key "marshal" key) (enc v);
           _ ← store_value key src;
           getOrInit f key initFn timeout) w1
      end
  end.
End config.

(** ** The services the agent is made of *)

Definition kidKey : bytes := "kid".
Definition treeLogKey : bytes := "tree-log".
Definition webKeyStoreKey : bytes := "web-key-store".

(** A key manager with what creates and signs. *)
Record Keys (W KH : Type) := mkKeys {
  k_manager : KeyManager W KH;
  k_Create : W → W * result error bytes;
  k_Sign : KH → bytes → W → W * result error (option bytes);
  k_HealthCheck : W → W * result error unit
}.
Arguments k_manager {W KH} _.
Arguments k_Create {W KH} _.
Arguments k_Sign {W KH} _.
Arguments k_HealthCheck {W KH} _.

(** The stores of one JSON-LD loader. *)
Record ldStoreProvider (CS RS : Type) := mkLdStores { ContextStore : CS; RemoteProviderStore : RS }.

Class Services (W Provider KH Conn Loader : Type) := {
  (** The storage drivers, by data source and prefix, the store "config" and
      closing. *)
  couchdb_NewProvider : bytes → bytes → W → W * result error Provider;
  mongodb_NewProvider : bytes → bytes → W → W * result error Provider;
  postgresql_NewProvider : bytes → bytes → W → W * result error Provider;
  mem_NewProvider : W → W * Provider;
  OpenConfig : Provider → W → W * result error unit;
  CloseStore : Provider → W → W * result error unit;
  Ping : Provider → W → W * result error unit;
  (** [backoff.RetryNotify] with a number of retries. *)
  RetryNotify : ∀ {A}, Z → M W A → M W A;
  (** Files, the pool of the system, PEM and X.509. *)
  ReadFile : W → bytes → result error bytes;
  SystemCertPool : W → result error x509Pool;
  pem_Decode : bytes → option bytes;
  ParseCertificate : bytes → result error (bytes * bytes);
  (** Local keys: the wrapped provider, the key manager for a master key, and
      the crypto with which its keys sign. *)
  KmsStore : Type;
  NewAriesProviderWrapper : Provider → W → W * result error KmsStore;
  localkms_New : bytes → KmsStore → W → W * result error (Keys W KH);
  tinkcrypto_New : W → W * result error (KH → bytes → W → W * result error (option bytes));
  (** Keys of a server reached with a pool of certificates, and of AWS. *)
  webkms_New : bytes → x509Pool → Keys W KH;
  CreateKeyStore : x509Pool → bytes → W → W * result error bytes;
  aws_New : kmsParameters → W → W * result error (Keys W KH);
  (** gRPC connections, the admin client and the log client. *)
  Dial : bytes → W → W * result error Conn;
  CreateTree : Conn → W → W * result error Z;
  InitLog : Conn → Z → W → W * result error unit;
  NewTrillianLogClient : Conn → TrillianLogClient W;
  CloseConn : Conn → W → W;
  (** JSON-LD stores in a provider whose store names get a prefix, the
      embedded contexts, and loaders with remote providers. *)
  CStore : Type;
  RStore : Type;
  NewContextStore : bytes * Provider → W → W * result error CStore;
  NewRemoteProviderStore : bytes * Provider → W → W * result error RStore;
  Document : Type;
  payload : result error (list (bytes * result error bytes));
  json_Document : bytes → result error Document;
  NewDocumentLoader : ldStoreProvider CStore RStore → list Document → list (bytes * x509Pool) → W →
    W * result error Loader;
  (** Values of the configuration as JSON. *)
  string_json : bytes → result error bytes;
  json_string : bytes → result error bytes;
  tree_json : Z → result error bytes;
  json_tree : bytes → result error Z
}.

Section agent.
Context {W Provider KH Conn Loader : Type}.
Context `{!Services W Provider KH Conn Loader, !ConfigStore W, !UnicodeTable, !KeyTypes, !Libraries W Loader}.
Context (fuel : nat).

Definition createKID (km : Keys W KH) (syncTimeout : Z) : M W bytes :=
  getOrInit string_json json_string fuel kidKey (call id (k_Create km)) syncTimeout.

(** A new tree, initialized. *)
Definition create_tree (conn : Conn) (timeout : Z) : M W Z :=
  id_ ← within (wrapf "create tree") (RetryNotify timeout (call id (CreateTree conn)));
  _ ← call id (InitLog conn id_);
  mret id_.
Definition createTreeAndInit (conn : Conn) (alias : bytes) (timeout syncTimeout : Z) : M W Z :=
  within (wrapf "create and init tree")
    (getOrInit tree_json json_tree fuel (treeLogKey ++ "-"%char :: alias) (create_tree conn timeout) syncTimeout).

Definition defaultMasterKeyURI : bytes := "local-lock://default/master/key/".
(** The keys are those of the key manager, signing that of the crypto. *)
Definition createLocalKMS (store : Provider) (masterKeyURI : bytes) : M W (Keys W KH) :=
  kmsStore ← call (wrapf "create Aries provider wrapper") (NewAriesProviderWrapper store);
  km ← call (wrapf "create kms") (localkms_New masterKeyURI kmsStore);
  sign ← call (wrapf "create crypto") tinkcrypto_New;
  mret (mkKeys W KH (k_manager km) (k_Create km) sign (k_HealthCheck km)).

Definition createKMSAndCrypto (o : Options) (client : x509Pool) (store : Provider) : M W (Keys W KH) :=
  match kmsType (o_kms o) with
  | kmsLocal => createLocalKMS store defaultMasterKeyURI
  | kmsWeb =>
      if Contains (kmsEndpoint (o_kms o)) "keystores" then mret (webkms_New (kmsEndpoint (o_kms o)) client)
      else
        keystoreURL ← within (wrapf "get or init")
          (getOrInit string_json json_string fuel webKeyStoreKey (call id (CreateKeyStore client (kmsEndpoint (o_kms o))))
             (o_syncTimeout o));
        mret (webkms_New (BuildKMSURL (kmsEndpoint (o_kms o)) keystoreURL) client)
  | kmsAWS => call id (aws_New (o_kms o))
  end.

(** The drivers by name; [getDBParams] has cut the scheme off. *)
Definition databaseTypeMemOption : bytes := "mem".
Definition databaseTypePostgresSQLOption : bytes := "postgres".
Definition databaseTypeCouchDBOption : bytes := "couchdb".
Definition databaseTypeMongoDBOption : bytes := "mongodb".
Definition supportedStorageProviders (driver : bytes) : option (bytes → bytes → W → W * result error Provider) :=
  if beq driver databaseTypeCouchDBOption then Some couchdb_NewProvider
  else if beq driver databaseTypeMongoDBOption then Some (λ dsn, mongodb_NewProvider (("mongodb://" : bytes) ++ dsn))
  else if beq driver databaseTypePostgresSQLOption then Some (λ dsn, postgresql_NewProvider (("postgres://" : bytes) ++ dsn))
  else if beq driver databaseTypeMemOption then Some (λ _ _ w, let '(w', p) := mem_NewProvider w in (w', Ok p))
  else None.

(** The provider is read after the last attempt. *)
Definition createStoreProvider (dbURL prefix : bytes) (timeout : Z) : M W Provider :=
  '(driver, dsn) ← try id (getDBParams dbURL);
  match supportedStorageProviders driver with
  | None => fail (ENew (("unsupported storage driver: " : bytes) ++ driver))
  | Some providerFunc => RetryNotify timeout (call id (providerFunc dsn prefix))
  end.

(** One connection for each endpoint. *)
Definition connect (conns : gmap bytes Conn) (endpoint : bytes) : M W (Conn * gmap bytes Conn) :=
  match conns !! endpoint with
  | Some conn => mret (conn, conns)
  | None =>
      conn ← call (wrapf "grpc dial") (Dial endpoint);
      mret (conn, <[endpoint := conn]> conns)
  end.

Fixpoint connect_logs (o : Options) (conns : gmap bytes Conn) (ls : list LogConfig) :
    M W (list (Log W) * gmap bytes Conn) :=
  match ls with
  | [] => mret ([], conns)
  | l :: rest =>
      '(conn, conns1) ← connect conns (lc_Endpoint l);
      id_ ← within (wrapf "create tree") (createTreeAndInit conn (lc_Alias l) (o_timeout o) (o_syncTimeout o));
      '(logs, conns2) ← connect_logs o conns1 rest;
      let issuers := elements (lc_Issuers l) in
      mret (mkLog W id_ (lc_Alias l) (lc_Permission l) (lc_Endpoint l)
              (if bool_decide (issuers = []) then None else Some issuers) (NewTrillianLogClient conn) :: logs, conns2)
  end.

(** [tlsutil.GetCertPool] with the files as they are. *)
Definition cert_pool (useSystem : bool) (caCerts : list bytes) : M W x509Pool := λ w,
  match GetCertPool (ReadFile w) pem_Decode ParseCertificate (SystemCertPool w) (SystemCertPool w) useSystem caCerts with
  | Some (Ok pool) => (w, Return pool)
  | Some (Err e) => (w, Fail e)
  | None => (w, Panic "runtime error: invalid memory address or nil pointer dereference")
  end.

(** The embedded contexts, by file; any error ends the program. *)
Fixpoint read_contexts (files : list (bytes * result error bytes)) : result error (list Document) :=
  match files with
  | [] => Ok []
  | (_, content) :: rest => c ← content; d ← json_Document c; ds ← read_contexts rest; Ok (d :: ds)
  end.
Definition GetAll : result error (list Document) := files ← payload; read_contexts files.
Definition MustGetAll : M W (list Document) :=
  match GetAll with Ok docs => mret docs | Err e => panic (Error e) end.

Definition createLDStoreProvider (provider : bytes * Provider) : M W (ldStoreProvider CStore RStore) :=
  contextStore ← call (wrapf "create JSON-LD context store") (NewContextStore provider);
  remoteProviderStore ← call (wrapf "create remote provider store") (NewRemoteProviderStore provider);
  mret (mkLdStores CStore RStore contextStore remoteProviderStore).

Definition createJSONLDDocumentLoader (ldStore : ldStoreProvider CStore RStore) (client : x509Pool)
    (providerURLs : list bytes) : M W Loader :=
  docs ← MustGetAll;
  call (wrapf "new document loader") (NewDocumentLoader ldStore docs ((λ u, (u, client)) <$> providerURLs)).

(** The JSON-LD loader of each log; its stores carry the alias with hyphens
    as underscores. *)
Fixpoint make_loaders (o : Options) (client : x509Pool) (store : Provider) (aliases : list bytes) (acc : gmap bytes Loader) :
    M W (gmap bytes Loader) :=
  match aliases with
  | [] => mret acc
  | alias :: rest =>
      let prefix := ReplaceAllByte alias "-" "_" in
      ldStore ← within (wrapf "create ld store provider") (createLDStoreProvider (prefix, store));
      loader ← within (wrapf "create document loader") (createJSONLDDocumentLoader ldStore client (o_contextProviders o));
      make_loaders o client store rest (<[alias := loader]> acc)
  end.

(** What the HTTP server is started with: its routes, the prefixes of the
    JSON-LD operations, the tokens that guard them, and the certificate. *)
Record Server := mkServer {
  sv_host : bytes;
  sv_command : Cmd W Loader;
  sv_operation : Operation W;
  sv_contexts : list bytes;
  sv_guard : option (bytes * bytes);
  sv_cert : bytes * bytes
}.

Definition guard_of (o : Options) : option (bytes * bytes) :=
  if negb (beq (o_readToken o) []) || negb (beq (o_writeToken o) []) then Some (o_readToken o, o_writeToken o) else None.

(** A deferred call that runs however the body ends. *)
Definition deferred {A} (cleanup : W → W) (m : M W A) : M W A := λ w,
  let '(w', o) := m w in (cleanup w', o).

(** Everything up to [ListenAndServe], whose result is that of the service;
    [logs] are the configured logs in the order the map is ranged over. *)
Definition startAgent (o : Options) (logs : list LogConfig) (ListenAndServe : Server → M W unit) : M W unit :=
  store ← within (wrapf "create store provider") (createStoreProvider (o_datasource o) (o_prefix o) (o_timeout o));
  deferred (λ w, (CloseStore store w).1)
    (_ ← call (wrapf "open store") (OpenConfig store);
     client ← within (wrapf "get cert pool") (cert_pool (tls_systemCertPool (o_tls o)) (tls_caCerts (o_tls o)));
     km ← within (wrapf "create kms and crypto") (createKMSAndCrypto o client store);
     keyID ← (if beq (logSignActiveKeyID (o_kms o)) []
              then within (wrapf "create kid") (createKID km (o_syncTimeout o))
              else mret (logSignActiveKeyID (o_kms o)));
     '(connected, conns) ← connect_logs o ∅ logs;
     deferred (λ w, foldr (λ kv w, CloseConn kv.2 w) w (map_to_list conns))
       (loaders ← make_loaders o client store (Alias <$> connected) ∅;
        c ← within (wrapf "create command instance")
          (Command.New (mkConfig W Loader KH (k_manager km) (k_Sign km) connected loaders keyID (o_baseURL o)));
        let op := mkOperation W (commands_of c) (Some (Ping store)) (Some (k_HealthCheck km)) in
        ListenAndServe (mkServer (o_host o) c op ((λ a, "/"%char :: a ++ "/v1") <$> (Alias <$> connected))
          (guard_of o) (serveCertPath (o_tls o), serveKeyPath (o_tls o))))).

(** The start command: the options are read and the agent is started.
    [range] is the order in which the map of logs is ranged over; the log
    server and signer that may run beside are processes of their own. *)
Definition createStartCMD (cmd : Cmdline) (range : gmap bytes LogConfig → list LogConfig) (ListenAndServe : Server → M W unit) :
    M W unit :=
  match read_options cmd with
  | None => panic "index out of range"
  | Some (Err e) => fail e
  | Some (Ok o) => startAgent o (range (o_logs o)) ListenAndServe
  end.

(** [HTTPServer.ListenAndServe]: TLS if both files are given. *)
Definition HTTPServer_ListenAndServe (ListenAndServeTLS : bytes → bytes → bytes → Server → M W unit)
    (ListenAndServe : bytes → Server → M W unit) (sv : Server) : M W unit :=
  let '(certFile, keyFile) := sv_cert sv in
  if negb (beq certFile []) && negb (beq keyFile []) then ListenAndServeTLS (sv_host sv) certFile keyFile sv
  else ListenAndServe (sv_host sv) sv.

(** A request at a route of the server. *)
Definition serve (sv : Server) (handler : Request → M W Response) (auth : AuthRequest) (r : Request) : M W Response :=
  match sv_guard sv with
  | Some (readToken, writeToken) => authorizationMiddleware readToken writeToken auth (handler r)
  | None => handler r
  end.
End agent.
