(* ===== verification/Router.v ===== *)
(** * Routing requests to handlers

    How [startAgent] of [cmd/vct/startcmd/start.go] registers the handlers
    with two routers, and that a request reaches exactly the handler of its
    path and method.  The router is gorilla/mux, the class [Mux], of which the
    documented behaviour is used ([MuxLaws]). *)

From S2P Require Import Prelude GoStrings GoFmt Errors Effects Models Command Samples Rest RestFacts Options Start.

Open Scope Z_scope.

(** A request as the server gets it. *)
Record Call := mkCall {
  c_method : method; c_path : bytes; c_query : bytes; c_body : result error (option bytes); c_auth : bytes
}.
Definition c_URI (c : Call) : bytes := if beq (c_query c) [] then c_path c else c_path c ++ "?"%char :: c_query c.
Definition auth_of (c : Call) : AuthRequest := mkAuthRequest (c_URI c) (c_auth c).

Section router.
Context {W : Type}.

(** A path template, a method and a handler. *)
Definition Route : Type := bytes * method * (Request → M W Response).
(** What [router.Use] adds around the handler that is found. *)
Definition Middleware : Type := AuthRequest → M W Response → M W Response.

(** What a handler reads of a request with the variables of its template. *)
Definition request_of (vars : list (bytes * bytes)) (c : Call) : Request :=
  mkRequest (default [] (snd <$> List.find (λ kv, beq kv.1 "alias") vars)) (c_query c) (c_body c).

(** The variables of a template at a path that it matches, and the router. *)
Class Mux := {
  template_vars : bytes → bytes → option (list (bytes * bytes));
  mux_ServeHTTP : list Route → Middleware → Call → M W Response
}.

(** A path that [path.Clean] leaves alone; others are redirected. *)
Definition plain_segment (s : bytes) : Prop := s ≠ [] ∧ s ≠ ("." : bytes) ∧ s ≠ (".." : bytes).
Definition is_clean (path : bytes) : Prop := ∃ ss, Split path "/" = [] :: ss ∧ ss ≠ [] ∧ Forall plain_segment ss.

(** Variables match one segment of a path; routes are tried in order, and
    the first with the path and the method handles the request, behind the
    middleware; a path without a route is not found, and the middleware is
    not asked. *)
Class MuxLaws `{!Mux} : Prop := {
  mux_plain template path :
    "{"%char ∉ template → template_vars template path = if beq template path then Some [] else None;
  mux_alias rest path vars :
    "{"%char ∉ rest →
    template_vars (AliasPath ++ "/"%char :: rest) path = Some vars ↔
    ∃ a, a ≠ [] ∧ "/"%char ∉ a ∧ path = "/"%char :: a ++ "/"%char :: rest ∧ vars = [("alias" : bytes, a)];
  mux_first routes template m h rest mw c vars :
    is_clean (c_path c) → template_vars template (c_path c) = Some vars → c_method c = m →
    Forall (λ r, template_vars r.1.1 (c_path c) = None ∨ r.1.2 ≠ m) routes →
    mux_ServeHTTP (routes ++ (template, m, h) :: rest) mw c = mw (auth_of c) (h (request_of vars c));
  mux_none routes mw c :
    is_clean (c_path c) → Forall (λ r, template_vars r.1.1 (c_path c) = None) routes →
    mux_ServeHTTP routes mw c = mret (mkResponse 404 false ("404 page not found" ++ [chr 10]))
}.

(** ** Registration *)

Definition MetricsPath : bytes := "/metrics".

Context `{!GrpcStatus, !UnicodeTable, !BuildInfo W}.

(** All handlers; [metrics] is that of Prometheus. *)
Definition all_handlers (op : Operation W) (metrics : Request → M W Response) : list Route :=
  GetRESTHandlers op ++ [(MetricsPath, GET, metrics)].

(** The loop over them, with two routers. *)
Definition is_metrics (r : Route) : bool := beq r.1.1 MetricsPath.
Definition metrics_routes (op : Operation W) (metrics : Request → M W Response) : list Route :=
  List.filter is_metrics (all_handlers op metrics).
(** The JSON-LD operations of the logs come after, under their prefixes. *)
Definition api_routes (op : Operation W) (metrics : Request → M W Response) (ld : bytes → list Route) (prefixes : list bytes) :
    list Route :=
  List.filter (λ r, negb (is_metrics r)) (all_handlers op metrics) ++ (prefixes ≫= ld).

Definition use_guard (guard : option (bytes * bytes)) : Middleware := λ r next,
  match guard with
  | Some (readToken, writeToken) => authorizationMiddleware readToken writeToken r next
  | None => next
  end.

Context {Loader : Type}.
(** The service that [startAgent] starts. *)
Definition service `{!Mux} (metrics : Request → M W Response) (ld : bytes → list Route) (sv : Server (W := W) (Loader := Loader)) :
    Call → M W Response :=
  mux_ServeHTTP (api_routes (sv_operation sv) metrics ld (sv_contexts sv)) (use_guard (sv_guard sv)).
Definition metrics_service `{!Mux} (metrics : Request → M W Response) (sv : Server (W := W) (Loader := Loader)) :
    Call → M W Response :=
  mux_ServeHTTP (metrics_routes (sv_operation sv) metrics) (λ _ next, next).

(** ** Templates *)

(** An alias that is one plain segment. *)
Definition segment (a : bytes) : Prop := plain_segment a ∧ "/"%char ∉ a.

Lemma slash_split a x a' x' :
  "/"%char ∉ a → "/"%char ∉ a' → a ++ "/"%char :: x = a' ++ "/"%char :: x' → a = a' ∧ x = x'.
Proof.
  revert a'. induction a as [|c a IH]; intros [|c' a'] Ha Ha' E; cbn in E; [by injection E|..].
  - injection E as <- _. destruct Ha'. by left.
  - injection E as -> _. destruct Ha. by left.
  - injection E as -> E. apply not_elem_of_cons in Ha as [_ Ha], Ha' as [_ Ha'].
    destruct (IH a' Ha Ha' E) as [-> ->]. done.
Qed.

(** The templates of the API: with a variable and a rest, or plain. *)
Inductive shape := WithAlias (rest : bytes) | Plain (template : bytes).
#[export] Instance shape_eq_dec : EqDecision shape.
Proof. solve_decision. Defined.
Definition template_of (s : shape) : bytes :=
  match s with WithAlias rest => AliasPath ++ "/"%char :: rest | Plain t => t end.
Definition path_of (alias : bytes) (s : shape) : bytes :=
  match s with WithAlias rest => "/"%char :: alias ++ "/"%char :: rest | Plain t => t end.
Definition vars_of (alias : bytes) (s : shape) : list (bytes * bytes) :=
  match s with WithAlias _ => [("alias" : bytes, alias)] | Plain _ => [] end.

(** Plain templates that no template with a variable meets. *)
Definition apart (rest template : bytes) : Prop :=
  ∀ a, "/"%char ∉ a → template ≠ "/"%char :: a ++ "/"%char :: rest.
Definition no_brace (s : shape) : Prop := "{"%char ∉ match s with WithAlias rest => rest | Plain t => t end.
Definition disjoint (s1 s2 : shape) : Prop :=
  match s1, s2 with
  | WithAlias r1, WithAlias r2 => r1 ≠ r2
  | WithAlias r, Plain t | Plain t, WithAlias r => apart r t
  | Plain t1, Plain t2 => t1 ≠ t2
  end.

Lemma template_match `{!Mux, !MuxLaws} alias s :
  segment alias → no_brace s → template_vars (template_of s) (path_of alias s) = Some (vars_of alias s).
Proof.
  intros [[Hne _] Hs] Hb. destruct s as [rest|t]; cbn in *.
  - apply mux_alias; [done|]. by exists alias.
  - rewrite mux_plain by done. unfold beq. by rewrite bool_decide_eq_true_2.
Qed.
Lemma template_mismatch `{!Mux, !MuxLaws} alias s1 s2 :
  segment alias → no_brace s1 → disjoint s1 s2 → template_vars (template_of s1) (path_of alias s2) = None.
Proof.
  intros [[Hne _] Hs] Hb Hd. destruct s1 as [r1|t1], s2 as [r2|t2]; cbn in *.
  - destruct (template_vars _ _) eqn:E; [|done]. apply mux_alias in E as (a & _ & Ha & [= E] & _); [|done].
    by destruct (slash_split _ _ _ _ Hs Ha E).
  - destruct (template_vars _ _) eqn:E; [|done]. apply mux_alias in E as (a & _ & Ha & E & _); [|done]. by destruct (Hd a Ha).
  - rewrite mux_plain by done. unfold beq. rewrite bool_decide_eq_false_2; [done|]. by apply Hd.
  - rewrite mux_plain by done. unfold beq. by rewrite bool_decide_eq_false_2.
Qed.

(** ** The API *)

(** The templates of the handlers, in their order. *)
Definition api_shapes : list shape :=
  [WithAlias "v1/add-vc"; WithAlias "v1/get-sth"; WithAlias "v1/get-sth-consistency"; WithAlias "v1/get-proof-by-hash";
   WithAlias "v1/get-entries"; WithAlias "v1/get-issuers"; Plain WebfingerPath; WithAlias "v1/get-entry-and-proof";
   Plain HealthCheckPath].
Lemma api_templates op : (GetRESTHandlers op).*1.*1 = template_of <$> api_shapes.
Proof. reflexivity. Qed.

(** A plain template of one segment, or whose second segment is another. *)
Lemma apart_one rest t : "/"%char ∉ t → apart rest ("/"%char :: t).
Proof. intros Ht a _ [= ->]. apply Ht. apply elem_of_app. right. by left. Qed.
Lemma apart_two rest t1 t2 : "/"%char ∉ t1 → rest ≠ t2 → apart rest ("/"%char :: t1 ++ "/"%char :: t2).
Proof. intros Ht Hne a Ha [= E]. by destruct (slash_split _ _ _ _ Ht Ha E). Qed.

Definition apart_all (t : bytes) : Prop := ∀ s, s ∈ api_shapes → ∀ rest, s = WithAlias rest → apart rest t.
Lemma apart_webfinger : apart_all WebfingerPath.
Proof.
  intros s Hs rest ->. apply (apart_two rest ".well-known" "webfinger"); [by apply (bool_decide_unpack _); vm_compute|].
  intros ->. revert Hs. by apply (bool_decide_unpack _); vm_compute.
Qed.
Lemma apart_healthcheck : apart_all HealthCheckPath.
Proof. intros s Hs rest ->. apply (apart_one rest "healthcheck"). by apply (bool_decide_unpack _); vm_compute. Qed.

Lemma api_plain t : Plain t ∈ api_shapes → t = WebfingerPath ∨ t = HealthCheckPath.
Proof.
  unfold api_shapes. rewrite !elem_of_cons, elem_of_nil. intros Ht. destruct_or! Ht; try done; injection Ht; auto.
Qed.
Lemma api_no_brace s : s ∈ api_shapes → no_brace s.
Proof.
  assert (Forall no_brace api_shapes) as Hall; [|rewrite Forall_forall in Hall; apply Hall].
  unfold api_shapes. repeat (apply Forall_cons; split); [..|apply List.Forall_nil]; apply (bool_decide_unpack _); by vm_compute.
Qed.
Lemma api_disjoint s1 s2 : s1 ∈ api_shapes → s2 ∈ api_shapes → s1 ≠ s2 → disjoint s1 s2.
Proof.
  assert (∀ r t, WithAlias r ∈ api_shapes → Plain t ∈ api_shapes → apart r t) as Hap.
  { intros r t Hr [->| ->]%api_plain; [by eapply apart_webfinger|by eapply apart_healthcheck]. }
  intros H1 H2 Hne. destruct s1 as [r1|t1], s2 as [r2|t2]; cbn; [congruence|by apply Hap|by apply Hap|congruence].
Qed.

Definition is_plain (s : bytes) : bool := negb (beq s [] || beq s "." || beq s "..").
Lemma all_plain ss : forallb is_plain ss = true → Forall plain_segment ss.
Proof.
  rewrite forallb_forall, Forall_forall. intros Hp s Hs%list_elem_of_In%Hp. unfold is_plain, beq in Hs.
  repeat case_bool_decide; done.
Qed.
Lemma clean_path alias s : segment alias → s ∈ api_shapes → is_clean (path_of alias s).
Proof.
  intros [Ha Hs] Hin. destruct s as [rest|t].
  - cbn. assert (Forall plain_segment (Split rest "/")) as Hr.
    { assert (forallb (λ s, match s with WithAlias r => forallb is_plain (Split r "/") | Plain _ => true end) api_shapes = true)
        as Hall by (by vm_compute).
      rewrite forallb_forall in Hall. apply all_plain, (Hall (WithAlias rest)). by apply list_elem_of_In. }
    exists (alias :: Split rest "/"). split_and!; [|done|by constructor].
    change ("/"%char :: alias ++ "/"%char :: rest) with ([] ++ "/"%char :: (alias ++ "/"%char :: rest)).
    rewrite Split_app by apply not_elem_of_nil. by rewrite Split_app.
  - apply api_plain in Hin as [->| ->]; cbn;
      [exists [".well-known" : bytes; "webfinger" : bytes]|exists ["healthcheck" : bytes]];
      (split_and!; [by vm_compute|done|apply all_plain; by vm_compute]).
Qed.

(** The handlers that stay with the API are all but the metrics. *)
Lemma api_filter op metrics :
  List.filter (λ r, negb (is_metrics r)) (all_handlers op metrics) = GetRESTHandlers op.
Proof. reflexivity. Qed.

Context `{!Mux, !MuxLaws}.

(** Where a call goes. *)
Lemma dispatch metrics ld (sv : Server (W := W) (Loader := Loader)) alias i s template m h query body auth :
  segment alias → api_shapes !! i = Some s → GetRESTHandlers (sv_operation sv) !! i = Some (template, m, h) →
  let c := mkCall m (path_of alias s) query body auth in
  service metrics ld sv c =
    serve sv h (auth_of c) (mkRequest (match s with WithAlias _ => alias | Plain _ => [] end) query body) ∧
  metrics_service metrics sv c = mret (mkResponse 404 false ("404 page not found" ++ [chr 10])) ∧
  template ≠ MetricsPath.
Proof.
  intros Ha Hs Hh c. apply list_elem_of_lookup_2 in Hs as Hin.
  assert (template = template_of s) as ->.
  { pose proof (api_templates (sv_operation sv)) as E. apply (f_equal (.!! i)) in E. rewrite !list_lookup_fmap, Hs, Hh in E.
    by injection E. }
  assert (∀ s', s' ∈ api_shapes → s' ≠ s → template_vars (template_of s') (c_path c) = None) as Hother.
  { intros s' Hs' Hne. apply template_mismatch; [done|by apply api_no_brace|by apply api_disjoint]. }
  assert (template_of s ≠ MetricsPath ∧ path_of alias s ≠ MetricsPath) as [Ht Hp].
  { destruct s as [rest|t]; cbn.
    - split; [done|]. intros E. symmetry in E.
      refine (apart_one rest "metrics" _ alias (proj2 Ha) E). apply (bool_decide_unpack _). by vm_compute.
    - by apply api_plain in Hin as [->| ->]. }
  split_and!; [|apply mux_none; [by apply clean_path|]|done].
  - unfold service, api_routes. rewrite api_filter. rewrite <-(take_drop_middle _ _ _ Hh), <-(assoc_L (++)). cbn [app].
    rewrite (mux_first _ _ m h _ _ c (vars_of alias s)).
    + unfold use_guard, serve. destruct (sv_guard sv) as [[rt wt]|], s; reflexivity.
    + by apply clean_path.
    + by apply template_match; [|apply api_no_brace].
    + done.
    + apply Forall_forall. intros r (j & Hj)%list_elem_of_lookup_1. left.
      apply lookup_take_Some in Hj as [Hj Hlt].
      assert (template_of <$> api_shapes !! j = Some r.1.1) as Er.
      { rewrite <-list_lookup_fmap, <-(api_templates (sv_operation sv)), !list_lookup_fmap, Hj. done. }
      apply fmap_Some in Er as (s' & Hs' & ->). apply Hother; [by eapply list_elem_of_lookup_2|]. intros ->.
      assert (NoDup api_shapes) as Hnd by (apply (bool_decide_unpack _); by vm_compute).
      pose proof (NoDup_lookup _ _ _ _ Hnd Hs Hs'). lia.
  - unfold metrics_routes. change (List.filter is_metrics _) with [(MetricsPath, GET, metrics)].
    apply Forall_singleton. cbn. rewrite mux_plain by (apply (bool_decide_unpack _); by vm_compute).
    unfold beq. rewrite bool_decide_eq_false_2; [done|]. intros E. by symmetry in E.
Qed.

End router.

(** ** A sample router *)

(** Before and after the first slash. *)
Fixpoint first_slash (p : bytes) : option (bytes * bytes) :=
  match p with
  | [] => None
  | c :: r => if bool_decide (c = "/"%char) then Some ([], r) else '(a, b) ← first_slash r; Some (c :: a, b)
  end.
Lemma first_slash_Some p a r : first_slash p = Some (a, r) ↔ p = a ++ "/"%char :: r ∧ "/"%char ∉ a.
Proof.
  revert a. induction p as [|c p IH]; intros a; cbn; [split; [done|intros [E _]; by destruct a]|].
  case_bool_decide as Hc.
  - subst c. split; [intros [= <- <-]; split; [done|apply not_elem_of_nil]|].
    intros [E Ha]. destruct a as [|c a]; cbn in E; [by injection E as ->|]. injection E as <- _. destruct Ha. by left.
  - split.
    + intros ([a' b] & E & [= <- <-])%bind_Some. apply IH in E as [-> Ha]. split; [done|].
      rewrite not_elem_of_cons. split; [congruence|done].
    + intros [E Ha]. destruct a as [|c' a]; cbn in E; [injection E as -> _; done|]. injection E as <- E.
      apply not_elem_of_cons in Ha as [_ Ha]. by rewrite (proj2 (IH a) (conj E Ha)).
Qed.

(** Templates that are plain, or start with the alias. *)
Definition sample_vars (template path : bytes) : option (list (bytes * bytes)) :=
  if bool_decide ("{"%char ∈ template) then
    match strip_prefix AliasPath template, path with
    | Some (c :: rest), c' :: p =>
        match first_slash p with
        | Some (a, r) =>
            if bool_decide (c = "/"%char ∧ c' = "/"%char ∧ a ≠ [] ∧ r = rest) then Some [("alias" : bytes, a)] else None
        | None => None
        end
    | _, _ => None
    end
  else if beq template path then Some [] else None.
Fixpoint sample_mux_serve {W} (routes : list (Route (W := W))) (mw : Middleware (W := W)) (c : Call) (found : bool) : M W Response :=
  match routes with
  | [] => mret (if found then mkResponse 405 false [] else mkResponse 404 false ("404 page not found" ++ [chr 10]))
  | (template, m, h) :: rest =>
      match sample_vars template (c_path c) with
      | Some vars => if bool_decide (c_method c = m) then mw (auth_of c) (h (request_of vars c)) else sample_mux_serve rest mw c true
      | None => sample_mux_serve rest mw c found
      end
  end.
Definition sample_mux {W} : Mux (W := W) := {|
  template_vars := sample_vars;
  mux_ServeHTTP routes mw c := sample_mux_serve routes mw c false
|}.

Lemma sample_first {W} routes template m h rest (mw : Middleware (W := W)) c vars found :
  sample_vars template (c_path c) = Some vars → c_method c = m →
  Forall (λ r : Route, sample_vars r.1.1 (c_path c) = None ∨ r.1.2 ≠ m) routes →
  sample_mux_serve (routes ++ (template, m, h) :: rest) mw c found = mw (auth_of c) (h (request_of vars c)).
Proof.
  intros Hv Hm Hr. revert found. induction Hr as [|[[t' m'] h'] routes Ht _ IH]; intros found; cbn.
  - rewrite Hv. by rewrite bool_decide_eq_true_2.
  - cbn in Ht. destruct (sample_vars t' (c_path c)); [|apply IH]. destruct Ht as [|Ht]; [done|].
    rewrite bool_decide_eq_false_2 by congruence. apply IH.
Qed.
Lemma sample_mux_laws {W} : MuxLaws (W := W) (H := sample_mux).
Proof.
  split; cbn -[AliasPath].
  - intros template path Ht. unfold sample_vars. by rewrite bool_decide_eq_false_2.
  - intros rest path vars Hr. unfold sample_vars. rewrite bool_decide_eq_true_2 by (apply elem_of_app; left; by right; left).
    change (strip_prefix AliasPath (AliasPath ++ "/"%char :: rest)) with (Some ("/"%char :: rest)). destruct path as [|c p].
    { split; [done|]. by intros (a & _ & _ & [=] & _). }
    destruct (first_slash p) as [[a r]|] eqn:E.
    + apply first_slash_Some in E as [-> Ha]. case_bool_decide as Hc.
      * destruct Hc as (_ & -> & Hne & ->). split; [intros [= <-]; by exists a|].
        intros (a' & _ & Ha' & [= E] & ->). by destruct (slash_split _ _ _ _ Ha Ha' E) as [-> _].
      * split; [done|]. intros (a' & Hne & Ha' & [= -> E] & ->). by destruct (slash_split _ _ _ _ Ha Ha' E) as [-> ->]; destruct Hc.
    + split; [done|]. intros (a & Hne & Ha & [= -> ->] & ->). by rewrite (proj2 (first_slash_Some _ a rest)) in E.
  - intros. by apply sample_first.
  - intros routes mw c _ Hr. induction Hr as [|[[t m] h] routes Ht _ IH]; cbn in *; [done|]. by rewrite Ht.
Qed.

Definition sample_service_server : Server (W := sample_world) (Loader := ()) :=
  mkServer "localhost:5678" sample_cmd sample_operation ["/maple2021/v1" : bytes] (Some ("r" : bytes, "w" : bytes)) ([], []).

Definition sample_build : BuildInfo sample_world := {| time_text w := (w, "2021-01-01T00:00:00Z" : bytes); BuildVersion := "dev" |}.

