(* ===== verification/StartFacts.v ===== *)
(** * Starting the service: theorems

    Who passes the bearer-token check, how configuration values are created
    once, and what the HTTP server is started with. *)

From S2P Require Import Prelude GoStrings GoUrl Utf GoFmt Errors Effects Models Command Samples Rest Options Start.

Open Scope Z_scope.

(** ** Authorization *)

(** The request needs no token by its URI. *)
Definition open_uri (uri : bytes) : bool := beq uri healthCheckEndpoint || Contains uri webFingerEndpoint.
(** The token a request needs. *)
Definition needed (uri readToken writeToken : bytes) : bytes :=
  if Contains uri addVCEndpoint then writeToken else readToken.


(** C40: The check looks for the webfinger path anywhere in the URI, query
    included: any request passes without a token once the text is appended to
    its query. *)
Theorem query_passes_check {W} path query readToken writeToken header (next : M W Response) :
  let r := mkAuthRequest (path ++ "?" ++ query ++ webFingerEndpoint) header in
  authorizationMiddleware readToken writeToken r next = next.
Proof.
  intros r. unfold authorizationMiddleware, ValidateAuthorizationBearerToken. unfold r. cbn [RequestURI].
  rewrite (proj2 (Contains_spec _ webFingerEndpoint)); [by rewrite orb_true_r|].
  exists (path ++ "?" ++ query), []. by rewrite app_nil_r, <-!app_assoc.
Qed.

(** ** Configuration values *)

(** A store that only this service writes, and that does not fail. *)
Class StableStore (W : Type) `{!ConfigStore W} := {
  view : W → gmap bytes bytes;
  get_view key w : view (cfg_Get key w).1 = view w ∧
    (cfg_Get key w).2 = match view w !! key with Some s => Found s | None => DataNotFound end;
  put_view key s w : (cfg_Put key s w).2 = Ok () ∧ view (cfg_Put key s w).1 = <[key := s]> (view w);
  sleep_view n w : view (Sleep n w) = view w
}.

Section values.
Context {W : Type} `{!ConfigStore W, !StableStore W, !UnicodeTable} {A : Type}.
Context (enc : A → result error bytes) (dec : bytes → result error A).

(** A value that is there is read, and nothing is created. *)
Lemma getOrInit_present fuel key initFn timeout w src :
  view w !! key = Some src →
  ∃ w', getOrInit enc dec (S fuel) key initFn timeout w = try id (dec src) w' ∧ view w' = view w.
Proof.
  intros Hs. cbn. destruct (get_view key w) as [Hv Hg]. destruct (cfg_Get key w) as [w1 g1]. cbn in Hv, Hg. subst g1.
  rewrite Hs. destruct (get_view key (Sleep timeout w1)) as [Hv2 Hg2]. rewrite sleep_view, Hv in Hv2, Hg2.
  destruct (cfg_Get key (Sleep timeout w1)) as [w2 g2]. cbn in Hv2, Hg2. subst g2. rewrite Hs, beq_refl. eauto.
Qed.

(** A value that is missing is created and stored. *)
Lemma getOrInit_absent fuel key initFn timeout w v w1 src :
  view w !! key = None → initFn (cfg_Get key w).1 = (w1, Return v) → enc v = Ok src → dec src = Ok v →
  ∃ w2, getOrInit enc dec (2 + fuel) key initFn timeout w = (w2, Return v) ∧ view w2 = <[key := src]> (view w1).
Proof.
  intros Hn Hinit He Hd. destruct (get_view key w) as [Hv Hg]. destruct (put_view key src w1) as [Hp Hpv].
  destruct (getOrInit_present fuel key initFn timeout (cfg_Put key src w1).1 src) as (w2 & E2 & Hv2);
    [by rewrite Hpv, lookup_insert_eq|]. rewrite Hd in E2.
  exists w2. split; [|by rewrite Hv2].
  change (2 + fuel)%nat with (S (S fuel)). cbn [getOrInit]. destruct (cfg_Get key w) as [w0 g]. cbn in Hv, Hg. subst g.
  rewrite Hn. rewrite (bind_ret _ _ _ w1 v) by (by apply within_Return).
  rewrite He, try_ok. unfold store_value. destruct (cfg_Put key src w1) as [wp rp] eqn:Ep. cbn in Hp, E2. subst rp.
  rewrite (call_ok _ _ _ _ _ () Ep). exact E2.
Qed.

(** C22: A configuration value in a store that only this service writes is
    created exactly once.  If it is missing, it is created, stored and
    returned as stored; every later call returns the same value and creates
    nothing.  Two rounds suffice. *)
Theorem getOrInit_once fuel key initFn timeout w v w1 src :
  view w !! key = None → initFn (cfg_Get key w).1 = (w1, Return v) →
  enc v = Ok src → dec src = Ok v →
  ∃ w2, getOrInit enc dec (2 + fuel) key initFn timeout w = (w2, Return v) ∧ view w2 = <[key := src]> (view w1) ∧
    ∀ fuel' initFn' w3, view w3 !! key = Some src →
      ∃ w4, getOrInit enc dec (S fuel') key initFn' timeout w3 = (w4, Return v) ∧ view w4 = view w3.
Proof.
  intros Hn Hinit He Hd. destruct (getOrInit_absent fuel key initFn timeout w v w1 src Hn Hinit He Hd) as (w2 & E & Hv).
  exists w2. split_and!; [done|done|]. intros fuel' initFn' w3 H3.
  destruct (getOrInit_present fuel' key initFn' timeout w3 src H3) as (w4 & E4 & Hv4).
  exists w4. by rewrite E4, Hd.
Qed.
End values.

(** ** The service *)

Section agent.
Context {W Provider KH Conn Loader : Type}.
Context `{!Services W Provider KH Conn Loader, !ConfigStore W, !UnicodeTable, !KeyTypes, !Libraries W Loader}.
Context (fuel : nat).

(** A log of the service is configured as asked. *)
Definition configured (l : LogConfig) (log : Log W) : Prop :=
  Alias log = lc_Alias l ∧ Permission log = lc_Permission l ∧ Endpoint log = lc_Endpoint l ∧
  list_to_set (default [] (Issuers log)) = lc_Issuers l.

Lemma connect_logs_configured o conns ls w w' logs conns' :
  connect_logs fuel o conns ls w = (w', Return (logs, conns')) → Forall2 configured ls logs.
Proof.
  revert conns w logs conns'. induction ls as [|l ls IH]; intros conns w logs conns' E; cbn [connect_logs] in E.
  { apply ret_Return in E as [[= -> ->] ->]. constructor. }
  apply bind_Return in E as ([conn conns1] & w1 & _ & E). apply bind_Return in E as (id_ & w2 & _ & E).
  apply bind_Return in E as ([logs2 conns2] & w3 & E2 & E). apply ret_Return in E as [[= -> ->] ->].
  constructor; [|by eapply IH]. split_and!; [done..|]. cbn. case_bool_decide as Hi; cbn.
  - rewrite <-(list_to_set_elements_L (lc_Issuers l)), Hi. done.
  - apply list_to_set_elements_L.
Qed.

Lemma make_loaders_all o client store aliases acc w w' loaders :
  make_loaders o client store aliases acc w = (w', Return loaders) →
  ∀ a, is_Some (loaders !! a) ↔ a ∈ aliases ∨ is_Some (acc !! a).
Proof.
  revert acc w. induction aliases as [|x aliases IH]; intros acc w E a; cbn [make_loaders] in E.
  { apply ret_Return in E as [-> ->]. rewrite elem_of_nil. naive_solver. }
  apply bind_Return in E as (? & w1 & _ & E). apply bind_Return in E as (loader & w2 & _ & E).
  rewrite (IH _ _ E a), elem_of_cons. destruct (decide (x = a)) as [->|].
  - rewrite lookup_insert_eq. naive_solver.
  - rewrite lookup_insert_ne by done. naive_solver.
Qed.

Lemma served_lookup (ls : list LogConfig) (logs : list (Log W)) l :
  Forall2 configured ls logs → NoDup (lc_Alias <$> ls) → l ∈ ls →
  ∃ log, logs_of logs !! lc_Alias l = Some log ∧ configured l log.
Proof.
  intros Hf Hn Hl. unfold logs_of. generalize (∅ : gmap bytes (Log W)). revert Hn Hl.
  induction Hf as [|x log ls logs Hx Hf IH]; intros Hn Hl acc; [by apply not_elem_of_nil in Hl|].
  cbn in *. apply NoDup_cons in Hn as [Hi Hn]. apply elem_of_cons in Hl as [->|Hl]; [|by apply IH].
  exists log. split; [|done]. destruct Hx as (Ha & _). rewrite <-Ha in Hi |- *.
  assert (∀ acc : gmap bytes (Log W), acc !! Alias log = Some log →
    foldl (λ m log, <[Alias log := log]> m) acc logs !! Alias log = Some log) as Hkeep; [|by apply Hkeep, lookup_insert_eq].
  clear -Hf Hi. induction Hf as [|y log' ls logs Hy Hf IH]; intros acc Hacc; cbn in *; [done|].
  apply not_elem_of_cons in Hi as [Hy' Hi]. apply IH; [done|]. destruct Hy as (Ha & _).
  rewrite lookup_insert_ne by congruence. done.
Qed.

Lemma New_fields (cfg : Config W Loader KH) w w' c :
  Command.New cfg w = (w', Return c) → Command.logs c = logs_of (Logs cfg) ∧ loaders c = DocumentLoaders cfg.
Proof.
  intros E. unfold Command.New in E. apply bind_Return in E as ([pub kt] & w1 & _ & E).
  apply bind_Return in E as (? & w2 & _ & E). apply bind_Return in E as (a & w3 & _ & E).
  apply bind_Return in E as (kh & w4 & _ & E). apply bind_Return in E as (base & w5 & _ & E).
  by apply ret_Return in E as [-> _].
Qed.

Lemma deferred_Return {A} cleanup (m : M W A) w w' a :
  deferred cleanup m w = (w', Return a) → ∃ w1, m w = (w1, Return a).
Proof. unfold deferred. destruct (m w) as [w1 [b|e|p]]; intros; simplify_eq. eauto. Qed.

(** When the service ends without an error, its HTTP server ran with what was
    configured. *)
Definition serves (o : Options) (ls : list LogConfig) (sv : Server (W := W) (Loader := Loader)) : Prop :=
  sv_guard sv = guard_of o ∧ sv_host sv = o_host o ∧ sv_cert sv = (serveCertPath (o_tls o), serveKeyPath (o_tls o)) ∧
  (∀ l, l ∈ ls → ∃ log, Command.logs (sv_command sv) !! lc_Alias l = Some log ∧ configured l log) ∧
  (∀ a, is_Some (loaders (sv_command sv) !! a) ↔ a ∈ lc_Alias <$> ls) ∧
  sv_contexts sv = (λ a, "/"%char :: a ++ "/v1") <$> (lc_Alias <$> ls) ∧
  ∃ db km, sv_operation sv = mkOperation W (commands_of (sv_command sv)) db km.

Lemma serves_made o ls connected conns conns' client store km keyID lds c db health w1 w2 w3 w4 w5 w6 :
  NoDup (lc_Alias <$> ls) →
  connect_logs fuel o conns ls w1 = (w2, Return (connected, conns')) →
  make_loaders o client store (Alias <$> connected) ∅ w3 = (w4, Return lds) →
  Command.New (mkConfig W Loader KH (k_manager km) (k_Sign km) connected lds keyID (o_baseURL o)) w5 = (w6, Return c) →
  serves o ls (mkServer (o_host o) c (mkOperation W (commands_of c) db health) ((λ a, "/"%char :: a ++ "/v1") <$> (Alias <$> connected))
    (guard_of o) (serveCertPath (o_tls o), serveKeyPath (o_tls o))).
Proof.
  intros Hn Hc%connect_logs_configured Hl [Hlogs Hlds]%New_fields.
  assert (Alias <$> connected = lc_Alias <$> ls) as Hal.
  { clear -Hc. induction Hc as [|l log ls logs (Ha & _) _ IH]; cbn; [done|]. by rewrite Ha, IH. }
  split_and!; [done|done|done| | |cbn; by rewrite Hal|by eexists _, _]; cbn.
  - intros l Hin. rewrite Hlogs. by eapply served_lookup.
  - intros a. rewrite Hlds. cbn. rewrite (make_loaders_all _ _ _ _ _ _ _ _ Hl a), Hal, lookup_empty.
    split; [intros [?|[? ?]]; done|by left].
Qed.

Lemma startAgent_configuration o ls listen w w' :
  NoDup (lc_Alias <$> ls) → startAgent fuel o ls listen w = (w', Return ()) →
  ∃ sv w1 w2, listen sv w1 = (w2, Return ()) ∧ serves o ls sv.
Proof.
  intros Hn E. unfold startAgent in E. apply bind_Return in E as (store & w1 & _ & E).
  apply deferred_Return in E as (w2 & E). apply bind_Return in E as (? & w3 & _ & E).
  apply bind_Return in E as (? & w4 & _ & E). apply bind_Return in E as (km & w5 & _ & E).
  apply bind_Return in E as (keyID & w6 & _ & E). apply bind_Return in E as ([connected conns] & w7 & Hc & E).
  apply deferred_Return in E as (w8 & E). apply bind_Return in E as (lds & w9 & Hl & E).
  apply bind_Return in E as (c & w10 & Hnew & E). apply within_Return in Hnew.
  eexists _, _, _. split; [exact E|by eapply serves_made].
Qed.
End agent.

(** ** Services that do not fail *)

Section yields.
Context {W : Type} (R : W → Prop).

(** From a world with [R] the computation returns a value with [Q], and [R]
    still holds. *)
Definition yields {A} (Q : A → Prop) (m : M W A) : Prop :=
  ∀ w, R w → ∃ w' a, m w = (w', Return a) ∧ R w' ∧ Q a.

Lemma yields_ret {A} (Q : A → Prop) a : Q a → yields Q (mret a).
Proof. intros HQ w HR. by exists w, a. Qed.
Lemma yields_bind {A B} (P : A → Prop) (Q : B → Prop) m k :
  yields P m → (∀ a, P a → yields Q (k a)) → yields Q (m ≫= k).
Proof.
  intros Hm Hk w HR. destruct (Hm w HR) as (w1 & a & E & HR1 & HP). rewrite (bind_ret _ _ _ w1 a E). by apply Hk.
Qed.
Lemma yields_within {A} (Q : A → Prop) f m : yields Q m → yields Q (within f m).
Proof. intros Hm w HR. destruct (Hm w HR) as (w1 & a & E & HR1 & HQ). exists w1, a. split; [by apply within_Return|done]. Qed.
Lemma yields_try {A} (Q : A → Prop) f (r : result error A) a : r = Ok a → Q a → yields Q (try f r).
Proof. intros -> HQ w HR. by exists w, a. Qed.

(** A call that succeeds with a value with [Q]. *)
Definition answers {A} (Q : A → Prop) (f : W → W * result error A) : Prop :=
  ∀ w, R w → ∃ w' a, f w = (w', Ok a) ∧ R w' ∧ Q a.
Lemma yields_call {A} (Q : A → Prop) g f : answers Q f → yields Q (call g f).
Proof. intros Hf w HR. destruct (Hf w HR) as (w1 & a & E & HR1 & HQ). exists w1, a. split; [|done]. unfold call. by rewrite E. Qed.
End yields.


Section healthy.
Context {W Provider KH Conn Loader : Type}.
Context `{!Services W Provider KH Conn Loader, !ConfigStore W, !StableStore W, !UnicodeTable, !KeyTypes, !Libraries W Loader}.

(** The values of the configuration can be read. *)
Definition readable (w : W) : Prop := ∀ key src, view w !! key = Some src →
  (key = kidKey ∨ key = webKeyStoreKey → ∃ s, json_string src = Ok s) ∧
  (∀ alias, key = treeLogKey ++ "-"%char :: alias → ∃ n, json_tree src = Ok n).

(** The calls the agent makes for these options succeed, and none of them
    touches the configuration. *)
Definition sound {A} (Q : A → Prop) (f : W → W * result error A) : Prop :=
  ∀ w, ∃ w' a, f w = (w', Ok a) ∧ view w' = view w ∧ Q a.
Definition any {A} (_ : A) : Prop := True.
Definition sound_keys (km : Keys W KH) : Prop :=
  sound any (k_Create km) ∧ (∀ id, sound any (Get (k_manager km) id)) ∧
  ∀ id, sound (λ pk, pk.1 ≠ [] ∧ ∃ a, signatureAndHashAlgorithmByKeyType pk.2 = Ok a) (ExportPubKeyBytes (k_manager km) id).

Record healthy (o : Options) : Prop := {
  healthy_driver : ∃ driver dsn provider, getDBParams (o_datasource o) = Ok (driver, dsn) ∧
    supportedStorageProviders driver = Some provider ∧ ∀ prefix, sound any (provider dsn prefix);
  healthy_config p : sound any (OpenConfig p);
  healthy_retry A n (m : M W A) w w' a : m w = (w', Return a) → RetryNotify n m w = (w', Return a);
  healthy_certs : ∀ w, ∃ pool, cert_pool (tls_systemCertPool (o_tls o)) (tls_caCerts (o_tls o)) w = (w, Return pool);
  healthy_wrapper p : sound any (NewAriesProviderWrapper p);
  healthy_local uri s : sound sound_keys (localkms_New uri s);
  healthy_crypto : sound any tinkcrypto_New;
  healthy_web url client : sound_keys (webkms_New url client);
  healthy_keystore client url : sound any (CreateKeyStore client url);
  healthy_aws ps : sound sound_keys (aws_New ps);
  healthy_dial e : sound any (Dial e);
  healthy_tree c : sound any (CreateTree c);
  healthy_init c n : sound any (InitLog c n);
  healthy_contexts p : sound any (NewContextStore p);
  healthy_providers p : sound any (NewRemoteProviderStore p);
  healthy_documents : ∃ docs, GetAll = Ok docs;
  healthy_loader st docs l : sound any (NewDocumentLoader st docs l);
  healthy_string s : ∃ src, string_json s = Ok src ∧ json_string src = Ok s;
  healthy_number n : ∃ src, tree_json n = Ok src ∧ json_tree src = Ok n;
  healthy_url : ∃ u, url_Parse (o_baseURL o) = Ok u
}.

Lemma sound_answers {A} (Q : A → Prop) f : sound Q f → answers readable Q f.
Proof.
  intros Hf w HR. destruct (Hf w) as (w' & a & E & Hv & HQ). exists w', a. split_and!; [done| |done].
  unfold readable. by rewrite Hv.
Qed.
Lemma yields_sound {A} (Q : A → Prop) g f : sound Q f → yields readable Q (call g f).
Proof. intros. by apply yields_call, sound_answers. Qed.

Lemma getOrInit_yields {A} (enc : A → result error bytes) dec fuel key initFn timeout :
  (∀ v, ∃ src, enc v = Ok src ∧ dec src = Ok v) →
  (∀ w src, readable w → view w !! key = Some src → ∃ v, dec src = Ok v) →
  (∀ w w' src v, readable w → dec src = Ok v → view w' = <[key := src]> (view w) → readable w') →
  yields readable any initFn → yields readable any (getOrInit enc dec (2 + fuel) key initFn timeout).
Proof.
  intros Henc Hread Hwrite Hinit w HR. destruct (view w !! key) as [src|] eqn:Hk.
  - destruct (Hread w src HR Hk) as [v Hv].
    destruct (getOrInit_present enc dec (S fuel) key initFn timeout w src Hk) as (w' & E & Hw).
    exists w', v. rewrite Hv in E. split_and!; [exact E|unfold readable; by rewrite Hw|done].
  - destruct (get_view key w) as [Hg _]. destruct (Hinit (cfg_Get key w).1) as (w1 & v & Ei & HR1 & _).
    { unfold readable. by rewrite Hg. }
    destruct (Henc v) as (src & He & Hd).
    destruct (getOrInit_absent enc dec fuel key initFn timeout w v w1 src Hk Ei He Hd) as (w2 & E & Hv2).
    exists w2, v. split_and!; [exact E|by eapply Hwrite|done].
Qed.

Lemma getOrInit_string fuel key initFn timeout o :
  healthy o → key = kidKey ∨ key = webKeyStoreKey → yields readable any initFn →
  yields readable any (getOrInit string_json json_string (2 + fuel) key initFn timeout).
Proof.
  intros Ho Hkey. apply getOrInit_yields; [apply (healthy_string o Ho)|intros w src HR Hs; by apply (HR key src Hs)|].
  intros w w' src v HR Hv Hw k s. rewrite Hw.
  intros [[<- <-]|[_ Hs]]%lookup_insert_Some; [|by apply HR]. split; [by exists v|].
  intros alias ->. destruct Hkey as [Hk|Hk]; by discriminate Hk.
Qed.

Lemma getOrInit_tree fuel alias initFn timeout o :
  healthy o → yields readable any initFn →
  yields readable any (getOrInit tree_json json_tree (2 + fuel) (treeLogKey ++ "-"%char :: alias) initFn timeout).
Proof.
  intros Ho. apply getOrInit_yields; [apply (healthy_number o Ho)|intros w src HR Hs; by eapply (HR _ src Hs)|].
  intros w w' src v HR Hv Hw k s. rewrite Hw.
  intros [[<- <-]|[_ Hs]]%lookup_insert_Some; [|by apply HR].
  split; [by intros [[=]|[=]]|]. intros ? _. by exists v.
Qed.

Lemma connect_logs_yields fuel o ls : healthy o → ∀ conns,
  yields readable any (connect_logs (2 + fuel) o conns ls).
Proof.
  intros Ho. induction ls as [|l ls IH]; intros conns; cbn [connect_logs]; [by apply yields_ret|].
  apply (yields_bind _ any).
  { unfold connect. destruct (conns !! lc_Endpoint l); [by apply yields_ret|].
    apply (yields_bind _ any); [apply yields_sound, (healthy_dial o Ho)|intros; by apply yields_ret]. }
  intros [conn conns1] _. apply (yields_bind _ any).
  { apply yields_within. unfold createTreeAndInit. apply yields_within, (getOrInit_tree _ _ _ _ o Ho).
    apply (yields_bind _ any).
    - apply yields_within. intros w HR.
      destruct (yields_sound any id _ (healthy_tree o Ho conn) w HR) as (w' & a & E & HR' & _).
      exists w', a. split; [by apply (healthy_retry o Ho)|done].
    - intros id_ _. apply (yields_bind _ any); [apply yields_sound, (healthy_init o Ho)|intros; by apply yields_ret]. }
  intros id_ _. apply (yields_bind _ any); [apply IH|]. intros [logs conns2] _. by apply yields_ret.
Qed.

Lemma make_loaders_yields o client store aliases : healthy o → ∀ acc,
  yields readable any (make_loaders o client store aliases acc).
Proof.
  intros Ho. induction aliases as [|a aliases IH]; intros acc; cbn [make_loaders]; [by apply yields_ret|].
  apply (yields_bind _ any); [apply yields_within|intros st _].
  { apply (yields_bind _ any); [apply yields_sound, (healthy_contexts o Ho)|intros cs _].
    apply (yields_bind _ any); [apply yields_sound, (healthy_providers o Ho)|intros; by apply yields_ret]. }
  apply (yields_bind _ any); [apply yields_within|intros; apply IH].
  destruct (healthy_documents o Ho) as [docs Hd]. unfold createJSONLDDocumentLoader, MustGetAll. rewrite Hd.
  apply (yields_bind _ any); [by apply yields_ret|intros ds _]. apply yields_sound, (healthy_loader o Ho).
Qed.

Lemma createLocalKMS_yields o store uri : healthy o → yields readable sound_keys (createLocalKMS store uri).
Proof.
  intros Ho. apply (yields_bind _ any); [apply yields_sound, (healthy_wrapper o Ho)|intros s _].
  eapply yields_bind; [apply yields_sound, (healthy_local o Ho)|intros km Hkm].
  apply (yields_bind _ any); [apply yields_sound, (healthy_crypto o Ho)|intros; by apply yields_ret].
Qed.

Lemma cert_pool_yields o : healthy o →
  yields readable any (cert_pool (tls_systemCertPool (o_tls o)) (tls_caCerts (o_tls o))).
Proof. intros Ho w HR. destruct (healthy_certs o Ho w) as [pool E]. by exists w, pool. Qed.

Lemma createKMSAndCrypto_yields fuel o client store : healthy o →
  yields readable sound_keys (createKMSAndCrypto (2 + fuel) o client store).
Proof.
  intros Ho. unfold createKMSAndCrypto. destruct (kmsType (o_kms o)).
  - by apply (createLocalKMS_yields o).
  - destruct (Contains _ _); [apply yields_ret, (healthy_web o Ho)|].
    apply (yields_bind _ any); [|intros; apply yields_ret, (healthy_web o Ho)].
    apply yields_within, (getOrInit_string _ _ _ _ o Ho); [by right|]. apply yields_sound, (healthy_keystore o Ho).
  - apply yields_sound, (healthy_aws o Ho).
Qed.

Lemma createStoreProvider_yields o : healthy o →
  yields readable any (createStoreProvider (o_datasource o) (o_prefix o) (o_timeout o)).
Proof.
  intros Ho. destruct (healthy_driver o Ho) as (driver & dsn & provider & Hdb & Hs & Hp). unfold createStoreProvider.
  apply (yields_bind _ (λ p, p = (driver, dsn))); [by eapply yields_try|]. intros ? ->. rewrite Hs.
  intros w HR. destruct (yields_sound any id _ (Hp (o_prefix o)) w HR) as (w' & a & E & HR' & _).
  exists w', a. split; [by apply (healthy_retry o Ho)|done].
Qed.

Lemma New_yields o km connected lds keyID : healthy o → sound_keys km →
  yields readable any (Command.New (mkConfig W Loader KH (k_manager km) (k_Sign km) connected lds keyID (o_baseURL o))).
Proof.
  intros Ho (_ & Hget & Hexport). destruct (healthy_url o Ho) as [u Hu]. unfold Command.New.
  eapply yields_bind; [apply yields_sound, Hexport|]. intros [pub kt] [Hpub [a Ha]]. cbn in Hpub, Ha.
  apply (yields_bind _ any); [rewrite bool_decide_eq_false_2 by done; by apply yields_ret|intros _ _].
  apply (yields_bind _ any); [by eapply yields_try|intros ? _].
  apply (yields_bind _ any); [apply yields_sound, Hget|intros kh _].
  apply (yields_bind _ any); [by eapply yields_try|intros ? _]. by apply yields_ret.
Qed.

Lemma outcome_bind {A B} (Q : A → Prop) (m : M W A) (k : A → M W B) (P : outcome B → Prop) w :
  yields readable Q m → readable w →
  (∀ w' a, m w = (w', Return a) → readable w' → Q a → P ((k a w').2)) → P (((m ≫= k) w).2).
Proof. intros Hm HR Hk. destruct (Hm w HR) as (w' & a & E & HR' & HQ). rewrite (bind_ret _ _ _ w' a E). by apply Hk. Qed.
Lemma outcome_deferred {A} cleanup (m : M W A) w : (deferred cleanup m w).2 = (m w).2.
Proof. unfold deferred. by destruct (m w). Qed.

(** If the services answer and the stored configuration can be read, the
    service starts: the HTTP server is run, its outcome is that of the service,
    and it is run with what was configured. *)
Lemma startAgent_serves fuel o ls listen w :
  healthy o → NoDup (lc_Alias <$> ls) → readable w →
  ∃ sv w1, (startAgent (2 + fuel) o ls listen w).2 = (listen sv w1).2 ∧ serves o ls sv.
Proof.
  intros Ho Hn HR. set (P := λ out, ∃ sv w1, out = (listen sv w1).2 ∧ serves o ls sv). change (P (startAgent (2 + fuel) o ls listen w).2).
  unfold startAgent. eapply outcome_bind; [by apply yields_within, createStoreProvider_yields|done|].
  intros w1 store _ HR1 _. rewrite outcome_deferred.
  eapply outcome_bind; [apply yields_sound, (healthy_config o Ho)|done|]. intros w2 _ _ HR2 _.
  eapply outcome_bind; [by apply yields_within, cert_pool_yields|done|]. intros w3 client _ HR3 _.
  eapply outcome_bind; [by apply yields_within, createKMSAndCrypto_yields|done|]. intros w4 km _ HR4 Hkm.
  eapply (outcome_bind any); [|done|].
  { destruct (beq _ _); [|by apply yields_ret]. apply yields_within, (getOrInit_string _ _ _ _ o Ho); [by left|].
    apply yields_sound, Hkm. }
  intros w5 keyID _ HR5 _. eapply outcome_bind; [by apply connect_logs_yields|done|].
  intros w6 [connected conns] Hc HR6 _. rewrite outcome_deferred.
  eapply outcome_bind; [by apply make_loaders_yields|done|]. intros w7 lds Hl HR7 _.
  eapply outcome_bind; [by apply yields_within, New_yields|done|]. intros w8 c Hnew%within_Return HR8 _.
  eexists _, _. split; [reflexivity|by eapply serves_made].
Qed.
End healthy.

(** ** Sample services: the configuration in memory, everything else answers *)

Definition config_world : Type := gmap bytes bytes.
Definition memory_config : ConfigStore config_world := {|
  cfg_Get key w := (w, match w !! key with Some s => Found s | None => DataNotFound end);
  cfg_Put key s w := (<[key := s]> w, Ok ());
  Sleep _ w := w
|}.
Lemma memory_get key (w : config_world) :
  (@cfg_Get _ memory_config key w).1 = w ∧
  (@cfg_Get _ memory_config key w).2 = match w !! key with Some s => Found s | None => DataNotFound end.
Proof. done. Qed.
Lemma memory_put key s (w : config_world) :
  (@cfg_Put _ memory_config key s w).2 = Ok () ∧ (@cfg_Put _ memory_config key s w).1 = <[key := s]> w.
Proof. done. Qed.
Definition memory_stable : @StableStore config_world memory_config := {|
  view := id; get_view := memory_get; put_view := memory_put; sleep_view _ _ := eq_refl
|}.

(** A call that changes nothing. *)
Definition pure_ok {A} (a : A) (w : config_world) : config_world * result error A := (w, Ok a).
Definition silent_client : TrillianLogClient config_world :=
  mkClient _ (λ _ w, (w, Err (ENew "silent"))) (λ _ w, (w, Err (ENew "silent"))) (λ _ w, (w, Err (ENew "silent")))
    (λ _ w, (w, Err (ENew "silent"))) (λ _ w, (w, Err (ENew "silent"))) (λ _ w, (w, Err (ENew "silent"))).
Definition memory_keys : Keys config_world () :=
  mkKeys _ _ (mkKMS _ _ (λ _, pure_ok ("public key" : bytes, "ECDSAP256DER" : bytes)) (λ _, pure_ok ()))
    (pure_ok ("key1" : bytes)) (λ _ data, pure_ok (Some data)) (pure_ok ()).
(** Strings are stored as they are, tree numbers in unary. *)
Definition memory_services : Services config_world () () () () := {|
  couchdb_NewProvider _ _ w := (w, Err (ENew "unreachable")); mongodb_NewProvider _ _ w := (w, Err (ENew "unreachable"));
  postgresql_NewProvider _ _ w := (w, Err (ENew "unreachable")); mem_NewProvider w := (w, ());
  OpenConfig _ := pure_ok (); CloseStore _ := pure_ok (); Ping _ := pure_ok ();
  RetryNotify _ _ m := m;
  ReadFile _ _ := Err (ENew "no such file"); SystemCertPool _ := Ok []; pem_Decode := Some;
  ParseCertificate raw := Ok ("CN=root" : bytes, raw);
  KmsStore := (); NewAriesProviderWrapper _ := pure_ok (); localkms_New _ _ := pure_ok memory_keys;
  tinkcrypto_New := pure_ok (λ _ data, pure_ok (Some data));
  webkms_New _ _ := memory_keys;
  CreateKeyStore _ _ := pure_ok ("/keystores/1" : bytes);
  aws_New _ := pure_ok memory_keys;
  Dial _ := pure_ok (); CreateTree _ := pure_ok 7; InitLog _ _ := pure_ok ();
  NewTrillianLogClient _ := silent_client;
  CloseConn _ w := w;
  CStore := (); RStore := (); NewContextStore _ := pure_ok (); NewRemoteProviderStore _ := pure_ok ();
  Document := bytes; payload := Ok [("security.json" : bytes, Ok ("{}" : bytes))]; json_Document := Ok;
  NewDocumentLoader _ _ _ := pure_ok ();
  string_json s := Ok s; json_string s := Ok s;
  tree_json n := Ok ((if n <? 0 then "-"%char else "+"%char) :: replicate (Z.to_nat (Z.abs n)) "1"%char);
  json_tree s :=
    match s with
    | c :: s => Ok (if Ascii.eqb c "-" then - Z.of_nat (length s) else Z.of_nat (length s))
    | [] => Err (ENew "empty")
    end
|}.
Definition memory_libraries : Libraries config_world () := {|
  ParseCredential vc _ := pure_ok (mkCredential "did:example:issuer" []);
  GetCanonicalDocument d _ := pure_ok [];
  UnmarshalBinary _ := Err (ENew "no root");
  UnixNano w := (w, 0);
  json_error_text _ _ := "bad JSON"; base64_error_text _ := "bad base64"; show_entry_and_proof _ := "reply"
|}.
Lemma memory_sound {A} (Q : A → Prop) a : Q a → @sound config_world memory_config memory_stable A Q (pure_ok a).
Proof. intros HQ w. by exists w, a. Qed.
Lemma memory_keys_sound : @sound_keys config_world () memory_config memory_stable aries_key_types memory_keys.
Proof.
  split_and!; [by apply memory_sound|intros; by apply memory_sound|intros; apply memory_sound].
  split; [done|]. by eexists.
Qed.
Lemma memory_healthy o dsn :
  getDBParams (o_datasource o) = Ok (databaseTypeMemOption, dsn) → tls_systemCertPool (o_tls o) = false → tls_caCerts (o_tls o) = [] →
  (∃ u, @url_Parse ascii_only (o_baseURL o) = Ok u) →
  @healthy config_world () () () () memory_services memory_config memory_stable ascii_only aries_key_types o.
Proof.
  intros Hd Hs Hc Hu.
  split; try (intros; by apply memory_sound); try (intros; apply memory_sound, memory_keys_sound).
  - exists databaseTypeMemOption, dsn. eexists. split_and!; [done|reflexivity|]. intros prefix. by apply memory_sound.
  - done.
  - intros w. rewrite Hs, Hc. eexists. reflexivity.
  - intros. apply memory_keys_sound.
  - eexists. reflexivity.
  - intros s. by exists s.
  - intros n. eexists. split; [reflexivity|]. cbn. rewrite length_replicate. f_equal. destruct (Z.ltb_spec n 0); cbn; lia.
  - done.
Qed.

Lemma getOrInit_once_witness :
  ∃ w2, @getOrInit config_world memory_config ascii_only bytes Ok Ok 2 kidKey (call id (pure_ok ("key1" : bytes))) 0 ∅
      = (w2, Return ("key1" : bytes)) ∧ w2 = {[kidKey := "key1" : bytes]}.
Proof.
  destruct (@getOrInit_once config_world memory_config memory_stable ascii_only bytes Ok Ok 0 kidKey
    (call id (pure_ok ("key1" : bytes))) 0 ∅ "key1" ∅ "key1") as (w2 & E & Hv & _); [reflexivity..|].
  exists w2. split; [exact E|exact Hv].
Defined.

