(* ===== verification/EndToEnd.v ===== *)
(** * From the command line to a request

    The start command reads the options, starts the agent and routes requests:
    what a client of the started service gets for a path, by what was written
    on the command line. *)

From S2P Require Import Prelude GoStrings GoUrl Utf GoFmt Errors Effects Models Command Samples Rest Options OptionsFacts Flags Start.
From S2P Require Import Router StartFacts.

Open Scope Z_scope.

(** The request has the token its URI needs, if it needs one. *)
Definition authorised (o : Options) (c : Call) : bool :=
  let token := needed (c_URI c) (o_readToken o) (o_writeToken o) in
  open_uri (c_URI c) || beq token [] || beq (c_auth c) (("Bearer " : bytes) ++ token).

Lemma middleware_cases {W} readToken writeToken r (next : M W Response) :
  authorizationMiddleware readToken writeToken r next =
    let token := needed (RequestURI r) readToken writeToken in
    if open_uri (RequestURI r) || beq token [] || beq (Authorization r) (("Bearer " : bytes) ++ token) then next
    else mret unauthorised.
Proof.
  unfold authorizationMiddleware, ValidateAuthorizationBearerToken, open_uri, needed.
  destruct (beq (RequestURI r) healthCheckEndpoint || _); [done|]. cbn [orb].
  destruct (Contains (RequestURI r) addVCEndpoint); [|done]. cbn [andb]. by destruct (beq writeToken []).
Qed.

Section end_to_end.
Context {W Provider KH Conn Loader : Type}.
Context `{!Services W Provider KH Conn Loader, !ConfigStore W, !StableStore W, !UnicodeTable, !KeyTypes, !Libraries W Loader}.
Context `{!GrpcStatus, !BuildInfo W, !Mux (W := W), !MuxLaws (W := W)}.

Lemma serve_authorised o ls sv h c r :
  serves o ls sv → serve (W := W) (Loader := Loader) sv h (auth_of c) r = if authorised o c then h r else mret unauthorised.
Proof.
  intros (Hg & _). unfold serve, guard_of in *. rewrite Hg. destruct (beq (o_readToken o) []) eqn:Er; cbn [negb orb].
  2: apply middleware_cases. destruct (beq (o_writeToken o) []) eqn:Ew; cbn [negb]; [|apply middleware_cases].
  apply beq_true in Er, Ew. unfold authorised, needed. rewrite Er, Ew. destruct (Contains _ _); by rewrite orb_true_r.
Qed.

End end_to_end.

(** ** A command line *)

Definition sample_cmdline : Cmdline :=
  with_flag "base-url" "https://vct.example.com" (with_flag "kms-type" "local" (with_flag "api-write-token" "w"
    (with_flag "logs" "maple2021:rw@server.com:9890,maple2020:r@server.com:9890" no_flags))).
Definition sample_started : Options :=
  match @read_options ascii_only sample_cmdline with
  | Some (Ok o) => o
  | _ => mkOptions [] [] ∅ false 0 0 [] [] (mkTls false [] [] []) [] false [] (mkKmsParameters kmsLocal [] [] []) [] [] []
  end.
Lemma sample_started_healthy :
  @healthy config_world () () () () memory_services memory_config memory_stable ascii_only aries_key_types sample_started.
Proof.
  apply (memory_healthy sample_started "test"); [vm_compute; reflexivity..|]. eexists. vm_compute. reflexivity.
Qed.
Definition sample_clock : BuildInfo config_world := {| time_text w := (w, "2021-01-01T00:00:00Z" : bytes); BuildVersion := "dev" |}.

